(** * Tarjuman: front end of a compiler for a small C-like language

    A shallow embedding of the four C programs of the repository

      - [lexical_analyser.c]   the tokenizer                      (module [Lexical])
      - [syntax_analyser.c]    the parser without type checks     (module [Syntax])
      - [semantic_analyser.c]  the parser with semantic checks    (module [Semantic])
      - [sematic_analyser.c]   a second parser with semantic checks (module [Sematic])

    The process-wide variables of the parsers ([toks], [ntok], [pos],
    [symtab], [nsym], [cur_scope], [error_count]) and the lines written to
    [stderr] are the fields of one record that every function takes and
    returns.  C [int] values are [Z]; array indices are [nat]; C strings are
    [string]; [strcmp (a, b) == 0] is [String.eqb a b]. *)

From Stdlib Require Import String Ascii List ZArith Lia Bool Arith.
Import ListNotations.
Open Scope string_scope.
Open Scope list_scope.

(** ** Data of the parsers *)

(** [typedef struct { char token[32]; char lexeme[256]; int line; } Tok;] *)
Record Tok : Type := mkTok {
  token  : string;
  lexeme : string;
  line   : Z
}.

(** [typedef struct { char lexeme[128]; char type[..]; char scope[64];
    int array_size; } Sym;] *)
Record Sym : Type := mkSym {
  sym_lexeme : string;
  sym_type   : string;
  sym_scope  : string;
  array_size : Z
}.

Definition MAXTOK : nat := 100 * 1000.
Definition MAXSYM : nat := 4096.

Definition TYPE_ERROR : Z := 0.
Definition TYPE_INT   : Z := 1.
Definition TYPE_CHAR  : Z := 2.

(** The global variables.  [ntok] is [length toks] and [nsym] is
    [length symtab]; [stderr] holds, oldest first, the pairs [(n, msg)] of
    the lines ["Line <n>: <msg>"] written to the error channel. *)
Record State : Type := mkState {
  toks        : list Tok;
  pos         : nat;
  symtab      : list Sym;
  cur_scope   : string;
  error_count : Z;
  stderr      : list (Z * string)
}.

Definition ntok (s : State) : nat := length (toks s).
Definition nsym (s : State) : nat := length (symtab s).

Definition set_pos (p : nat) (s : State) : State :=
  mkState (toks s) p (symtab s) (cur_scope s) (error_count s) (stderr s).

Definition set_symtab (t : list Sym) (s : State) : State :=
  mkState (toks s) (pos s) t (cur_scope s) (error_count s) (stderr s).

Definition set_cur_scope (sc : string) (s : State) : State :=
  mkState (toks s) (pos s) (symtab s) sc (error_count s) (stderr s).

Definition set_toks (l : list Tok) (s : State) : State :=
  mkState l (pos s) (symtab s) (cur_scope s) (error_count s) (stderr s).

(** The state a parser starts from once the tokens are loaded. *)
Definition init_state (l : list Tok) : State :=
  mkState l 0 [] "Global" 0%Z [].

(** [snprintf (buf, n, "%s", str)]: at most [n - 1] characters are kept. *)
Definition snprintf (n : nat) (str : string) : string :=
  substring 0 (n - 1) str.

(** [semantic_error]: one line on [stderr], one more counted error. *)
Definition semantic_error (msg : string) (ln : Z) (s : State) : State :=
  mkState (toks s) (pos s) (symtab s) (cur_scope s)
          (error_count s + 1)%Z (stderr s ++ [(ln, msg)]).

Definition is_type_token (tk : string) : bool :=
  (tk =? "VOID") || (tk =? "CHAR") || (tk =? "INT").

Definition norm_type_token (tk : string) : string :=
  if tk =? "VOID" then "Void"
  else if tk =? "CHAR" then "Char"
  else if tk =? "INT" then "Int"
  else "?".

Definition str_to_type (t : string) : Z :=
  if t =? "Int" then TYPE_INT
  else if t =? "Char" then TYPE_CHAR
  else TYPE_ERROR.

Definition const_token_type (t : Tok) : Z :=
  if token t =? "INT_CONST" then TYPE_INT
  else if token t =? "CHAR_CONST" then TYPE_CHAR
  else TYPE_ERROR.

Definition is_operator (tk : string) : bool :=
  (tk =? "PLUS") || (tk =? "MINUS") || (tk =? "STAR") || (tk =? "SLASH") ||
  (tk =? "GT") || (tk =? "LT") || (tk =? "EQ") || (tk =? "ASSIGN").

(** [atoi]: optional white space, optional sign, then the decimal digits.
    (C leaves the result undefined when it does not fit an [int]; the model
    keeps the mathematical value.) *)
Definition isspace (c : ascii) : bool :=
  let n := nat_of_ascii c in
  (n =? 32)%nat || ((9 <=? n)%nat && (n <=? 13)%nat).

Definition isdigit (c : ascii) : bool :=
  let n := nat_of_ascii c in (48 <=? n)%nat && (n <=? 57)%nat.

Fixpoint skip_spaces (str : string) : string :=
  match str with
  | String c rest => if isspace c then skip_spaces rest else str
  | EmptyString => str
  end.

Fixpoint digits_value (acc : Z) (str : string) : Z :=
  match str with
  | String c rest =>
      if isdigit c
      then digits_value (10 * acc + (Z.of_nat (nat_of_ascii c) - 48))%Z rest
      else acc
  | EmptyString => acc
  end.

Definition atoi (str : string) : Z :=
  match skip_spaces str with
  | String "-"%char rest => (- digits_value 0 rest)%Z
  | String "+"%char rest => digits_value 0 rest
  | rest => digits_value 0 rest
  end.

(** The operator [&&] of C, which leaves its right operand alone when the
    left one is false. *)
Notation "a &&& b" := (if a then b else false)
  (at level 40, left associativity).

(** [lookup_symbol]: the first symbol of that name in the current scope,
    else the first one of that name in scope ["Global"], else [NULL].
    The same code in [semantic_analyser.c] and [sematic_analyser.c]. *)
Definition lookup_symbol (name : string) (s : State) : option Sym :=
  match find (fun y => (sym_lexeme y =? name) &&& (sym_scope y =? cur_scope s))
             (symtab s) with
  | Some y => Some y
  | None =>
      find (fun y => (sym_lexeme y =? name) &&& (sym_scope y =? "Global"))
           (symtab s)
  end.

(** [apply_binary_op]: the type of [lhs op rhs]; the same code in
    [semantic_analyser.c] and [sematic_analyser.c]. *)
Definition apply_binary_op (op : string) (lhs_type rhs_type : Z) (ln : Z)
    (s : State) : Z * State :=
  if op =? "ASSIGN" then
    if (lhs_type =? TYPE_ERROR)%Z || (rhs_type =? TYPE_ERROR)%Z
    then (TYPE_ERROR, s)
    else if negb (lhs_type =? rhs_type)%Z
    then (TYPE_ERROR,
          semantic_error "Type mismatch in statement or expression." ln s)
    else (lhs_type, s)
  else if (op =? "PLUS") || (op =? "MINUS") || (op =? "STAR") || (op =? "SLASH")
  then
    if (lhs_type =? TYPE_ERROR)%Z || (rhs_type =? TYPE_ERROR)%Z
    then (TYPE_ERROR, s)
    else if negb (lhs_type =? rhs_type)%Z
    then (TYPE_ERROR,
          semantic_error "Type mismatch in statement or expression." ln s)
    else (lhs_type, s)
  else if (op =? "LT") || (op =? "GT") || (op =? "EQ") then
    if (lhs_type =? TYPE_ERROR)%Z || (rhs_type =? TYPE_ERROR)%Z
    then (TYPE_ERROR, s)
    else if negb (lhs_type =? rhs_type)%Z
    then (TYPE_ERROR,
          semantic_error "Type mismatch in statement or expression." ln s)
    else (TYPE_INT, s)
  else (TYPE_ERROR, s).

(** Functions with a loop take the number of iterations they may still
    run as [fuel] and return [None] when it is used up. *)
Definition bind {A B : Type} (m : option A) (k : A -> option B) : option B :=
  match m with
  | Some a => k a
  | None => None
  end.

Notation "x <- m ;; k" := (bind m (fun x => k))
  (at level 61, m at next level, right associativity).

(** ** The token cursor

    [LA], [consume], [match], [skip_line_tokens], [syn_error] and
    [type_specifier] are written alike in the three parsers,
    [expression_if_any] and the test of a condition alike in the two
    parsers with semantic checks; they differ in the line number of the
    token made up at the end of the stream: [0] in [semantic_analyser.c],
    [999999] in [sematic_analyser.c] and [syntax_analyser.c].  ([sematic_analyser.c]
    has the loop of [skip_line_tokens] inside [syn_error].) *)
Module Cursor.
Section Cursor.

Variable EOF_LINE : Z.

Definition eof : Tok := mkTok "EOF" "" EOF_LINE.

(** [LA]: the token at [pos], or the made-up EOF token. *)
Definition LA (s : State) : Tok :=
  if (pos s <? ntok s)%nat then nth (pos s) (toks s) eof else eof.

(** [consume]: returns the lookahead and moves past it when there is one. *)
Definition consume (s : State) : Tok * State :=
  (LA s, if (pos s <? ntok s)%nat then set_pos (S (pos s)) s else s).

(** [match (kind, out)]: [Some t] stands for the return value 1, [t] being
    the token stored through [out] when [out] is not [NULL]; [None] stands
    for the return value 0. *)
Definition match_ (kind : string) (s : State) : option Tok * State :=
  let t := LA s in
  if token t =? kind then (Some t, snd (consume s)) else (None, s).

(** [while (pos < ntok && toks[pos].line == line) pos++;]
    The loop runs at most [ntok - pos] times. *)
Fixpoint skip_line_tokens_loop (fuel : nat) (ln : Z) (s : State) : State :=
  match fuel with
  | O => s
  | S fuel' =>
      if (pos s <? ntok s)%nat && (line (nth (pos s) (toks s) eof) =? ln)%Z
      then skip_line_tokens_loop fuel' ln (set_pos (S (pos s)) s)
      else s
  end.

Definition skip_line_tokens (ln : Z) (s : State) : State :=
  skip_line_tokens_loop (ntok s - pos s) ln s.

(** [syn_error]: report at the line of the lookahead, count the error, drop
    the tokens of that line. *)
Definition syn_error (msg : string) (s : State) : State :=
  let t := LA s in
  let s := mkState (toks s) (pos s) (symtab s) (cur_scope s)
                   (error_count s + 1)%Z (stderr s ++ [(line t, msg)]) in
  skip_line_tokens (line t) s.

(** The statement [if (!match (kind, NULL)) syn_error (msg);]. *)
Definition expect (kind msg : string) (s : State) : State :=
  match match_ kind s with
  | (Some _, s') => s'
  | (None, s') => syn_error msg s'
  end.

(** [type_specifier (out)]: [Some ty] for the return value 1 with [ty]
    copied to [out], [None] for 0. *)
Definition type_specifier (s : State) : option string * State :=
  let t := LA s in
  if negb (is_type_token (token t)) then (None, s)
  else (Some (norm_type_token (token t)), snd (consume s)).

(** The [for (;;)] loop of [expression_if_any]: operator, operand, apply. *)
Fixpoint expression_loop (fuel : nat) (cur_type : Z) (s : State)
    : option (Z * State) :=
  match fuel with
  | O => None
  | S fuel' =>
      let op := LA s in
      if negb (is_operator (token op)) then Some (cur_type, s)
      else
        let s := snd (consume s) in
        let b := LA s in
        if token b =? "IDENTIFIER" then
          let '(rhs_type, s) :=
            match lookup_symbol (lexeme b) s with
            | None =>
                (TYPE_ERROR, semantic_error "Undeclared identifier." (line b) s)
            | Some s2 => (str_to_type (sym_type s2), s)
            end in
          let s := snd (consume s) in
          let '(cur_type, s) :=
            apply_binary_op (token op) cur_type rhs_type (line op) s in
          expression_loop fuel' cur_type s
        else if (token b =? "INT_CONST") || (token b =? "CHAR_CONST") then
          let rhs_type := const_token_type b in
          let s := snd (consume s) in
          let '(cur_type, s) :=
            apply_binary_op (token op) cur_type rhs_type (line op) s in
          expression_loop fuel' cur_type s
        else
          Some (cur_type, syn_error "Identifier or integer constant expected" s)
  end.

(** [expression_if_any (&out_type)]: the result is the return value (as a
    [bool]), the value of [*out_type] after the call ([out_type] before the
    call when nothing is stored) and the state. *)
Definition expression_if_any (fuel : nat) (out_type : Z) (s : State)
    : option (bool * Z * State) :=
  let a := LA s in
  if token a =? "IDENTIFIER" then
    let '(cur_type, s) :=
      match lookup_symbol (lexeme a) s with
      | None =>
          (TYPE_ERROR, semantic_error "Undeclared identifier." (line a) s)
      | Some y => (str_to_type (sym_type y), s)
      end in
    let s := snd (consume s) in
    match expression_loop fuel cur_type s with
    | Some (cur_type, s) => Some (true, cur_type, s)
    | None => None
    end
  else if (token a =? "INT_CONST") || (token a =? "CHAR_CONST") then
    let cur_type := const_token_type a in
    let s := snd (consume s) in
    match expression_loop fuel cur_type s with
    | Some (cur_type, s) => Some (true, cur_type, s)
    | None => None
    end
  else Some (false, out_type, s).

(** The test of the condition of [if], [while] and the middle clause of
    [for]:
    [if (!expression_if_any (&cond_type)) syn_error (...);
     else if (cond_type != TYPE_INT && cond_type != TYPE_ERROR)
       semantic_error ("Integer expected ...", LA ().line);] *)
Definition condition (fuel : nat) (s : State) : option State :=
  r <- expression_if_any fuel TYPE_ERROR s ;;
  let '(ok, cond_type, s) := r in
  if negb ok then Some (syn_error "Identifier or integer constant expected" s)
  else if negb (cond_type =? TYPE_INT)%Z && negb (cond_type =? TYPE_ERROR)%Z
  then Some (semantic_error "Integer expected in conditional expression."
                            (line (LA s)) s)
  else Some s.

(** [if (!expression_if_any (&e_type)) syn_error (...);] *)
Definition expression_or_error (fuel : nat) (s : State) : option State :=
  r <- expression_if_any fuel TYPE_ERROR s ;;
  let '(ok, _, s) := r in
  if negb ok then Some (syn_error "Identifier or integer constant expected" s)
  else Some s.

End Cursor.
End Cursor.

(** ** [semantic_analyser.c] *)
Module Semantic.

Definition EOF_LINE : Z := 0%Z.

Abbreviation LA := (Cursor.LA EOF_LINE).
Abbreviation consume := (Cursor.consume EOF_LINE).
Abbreviation match_ := (Cursor.match_ EOF_LINE).
Abbreviation expect := (Cursor.expect EOF_LINE).
Abbreviation skip_line_tokens := (Cursor.skip_line_tokens EOF_LINE).
Abbreviation syn_error := (Cursor.syn_error EOF_LINE).
Abbreviation type_specifier := (Cursor.type_specifier EOF_LINE).
Abbreviation expression_if_any := (Cursor.expression_if_any EOF_LINE).
Abbreviation condition := (Cursor.condition EOF_LINE).
Abbreviation expression_or_error := (Cursor.expression_or_error EOF_LINE).

(** [add_symbol]: the duplicate check comes first, then the capacity check. *)
Definition add_symbol (name type scope : string) (arrsz : Z) (ln : Z)
    (s : State) : State :=
  if existsb (fun y => (sym_lexeme y =? name) &&& (sym_scope y =? scope))
             (symtab s)
  then semantic_error "Multiple declarations of same identifier." ln s
  else if (MAXSYM <=? nsym s)%nat then s
  else set_symtab
         (symtab s ++
          [mkSym (snprintf 128 name) (snprintf 16 type) (snprintf 64 scope)
                 arrsz]) s.

(** [array_opt (&size_out)]: return value, [*size_out], state. *)
Definition array_opt (s : State) : bool * Z * State :=
  let t := LA s in
  if negb (token t =? "LBRACKET") then (false, 0%Z, s)
  else
    let s := snd (consume s) in
    let t := LA s in
    let '(size_out, s) :=
      if token t =? "INT_CONST" then (atoi (lexeme t), snd (consume s))
      else (0%Z, s) in
    let s := expect "RBRACKET" "Right bracket expected" s in
    (true, size_out, s).

(** [init_opt (typestr, line)]: the constant after ['='] is checked against
    the declared type. *)
Definition init_opt (typestr : string) (ln : Z) (s : State) : bool * State :=
  let t := LA s in
  if negb (token t =? "ASSIGN") then (false, s)
  else
    let s := snd (consume s) in
    let t := LA s in
    if negb (token t =? "INT_CONST") && negb (token t =? "CHAR_CONST")
    then (false, syn_error "Identifier or integer constant expected" s)
    else
      let ctype := const_token_type t in
      let dtype := str_to_type typestr in
      let s :=
        if negb (ctype =? TYPE_ERROR)%Z && negb (dtype =? TYPE_ERROR)%Z &&
           negb (ctype =? dtype)%Z
        then semantic_error "Type mismatch in statement or expression."
                            (line t) s
        else s in
      (true, snd (consume s)).

Definition init_declarator (typestr : string) (s : State) : State :=
  match match_ "IDENTIFIER" s with
  | (None, s) => syn_error "Identifier expected" s
  | (Some id, s) =>
      let '(_, arrsz, s) := array_opt s in
      let s := snd (init_opt typestr (line id) s) in
      add_symbol (lexeme id) typestr (cur_scope s) arrsz (line id) s
  end.

(** [while (match ("COMMA", NULL)) init_declarator (typestr);] *)
Fixpoint init_declarator_list_loop (fuel : nat) (typestr : string) (s : State)
    : option State :=
  match fuel with
  | O => None
  | S fuel' =>
      match match_ "COMMA" s with
      | (Some _, s) =>
          init_declarator_list_loop fuel' typestr (init_declarator typestr s)
      | (None, s) => Some s
      end
  end.

Definition init_declarator_list (fuel : nat) (typestr : string) (s : State)
    : option State :=
  init_declarator_list_loop fuel typestr (init_declarator typestr s).

Definition declaration (fuel : nat) (typestr : string) (s : State)
    : option State :=
  s <- init_declarator_list fuel typestr s ;;
  Some (expect "SEMICOLON" "Semicolon expected" s).

(** [global_decl_list]: a type followed by [MAIN] starts the function; the
    type token is given back with [pos--]. *)
Fixpoint global_decl_list (fuel : nat) (s : State) : option State :=
  match fuel with
  | O => None
  | S fuel' =>
      let t := LA s in
      if negb (is_type_token (token t)) then Some s
      else
        let ty := norm_type_token (token t) in
        let s := snd (consume s) in
        let t := LA s in
        if token t =? "MAIN" then Some (set_pos (pos s - 1) s)
        else
          s <- declaration fuel' ty s ;;
          global_decl_list fuel' s
  end.

Definition expr_stmt (fuel : nat) (s : State) : option State :=
  let t := LA s in
  if token t =? "SEMICOLON" then Some (snd (consume s))
  else
    s <- expression_or_error fuel s ;;
    Some (expect "SEMICOLON" "Semicolon expected" s).

Fixpoint statement (fuel : nat) (s : State) {struct fuel} : option State :=
  match fuel with
  | O => None
  | S fuel' =>
      let t := LA s in
      if is_type_token (token t) then
        (* [type_specifier (ty)] cannot fail here; [ty] would be left
           uninitialised if it did *)
        let '(r, s) := type_specifier s in
        declaration fuel' (match r with Some ty => ty | None => "" end) s
      else if token t =? "IF" then if_stmt fuel' s
      else if token t =? "WHILE" then while_stmt fuel' s
      else if token t =? "FOR" then for_stmt fuel' s
      else if token t =? "LBRACE" then block fuel' s
      else expr_stmt fuel' s
  end

with stmt_list_opt (fuel : nat) (s : State) {struct fuel} : option State :=
  match fuel with
  | O => None
  | S fuel' =>
      let t := LA s in
      if (token t =? "RBRACE") || (token t =? "EOF") then Some s
      else
        s <- statement fuel' s ;;
        stmt_list_opt fuel' s
  end

with block (fuel : nat) (s : State) {struct fuel} : option State :=
  match fuel with
  | O => None
  | S fuel' =>
      match match_ "LBRACE" s with
      | (None, s) => Some (syn_error "{ expected" s)
      | (Some _, s) =>
          s <- stmt_list_opt fuel' s ;;
          Some (expect "RBRACE" "} missing" s)
      end
  end

with if_stmt (fuel : nat) (s : State) {struct fuel} : option State :=
  match fuel with
  | O => None
  | S fuel' =>
      match match_ "IF" s with
      | (None, s) => Some (syn_error "IF expected" s)
      | (Some _, s) =>
          let s := expect "LPAREN" "Opening parenthesis missing" s in
          s <- condition fuel' s ;;
          let s := expect "RPAREN" "Closing parenthesis missing" s in
          s <- block fuel' s ;;
          match match_ "ELSE" s with
          | (Some _, s) => block fuel' s
          | (None, s) => Some s
          end
      end
  end

with while_stmt (fuel : nat) (s : State) {struct fuel} : option State :=
  match fuel with
  | O => None
  | S fuel' =>
      match match_ "WHILE" s with
      | (None, s) => Some (syn_error "WHILE expected" s)
      | (Some _, s) =>
          let s := expect "LPAREN" "Opening parenthesis missing" s in
          s <- condition fuel' s ;;
          let s := expect "RPAREN" "Closing parenthesis missing" s in
          block fuel' s
      end
  end

with for_stmt (fuel : nat) (s : State) {struct fuel} : option State :=
  match fuel with
  | O => None
  | S fuel' =>
      match match_ "FOR" s with
      | (None, s) => Some (syn_error "FOR expected" s)
      | (Some _, s) =>
          let s := expect "LPAREN" "Opening parenthesis missing" s in
          s <- expression_or_error fuel' s ;;
          let s := expect "SEMICOLON" "Semicolon expected" s in
          s <- condition fuel' s ;;
          let s := expect "SEMICOLON" "Semicolon expected" s in
          s <- expression_or_error fuel' s ;;
          let s := expect "RPAREN" "Closing parenthesis missing" s in
          statement fuel' s
      end
  end.

(** The parameter loop of [function_def]. *)
Fixpoint param_list (fuel : nat) (s : State) : option State :=
  match fuel with
  | O => None
  | S fuel' =>
      match type_specifier s with
      | (None, s) => Some (syn_error "Any keyword expected" s)
      | (Some pty, s) =>
          match match_ "IDENTIFIER" s with
          | (None, s) => Some (syn_error "Identifier expected" s)
          | (Some pid, s) =>
              let s := add_symbol (lexeme pid) pty "Main" 0%Z (line pid) s in
              match match_ "COMMA" s with
              | (None, s) => Some s
              | (Some _, s) => param_list fuel' s
              end
          end
      end
  end.

Definition function_def (fuel : nat) (ret_type : string) (s : State)
    : option State :=
  match match_ "MAIN" s with
  | (None, s) => Some (syn_error "MAIN expected" s)
  | (Some id, s) =>
      let s := add_symbol "main" "Function" "Global" 0%Z (line id) s in
      let s := set_cur_scope "Main" s in
      let s := expect "LPAREN" "Opening parenthesis missing" s in
      let t := LA s in
      s <- (if token t =? "VOID" then Some (snd (consume s))
            else if is_type_token (token t) then param_list fuel s
            else Some s) ;;
      let s := expect "RPAREN" "Closing parenthesis missing" s in
      s <- block fuel s ;;
      Some (set_cur_scope "Global" s)
  end.

Definition program (fuel : nat) (s : State) : option State :=
  s <- global_decl_list fuel s ;;
  match type_specifier s with
  | (None, s) => Some (syn_error "Any keyword expected" s)
  | (Some rtype, s) => function_def fuel rtype s
  end.

(** *** Loading [tokens.txt]

    The file is the string of its characters. *)

(** [fgets (buf, n, f)]: at most [n - 1] characters, up to and with the
    first newline; [None] is [NULL] at the end of the file.  The result is
    the line read and the rest of the file. *)
Fixpoint fgets_chars (k : nat) (f : string) : string * string :=
  match k with
  | O => (EmptyString, f)
  | S k' =>
      match f with
      | EmptyString => (EmptyString, EmptyString)
      | String c rest =>
          if (c =? "010")%char then (String c EmptyString, rest)
          else let '(l, r) := fgets_chars k' rest in (String c l, r)
      end
  end.

Definition fgets (n : nat) (f : string) : option (string * string) :=
  match f with
  | EmptyString => None
  | _ => Some (fgets_chars (n - 1) f)
  end.

(** The conversion [%<width>s]: skip white space, then at most [width]
    characters that are not white space; [None] at the end of the input. *)
Fixpoint scan_word (width : nat) (str : string) : string * string :=
  match width with
  | O => (EmptyString, str)
  | S w =>
      match str with
      | EmptyString => (EmptyString, EmptyString)
      | String c rest =>
          if isspace c then (EmptyString, str)
          else let '(word, r) := scan_word w rest in (String c word, r)
      end
  end.

Definition scan_s (width : nat) (str : string) : option (string * string) :=
  match skip_spaces str with
  | EmptyString => None
  | str' => Some (scan_word width str')
  end.

(** The conversion [%d]: skip white space, an optional sign, then at least
    one digit.  (The value is kept as it is written; C leaves it undefined
    when it does not fit an [int].) *)
Definition scan_d (str : string) : option Z :=
  match skip_spaces str with
  | String "-"%char (String c rest) =>
      if isdigit c then Some (- digits_value 0 (String c rest))%Z else None
  | String "+"%char (String c rest) =>
      if isdigit c then Some (digits_value 0 (String c rest)) else None
  | String c rest =>
      if isdigit c then Some (digits_value 0 (String c rest)) else None
  | EmptyString => None
  end.

(** [sscanf (linebuf, "%31s %255s %d", t1, t2, &line)]: the number of
    conversions stored ([-1] for [EOF]) and the three values (those not
    stored are not read by the caller). *)
Definition sscanf (linebuf : string) : Z * string * string * Z :=
  match scan_s 31 linebuf with
  | None => ((-1)%Z, EmptyString, EmptyString, 0%Z)
  | Some (t1, rest) =>
      match scan_s 255 rest with
      | None => (1%Z, t1, EmptyString, 0%Z)
      | Some (t2, rest) =>
          match scan_d rest with
          | None => (2%Z, t1, t2, 0%Z)
          | Some ln => (3%Z, t1, t2, ln)
          end
      end
  end.

(** The [while (fgets (...))] loop of [load_tokens]. *)
Fixpoint load_tokens_loop (fuel : nat) (f : string) (s : State)
    : option State :=
  match fuel with
  | O => None
  | S fuel' =>
      match fgets 512 f with
      | None => Some s
      | Some (linebuf, f) =>
          let '(n, t1, t2, ln) := sscanf linebuf in
          if negb (n =? 3)%Z then load_tokens_loop fuel' f s
          else if (MAXTOK <=? ntok s)%nat then Some s
          else load_tokens_loop fuel' f
                 (set_toks (toks s ++ [mkTok t1 t2 ln]) s)
      end
  end.

(** [load_tokens]: [file] is [None] when [fopen] fails (the line
    [Cannot open tokens.txt] that is then written to [stderr] is not kept).
    The first line of the file is read and dropped before the loop
    starts. *)
Definition load_tokens (fuel : nat) (file : option string) (s : State)
    : option (bool * State) :=
  match file with
  | None => Some (false, s)
  | Some f =>
      match fgets 512 f with
      | None => Some (false, s)
      | Some (_, f) =>
          s <- load_tokens_loop fuel f (set_toks [] s) ;;
          Some (true, s)
      end
  end.

(** [main]: the exit status and the final state ([write_symbol_table] and
    the summary line change neither). *)
Definition main (fuel : nat) (file : option string) : option (Z * State) :=
  r <- load_tokens fuel file (init_state []) ;;
  let '(ok, s) := r in
  if negb ok then Some (1%Z, s)
  else
    s <- program fuel s ;;
    Some (0%Z, s).

End Semantic.

(** ** [sematic_analyser.c] *)
Module Sematic.

Definition EOF_LINE : Z := 999999%Z.

Abbreviation LA := (Cursor.LA EOF_LINE).
Abbreviation consume := (Cursor.consume EOF_LINE).
Abbreviation match_ := (Cursor.match_ EOF_LINE).
Abbreviation expect := (Cursor.expect EOF_LINE).
Abbreviation syn_error := (Cursor.syn_error EOF_LINE).
Abbreviation type_specifier := (Cursor.type_specifier EOF_LINE).
Abbreviation expression_if_any := (Cursor.expression_if_any EOF_LINE).
Abbreviation condition := (Cursor.condition EOF_LINE).
Abbreviation expression_or_error := (Cursor.expression_or_error EOF_LINE).

(** [add_symbol]: the capacity check comes first; a duplicate is reported at
    the line of the token before the lookahead, [toks[pos-1].line]. *)
Definition add_symbol (name type scope : string) (arrsz : Z) (s : State)
    : State :=
  if (MAXSYM <=? nsym s)%nat then s
  else if existsb (fun y => (sym_lexeme y =? name) &&& (sym_scope y =? scope))
                  (symtab s)
  then
    let ln := if (0 <? pos s)%nat
              then line (nth (pos s - 1) (toks s) (mkTok "" "" 0%Z))
              else 0%Z in
    semantic_error "Multiple declarations of same identifier." ln s
  else set_symtab
         (symtab s ++
          [mkSym (snprintf 128 name) (snprintf 32 type) (snprintf 64 scope)
                 arrsz]) s.

(** [array_opt (&arrsz)]: return value, value of [arrsz] after the call
    ([size_out] is its value before), state. *)
Definition array_opt (size_out : Z) (s : State) : bool * Z * State :=
  match match_ "LBRACKET" s with
  | (None, s) => (false, size_out, s)
  | (Some _, s) =>
      let '(size, s) :=
        match match_ "INT_CONST" s with
        | (Some num, s) => (atoi (lexeme num), s)
        | (None, s) => (0%Z, s)
        end in
      let s := expect "RBRACKET" "Right bracket expected" s in
      (true, size, s)
  end.

Definition init_opt (s : State) : bool * State :=
  match match_ "ASSIGN" s with
  | (None, s) => (false, s)
  | (Some _, s) =>
      let t := LA s in
      if (token t =? "INT_CONST") || (token t =? "CHAR_CONST")
      then (true, snd (consume s))
      else (true, syn_error "Identifier or integer constant expected" s)
  end.

Definition init_declarator (typestr : string) (s : State) : State :=
  match match_ "IDENTIFIER" s with
  | (None, s) => syn_error "Identifier expected" s
  | (Some id, s) =>
      let '(_, arrsz, s) := array_opt 0%Z s in
      let s := snd (init_opt s) in
      add_symbol (lexeme id) typestr (cur_scope s) arrsz s
  end.

Fixpoint init_declarator_list_loop (fuel : nat) (typestr : string) (s : State)
    : option State :=
  match fuel with
  | O => None
  | S fuel' =>
      match match_ "COMMA" s with
      | (Some _, s) =>
          init_declarator_list_loop fuel' typestr (init_declarator typestr s)
      | (None, s) => Some s
      end
  end.

Definition init_declarator_list (fuel : nat) (typestr : string) (s : State)
    : option State :=
  init_declarator_list_loop fuel typestr (init_declarator typestr s).

Definition declaration (fuel : nat) (typestr : string) (s : State)
    : option State :=
  s <- init_declarator_list fuel typestr s ;;
  Some (expect "SEMICOLON" "Semicolon expected" s).

(** [global_decl_list]: peek at the token after the type, step back, and
    stop when it is [MAIN]. *)
Fixpoint global_decl_list (fuel : nat) (s : State) : option State :=
  match fuel with
  | O => None
  | S fuel' =>
      let t := LA s in
      if negb (is_type_token (token t)) then Some s
      else
        let s := snd (consume s) in
        let t2 := LA s in
        let s := set_pos (pos s - 1) s in
        if token t2 =? "MAIN" then Some s
        else
          match type_specifier s with
          | (None, s) => Some (syn_error "Any keyword expected" s)
          | (Some typestr, s) =>
              s <- declaration fuel' typestr s ;;
              global_decl_list fuel' s
          end
  end.

Definition expr_stmt (fuel : nat) (s : State) : option State :=
  match match_ "SEMICOLON" s with
  | (Some _, s) => Some s
  | (None, s) =>
      s <- expression_or_error fuel s ;;
      Some (expect "SEMICOLON" "Semicolon expected" s)
  end.

Fixpoint statement (fuel : nat) (s : State) {struct fuel} : option State :=
  match fuel with
  | O => None
  | S fuel' =>
      let t := LA s in
      if is_type_token (token t) then
        match type_specifier s with
        | (None, s) => Some (syn_error "Any keyword expected" s)
        | (Some typestr, s) => declaration fuel' typestr s
        end
      else if token t =? "IF" then if_stmt fuel' s
      else if token t =? "WHILE" then while_stmt fuel' s
      else if token t =? "FOR" then for_stmt fuel' s
      else if token t =? "LBRACE" then block fuel' s
      else expr_stmt fuel' s
  end

with stmt_list_opt (fuel : nat) (s : State) {struct fuel} : option State :=
  match fuel with
  | O => None
  | S fuel' =>
      let t := LA s in
      if (token t =? "RBRACE") || (token t =? "EOF") then Some s
      else
        s <- statement fuel' s ;;
        stmt_list_opt fuel' s
  end

with block (fuel : nat) (s : State) {struct fuel} : option State :=
  match fuel with
  | O => None
  | S fuel' =>
      match match_ "LBRACE" s with
      | (None, s) => Some (syn_error "{ missing" s)
      | (Some _, s) =>
          s <- stmt_list_opt fuel' s ;;
          Some (expect "RBRACE" "} missing" s)
      end
  end

with if_stmt (fuel : nat) (s : State) {struct fuel} : option State :=
  match fuel with
  | O => None
  | S fuel' =>
      match match_ "IF" s with
      | (None, s) => Some (syn_error "IF expected" s)
      | (Some _, s) =>
          let s := expect "LPAREN" "Opening parenthesis missing" s in
          s <- condition fuel' s ;;
          let s := expect "RPAREN" "Closing parenthesis missing" s in
          s <- block fuel' s ;;
          match match_ "ELSE" s with
          | (Some _, s) => block fuel' s
          | (None, s) => Some s
          end
      end
  end

with while_stmt (fuel : nat) (s : State) {struct fuel} : option State :=
  match fuel with
  | O => None
  | S fuel' =>
      match match_ "WHILE" s with
      | (None, s) => Some (syn_error "WHILE expected" s)
      | (Some _, s) =>
          let s := expect "LPAREN" "Opening parenthesis missing" s in
          s <- condition fuel' s ;;
          let s := expect "RPAREN" "Closing parenthesis missing" s in
          block fuel' s
      end
  end

with for_stmt (fuel : nat) (s : State) {struct fuel} : option State :=
  match fuel with
  | O => None
  | S fuel' =>
      match match_ "FOR" s with
      | (None, s) => Some (syn_error "FOR expected" s)
      | (Some _, s) =>
          let s := expect "LPAREN" "Opening parenthesis missing" s in
          s <- expression_or_error fuel' s ;;
          let s := expect "SEMICOLON" "Semicolon expected" s in
          s <- condition fuel' s ;;
          let s := expect "SEMICOLON" "Semicolon expected" s in
          s <- expression_or_error fuel' s ;;
          let s := expect "RPAREN" "Closing parenthesis missing" s in
          statement fuel' s
      end
  end.

(** The parameter loop of [function_def].  Neither failure leaves the loop,
    and [add_symbol] then reads [pty] and [pid] as the stack holds them:
    [pty] and [pid] are their contents on entry of the iteration. *)
Fixpoint param_list (fuel : nat) (pty : string) (pid : Tok) (s : State)
    : option State :=
  match fuel with
  | O => None
  | S fuel' =>
      let '(pty, s) :=
        match type_specifier s with
        | (None, s) => (pty, syn_error "Any keyword expected" s)
        | (Some ty, s) => (ty, s)
        end in
      let '(pid, s) :=
        match match_ "IDENTIFIER" s with
        | (None, s) => (pid, syn_error "Identifier expected" s)
        | (Some id, s) => (id, s)
        end in
      let s := add_symbol (lexeme pid) pty "Main" 0%Z s in
      match match_ "COMMA" s with
      | (None, s) => Some s
      | (Some _, s) => param_list fuel' pty pid s
      end
  end.

(** [function_def]: [main] itself is not entered in the table here.
    [pty0] and [pid0] are the indeterminate first contents of the locals
    [pty] and [pid] of the parameter loop. *)
Definition function_def (fuel : nat) (pty0 : string) (pid0 : Tok)
    (ret_type : string) (s : State) : option State :=
  match match_ "MAIN" s with
  | (None, s) => Some (syn_error "MAIN expected" s)
  | (Some _, s) =>
      let s := expect "LPAREN" "Opening parenthesis missing" s in
      let t := LA s in
      s <- (if token t =? "VOID" then Some (snd (consume s))
            else param_list fuel pty0 pid0 s) ;;
      let s := expect "RPAREN" "Closing parenthesis missing" s in
      let s := expect "LBRACE" "{ missing" s in
      let s := set_cur_scope "Main" s in
      s <- stmt_list_opt fuel s ;;
      let s := expect "RBRACE" "} missing" s in
      Some (set_cur_scope "Global" s)
  end.

Definition program (fuel : nat) (pty0 : string) (pid0 : Tok) (s : State)
    : option State :=
  s <- global_decl_list fuel s ;;
  match type_specifier s with
  | (None, s) => Some (syn_error "Any keyword expected" s)
  | (Some ftype, s) => function_def fuel pty0 pid0 ftype s
  end.

(** *** Loading [tokens.txt]

    [load_tokens] reads the file through [fscanf], which takes no notice of
    line ends.  An open file is the string of the characters still to be
    read and its end-of-file indicator, which a read at the end of the file
    sets and [ungetc] clears. *)
Record FILE : Type := mkFILE {
  chars   : string;
  eof_ind : bool
}.

Definition fopen (file : string) : FILE := mkFILE file false.

Definition feof (f : FILE) : bool := eof_ind f.

Definition is_empty (str : string) : bool :=
  match str with
  | EmptyString => true
  | String _ _ => false
  end.

(** The white space that [fscanf] skips before a conversion: the first
    character that is no white space is read and put back. *)
Definition skip_ws (f : FILE) : FILE :=
  match skip_spaces (chars f) with
  | EmptyString => mkFILE EmptyString true
  | str => mkFILE str false
  end.

(** The conversion [%<width>s] on a stream: it ends at white space (put
    back), after [width] characters, or at the end of the file; [None] is
    the input failure at the end of the file. *)
Definition scan_s (width : nat) (f : FILE) : option string * FILE :=
  let f := skip_ws f in
  match chars f with
  | EmptyString => (None, f)
  | str =>
      let '(word, rest) := Semantic.scan_word width str in
      (Some word,
       mkFILE rest (is_empty rest && (String.length word <? width)%nat))
  end.

(** What follows the digits at the head of a text. *)
Fixpoint skip_digits (str : string) : string :=
  match str with
  | String c rest => if isdigit c then skip_digits rest else str
  | EmptyString => str
  end.

(** The digits of [%d] once the first one is seen: their value and the file
    behind them. *)
Definition scan_digits (str : string) : Z * FILE :=
  (digits_value 0 str, mkFILE (skip_digits str) (is_empty (skip_digits str))).

(** The conversion [%d] on a stream: a sign that no digit follows is read
    and lost, any other character that cannot start a number is put back.
    (The value is kept as it is written; C leaves it undefined when it does
    not fit an [int].) *)
Definition scan_d (f : FILE) : option Z * FILE :=
  let f := skip_ws f in
  match chars f with
  | EmptyString => (None, f)
  | String c rest =>
      if (c =? "-")%char || (c =? "+")%char then
        match rest with
        | EmptyString => (None, mkFILE EmptyString true)
        | String d _ =>
            if isdigit d then
              let '(v, f) := scan_digits rest in
              (Some (if (c =? "-")%char then (- v)%Z else v), f)
            else (None, mkFILE rest false)
        end
      else if isdigit c then
        let '(v, f) := scan_digits (String c rest) in (Some v, f)
      else (None, f)
  end.

(** [fscanf (f, "%63s %255s %d", t1, t2, &line)]: the return value ([-1]
    for [EOF]), the three values and the file. *)
Definition fscanf (f : FILE) : Z * string * string * Z * FILE :=
  match scan_s 63 f with
  | (None, f) => ((-1)%Z, EmptyString, EmptyString, 0%Z, f)
  | (Some t1, f) =>
      match scan_s 255 f with
      | (None, f) => (1%Z, t1, EmptyString, 0%Z, f)
      | (Some t2, f) =>
          match scan_d f with
          | (None, f) => (2%Z, t1, t2, 0%Z, f)
          | (Some ln, f) => (3%Z, t1, t2, ln, f)
          end
      end
  end.

(** What follows the first newline of a text, if it has one. *)
Fixpoint after_newline (str : string) : option string :=
  match str with
  | EmptyString => None
  | String c rest =>
      if (c =? "010")%char then Some rest else after_newline rest
  end.

(** [while ((c = fgetc (f)) != '\n' && c != EOF);] *)
Definition discard_line (f : FILE) : FILE :=
  match after_newline (chars f) with
  | Some rest => mkFILE rest (eof_ind f)
  | None => mkFILE EmptyString true
  end.

(** The outcome of [load_tokens]: [t1] has room for 63 characters and
    [toks[ntok].token] for 31, so that [strcpy] writes behind the field
    when the first word of a row is longer; the behaviour of the program
    is undefined from there on. *)
Inductive loaded : Type :=
  | Loaded (s : State)
  | Overrun.

(** The [while (!feof (f))] loop of [load_tokens]. *)
Fixpoint load_tokens_loop (fuel : nat) (f : FILE) (s : State)
    : option loaded :=
  match fuel with
  | O => None
  | S fuel' =>
      if feof f then Some (Loaded s)
      else
        let '(count, t1, t2, ln, f) := fscanf f in
        if (count =? -1)%Z || (count =? 0)%Z then Some (Loaded s)
        else if negb (count =? 3)%Z
        then load_tokens_loop fuel' (discard_line f) s
        else if (31 <? String.length t1)%nat then Some Overrun
        else
          let s := set_toks (toks s ++ [mkTok t1 t2 ln]) s in
          if (MAXTOK <=? ntok s)%nat then Some (Loaded s)
          else load_tokens_loop fuel' f s
  end.

(** [load_tokens]: [file] is [None] when [fopen] fails; the result is the
    return value and the state. *)
Definition load_tokens (fuel : nat) (file : option string) (s : State)
    : option (bool * loaded) :=
  match file with
  | None => Some (false, Loaded s)
  | Some text =>
      r <- load_tokens_loop fuel (fopen text) (set_toks [] s) ;;
      Some (true, r)
  end.

End Sematic.

(** ** [syntax_analyser.c]

    The parser without type checks: the token cursor, then the grammar
    functions, which enter every declarator in the symbol table without
    looking for an earlier one. *)
Module Syntax.

Definition EOF_LINE : Z := 999999%Z.

Abbreviation LA := (Cursor.LA EOF_LINE).
Abbreviation consume := (Cursor.consume EOF_LINE).
Abbreviation match_ := (Cursor.match_ EOF_LINE).
Abbreviation skip_line_tokens := (Cursor.skip_line_tokens EOF_LINE).
Abbreviation syn_error := (Cursor.syn_error EOF_LINE).
Abbreviation expect := (Cursor.expect EOF_LINE).
Abbreviation type_specifier := (Cursor.type_specifier EOF_LINE).

(** [add_symbol]: the capacity check only. *)
Definition add_symbol (name type scope : string) (arrsz : Z) (s : State)
    : State :=
  if (MAXSYM <=? nsym s)%nat then s
  else set_symtab
         (symtab s ++
          [mkSym (snprintf 128 name) (snprintf 32 type) (snprintf 64 scope)
                 arrsz]) s.

(** [array_opt (&arrsz)]: return value, value of [arrsz] after the call
    ([size_out] is its value before), state. *)
Definition array_opt (size_out : Z) (s : State) : bool * Z * State :=
  match match_ "LBRACKET" s with
  | (None, s) => (false, size_out, s)
  | (Some _, s) =>
      let '(size, s) :=
        match match_ "INT_CONST" s with
        | (Some num, s) => (atoi (lexeme num), s)
        | (None, s) => (0%Z, s)
        end in
      let s := expect "RBRACKET" "Right bracket expected" s in
      (true, size, s)
  end.

Definition init_opt (s : State) : bool * State :=
  match match_ "ASSIGN" s with
  | (None, s) => (false, s)
  | (Some _, s) =>
      let t := LA s in
      if (token t =? "INT_CONST") || (token t =? "CHAR_CONST")
      then (true, snd (consume s))
      else (true, syn_error "Identifier or integer constant expected" s)
  end.

(** [init_declarator]: a declarator without brackets gets the size [-1]. *)
Definition init_declarator (typestr : string) (s : State) : State :=
  match match_ "IDENTIFIER" s with
  | (None, s) => syn_error "Identifier expected" s
  | (Some id, s) =>
      let '(_, arrsz, s) := array_opt (-1)%Z s in
      let s := snd (init_opt s) in
      add_symbol (lexeme id) typestr (cur_scope s) arrsz s
  end.

Fixpoint init_declarator_list_loop (fuel : nat) (typestr : string) (s : State)
    : option State :=
  match fuel with
  | O => None
  | S fuel' =>
      match match_ "COMMA" s with
      | (Some _, s) =>
          init_declarator_list_loop fuel' typestr (init_declarator typestr s)
      | (None, s) => Some s
      end
  end.

Definition init_declarator_list (fuel : nat) (typestr : string) (s : State)
    : option State :=
  init_declarator_list_loop fuel typestr (init_declarator typestr s).

Definition declaration (fuel : nat) (typestr : string) (s : State)
    : option State :=
  s <- init_declarator_list fuel typestr s ;;
  Some (expect "SEMICOLON" "Semicolon expected" s).

Fixpoint global_decl_list (fuel : nat) (s : State) : option State :=
  match fuel with
  | O => None
  | S fuel' =>
      let t := LA s in
      if negb (is_type_token (token t)) then Some s
      else
        let s := snd (consume s) in
        let t2 := LA s in
        let s := set_pos (pos s - 1) s in
        if token t2 =? "MAIN" then Some s
        else
          match type_specifier s with
          | (None, s) => Some (syn_error "Any keyword expected" s)
          | (Some ty, s) =>
              s <- declaration fuel' ty s ;;
              global_decl_list fuel' s
          end
  end.

(** The [for (;;)] loop of [expression_if_any]: operator, operand. *)
Fixpoint expression_loop (fuel : nat) (s : State) : option State :=
  match fuel with
  | O => None
  | S fuel' =>
      let op := LA s in
      if negb (is_operator (token op)) then Some s
      else
        let s := snd (consume s) in
        let b := LA s in
        if (token b =? "IDENTIFIER") || (token b =? "INT_CONST") ||
           (token b =? "CHAR_CONST")
        then expression_loop fuel' (snd (consume s))
        else Some (syn_error "Identifier or integer constant expected" s)
  end.

Definition expression_if_any (fuel : nat) (s : State)
    : option (bool * State) :=
  let a := LA s in
  if (token a =? "IDENTIFIER") || (token a =? "INT_CONST") ||
     (token a =? "CHAR_CONST")
  then
    s <- expression_loop fuel (snd (consume s)) ;;
    Some (true, s)
  else Some (false, s).

(** [if (!expression_if_any ()) syn_error (...);] *)
Definition expression_or_error (fuel : nat) (s : State) : option State :=
  r <- expression_if_any fuel s ;;
  let '(ok, s) := r in
  if negb ok then Some (syn_error "Identifier or integer constant expected" s)
  else Some s.

Definition expr_stmt (fuel : nat) (s : State) : option State :=
  match match_ "SEMICOLON" s with
  | (Some _, s) => Some s
  | (None, s) =>
      s <- expression_or_error fuel s ;;
      Some (expect "SEMICOLON" "Semicolon expected" s)
  end.

Fixpoint statement (fuel : nat) (s : State) {struct fuel} : option State :=
  match fuel with
  | O => None
  | S fuel' =>
      let t := LA s in
      if token t =? "LBRACE" then block fuel' s
      else if token t =? "IF" then if_stmt fuel' s
      else if token t =? "WHILE" then while_stmt fuel' s
      else if token t =? "FOR" then for_stmt fuel' s
      else if is_type_token (token t) then
        match type_specifier s with
        | (None, s) => Some (syn_error "Any keyword expected" s)
        | (Some ty, s) => declaration fuel' ty s
        end
      else expr_stmt fuel' s
  end

with stmt_list_opt (fuel : nat) (s : State) {struct fuel} : option State :=
  match fuel with
  | O => None
  | S fuel' =>
      let t := LA s in
      if (token t =? "RBRACE") || (token t =? "EOF") then Some s
      else
        s <- statement fuel' s ;;
        stmt_list_opt fuel' s
  end

with block (fuel : nat) (s : State) {struct fuel} : option State :=
  match fuel with
  | O => None
  | S fuel' =>
      match match_ "LBRACE" s with
      | (None, s) => Some (syn_error "{ missing" s)
      | (Some _, s) =>
          s <- stmt_list_opt fuel' s ;;
          Some (expect "RBRACE" "} missing" s)
      end
  end

with if_stmt (fuel : nat) (s : State) {struct fuel} : option State :=
  match fuel with
  | O => None
  | S fuel' =>
      match match_ "IF" s with
      | (None, s) => Some (syn_error "IF expected" s)
      | (Some _, s) =>
          let s := expect "LPAREN" "Opening parenthesis missing" s in
          s <- expression_or_error fuel' s ;;
          let s := expect "RPAREN" "Closing parenthesis missing" s in
          s <- block fuel' s ;;
          match match_ "ELSE" s with
          | (Some _, s) => block fuel' s
          | (None, s) => Some s
          end
      end
  end

with while_stmt (fuel : nat) (s : State) {struct fuel} : option State :=
  match fuel with
  | O => None
  | S fuel' =>
      match match_ "WHILE" s with
      | (None, s) => Some (syn_error "WHILE expected" s)
      | (Some _, s) =>
          let s := expect "LPAREN" "Opening parenthesis missing" s in
          s <- expression_or_error fuel' s ;;
          let s := expect "RPAREN" "Closing parenthesis missing" s in
          block fuel' s
      end
  end

with for_stmt (fuel : nat) (s : State) {struct fuel} : option State :=
  match fuel with
  | O => None
  | S fuel' =>
      match match_ "FOR" s with
      | (None, s) => Some (syn_error "FOR expected" s)
      | (Some _, s) =>
          let s := expect "LPAREN" "Opening parenthesis missing" s in
          s <- expression_or_error fuel' s ;;
          let s := expect "SEMICOLON" "Semicolon expected" s in
          s <- expression_or_error fuel' s ;;
          let s := expect "SEMICOLON" "Semicolon expected" s in
          s <- expression_or_error fuel' s ;;
          let s := expect "RPAREN" "Closing parenthesis missing" s in
          statement fuel' s
      end
  end.

(** [function_def]: [main] is entered with the size [-1]; one type name
    stands between the parentheses. *)
Definition function_def (fuel : nat) (ret_type : string) (s : State)
    : option State :=
  match match_ "MAIN" s with
  | (None, s) => Some (syn_error "MAIN expected" s)
  | (Some _, s) =>
      let s := add_symbol "main" "Function" "Global" (-1)%Z s in
      let s := expect "LPAREN" "Opening parenthesis missing" s in
      let s :=
        match type_specifier s with
        | (None, s) => syn_error "Any keyword expected" s
        | (Some _, s) => s
        end in
      let s := expect "RPAREN" "Closing parenthesis missing" s in
      let s := expect "LBRACE" "{ missing" s in
      let s := set_cur_scope "Main" s in
      s <- stmt_list_opt fuel s ;;
      let s := expect "RBRACE" "} missing" s in
      Some (set_cur_scope "Global" s)
  end.

Definition program (fuel : nat) (s : State) : option State :=
  s <- global_decl_list fuel s ;;
  match type_specifier s with
  | (None, s) => Some (syn_error "Any keyword expected" s)
  | (Some ftype, s) => function_def fuel ftype s
  end.

(** *** Reading [tokens.txt] *)

(** [sscanf (line, " %31s %31s %31s", h1, h2, h3)]: the number of words
    stored and the words. *)
Definition sscanf3 (linebuf : string) : Z * string * string * string :=
  match Semantic.scan_s 31 linebuf with
  | None => ((-1)%Z, EmptyString, EmptyString, EmptyString)
  | Some (h1, rest) =>
      match Semantic.scan_s 31 rest with
      | None => (1%Z, h1, EmptyString, EmptyString)
      | Some (h2, rest) =>
          match Semantic.scan_s 31 rest with
          | None => (2%Z, h1, h2, EmptyString)
          | Some (h3, _) => (3%Z, h1, h2, h3)
          end
      end
  end.

(** The test of the first line: three words, [Token] or [TOKEN], [Lexeme]
    or [LEXEME], and a word that starts with [Line]
    ([strstr (h3, "Line") == h3]). *)
Definition is_header (linebuf : string) : bool :=
  let '(n, h1, h2, h3) := sscanf3 linebuf in
  (n =? 3)%Z &&&
  ((h1 =? "Token") || (h1 =? "TOKEN")) &&&
  ((h2 =? "Lexeme") || (h2 =? "LEXEME")) &&&
  ((h3 =? "Line") || String.prefix "Line" h3).

(** The loop that copies the lexeme: the characters up to a tab, a newline
    or the end of the line, as long as [i < limit]. *)
Fixpoint scan_field (limit : nat) (p : string) : string * string :=
  match limit with
  | O => (EmptyString, p)
  | S l =>
      match p with
      | EmptyString => (EmptyString, EmptyString)
      | String c rest =>
          if (c =? "009")%char || (c =? "010")%char then (EmptyString, p)
          else let '(lex, r) := scan_field l rest in (String c lex, r)
      end
  end.

(** [strncpy (dst, src, n); dst[n] = 0;] *)
Definition strncpy (n : nat) (src : string) : string := substring 0 n src.

(** The three fields of a row: the first word (at most 63 characters), the
    text up to the next tab or newline (at most 511 characters), and the
    number read by [atoi] from what follows, 0 when nothing follows. *)
Definition split_row (linebuf : string) : string * string * Z :=
  let p := skip_spaces linebuf in
  let '(tkn, p) := Semantic.scan_word 63 p in
  let p := skip_spaces p in
  let '(lex, p) := scan_field 511 p in
  let p := skip_spaces p in
  let ln := if Sematic.is_empty p then 0%Z else atoi p in
  (tkn, lex, ln).

(** The [while (fgets (...))] loop of [read_tokens]; [first] is its flag. *)
Fixpoint read_tokens_loop (fuel : nat) (first : bool) (f : string)
    (s : State) : option State :=
  match fuel with
  | O => None
  | S fuel' =>
      match Semantic.fgets 2048 f with
      | None => Some s
      | Some (linebuf, f) =>
          if first &&& is_header linebuf
          then read_tokens_loop fuel' false f s
          else
            let '(tkn, lex, ln) := split_row linebuf in
            if Sematic.is_empty tkn then read_tokens_loop fuel' false f s
            else if (ntok s <? MAXTOK)%nat then
              read_tokens_loop fuel' false f
                (set_toks (toks s ++ [mkTok (strncpy 31 tkn) (strncpy 255 lex)
                                            ln]) s)
            else read_tokens_loop fuel' false f s
      end
  end.

(** [read_tokens]: [file] is [None] when [fopen] fails. *)
Definition read_tokens (fuel : nat) (file : option string) (s : State)
    : option (bool * State) :=
  match file with
  | None => Some (false, s)
  | Some f =>
      s <- read_tokens_loop fuel true f s ;;
      Some (true, s)
  end.

(** [main]: the exit status and the final state ([print_symbol_table]
    changes neither). *)
Definition main (fuel : nat) (file : option string) : option (Z * State) :=
  r <- read_tokens fuel file (init_state []) ;;
  let '(ok, s) := r in
  if negb ok then Some (1%Z, s)
  else
    s <- program fuel s ;;
    Some (0%Z, s).

End Syntax.

(** ** [lexical_analyser.c]

    The input file is the string of the characters still to be read ([EOF]
    is [None]); [out] holds the rows written to [tokens.txt] after its
    header line, [err] the lines written to [stderr]. *)
Module Lexical.

Record LexState : Type := mkLex {
  input   : string;
  line_no : Z;
  out     : list Tok;
  err     : list (Z * string)
}.

Definition NL : ascii := "010"%char.
Definition DQUOTE : ascii := "034"%char.
Definition SQUOTE : ascii := "039"%char.
Definition BACKSLASH : ascii := "092"%char.

Definition NUL : ascii := "000"%char.

(** The characters of a buffer before its first NUL byte: what the
    conversion [%s] prints of it. *)
Fixpoint c_string (buf : string) : string :=
  match buf with
  | EmptyString => EmptyString
  | String c rest =>
      if (c =? NUL)%char then EmptyString else String c (c_string rest)
  end.

(** [emit]: [fprintf (out, "%s\t%s\t%d\n", tok, lex, line)].  The row holds
    the characters of [lex] before its first NUL byte; the kinds [tok] are
    the literals of the program, which hold none. *)
Definition emit (tok lex : string) (ln : Z) (st : LexState) : LexState :=
  mkLex (input st) (line_no st)
        (out st ++ [mkTok tok (c_string lex) ln]) (err st).

(** [fprintf (stderr, "Line %d: <msg>\n", ln)] *)
Definition report (ln : Z) (msg : string) (st : LexState) : LexState :=
  mkLex (input st) (line_no st) (out st) (err st ++ [(ln, msg)]).

Definition getc_track (st : LexState) : option ascii * LexState :=
  match input st with
  | EmptyString => (None, st)
  | String c rest =>
      (Some c,
       mkLex rest (if (c =? NL)%char then (line_no st + 1)%Z else line_no st)
             (out st) (err st))
  end.

Definition ungetc_track (c : option ascii) (st : LexState) : LexState :=
  match c with
  | None => st
  | Some c =>
      mkLex (String c (input st))
            (if (c =? NL)%char then (line_no st - 1)%Z else line_no st)
            (out st) (err st)
  end.

Definition isupper (c : ascii) : bool :=
  let n := nat_of_ascii c in (65 <=? n)%nat && (n <=? 90)%nat.

Definition islower (c : ascii) : bool :=
  let n := nat_of_ascii c in (97 <=? n)%nat && (n <=? 122)%nat.

Definition isalpha (c : ascii) : bool := isupper c || islower c.
Definition isalnum (c : ascii) : bool := isalpha c || isdigit c.

Definition toupper (c : ascii) : ascii :=
  if islower c then ascii_of_nat (nat_of_ascii c - 32) else c.

(** The character tests take the [int] that [getc_track] returned; they are
    false on [EOF]. *)
Definition is_ident_start (c : option ascii) : bool :=
  match c with
  | Some c => isalpha c || (c =? "_")%char
  | None => false
  end.

Definition is_ident_part (c : option ascii) : bool :=
  match c with
  | Some c => isalnum c || (c =? "_")%char
  | None => false
  end.

Fixpoint upper (lex : string) : string :=
  match lex with
  | String c rest => String (toupper c) (upper rest)
  | EmptyString => EmptyString
  end.

(** [keyword_or_ident]: the lexeme is compared in upper case.  The source
    copies up to 63 characters to [temp[64]] and stores the closing NUL at
    [temp[strlen (lex)]]: for a lexeme of 63 characters or fewer [temp]
    holds the whole lexeme in upper case, as here.  For a lexeme of 64
    characters or more that store is outside [temp] and the behaviour of
    the program is undefined; the function below gives [IDENTIFIER] there,
    and what is stated of whole runs of the tokenizer is stated of texts
    whose names are shorter ([longest_name]). *)
Definition keyword_or_ident (lex : string) : string :=
  let temp := upper lex in
  if temp =? "VOID" then "VOID"
  else if temp =? "CHAR" then "CHAR"
  else if temp =? "INT" then "INT"
  else if temp =? "IF" then "IF"
  else if temp =? "ELSE" then "ELSE"
  else if temp =? "WHILE" then "WHILE"
  else if temp =? "FOR" then "FOR"
  else if temp =? "MAIN" then "MAIN"
  else "IDENTIFIER".

(** [buf[i++] = c] when [i < limit], with [i] the length of [buf]. *)
Definition push (limit : nat) (buf : string) (c : ascii) : string :=
  if (String.length buf <? limit)%nat
  then String.append buf (String c EmptyString)
  else buf.

(** The body of a comment: [(true, st)] once the closing star and slash are
    read, [(false, st)] at the end of the input. *)
Fixpoint comment_loop (fuel : nat) (prev : option ascii) (st : LexState)
    : option (bool * LexState) :=
  match fuel with
  | O => None
  | S fuel' =>
      let '(cur, st) := getc_track st in
      match cur with
      | None => Some (false, st)
      | Some c =>
          if match prev with Some p => (p =? "*")%char | None => false end
             && (c =? "/")%char
          then Some (true, st)
          else comment_loop fuel' cur st
      end
  end.

Fixpoint skip_ws_and_comments (fuel : nat) (st : LexState)
    : option LexState :=
  match fuel with
  | O => None
  | S fuel' =>
      let '(c, st) := getc_track st in
      match c with
      | None => Some st
      | Some ch =>
          if isspace ch then skip_ws_and_comments fuel' st
          else if (ch =? "/")%char then
            let '(d, st) := getc_track st in
            if match d with Some dc => (dc =? "*")%char | None => false end
            then
              let start_line := line_no st in
              r <- comment_loop fuel' None st ;;
              let '(closed, st) := r in
              if negb closed
              then Some (report start_line "Un-terminated comments" st)
              else skip_ws_and_comments fuel' st
            else Some (ungetc_track c (ungetc_track d st))
          else Some (ungetc_track c st)
      end
  end.

(** The [for (;;)] loop of [scan_string]; [buf] has room for 1024
    characters. *)
Fixpoint scan_string_loop (fuel : nat) (buf : string) (start_line : Z)
    (st : LexState) : option LexState :=
  match fuel with
  | O => None
  | S fuel' =>
      let '(c, st) := getc_track st in
      match c with
      | None => Some (report start_line "String constants exceed line" st)
      | Some ch =>
          if (ch =? NL)%char
          then Some (report start_line "String constants exceed line" st)
          else if (ch =? DQUOTE)%char
          then Some (emit "STRING_CONST" buf start_line st)
          else if (ch =? BACKSLASH)%char then
            let '(e, st) := getc_track st in
            match e with
            | None =>
                Some (report start_line "String constants exceed line" st)
            | Some ec =>
                if (ec =? NL)%char
                then Some (report start_line "String constants exceed line" st)
                else
                  scan_string_loop fuel'
                    (if (String.length buf <? 1022)%nat
                     then String.append buf
                            (String BACKSLASH (String ec EmptyString))
                     else buf)
                    start_line st
            end
          else scan_string_loop fuel' (push 1023 buf ch) start_line st
      end
  end.

(** [scan_string]: called when the opening quote has been read. *)
Definition scan_string (fuel : nat) (st : LexState) : option LexState :=
  scan_string_loop fuel EmptyString (line_no st) st.

(** [while (c != EOF && c != '\n' && c != '\'') c = getc_track ();] *)
Fixpoint skip_to_quote (fuel : nat) (c : option ascii) (st : LexState)
    : option LexState :=
  match fuel with
  | O => None
  | S fuel' =>
      match c with
      | None => Some st
      | Some ch =>
          if (ch =? NL)%char || (ch =? SQUOTE)%char then Some st
          else let '(c, st) := getc_track st in skip_to_quote fuel' c st
      end
  end.

Definition is_char (c : option ascii) (x : ascii) : bool :=
  match c with
  | Some ch => (ch =? x)%char
  | None => false
  end.

Definition scan_char (fuel : nat) (st : LexState) : option LexState :=
  let start_line := line_no st in
  let '(c, st) := getc_track st in
  if is_char c BACKSLASH then
    let '(e, st) := getc_track st in
    match e with
    | None => Some (report start_line "Char constant too long" st)
    | Some ec =>
        if (ec =? NL)%char
        then Some (report start_line "Char constant too long" st)
        else
          let buf := String BACKSLASH (String ec EmptyString) in
          let '(c, st) := getc_track st in
          if negb (is_char c SQUOTE)
          then skip_to_quote fuel c
                 (report start_line "Char constant too long" st)
          else Some (emit "CHAR_CONST" buf start_line st)
    end
  else
    match c with
    | None => Some (report start_line "Char constant too long" st)
    | Some ch =>
        if (ch =? SQUOTE)%char || (ch =? NL)%char
        then Some (report start_line "Char constant too long" st)
        else
          let '(e, st) := getc_track st in
          if negb (is_char e SQUOTE)
          then skip_to_quote fuel e
                 (report start_line "Char constant too long" st)
          else Some (emit "CHAR_CONST" (String ch EmptyString) start_line st)
    end.

Fixpoint skip_line_after_error (fuel : nat) (st : LexState)
    : option LexState :=
  match fuel with
  | O => None
  | S fuel' =>
      let '(c, st) := getc_track st in
      match c with
      | None => Some st
      | Some ch =>
          if (ch =? NL)%char then Some st else skip_line_after_error fuel' st
      end
  end.

(** The loops that collect an identifier or a number ([buf] has room for
    256 characters). *)
Fixpoint scan_run (fuel : nat) (part : option ascii -> bool) (buf : string)
    (st : LexState) : option (string * LexState) :=
  match fuel with
  | O => None
  | S fuel' =>
      let '(d, st) := getc_track st in
      if negb (part d) then Some (buf, ungetc_track d st)
      else
        match d with
        | Some dc => scan_run fuel' part (push 255 buf dc) st
        | None => Some (buf, st)
        end
  end.

Definition is_digit_int (c : option ascii) : bool :=
  match c with
  | Some ch => isdigit ch
  | None => false
  end.

(** The single-character operators and punctuation of [main]. *)
Definition punctuation (c : ascii) : option (string * string) :=
  if (c =? "+")%char then Some ("PLUS", "+")
  else if (c =? "-")%char then Some ("MINUS", "-")
  else if (c =? "*")%char then Some ("STAR", "*")
  else if (c =? "/")%char then Some ("SLASH", "/")
  else if (c =? ">")%char then Some ("GT", ">")
  else if (c =? "<")%char then Some ("LT", "<")
  else if (c =? "(")%char then Some ("LPAREN", "(")
  else if (c =? ")")%char then Some ("RPAREN", ")")
  else if (c =? "{")%char then Some ("LBRACE", "{")
  else if (c =? "}")%char then Some ("RBRACE", "}")
  else if (c =? "[")%char then Some ("LBRACKET", "[")
  else if (c =? "]")%char then Some ("RBRACKET", "]")
  else if (c =? ";")%char then Some ("SEMICOLON", ";")
  else if (c =? ",")%char then Some ("COMMA", ",")
  else None.

(** One turn of the [for (;;)] loop of [main]: [(true, st)] when the loop
    goes on, [(false, st)] at the [break]. *)
Definition main_step (fuel : nat) (st : LexState)
    : option (bool * LexState) :=
  st <- skip_ws_and_comments fuel st ;;
  let '(c, st) := getc_track st in
  match c with
  | None => Some (false, st)
  | Some ch =>
      if is_ident_start c then
        r <- scan_run fuel is_ident_part (String ch EmptyString) st ;;
        let '(buf, st) := r in
        Some (true, emit (keyword_or_ident buf) buf (line_no st) st)
      else if isdigit ch then
        r <- scan_run fuel is_digit_int (String ch EmptyString) st ;;
        let '(buf, st) := r in
        Some (true, emit "INT_CONST" buf (line_no st) st)
      else if (ch =? DQUOTE)%char then
        st <- scan_string fuel st ;; Some (true, st)
      else if (ch =? SQUOTE)%char then
        st <- scan_char fuel st ;; Some (true, st)
      else if (ch =? "=")%char then
        let '(d, st) := getc_track st in
        if is_char d "="%char
        then Some (true, emit "EQ" "==" (line_no st) st)
        else
          let st := ungetc_track d st in
          Some (true, emit "ASSIGN" "=" (line_no st) st)
      else
        match punctuation ch with
        | Some (tok, lex) => Some (true, emit tok lex (line_no st) st)
        | None =>
            st <- skip_line_after_error fuel
                    (report (line_no st) "Undefined symbol" st) ;;
            Some (true, st)
        end
  end.

Fixpoint main_loop (fuel : nat) (st : LexState) : option LexState :=
  match fuel with
  | O => None
  | S fuel' =>
      r <- main_step fuel' st ;;
      let '(continue, st) := r in
      if continue then main_loop fuel' st else Some st
  end.

(** [main] on the characters of the source file. *)
Definition main (fuel : nat) (source : string) : option LexState :=
  main_loop fuel (mkLex source 1%Z [] []).

(** *** The text of [tokens.txt] *)

(** The conversion [%d] of [fprintf]: the decimal digits of the number,
    after a minus sign when it is negative.  [print_digits fuel n acc]
    writes the digits of [n] in front of [acc]; a number below [2 ^ fuel]
    has no more than [fuel] digits. *)
Fixpoint print_digits (fuel : nat) (n : Z) (acc : string) : string :=
  match fuel with
  | O => acc
  | S fuel' =>
      let acc := String (ascii_of_nat (48 + Z.to_nat (n mod 10))) acc in
      if (n <? 10)%Z then acc else print_digits fuel' (n / 10) acc
  end.

Definition print_int (n : Z) : string :=
  if (n <? 0)%Z
  then String "-"%char
         (print_digits (S (Z.to_nat (Z.log2 (- n)))) (- n) EmptyString)
  else print_digits (S (Z.to_nat (Z.log2 n))) n EmptyString.

(** [fprintf (out, "%s\t%s\t%d\n", tok, lex, line)] *)
Definition print_row (t : Tok) : string :=
  String.append (token t)
    (String "009"%char
       (String.append (lexeme t)
          (String "009"%char
             (String.append (print_int (line t))
                (String NL EmptyString))))).

Fixpoint print_rows (l : list Tok) : string :=
  match l with
  | [] => EmptyString
  | t :: l' => String.append (print_row t) (print_rows l')
  end.

(** The header line that [main] writes first. *)
Definition header_line : string :=
  String.append "Token"
    (String "009"%char
       (String.append "Lexeme"
          (String "009"%char (String.append "Line No" (String NL EmptyString))))).

(** The file [tokens.txt] that holds the tokens [l]. *)
Definition tokens_txt (l : list Tok) : string :=
  String.append header_line (print_rows l).

End Lexical.

(** ** Vocabulary of the statements *)

(** The parser moved on, over the same token stream. *)
Definition adv (s s' : State) : Prop :=
  toks s' = toks s /\ pos s <= pos s'.

(** The same, and a token was passed when there was one. *)
Definition prog (s s' : State) : Prop :=
  toks s' = toks s /\ pos s <= pos s' /\ (pos s < ntok s -> pos s < pos s').

(** What a call wrote to [stderr]. *)
Definition reported (s s' : State) (l : list (Z * string)) : Prop :=
  stderr s' = stderr s ++ l /\
  error_count s' = (error_count s + Z.of_nat (length l))%Z.


(** ** Token streams and tables used as examples *)

Definition T (kind lex : string) (ln : Z) : Tok := mkTok kind lex ln.

(** [int main(void){ }] *)
Definition minimal_program : list Tok :=
  [T "INT" "int" 1; T "MAIN" "main" 1; T "LPAREN" "(" 1; T "VOID" "void" 1;
   T "RPAREN" ")" 1; T "LBRACE" "{" 1; T "RBRACE" "}" 1].

(** [int x;] on line 1, [int x;] on line 2, [int main(void){ }] on line 3 *)
Definition duplicate_program : list Tok :=
  [T "INT" "int" 1; T "IDENTIFIER" "x" 1; T "SEMICOLON" ";" 1;
   T "INT" "int" 2; T "IDENTIFIER" "x" 2; T "SEMICOLON" ";" 2;
   T "INT" "int" 3; T "MAIN" "main" 3; T "LPAREN" "(" 3; T "VOID" "void" 3;
   T "RPAREN" ")" 3; T "LBRACE" "{" 3; T "RBRACE" "}" 3].

(** The rest of the expression [y + 1 * z;] after [y], an undeclared name:
    the running type is [TYPE_ERROR]. *)
Definition after_undeclared : State :=
  mkState [T "IDENTIFIER" "y" 4; T "PLUS" "+" 4; T "INT_CONST" "1" 4;
           T "STAR" "*" 4; T "IDENTIFIER" "z" 4; T "SEMICOLON" ";" 4]
          1 [mkSym "z" "Char" "Main" 0] "Main" 1
          [(4%Z, "Undeclared identifier.")].

(** A global [int x] and a parameter [char x], inside the function body, at
    the reference [x] of the statement [x;]. *)
Definition shadowed : State :=
  mkState [T "IDENTIFIER" "x" 3; T "SEMICOLON" ";" 3] 0
          [mkSym "x" "Int" "Global" 0; mkSym "main" "Function" "Global" 0;
           mkSym "x" "Char" "Main" 0]
          "Main" 0 [].


(** Two tokens on line 7 followed by one on line 8, the cursor on the
    first. *)
Definition ordered_lines : State :=
  init_state [T "RPAREN" ")" 7; T "IDENTIFIER" "y" 7; T "IDENTIFIER" "z" 8].

(** The cursor behind the last token, which is on line 5. *)
Definition at_end : State :=
  mkState [T "LBRACE" "{" 5] 1 [] "Main" 0 [].

(** [while (y) { }] on line 5 of the function body, [y] declared [char]. *)
Definition while_char : State :=
  mkState [T "WHILE" "while" 5; T "LPAREN" "(" 5; T "IDENTIFIER" "y" 5;
           T "RPAREN" ")" 5; T "LBRACE" "{" 5; T "RBRACE" "}" 5]
          0 [mkSym "main" "Function" "Global" 0; mkSym "y" "Char" "Main" 0]
          "Main" 0 [].

(** A string literal with a blank inside, then a semicolon. *)
Definition spaced_tokens : list Tok :=
  [T "STRING_CONST" "a b" 1; T "SEMICOLON" ";" 1].

(** The tokens of the source text [int x;]. *)
Definition int_x_tokens : list Tok :=
  [T "INT" "int" 1; T "IDENTIFIER" "x" 1; T "SEMICOLON" ";" 1].

(** The source text [say "hi you";] and its tokens. *)
Definition say_hi_source : string :=
  String.append "say "
    (String Lexical.DQUOTE (String.append "hi you" (String Lexical.DQUOTE ";"))).

Definition say_hi_tokens : list Tok :=
  [T "IDENTIFIER" "say" 1; T "STRING_CONST" "hi you" 1; T "SEMICOLON" ";" 1].

(** The tokens of [int x; int x; int main (void) { char x; }]. *)
Definition shadowing_program : list Tok :=
  [mkTok "INT" "int" 1; mkTok "IDENTIFIER" "x" 1; mkTok "SEMICOLON" ";" 1;
   mkTok "INT" "int" 2; mkTok "IDENTIFIER" "x" 2; mkTok "SEMICOLON" ";" 2;
   mkTok "INT" "int" 3; mkTok "MAIN" "main" 3; mkTok "LPAREN" "(" 3;
   mkTok "VOID" "void" 3; mkTok "RPAREN" ")" 3; mkTok "LBRACE" "{" 3;
   mkTok "CHAR" "char" 4; mkTok "IDENTIFIER" "x" 4; mkTok "SEMICOLON" ";" 4;
   mkTok "RBRACE" "}" 5].

(** A name of 128 characters, and the tokens of
    [int a...a; int a...a; int main (void) { a...a = 1; }]. *)
Definition long_name : string :=
  string_of_list_ascii (repeat "a"%char 128).

Definition long_name_program : list Tok :=
  [mkTok "INT" "int" 1; mkTok "IDENTIFIER" long_name 1;
   mkTok "SEMICOLON" ";" 1;
   mkTok "INT" "int" 2; mkTok "IDENTIFIER" long_name 2;
   mkTok "SEMICOLON" ";" 2;
   mkTok "INT" "int" 3; mkTok "MAIN" "main" 3; mkTok "LPAREN" "(" 3;
   mkTok "VOID" "void" 3; mkTok "RPAREN" ")" 3; mkTok "LBRACE" "{" 3;
   mkTok "IDENTIFIER" long_name 4; mkTok "ASSIGN" "=" 4;
   mkTok "INT_CONST" "1" 4; mkTok "SEMICOLON" ";" 4;
   mkTok "RBRACE" "}" 5].

(** The tokens of [int x; int main (void) { x = 'c'; y = ; }]. *)
Definition mixed_errors_program : list Tok :=
  [mkTok "INT" "int" 1; mkTok "IDENTIFIER" "x" 1; mkTok "SEMICOLON" ";" 1;
   mkTok "INT" "int" 2; mkTok "MAIN" "main" 2; mkTok "LPAREN" "(" 2;
   mkTok "VOID" "void" 2; mkTok "RPAREN" ")" 2; mkTok "LBRACE" "{" 2;
   mkTok "IDENTIFIER" "x" 3; mkTok "ASSIGN" "=" 3; mkTok "CHAR_CONST" "c" 3;
   mkTok "SEMICOLON" ";" 3;
   mkTok "IDENTIFIER" "y" 4; mkTok "ASSIGN" "=" 4; mkTok "SEMICOLON" ";" 4;
   mkTok "RBRACE" "}" 5].

(** The tokens of [int main (void) { }] and two more behind the closing
    brace. *)
Definition trailing_program : list Tok :=
  [mkTok "INT" "int" 1; mkTok "MAIN" "main" 1; mkTok "LPAREN" "(" 1;
   mkTok "VOID" "void" 1; mkTok "RPAREN" ")" 1; mkTok "LBRACE" "{" 1;
   mkTok "RBRACE" "}" 2; mkTok "RBRACE" "}" 3; mkTok "IDENTIFIER" "junk" 3].

Definition MULTIPLE : string := "Multiple declarations of same identifier.".

(** A row of [tokens.txt] as the tokenizer writes it: the three fields
    separated by tabs, then a newline. *)
Definition TAB : string := String "009"%char EmptyString.
Definition NEWLINE : string := String "010"%char EmptyString.

Definition row (kind lex ln : string) : string :=
  String.append kind (String.append TAB (String.append lex
    (String.append TAB (String.append ln NEWLINE)))).

Fixpoint concat_rows (rows : list string) : string :=
  match rows with
  | [] => EmptyString
  | r :: rows' => String.append r (concat_rows rows')
  end.

(** The header line that the tokenizer writes first. *)
Definition header : string :=
  String.append "Token" (String.append TAB (String.append "Lexeme"
    (String.append TAB (String.append "Line No" NEWLINE)))).

(** The rows of the tokens of [int main(void){ }], without a header. *)
Definition minimal_rows : string :=
  concat_rows
    [row "INT" "int" "1"; row "MAIN" "main" "1"; row "LPAREN" "(" "1";
     row "VOID" "void" "1"; row "RPAREN" ")" "1"; row "LBRACE" "{" "1";
     row "RBRACE" "}" "1"].

(** The body of a string literal, after its opening quote, is left open:
    reading it character by character, a backslash and the character after
    it taken together, the end of the line or of the input comes before a
    double quote. *)
Fixpoint unterminated (body : string) : bool :=
  match body with
  | EmptyString => true
  | String c rest =>
      if (c =? Lexical.NL)%char then true
      else if (c =? Lexical.DQUOTE)%char then false
      else if (c =? Lexical.BACKSLASH)%char then
        match rest with
        | EmptyString => true
        | String e rest' =>
            if (e =? Lexical.NL)%char then true else unterminated rest'
        end
      else unterminated rest
  end.

(** The text behind the first newline of a text; nothing when it has
    none. *)
Fixpoint behind_newline (str : string) : string :=
  match str with
  | EmptyString => EmptyString
  | String c rest =>
      if (c =? Lexical.NL)%char then rest else behind_newline rest
  end.

(** 1 when a text has a newline, 0 when it has none. *)
Fixpoint newline_ahead (str : string) : Z :=
  match str with
  | EmptyString => 0%Z
  | String c rest =>
      if (c =? Lexical.NL)%char then 1%Z else newline_ahead rest
  end.

(** No double quote at all before the end of the line or of the input. *)
Fixpoint no_quote_on_line (body : string) : bool :=
  match body with
  | EmptyString => true
  | String c rest =>
      if (c =? Lexical.NL)%char then true
      else if (c =? Lexical.DQUOTE)%char then false
      else no_quote_on_line rest
  end.

(** The number of newlines of a text, and the line number that the end of
    the input will have: the current line number plus the newlines still
    to be read. *)
Fixpoint count_newlines (str : string) : nat :=
  match str with
  | EmptyString => 0
  | String c rest =>
      if (c =? Lexical.NL)%char then S (count_newlines rest)
      else count_newlines rest
  end.

Definition last_line (st : Lexical.LexState) : Z :=
  (Lexical.line_no st + Z.of_nat (count_newlines (Lexical.input st)))%Z.


(** The tokenizer read on and wrote at most one token, whose line number
    lies between the line numbers before and after. *)
Definition one_token (st st' : Lexical.LexState) : Prop :=
  (Lexical.line_no st <= Lexical.line_no st')%Z /\
  (Lexical.out st' = Lexical.out st \/
   exists t, Lexical.out st' = Lexical.out st ++ [t] /\
             (Lexical.line_no st <= line t <= Lexical.line_no st')%Z).


(** The number of characters still to be read. *)
Definition remaining (st : Lexical.LexState) : nat :=
  String.length (Lexical.input st).

Definition EXCEED : string := "String constants exceed line".

(** The source text of three lines whose second line is [x = ] followed by
    a double quote and [abc]. *)
Definition open_string_source : string :=
  String.append "int x;"
    (String.append NEWLINE
       (String.append "x = "
          (String Lexical.DQUOTE
             (String.append "abc" (String.append NEWLINE "x;"))))).

(** The names [v], [v0], [v1], [v00], ...: one for each positive number. *)
Fixpoint binary_digits (p : positive) : string :=
  match p with
  | xH => EmptyString
  | xO q => String "0"%char (binary_digits q)
  | xI q => String "1"%char (binary_digits q)
  end.

Definition nth_name (i : nat) : string :=
  String "v"%char (binary_digits (Pos.of_succ_nat i)).

(** The table after [MAXSYM] declarations [int v; int v0; ...] at global
    scope, as [add_symbol] of [semantic_analyser.c] builds it. *)
Definition full_table : State :=
  Eval vm_compute in
  fold_left
    (fun s i => Semantic.add_symbol (nth_name i) "Int" "Global" 0 1 s)
    (seq 0 MAXSYM) (init_state []).

(** The same as [add_symbol] of [sematic_analyser.c] builds it. *)
Definition full_table' : State :=
  Eval vm_compute in
  fold_left
    (fun s i => Sematic.add_symbol (nth_name i) "Int" "Global" 0 s)
    (seq 0 MAXSYM) (init_state []).

(** [y] is a symbol called [name] in scope [sc]. *)
Definition named_in (name sc : string) (y : Sym) : Prop :=
  sym_lexeme y = name /\ sym_scope y = sc.

Definition INTEGER_EXPECTED : string :=
  "Integer expected in conditional expression.".

(** The table grew by symbols of the current scope only, and the scope
    register is what it was. *)
Definition grows (s s' : State) : Prop :=
  cur_scope s' = cur_scope s /\
  exists l, symtab s' = symtab s ++ l /\
            Forall (fun y => sym_scope y = snprintf 64 (cur_scope s)) l.

(** Only [stderr] and [error_count] changed. *)
Definition only_reports (s s' : State) : Prop :=
  toks s' = toks s /\ pos s' = pos s /\ symtab s' = symtab s /\
  cur_scope s' = cur_scope s.


Definition MISMATCH : string := "Type mismatch in statement or expression.".

(** ** Rows of the token file *)

(** No white space in a text; digits only. *)
Fixpoint no_space (str : string) : bool :=
  match str with
  | EmptyString => true
  | String c rest => negb (isspace c) && no_space rest
  end.

Fixpoint all_digits (str : string) : bool :=
  match str with
  | EmptyString => true
  | String c rest => isdigit c && all_digits rest
  end.

(** A word of at most [n] characters: not empty, no white space. *)
Definition word (n : nat) (str : string) : Prop :=
  str <> EmptyString /\ no_space str = true /\ String.length str <= n.

(** A token whose kind and lexeme are words that the buffers of the
    loaders hold, on a line number that an [int] holds. *)
Definition plain (t : Tok) : Prop :=
  word 31 (token t) /\ word 255 (lexeme t) /\ (0 <= line t < 2 ^ 31)%Z.

(** Neither a tab nor a newline in a text. *)
Fixpoint no_tab_newline (str : string) : bool :=
  match str with
  | EmptyString => true
  | String c rest =>
      negb ((c =? "009")%char || (c =? "010")%char) && no_tab_newline rest
  end.

(** A lexeme of at most [n] characters that may hold blanks after its
    first character, but neither a tab nor a newline. *)
Definition field (n : nat) (str : string) : Prop :=
  match str with
  | EmptyString => False
  | String c _ => isspace c = false
  end /\
  no_tab_newline str = true /\ String.length str <= n.

Definition spaced (t : Tok) : Prop :=
  word 31 (token t) /\ field 255 (lexeme t) /\ (0 <= line t < 2 ^ 31)%Z.

(** What the arrays [token[32]] and [lexeme[256]] of a token hold after
    [load_tokens] of [semantic_analyser.c], and after [read_tokens] of
    [syntax_analyser.c]. *)
Definition fits (t : Tok) : Prop := word 31 (token t) /\ word 255 (lexeme t).

Definition fits_row (t : Tok) : Prop :=
  word 31 (token t) /\
  no_tab_newline (lexeme t) = true /\ String.length (lexeme t) <= 255.

(** ** Tokens as the tokenizer writes them *)

Fixpoint all_chars (p : ascii -> bool) (str : string) : bool :=
  match str with
  | EmptyString => true
  | String c rest => p c && all_chars p rest
  end.

Definition ident_part (c : ascii) : bool := Lexical.is_ident_part (Some c).

(** The operators and the punctuation, each kind with its lexeme. *)
Definition operators : list (string * string) :=
  [("EQ", "=="); ("ASSIGN", "="); ("PLUS", "+"); ("MINUS", "-");
   ("STAR", "*"); ("SLASH", "/"); ("GT", ">"); ("LT", "<");
   ("LPAREN", "("); ("RPAREN", ")"); ("LBRACE", "{"); ("RBRACE", "}");
   ("LBRACKET", "["); ("RBRACKET", "]"); ("SEMICOLON", ";"); ("COMMA", ",")].

(** A name: a letter or an underscore, then letters, digits and
    underscores, no more than 255 characters in all. *)
Definition name_shape (lex : string) : Prop :=
  exists c r, lex = String c r /\
              Lexical.is_ident_start (Some c) = true /\
              all_chars ident_part r = true /\ String.length lex <= 255.

(** The number of letters, digits and underscores that a text starts
    with; the length of the name that a text starts with (0 when it starts
    with no letter and no underscore); and the length of the longest name
    that starts anywhere in a text: no name that the tokenizer collects is
    longer. *)
Fixpoint word_ahead (str : string) : nat :=
  match str with
  | String c rest => if ident_part c then S (word_ahead rest) else 0
  | EmptyString => 0
  end.

Definition name_ahead (str : string) : nat :=
  match str with
  | String c rest =>
      if Lexical.is_ident_start (Some c) then S (word_ahead rest) else 0
  | EmptyString => 0
  end.

Fixpoint longest_name (str : string) : nat :=
  match str with
  | String c rest => Nat.max (name_ahead str) (longest_name rest)
  | EmptyString => 0
  end.

(** The buffer of a character constant: one character that is no quote, no
    newline and no backslash, or a backslash and one character that is no
    newline. *)
Definition char_shape (buf : string) : Prop :=
  (exists c, buf = String c EmptyString /\ c <> Lexical.SQUOTE /\
             c <> Lexical.NL /\ c <> Lexical.BACKSLASH) \/
  (exists e, buf = String Lexical.BACKSLASH (String e EmptyString) /\
             e <> Lexical.NL).

(** No NUL byte in a text. *)
Definition not_nul (c : ascii) : bool := negb (c =? Lexical.NUL)%char.

(** The five shapes of a token: a keyword or an identifier of no more than
    [k] characters, a number, a string, a character constant (what [%s]
    prints of its buffer), an operator. *)
Definition token_shape (k : nat) (t : Tok) : Prop :=
  (token t = Lexical.keyword_or_ident (lexeme t) /\ name_shape (lexeme t) /\
   String.length (lexeme t) <= k) \/
  (token t = "INT_CONST" /\ lexeme t <> EmptyString /\
   all_digits (lexeme t) = true /\ String.length (lexeme t) <= 255) \/
  (token t = "STRING_CONST" /\ count_newlines (lexeme t) = 0 /\
   String.length (lexeme t) <= 1023) \/
  (token t = "CHAR_CONST" /\
   exists buf, char_shape buf /\ lexeme t = Lexical.c_string buf) \/
  In (token t, lexeme t) operators.

(** A row as the tokenizer writes it: one of the five shapes, and no NUL
    byte in the lexeme. *)
Definition well_formed (k : nat) (t : Tok) : Prop :=
  all_chars not_nul (lexeme t) = true /\ token_shape k t.

(** From [st] to [st'] the tokenizer read on, [pre] being what it read, and
    wrote no more than [n] rows and messages in all; the tokens are well
    formed, no name longer than the longest name that was still to be
    read, and the line numbers of tokens and messages lie between the line
    numbers of the two states. *)
Definition lexed (n : nat) (st st' : Lexical.LexState) : Prop :=
  (Lexical.line_no st <= Lexical.line_no st')%Z /\
  remaining st' <= remaining st /\
  (exists pre, Lexical.input st = String.append pre (Lexical.input st')) /\
  exists lo le,
    Lexical.out st' = Lexical.out st ++ lo /\
    Lexical.err st' = Lexical.err st ++ le /\
    length lo + length le <= n /\
    Forall (fun t => well_formed (longest_name (Lexical.input st)) t /\
                     (Lexical.line_no st <= line t <= Lexical.line_no st')%Z)
           lo /\
    Forall (fun e => (Lexical.line_no st <= fst e <= Lexical.line_no st')%Z)
           le.

(** ** Texts that the tokenizer reads *)

(** The first character of a text, [None] for the empty text. *)
Definition first_char (str : string) : option ascii :=
  match str with
  | String c _ => Some c
  | EmptyString => None
  end.

Definition starts_with (c : ascii) (str : string) : bool :=
  match str with
  | String x _ => (x =? c)%char
  | EmptyString => false
  end.

(** A star followed by a slash somewhere in a text; and a star read
    before a text that starts with a slash. *)
Fixpoint closed_in (str : string) : bool :=
  match str with
  | EmptyString => false
  | String c rest =>
      ((c =? "*")%char && starts_with "/" rest) || closed_in rest
  end.

Definition star_slash (prev : option ascii) (str : string) : bool :=
  match prev with
  | Some p => (p =? "*")%char && starts_with "/" str
  | None => false
  end.

(** A character that a string constant holds as it is: no newline, no
    double quote, no backslash. *)
Definition text_char (c : ascii) : bool :=
  negb ((c =? Lexical.NL)%char || (c =? Lexical.DQUOTE)%char ||
        (c =? Lexical.BACKSLASH)%char).

(** ** What a parser does to its state *)

(** The messages of [syn_error] and of [semantic_error]. *)
Definition syntax_messages : list string :=
  ["Right bracket expected"; "Identifier or integer constant expected";
   "Identifier expected"; "Semicolon expected"; "{ expected"; "{ missing";
   "} missing"; "IF expected"; "WHILE expected"; "FOR expected";
   "Opening parenthesis missing"; "Closing parenthesis missing";
   "MAIN expected"; "Any keyword expected"].

Definition semantic_messages : list string :=
  ["Undeclared identifier."; "Type mismatch in statement or expression.";
   "Integer expected in conditional expression.";
   "Multiple declarations of same identifier."].



(** A line number that a message may carry: that of a token of the stream,
    that of the token made up at its end, or 0. *)
Definition known_line (eofl : Z) (l : list Tok) (ln : Z) : Prop :=
  ln = eofl \/ ln = 0%Z \/ exists t, In t l /\ line t = ln.

(** The type names that [norm_type_token] gives for a type token. *)
Definition type_names : list string := ["Void"; "Char"; "Int"].

(** The calls of [add_symbol] in [semantic_analyser.c]: a declarator or a
    parameter, named by an [IDENTIFIER] token of the stream, with a type
    name, in the current scope or in [Main]; and [main] itself, at the line
    of its [MAIN] token. *)
Definition semantic_adds (s s' : State) : Prop :=
  exists name ty sc arrsz t,
    s' = Semantic.add_symbol name ty sc arrsz (line t) s /\
    In t (toks s) /\
    ((token t = "IDENTIFIER" /\ name = lexeme t /\ In ty type_names /\
      (sc = cur_scope s \/ sc = "Main")) \/
     (token t = "MAIN" /\ name = "main" /\ ty = "Function" /\
      sc = "Global")).

(** The calls of [add_symbol] in the other two parsers. *)
Definition sematic_adds (s s' : State) : Prop :=
  exists name ty sc arrsz, s' = Sematic.add_symbol name ty sc arrsz s.

Definition syntax_adds (s s' : State) : Prop :=
  exists name ty sc arrsz, s' = Syntax.add_symbol name ty sc arrsz s.

(** The steps of a parser: it passes a token, reports a
    syntax error (and skips), reports a semantic error (one of [SEM]) at a
    known line, calls [add_symbol] (as [ADD] says), or sets the scope
    register. *)
Section Steps.

Variable eofl : Z.
Variable SEM : list string.
Variable ADD : State -> State -> Prop.

Inductive steps : State -> State -> Prop :=
  | steps_refl (s : State) : steps s s
  | steps_trans (s1 s2 s3 : State) :
      steps s1 s2 -> steps s2 s3 -> steps s1 s3
  | steps_consume (s : State) : steps s (snd (Cursor.consume eofl s))
  | steps_syn_error (msg : string) (s : State) :
      In msg syntax_messages -> steps s (Cursor.syn_error eofl msg s)
  | steps_semantic_error (msg : string) (ln : Z) (s : State) :
      In msg SEM -> known_line eofl (toks s) ln ->
      steps s (semantic_error msg ln s)
  | steps_add (s s' : State) : ADD s s' -> steps s s'
  | steps_scope (sc : string) (s : State) :
      sc = "Main" \/ sc = "Global" -> steps s (set_cur_scope sc s).

End Steps.

(** What every run keeps in order: the token stream is not touched and the
    cursor stays inside it, the table and [stderr] only grow, the table
    within its [MAXSYM] entries, [error_count] counts the lines written to
    [stderr], and each of them carries a known line and one of the
    messages [msgs]. *)
Definition orderly (eofl : Z) (msgs : list string) (s s' : State) : Prop :=
  toks s' = toks s /\
  (pos s <= ntok s -> pos s' <= ntok s') /\
  (exists l, symtab s' = symtab s ++ l) /\
  (nsym s <= MAXSYM -> nsym s' <= MAXSYM) /\
  exists l,
    stderr s' = stderr s ++ l /\
    error_count s' = (error_count s + Z.of_nat (length l))%Z /\
    Forall (fun e => known_line eofl (toks s) (fst e) /\ In (snd e) msgs) l.

(** ** What a run leaves in the table *)

(** The key of [lookup_symbol] and of the duplicate check: name and scope. *)
Definition symbol_key (y : Sym) : string * string :=
  (sym_lexeme y, sym_scope y).

(** A symbol as [semantic_analyser.c] enters it for the tokens [l]: a
    variable of one of the three types, named by an [IDENTIFIER] token, in
    one of the two scopes; or the function [main]. *)
Definition entered_from (l : list Tok) (y : Sym) : Prop :=
  (In (sym_type y) type_names /\
   In (sym_scope y) ["Global"; "Main"] /\
   exists t, In t l /\ token t = "IDENTIFIER" /\ lexeme t = sym_lexeme y) \/
  (sym_type y = "Function" /\ sym_scope y = "Global" /\
   sym_lexeme y = "main" /\ exists t, In t l /\ token t = "MAIN").

(** The table of a run of [semantic_analyser.c] over the tokens [l]. *)
Definition semantic_table (l : list Tok) (s : State) : Prop :=
  toks s = l /\ In (cur_scope s) ["Global"; "Main"] /\
  NoDup (map symbol_key (symtab s)) /\
  Forall (entered_from l) (symtab s).

(** No name in the table is longer than the 127 characters that [snprintf]
    leaves of it. *)
Definition names_cut (s : State) : Prop :=
  Forall (fun y => String.length (sym_lexeme y) <= 127) (symtab s).

(** ** The same syntax in two runs *)

(** A line of [stderr] that [syn_error] wrote. *)
Definition syntactic (e : Z * string) : bool :=
  negb (existsb (String.eqb (snd e)) semantic_messages).

(** Two states that agree on what the syntax analysis sees and says: the
    tokens, the cursor, the syntax errors reported. *)
Definition same_syntax (s1 s2 : State) : Prop :=
  toks s1 = toks s2 /\ pos s1 = pos s2 /\
  filter syntactic (stderr s1) = filter syntactic (stderr s2).

(** Two calls that both run out of fuel, or both return, in states that
    agree. *)
Definition same_result (r1 r2 : option State) : Prop :=
  match r1, r2 with
  | Some s1, Some s2 => same_syntax s1 s2
  | None, None => True
  | _, _ => False
  end.

(** Every [MAIN] token of the list is followed by [LPAREN] and [VOID]:
    the program is written [main (void]. *)
Fixpoint main_void (l : list Tok) : bool :=
  match l with
  | [] => true
  | t :: rest =>
      (if token t =? "MAIN" then
         match rest with
         | t1 :: t2 :: _ => (token t1 =? "LPAREN") && (token t2 =? "VOID")
         | _ => false
         end
       else true) && main_void rest
  end.

(** Two calls that both return, with the cursor at the same token and the
    same syntax errors reported. *)
Definition agree_on_syntax (r1 r2 : option State) : Prop :=
  exists b c,
    r1 = Some b /\ r2 = Some c /\ pos b = pos c /\
    filter syntactic (stderr b) = filter syntactic (stderr c).

(** A character that a character constant holds as it is: no single
    quote, no newline, no backslash. *)
Definition plain_char (c : ascii) : bool :=
  negb ((c =? Lexical.SQUOTE)%char || (c =? Lexical.NL)%char ||
        (c =? Lexical.BACKSLASH)%char).

(** A character that neither closes a character constant nor ends the
    line. *)
Definition inside_quotes (c : ascii) : bool :=
  negb ((c =? Lexical.NL)%char || (c =? Lexical.SQUOTE)%char).

(** A character that starts nothing [main] knows: no white space, no name,
    no number, no quote, no operator, no punctuation. *)
Definition undefined_symbol (c : ascii) : bool :=
  negb (isspace c) && negb (Lexical.is_ident_start (Some c)) &&
  negb (isdigit c) && negb (c =? Lexical.DQUOTE)%char &&
  negb (c =? Lexical.SQUOTE)%char && negb (c =? "=")%char &&
  match Lexical.punctuation c with
  | None => true
  | Some _ => false
  end.

(** ** Tokens that a run does not read *)

(** Two states that differ at most in the tokens from index [n] on. *)
Definition same_upto (n : nat) (s1 s2 : State) : Prop :=
  firstn n (toks s1) = firstn n (toks s2) /\ pos s1 = pos s2 /\
  symtab s1 = symtab s2 /\ cur_scope s1 = cur_scope s2 /\
  error_count s1 = error_count s2 /\ stderr s1 = stderr s2.

(** From [s] to [s'] the cursor did not move back and the number of errors
    did not go down. *)
Definition later (s s' : State) : Prop :=
  pos s <= pos s' /\ (error_count s <= error_count s')%Z.

(** A call that reads no token from index [n] on, as long as it reports no
    error and stops before [n]: it gives the same on every state that
    differs only from there on. *)
Definition framed (n : nat) (F : State -> option State) : Prop :=
  forall s1 s1' s2,
    F s1 = Some s1' -> error_count s1' = error_count s1 -> pos s1' < n ->
    same_upto n s1 s2 ->
    exists s2', F s2 = Some s2' /\ same_upto n s1' s2'.

(** * Properties *)

(** ** The token cursor *)
Section CursorFacts.

Variable eof_line : Z.

Abbreviation LA := (Cursor.LA eof_line).
Abbreviation consume := (Cursor.consume eof_line).
Abbreviation match_ := (Cursor.match_ eof_line).
Abbreviation expect := (Cursor.expect eof_line).
Abbreviation skip_line_tokens := (Cursor.skip_line_tokens eof_line).
Abbreviation skip_line_tokens_loop := (Cursor.skip_line_tokens_loop eof_line).
Abbreviation syn_error := (Cursor.syn_error eof_line).
Abbreviation type_specifier := (Cursor.type_specifier eof_line).
Abbreviation expression_loop := (Cursor.expression_loop eof_line).
Abbreviation expression_if_any := (Cursor.expression_if_any eof_line).
Abbreviation condition := (Cursor.condition eof_line).
Abbreviation expression_or_error := (Cursor.expression_or_error eof_line).

Lemma adv_refl (s : State) : adv s s.
Proof. split; [reflexivity | lia]. Qed.


Lemma prog_adv (s s' : State) : prog s s' -> adv s s'.
Proof. intros (Ht & Hp & _). split; assumption. Qed.

Lemma adv_ntok (s s' : State) : adv s s' -> ntok s' = ntok s.
Proof. intros [Ht _]. unfold ntok. now rewrite Ht. Qed.

Lemma LA_at_end (s : State) : ntok s <= pos s -> LA s = Cursor.eof eof_line.
Proof.
  intros H. unfold Cursor.LA.
  destruct (Nat.ltb_spec (pos s) (ntok s)); [lia | reflexivity].
Qed.

Lemma LA_inside (s : State) :
  pos s < ntok s -> LA s = nth (pos s) (toks s) (Cursor.eof eof_line).
Proof.
  intros H. unfold Cursor.LA.
  destruct (Nat.ltb_spec (pos s) (ntok s)); [reflexivity | lia].
Qed.

Lemma LA_not_EOF_inside (s : State) :
  token (LA s) <> "EOF" -> pos s < ntok s.
Proof.
  intros H. destruct (Nat.lt_ge_cases (pos s) (ntok s)) as [Hlt | Hge];
    [assumption |].
  rewrite (LA_at_end s Hge) in H. now elim H.
Qed.

Lemma consume_at_end (s : State) :
  ntok s <= pos s -> consume s = (Cursor.eof eof_line, s).
Proof.
  intros H. unfold Cursor.consume. rewrite (LA_at_end s H).
  destruct (Nat.ltb_spec (pos s) (ntok s)); [lia | reflexivity].
Qed.

Lemma consume_inside (s : State) :
  pos s < ntok s -> snd (consume s) = set_pos (S (pos s)) s.
Proof.
  intros H. unfold Cursor.consume. cbn [snd].
  destruct (Nat.ltb_spec (pos s) (ntok s)); [reflexivity | lia].
Qed.

Lemma consume_adv (s : State) : adv s (snd (consume s)).
Proof.
  unfold Cursor.consume. cbn [snd].
  destruct (pos s <? ntok s)%nat; split; cbn; try reflexivity; lia.
Qed.

Lemma consume_prog (s : State) : prog s (snd (consume s)).
Proof.
  unfold Cursor.consume. cbn [snd].
  destruct (Nat.ltb_spec (pos s) (ntok s)); repeat split; cbn; lia.
Qed.

Lemma consume_keeps (s : State) :
  symtab (snd (consume s)) = symtab s /\
  cur_scope (snd (consume s)) = cur_scope s /\
  stderr (snd (consume s)) = stderr s /\
  error_count (snd (consume s)) = error_count s.
Proof.
  unfold Cursor.consume. cbn [snd].
  destruct (pos s <? ntok s)%nat; repeat split.
Qed.

Lemma match_None (kind : string) (s s' : State) :
  match_ kind s = (None, s') -> s' = s /\ token (LA s) <> kind.
Proof.
  unfold Cursor.match_.
  destruct (String.eqb_spec (token (LA s)) kind) as [He | Hne]; intros H;
    [discriminate |].
  injection H as <-. split; [reflexivity | assumption].
Qed.

Lemma match_Some (kind : string) (s s' : State) (t : Tok) :
  match_ kind s = (Some t, s') ->
  t = LA s /\ token t = kind /\ s' = snd (consume s).
Proof.
  unfold Cursor.match_.
  destruct (String.eqb_spec (token (LA s)) kind) as [He | Hne]; intros H;
    [| discriminate].
  injection H as <- <-. repeat split. assumption.
Qed.

Lemma match_Some_prog (kind : string) (s s' : State) (t : Tok) :
  match_ kind s = (Some t, s') -> kind <> "EOF" ->
  toks s' = toks s /\ pos s < ntok s /\ pos s' = S (pos s).
Proof.
  intros H Hk. apply match_Some in H. destruct H as (Ht & Hkind & Hs).
  assert (Hin : pos s < ntok s).
  { apply LA_not_EOF_inside. rewrite <- Ht. congruence. }
  subst s'. rewrite (consume_inside s Hin). cbn. repeat split; assumption.
Qed.

Lemma skip_loop_toks (fuel : nat) (ln : Z) (s : State) :
  toks (skip_line_tokens_loop fuel ln s) = toks s /\
  symtab (skip_line_tokens_loop fuel ln s) = symtab s /\
  cur_scope (skip_line_tokens_loop fuel ln s) = cur_scope s /\
  stderr (skip_line_tokens_loop fuel ln s) = stderr s /\
  error_count (skip_line_tokens_loop fuel ln s) = error_count s.
Proof.
  revert s. induction fuel as [| fuel IH]; intros s;
    cbn [Cursor.skip_line_tokens_loop].
  - repeat split.
  - destruct ((pos s <? ntok s)%nat
              && (line (nth (pos s) (toks s) (Cursor.eof eof_line)) =? ln)%Z).
    + destruct (IH (set_pos (S (pos s)) s)) as (H1 & H2 & H3 & H4 & H5).
      repeat split; assumption.
    + repeat split.
Qed.

(** The loop of [skip_line_tokens] stops where the source loop stops: it
    passes exactly the run of tokens of line [ln] that starts at [pos]. *)
Lemma skip_loop_spec (fuel : nat) (ln : Z) (s : State) :
  ntok s - pos s <= fuel ->
  pos s <= pos (skip_line_tokens_loop fuel ln s) /\
  (forall i, pos s <= i < pos (skip_line_tokens_loop fuel ln s) ->
             i < ntok s /\
             line (nth i (toks s) (Cursor.eof eof_line)) = ln) /\
  (pos (skip_line_tokens_loop fuel ln s) < ntok s ->
   line (nth (pos (skip_line_tokens_loop fuel ln s)) (toks s)
             (Cursor.eof eof_line)) <> ln).
Proof.
  revert s. induction fuel as [| fuel IH]; intros s Hf;
    cbn [Cursor.skip_line_tokens_loop].
  - split; [lia | split]; [intros i Hi; lia | intros Hlt; lia].
  - destruct (Nat.ltb_spec (pos s) (ntok s)) as [Hlt | Hge]; cbn [andb].
    + destruct (Z.eqb_spec
                  (line (nth (pos s) (toks s) (Cursor.eof eof_line))) ln)
        as [He | Hne].
      * destruct (IH (set_pos (S (pos s)) s)) as (H1 & H2 & H3).
        { unfold ntok in *. cbn. lia. }
        cbn [pos set_pos toks] in H1, H2, H3.
        split; [lia | split].
        -- intros i Hi.
           destruct (Nat.eq_dec i (pos s)) as [-> | Hn];
             [split; assumption | apply H2; lia].
        -- exact H3.
      * split; [lia | split]; [intros i Hi; lia | intros _; exact Hne].
    + split; [lia | split]; [intros i Hi; lia | intros Hc; lia].
Qed.

Lemma skip_line_tokens_prog (ln : Z) (s : State) :
  toks (skip_line_tokens ln s) = toks s /\
  pos s <= pos (skip_line_tokens ln s) /\
  (pos s < ntok s -> line (LA s) = ln -> pos s < pos (skip_line_tokens ln s)).
Proof.
  unfold Cursor.skip_line_tokens.
  destruct (skip_loop_toks (ntok s - pos s) ln s) as (Ht & _).
  destruct (skip_loop_spec (ntok s - pos s) ln s (Nat.le_refl _))
    as (Hle & Hrun & Hstop).
  repeat split; try assumption.
  intros Hin Hline. rewrite (LA_inside s Hin) in Hline.
  destruct (Nat.eq_dec (pos s)
              (pos (skip_line_tokens_loop (ntok s - pos s) ln s)))
    as [He | Hn]; [| lia].
  exfalso. rewrite <- He in Hstop. apply (Hstop Hin Hline).
Qed.

Lemma syn_error_prog (msg : string) (s : State) : prog s (syn_error msg s).
Proof.
  unfold Cursor.syn_error.
  set (s1 := mkState _ _ _ _ _ _).
  destruct (skip_line_tokens_prog (line (LA s)) s1) as (Ht & Hle & Hlt).
  repeat split.
  - rewrite Ht. reflexivity.
  - exact Hle.
  - intros Hin. apply Hlt; [exact Hin | reflexivity].
Qed.

Lemma syn_error_keeps (msg : string) (s : State) :
  symtab (syn_error msg s) = symtab s /\
  cur_scope (syn_error msg s) = cur_scope s /\
  stderr (syn_error msg s) = stderr s ++ [(line (LA s), msg)] /\
  error_count (syn_error msg s) = (error_count s + 1)%Z.
Proof.
  unfold Cursor.syn_error, Cursor.skip_line_tokens.
  set (s1 := mkState _ _ _ _ _ _).
  destruct (skip_loop_toks (ntok s1 - pos s1) (line (LA s)) s1)
    as (_ & H2 & H3 & H4 & H5).
  repeat split; assumption.
Qed.

Lemma expect_adv (kind msg : string) (s : State) : adv s (expect kind msg s).
Proof.
  unfold Cursor.expect.
  destruct (match_ kind s) as [[t |] s1] eqn:Hm.
  - apply match_Some in Hm. destruct Hm as (_ & _ & ->). apply consume_adv.
  - apply match_None in Hm. destruct Hm as [-> _].
    apply prog_adv, syn_error_prog.
Qed.

Lemma expect_prog (kind msg : string) (s : State) :
  prog s (expect kind msg s).
Proof.
  unfold Cursor.expect.
  destruct (match_ kind s) as [[t |] s1] eqn:Hm.
  - apply match_Some in Hm. destruct Hm as (_ & _ & ->). apply consume_prog.
  - apply match_None in Hm. destruct Hm as [-> _]. apply syn_error_prog.
Qed.

(** *** Binary operators *)

Lemma semantic_error_only_reports (msg : string) (ln : Z) (s : State) :
  only_reports s (semantic_error msg ln s).
Proof. repeat split. Qed.

Lemma apply_binary_op_error (op : string) (l r ln : Z) (s : State) :
  l = TYPE_ERROR \/ r = TYPE_ERROR ->
  apply_binary_op op l r ln s = (TYPE_ERROR, s).
Proof.
  intros H. unfold apply_binary_op.
  assert (He : ((l =? TYPE_ERROR)%Z || (r =? TYPE_ERROR)%Z) = true).
  { destruct H as [-> | ->]; rewrite Z.eqb_refl;
      [reflexivity | apply orb_true_r]. }
  rewrite He.
  destruct (op =? "ASSIGN"); [reflexivity |].
  destruct ((op =? "PLUS") || (op =? "MINUS") || (op =? "STAR")
            || (op =? "SLASH")); [reflexivity |].
  destruct ((op =? "LT") || (op =? "GT") || (op =? "EQ")); reflexivity.
Qed.

Lemma apply_binary_op_cases (op : string) (l r ln : Z) (s : State) :
  (exists ty, apply_binary_op op l r ln s = (ty, s)) \/
  (l <> TYPE_ERROR /\ r <> TYPE_ERROR /\ l <> r /\
   apply_binary_op op l r ln s = (TYPE_ERROR, semantic_error MISMATCH ln s)).
Proof.
  unfold apply_binary_op, MISMATCH.
  destruct (Z.eqb_spec l TYPE_ERROR) as [Hl | Hl]; cbn [orb].
  { left. repeat match goal with
          | |- context [if ?b then _ else _] => destruct b
          end; eexists; reflexivity. }
  destruct (Z.eqb_spec r TYPE_ERROR) as [Hr | Hr].
  { left. repeat match goal with
          | |- context [if ?b then _ else _] => destruct b
          end; eexists; reflexivity. }
  destruct (Z.eqb_spec l r) as [Hlr | Hlr]; cbn [negb].
  { left. repeat match goal with
          | |- context [if ?b then _ else _] => destruct b
          end; eexists; reflexivity. }
  repeat match goal with
         | |- context [if ?b then _ else _] => destruct b
         end;
    first [ right; repeat split; (assumption || reflexivity)
          | left; eexists; reflexivity ].
Qed.

Lemma apply_binary_op_only_reports (op : string) (l r ln : Z) (s : State) :
  only_reports s (snd (apply_binary_op op l r ln s)).
Proof.
  destruct (apply_binary_op_cases op l r ln s) as [[ty H] | (_ & _ & _ & H)];
    rewrite H; repeat split.
Qed.

(** *** Expressions *)

Lemma is_operator_not_EOF (tk : string) :
  is_operator tk = true -> tk <> "EOF".
Proof. intros H ->. discriminate H. Qed.

Lemma is_type_token_not_EOF (tk : string) :
  is_type_token tk = true -> tk <> "EOF".
Proof. intros H ->. discriminate H. Qed.

(** The operand step shared by both places of [expression_if_any]: the
    state after the lookup and its diagnostic differs from [s] only in
    what was reported. *)
Lemma operand_only_reports (b : Tok) (s : State) :
  only_reports s
    (snd (match lookup_symbol (lexeme b) s with
          | None =>
              (TYPE_ERROR, semantic_error "Undeclared identifier." (line b) s)
          | Some s2 => (str_to_type (sym_type s2), s)
          end)).
Proof. destruct (lookup_symbol (lexeme b) s); repeat split. Qed.

Lemma only_reports_consume (s s1 : State) :
  only_reports s s1 -> pos s < ntok s ->
  toks (snd (consume s1)) = toks s /\
  pos (snd (consume s1)) = S (pos s) /\
  symtab (snd (consume s1)) = symtab s /\
  cur_scope (snd (consume s1)) = cur_scope s.
Proof.
  intros (Ht & Hp & Hs & Hc) Hin.
  assert (Hin1 : pos s1 < ntok s1) by (unfold ntok in *; rewrite Ht, Hp; exact Hin).
  rewrite (consume_inside s1 Hin1). cbn. repeat split; congruence.
Qed.

Lemma expression_loop_total (fuel : nat) :
  forall (ty : Z) (s : State),
    ntok s - pos s < fuel ->
    exists ty' s',
      expression_loop fuel ty s = Some (ty', s') /\ adv s s' /\
      symtab s' = symtab s /\ cur_scope s' = cur_scope s.
Proof.
  induction fuel as [| fuel IH]; intros ty s Hf; [lia |].
  cbn [Cursor.expression_loop].
  destruct (is_operator (token (LA s))) eqn:Hop; cbn [negb].
  2:{ exists ty, s. repeat split; lia. }
  assert (Hin : pos s < ntok s).
  { apply LA_not_EOF_inside. now apply is_operator_not_EOF. }
  pose proof (consume_inside s Hin) as Hc.
  set (s1 := snd (consume s)) in *.
  assert (H1 : toks s1 = toks s /\ pos s1 = S (pos s) /\
               symtab s1 = symtab s /\ cur_scope s1 = cur_scope s).
  { rewrite Hc. repeat split. }
  destruct H1 as (Ht1 & Hp1 & Hs1 & Hsc1).
  assert (Hn1 : ntok s1 = ntok s) by (unfold ntok; now rewrite Ht1).
  destruct (String.eqb_spec (token (LA s1)) "IDENTIFIER") as [Hid | Hid].
  - assert (Hin1 : pos s1 < ntok s1).
    { apply LA_not_EOF_inside. rewrite Hid. discriminate. }
    pose proof (operand_only_reports (LA s1) s1) as Hor.
    destruct (match lookup_symbol (lexeme (LA s1)) s1 with
              | Some s2 => _ | None => _ end) as [rhs s2].
    cbn [snd] in Hor.
    destruct (only_reports_consume s1 s2 Hor Hin1) as (Ht3 & Hp3 & Hs3 & Hsc3).
    pose proof (apply_binary_op_only_reports (token (LA s)) ty rhs
                  (line (LA s)) (snd (consume s2))) as Hap.
    destruct (apply_binary_op _ _ _ _ _) as [ty4 s4]. cbn [snd] in Hap.
    destruct Hap as (Ht4 & Hp4 & Hs4 & Hsc4).
    destruct (IH ty4 s4) as (ty' & s' & He & [Ht' Hp'] & Hs' & Hsc').
    { unfold ntok in *. rewrite Ht4, Hp4, Ht3, Hp3. lia. }
    exists ty', s'. split; [exact He |]. repeat split; try congruence. lia.
  - destruct ((token (LA s1) =? "INT_CONST")
              || (token (LA s1) =? "CHAR_CONST")) eqn:Hk.
    + assert (Hin1 : pos s1 < ntok s1).
      { apply LA_not_EOF_inside. intros He. rewrite He in Hk. discriminate. }
      destruct (only_reports_consume s1 s1) as (Ht3 & Hp3 & Hs3 & Hsc3);
        [repeat split | exact Hin1 |].
      pose proof (apply_binary_op_only_reports (token (LA s)) ty
                    (const_token_type (LA s1))
                    (line (LA s)) (snd (consume s1))) as Hap.
      destruct (apply_binary_op _ _ _ _ _) as [ty4 s4]. cbn [snd] in Hap.
      destruct Hap as (Ht4 & Hp4 & Hs4 & Hsc4).
      destruct (IH ty4 s4) as (ty' & s' & He & [Ht' Hp'] & Hs' & Hsc').
      { unfold ntok in *. rewrite Ht4, Hp4, Ht3, Hp3. lia. }
      exists ty', s'. split; [exact He |]. repeat split; try congruence. lia.
    + exists ty, (syn_error "Identifier or integer constant expected" s1).
      split; [reflexivity |].
      destruct (syn_error_prog "Identifier or integer constant expected" s1)
        as (Ht & Hp & _).
      destruct (syn_error_keeps "Identifier or integer constant expected" s1)
        as (Hs & Hsc & _).
      repeat split; try congruence. lia.
Qed.

(** *** What is written to [stderr] *)

Lemma reported_nil (s s' : State) :
  stderr s' = stderr s -> error_count s' = error_count s -> reported s s' [].
Proof.
  intros H1 H2. split; [now rewrite app_nil_r |].
  cbn. rewrite H2. lia.
Qed.

Lemma reported_trans (s1 s2 s3 : State) (l1 l2 : list (Z * string)) :
  reported s1 s2 l1 -> reported s2 s3 l2 -> reported s1 s3 (l1 ++ l2).
Proof.
  intros [Ha Hb] [Hc Hd]. split.
  - rewrite Hc, Ha. now rewrite app_assoc.
  - rewrite Hd, Hb, length_app. lia.
Qed.

Lemma reported_consume (s : State) : reported s (snd (consume s)) [].
Proof.
  destruct (consume_keeps s) as (_ & _ & H1 & H2).
  now apply reported_nil.
Qed.

Lemma reported_semantic_error (msg : string) (ln : Z) (s : State) :
  reported s (semantic_error msg ln s) [(ln, msg)].
Proof. split; reflexivity. Qed.

Lemma reported_syn_error (msg : string) (s : State) :
  reported s (syn_error msg s) [(line (LA s), msg)].
Proof.
  destruct (syn_error_keeps msg s) as (_ & _ & H1 & H2).
  split; [exact H1 | rewrite H2; reflexivity].
Qed.

(** Once the running type is [TYPE_ERROR] it stays so to the end of the
    expression, and no type mismatch is reported any more. *)
Lemma expression_loop_error (fuel : nat) :
  forall (s : State),
    ntok s - pos s < fuel ->
    exists s' l,
      expression_loop fuel TYPE_ERROR s = Some (TYPE_ERROR, s') /\
      reported s s' l /\
      Forall (fun d => snd d <> MISMATCH) l.
Proof.
  induction fuel as [| fuel IH]; intros s Hf; [lia |].
  cbn [Cursor.expression_loop].
  destruct (is_operator (token (LA s))) eqn:Hop; cbn [negb].
  2:{ exists s, []. repeat split; [now rewrite app_nil_r | cbn; lia | constructor]. }
  assert (Hin : pos s < ntok s).
  { apply LA_not_EOF_inside. now apply is_operator_not_EOF. }
  pose proof (consume_inside s Hin) as Hc.
  pose proof (reported_consume s) as Hr1.
  set (s1 := snd (consume s)) in *.
  assert (H1 : toks s1 = toks s /\ pos s1 = S (pos s)).
  { rewrite Hc. repeat split. }
  destruct H1 as (Ht1 & Hp1).
  assert (Hn1 : ntok s1 = ntok s) by (unfold ntok; now rewrite Ht1).
  destruct (String.eqb_spec (token (LA s1)) "IDENTIFIER") as [Hid | Hid].
  - assert (Hin1 : pos s1 < ntok s1).
    { apply LA_not_EOF_inside. rewrite Hid. discriminate. }
    assert (Hop2 : exists rhs s2 l2,
               match lookup_symbol (lexeme (LA s1)) s1 with
               | Some y => (str_to_type (sym_type y), s1)
               | None => (TYPE_ERROR,
                          semantic_error "Undeclared identifier."
                                         (line (LA s1)) s1)
               end = (rhs, s2) /\ only_reports s1 s2 /\ reported s1 s2 l2 /\
               Forall (fun d => snd d <> MISMATCH) l2).
    { destruct (lookup_symbol (lexeme (LA s1)) s1).
      - exists (str_to_type (sym_type s0)), s1, [].
        repeat split; [now rewrite app_nil_r | cbn; lia | constructor].
      - eexists _, _, _. split; [reflexivity |].
        split; [apply semantic_error_only_reports |].
        split; [apply reported_semantic_error |].
        constructor; [discriminate | constructor]. }
    destruct Hop2 as (rhs & s2 & l2 & -> & Hor & Hr2 & Hl2).
    destruct (only_reports_consume s1 s2 Hor Hin1) as (Ht3 & Hp3 & _).
    pose proof (reported_consume s2) as Hr3.
    rewrite (apply_binary_op_error (token (LA s)) TYPE_ERROR rhs
               (line (LA s)) (snd (consume s2)) (or_introl eq_refl)).
    destruct (IH (snd (consume s2))) as (s' & l & He & Hr & Hl).
    { unfold ntok in *. rewrite Ht3, Hp3. lia. }
    exists s', (([] ++ l2) ++ [] ++ l). split; [exact He |]. split.
    + eapply reported_trans; [| eapply reported_trans; [exact Hr3 | exact Hr]].
      eapply reported_trans; eassumption.
    + cbn. rewrite Forall_app. split; assumption.
  - destruct ((token (LA s1) =? "INT_CONST")
              || (token (LA s1) =? "CHAR_CONST")) eqn:Hk.
    + assert (Hin1 : pos s1 < ntok s1).
      { apply LA_not_EOF_inside. intros He. rewrite He in Hk. discriminate. }
      destruct (only_reports_consume s1 s1) as (Ht3 & Hp3 & _);
        [repeat split | exact Hin1 |].
      pose proof (reported_consume s1) as Hr3.
      rewrite (apply_binary_op_error (token (LA s)) TYPE_ERROR
                 (const_token_type (LA s1))
                 (line (LA s)) (snd (consume s1)) (or_introl eq_refl)).
      destruct (IH (snd (consume s1))) as (s' & l & He & Hr & Hl).
      { unfold ntok in *. rewrite Ht3, Hp3. lia. }
      exists s', ([] ++ [] ++ l). split; [exact He |]. split.
      * eapply reported_trans; [exact Hr1 |].
        eapply reported_trans; eassumption.
      * exact Hl.
    + eexists _, _. split; [reflexivity |]. split.
      * eapply reported_trans; [exact Hr1 | apply reported_syn_error].
      * constructor; [discriminate | constructor].
Qed.

(** *** The type codes an expression can have *)






Lemma expression_if_any_total (fuel : nat) (out_type : Z) (s : State) :
  ntok s - pos s <= fuel ->
  exists ok ty s',
    expression_if_any fuel out_type s = Some (ok, ty, s') /\
    adv s s' /\ symtab s' = symtab s /\ cur_scope s' = cur_scope s /\
    (ok = true -> pos s < pos s') /\
    (ok = false -> s' = s /\ ty = out_type).
Proof.
  intros Hf. unfold Cursor.expression_if_any.
  destruct (String.eqb_spec (token (LA s)) "IDENTIFIER") as [Hid | Hid].
  - assert (Hin : pos s < ntok s).
    { apply LA_not_EOF_inside. rewrite Hid. discriminate. }
    pose proof (operand_only_reports (LA s) s) as Hor.
    destruct (match lookup_symbol (lexeme (LA s)) s with
              | Some s2 => _ | None => _ end) as [ty1 s2].
    cbn [snd] in Hor.
    destruct (only_reports_consume s s2 Hor Hin) as (Ht3 & Hp3 & Hs3 & Hsc3).
    destruct (expression_loop_total fuel ty1 (snd (consume s2)))
      as (ty' & s' & -> & [Ht' Hp'] & Hs' & Hsc').
    { unfold ntok in *. rewrite Ht3, Hp3. lia. }
    exists true, ty', s'. split; [reflexivity |].
    repeat split; try congruence; try lia.
  - destruct ((token (LA s) =? "INT_CONST") || (token (LA s) =? "CHAR_CONST"))
      eqn:Hk.
    + assert (Hin : pos s < ntok s).
      { apply LA_not_EOF_inside. intros He. rewrite He in Hk. discriminate. }
      destruct (only_reports_consume s s) as (Ht3 & Hp3 & Hs3 & Hsc3);
        [repeat split | exact Hin |].
      destruct (expression_loop_total fuel (const_token_type (LA s))
                  (snd (consume s)))
        as (ty' & s' & -> & [Ht' Hp'] & Hs' & Hsc').
      { unfold ntok in *. rewrite Ht3, Hp3. lia. }
      exists true, ty', s'. split; [reflexivity |].
      repeat split; try congruence; try lia.
    + exists false, out_type, s. split; [reflexivity |].
      repeat split; try lia; discriminate.
Qed.

(** *** The test of a condition *)

Lemma condition_total (fuel : nat) (s : State) :
  ntok s - pos s <= fuel ->
  exists s',
    condition fuel s = Some s' /\ prog s s' /\
    symtab s' = symtab s /\ cur_scope s' = cur_scope s.
Proof.
  intros Hf. unfold Cursor.condition.
  destruct (expression_if_any_total fuel TYPE_ERROR s Hf)
    as (ok & ty & s1 & -> & [Ht Hp] & Hs & Hsc & Hok & Hno).
  cbn [bind]. destruct ok; cbn [negb].
  - specialize (Hok eq_refl).
    destruct (negb (ty =? TYPE_INT)%Z && negb (ty =? TYPE_ERROR)%Z);
      eexists; (split; [reflexivity |]); repeat split; cbn;
      try assumption; try lia.
  - destruct (Hno eq_refl) as [-> _].
    eexists; split; [reflexivity |].
    destruct (syn_error_keeps "Identifier or integer constant expected" s)
      as (H1 & H2 & _).
    split; [apply syn_error_prog | split; assumption].
Qed.

Lemma expression_or_error_total (fuel : nat) (s : State) :
  ntok s - pos s <= fuel ->
  exists s',
    expression_or_error fuel s = Some s' /\ prog s s' /\
    symtab s' = symtab s /\ cur_scope s' = cur_scope s.
Proof.
  intros Hf. unfold Cursor.expression_or_error.
  destruct (expression_if_any_total fuel TYPE_ERROR s Hf)
    as (ok & ty & s1 & -> & [Ht Hp] & Hs & Hsc & Hok & Hno).
  cbn [bind]. destruct ok; cbn [negb].
  - specialize (Hok eq_refl).
    eexists; (split; [reflexivity |]); repeat split; cbn;
      try assumption; try lia.
  - destruct (Hno eq_refl) as [-> _].
    eexists; split; [reflexivity |].
    destruct (syn_error_keeps "Identifier or integer constant expected" s)
      as (H1 & H2 & _).
    split; [apply syn_error_prog | split; assumption].
Qed.

End CursorFacts.

(** ** Termination of the parser of [semantic_analyser.c]

    Every grammar function returns once its fuel exceeds a bound that is
    linear in the number of tokens still to be read, and it never moves the
    cursor backwards. *)

(** [ok P m]: the computation [m] returns, in a state that satisfies [P]. *)
Lemma ok_bind (P Q : State -> Prop) (m : option State)
    (k : State -> option State) :
  (exists s1, m = Some s1 /\ Q s1) ->
  (forall s1, Q s1 -> exists s', k s1 = Some s' /\ P s') ->
  exists s', bind m k = Some s' /\ P s'.
Proof.
  intros (s1 & -> & HQ) Hk. cbn [bind]. apply Hk. exact HQ.
Qed.

Ltac numeric :=
  repeat match goal with
         | H : adv _ _ |- _ => destruct H as [? ?]
         | H : prog _ _ |- _ => destruct H as (? & ? & ?)
         | H : _ /\ _ |- _ => destruct H
         end;
  repeat match goal with
         | H : toks ?a = toks ?b |- _ =>
             lazymatch goal with
             | _ : ntok a = ntok b |- _ => fail
             | _ => assert (ntok a = ntok b) by (unfold ntok; now rewrite H)
             end
         end.

Ltac close_prog :=
  numeric; first [ split; [congruence | lia]
                 | split; [congruence | split; lia] ].

Lemma semantic_add_symbol_keeps (name type scope : string) (arrsz ln : Z)
    (s : State) :
  toks (Semantic.add_symbol name type scope arrsz ln s) = toks s /\
  pos (Semantic.add_symbol name type scope arrsz ln s) = pos s /\
  cur_scope (Semantic.add_symbol name type scope arrsz ln s) = cur_scope s.
Proof.
  unfold Semantic.add_symbol.
  destruct (existsb _ _); [repeat split |].
  destruct (MAXSYM <=? nsym s)%nat; repeat split.
Qed.

Lemma semantic_array_opt_adv (s : State) :
  adv s (snd (Semantic.array_opt s)).
Proof.
  unfold Semantic.array_opt.
  destruct (negb (token (Semantic.LA s) =? "LBRACKET")); [apply adv_refl |].
  pose proof (consume_adv Semantic.EOF_LINE s) as H1.
  set (s1 := snd (Semantic.consume s)) in *.
  destruct (token (Semantic.LA s1) =? "INT_CONST"); cbn [snd].
  - pose proof (consume_adv Semantic.EOF_LINE s1) as H2.
    pose proof (expect_adv Semantic.EOF_LINE "RBRACKET"
                  "Right bracket expected" (snd (Semantic.consume s1))) as H3.
    close_prog.
  - pose proof (expect_adv Semantic.EOF_LINE "RBRACKET"
                  "Right bracket expected" s1) as H3.
    close_prog.
Qed.

Lemma semantic_init_opt_adv (typestr : string) (ln : Z) (s : State) :
  adv s (snd (Semantic.init_opt typestr ln s)).
Proof.
  unfold Semantic.init_opt.
  destruct (negb (token (Semantic.LA s) =? "ASSIGN")); [apply adv_refl |].
  pose proof (consume_adv Semantic.EOF_LINE s) as H1.
  set (s1 := snd (Semantic.consume s)) in *.
  destruct (negb (token (Semantic.LA s1) =? "INT_CONST")
            && negb (token (Semantic.LA s1) =? "CHAR_CONST")); cbn [snd].
  - pose proof (syn_error_prog Semantic.EOF_LINE
                  "Identifier or integer constant expected" s1) as H2.
    close_prog.
  - match goal with
    | |- adv s (snd (Semantic.consume ?x)) =>
        pose proof (consume_adv Semantic.EOF_LINE x) as H2;
        assert (H3 : toks x = toks s1 /\ pos x = pos s1)
    end.
    { destruct (_ && _); split; reflexivity. }
    close_prog.
Qed.

Lemma semantic_init_declarator_adv (typestr : string) (s : State) :
  adv s (Semantic.init_declarator typestr s).
Proof.
  unfold Semantic.init_declarator.
  destruct (Semantic.match_ "IDENTIFIER" s) as [[id |] s1] eqn:Hm.
  - apply match_Some in Hm. destruct Hm as (_ & _ & ->).
    pose proof (consume_adv Semantic.EOF_LINE s) as H1.
    set (s1 := snd (Semantic.consume s)) in *.
    pose proof (semantic_array_opt_adv s1) as H2.
    destruct (Semantic.array_opt s1) as [[r arrsz] s2]. cbn [snd] in H2.
    pose proof (semantic_init_opt_adv typestr (line id) s2) as H3.
    set (s3 := snd (Semantic.init_opt typestr (line id) s2)) in *.
    pose proof (semantic_add_symbol_keeps (lexeme id) typestr (cur_scope s3)
                  arrsz (line id) s3) as H4.
    close_prog.
  - apply match_None in Hm. destruct Hm as [-> _].
    apply prog_adv, syn_error_prog.
Qed.

Lemma semantic_init_declarator_list_loop_total (fuel : nat) :
  forall (typestr : string) (s : State),
    ntok s - pos s < fuel ->
    exists s',
      Semantic.init_declarator_list_loop fuel typestr s = Some s' /\
      adv s s'.
Proof.
  induction fuel as [| fuel IH]; intros typestr s Hf; [lia |].
  cbn [Semantic.init_declarator_list_loop].
  destruct (Semantic.match_ "COMMA" s) as [[t |] s1] eqn:Hm.
  - apply match_Some_prog in Hm; [| discriminate].
    pose proof (semantic_init_declarator_adv typestr s1) as H2.
    destruct (IH typestr (Semantic.init_declarator typestr s1))
      as (s' & He & Ha).
    { numeric. lia. }
    exists s'. split; [exact He |]. close_prog.
  - apply match_None in Hm. destruct Hm as [-> _].
    exists s. split; [reflexivity | apply adv_refl].
Qed.

Lemma semantic_declaration_total (fuel : nat) (typestr : string) (s : State) :
  ntok s - pos s < fuel ->
  exists s', Semantic.declaration fuel typestr s = Some s' /\ adv s s'.
Proof.
  intros Hf. unfold Semantic.declaration, Semantic.init_declarator_list.
  pose proof (semantic_init_declarator_adv typestr s) as H1.
  apply ok_bind with (Q := adv s).
  - destruct (semantic_init_declarator_list_loop_total fuel typestr
                (Semantic.init_declarator typestr s)) as (s' & He & Ha).
    { numeric. lia. }
    exists s'. split; [exact He |]. close_prog.
  - intros s1 H2.
    pose proof (expect_adv Semantic.EOF_LINE "SEMICOLON"
                  "Semicolon expected" s1) as H3.
    eexists. split; [reflexivity |]. close_prog.
Qed.

Lemma semantic_expr_stmt_total (fuel : nat) (s : State) :
  ntok s - pos s <= fuel ->
  exists s', Semantic.expr_stmt fuel s = Some s' /\ prog s s'.
Proof.
  intros Hf. unfold Semantic.expr_stmt.
  destruct (token (Semantic.LA s) =? "SEMICOLON").
  - eexists. split; [reflexivity | apply consume_prog].
  - apply ok_bind with (Q := prog s).
    + destruct (expression_or_error_total Semantic.EOF_LINE fuel s Hf)
        as (s' & He & Hp & _).
      exists s'. split; assumption.
    + intros s1 H1.
      pose proof (expect_adv Semantic.EOF_LINE "SEMICOLON"
                    "Semicolon expected" s1) as H3.
      eexists. split; [reflexivity |]. close_prog.
Qed.

Lemma type_specifier_Some (eof_line : Z) (s : State) :
  is_type_token (token (Cursor.LA eof_line s)) = true ->
  Cursor.type_specifier eof_line s
  = (Some (norm_type_token (token (Cursor.LA eof_line s))),
     snd (Cursor.consume eof_line s)) /\
  pos s < ntok s.
Proof.
  intros H. unfold Cursor.type_specifier. rewrite H. split; [reflexivity |].
  apply (LA_not_EOF_inside eof_line). now apply is_type_token_not_EOF.
Qed.

Lemma type_specifier_None (eof_line : Z) (s : State) :
  is_type_token (token (Cursor.LA eof_line s)) = false ->
  Cursor.type_specifier eof_line s = (None, s).
Proof. intros H. unfold Cursor.type_specifier. now rewrite H. Qed.

Lemma semantic_statement_S (n : nat) (s : State) :
  Semantic.statement (S n) s =
  let t := Semantic.LA s in
  if is_type_token (token t) then
    let '(r, s) := Semantic.type_specifier s in
    Semantic.declaration n (match r with Some ty => ty | None => "" end) s
  else if token t =? "IF" then Semantic.if_stmt n s
  else if token t =? "WHILE" then Semantic.while_stmt n s
  else if token t =? "FOR" then Semantic.for_stmt n s
  else if token t =? "LBRACE" then Semantic.block n s
  else Semantic.expr_stmt n s.
Proof. reflexivity. Qed.

Lemma semantic_stmt_list_opt_S (n : nat) (s : State) :
  Semantic.stmt_list_opt (S n) s =
  let t := Semantic.LA s in
  if (token t =? "RBRACE") || (token t =? "EOF") then Some s
  else s <- Semantic.statement n s ;; Semantic.stmt_list_opt n s.
Proof. reflexivity. Qed.

Lemma semantic_block_S (n : nat) (s : State) :
  Semantic.block (S n) s =
  match Semantic.match_ "LBRACE" s with
  | (None, s) => Some (Semantic.syn_error "{ expected" s)
  | (Some _, s) =>
      s <- Semantic.stmt_list_opt n s ;;
      Some (Semantic.expect "RBRACE" "} missing" s)
  end.
Proof. reflexivity. Qed.

Lemma semantic_if_stmt_S (n : nat) (s : State) :
  Semantic.if_stmt (S n) s =
  match Semantic.match_ "IF" s with
  | (None, s) => Some (Semantic.syn_error "IF expected" s)
  | (Some _, s) =>
      let s := Semantic.expect "LPAREN" "Opening parenthesis missing" s in
      s <- Semantic.condition n s ;;
      let s := Semantic.expect "RPAREN" "Closing parenthesis missing" s in
      s <- Semantic.block n s ;;
      match Semantic.match_ "ELSE" s with
      | (Some _, s) => Semantic.block n s
      | (None, s) => Some s
      end
  end.
Proof. reflexivity. Qed.

Lemma semantic_while_stmt_S (n : nat) (s : State) :
  Semantic.while_stmt (S n) s =
  match Semantic.match_ "WHILE" s with
  | (None, s) => Some (Semantic.syn_error "WHILE expected" s)
  | (Some _, s) =>
      let s := Semantic.expect "LPAREN" "Opening parenthesis missing" s in
      s <- Semantic.condition n s ;;
      let s := Semantic.expect "RPAREN" "Closing parenthesis missing" s in
      Semantic.block n s
  end.
Proof. reflexivity. Qed.

Lemma semantic_for_stmt_S (n : nat) (s : State) :
  Semantic.for_stmt (S n) s =
  match Semantic.match_ "FOR" s with
  | (None, s) => Some (Semantic.syn_error "FOR expected" s)
  | (Some _, s) =>
      let s := Semantic.expect "LPAREN" "Opening parenthesis missing" s in
      s <- Semantic.expression_or_error n s ;;
      let s := Semantic.expect "SEMICOLON" "Semicolon expected" s in
      s <- Semantic.condition n s ;;
      let s := Semantic.expect "SEMICOLON" "Semicolon expected" s in
      s <- Semantic.expression_or_error n s ;;
      let s := Semantic.expect "RPAREN" "Closing parenthesis missing" s in
      Semantic.statement n s
  end.
Proof. reflexivity. Qed.

(** Steps that recur in the proofs below. *)
Ltac step_expect eofl :=
  cbv beta zeta;
  match goal with
  | |- context [Cursor.expect eofl ?k ?m ?x] =>
      is_var x;
      let H := fresh "Hx" in
      let y := fresh "sx" in
      pose proof (expect_adv eofl k m x) as H;
      set (y := Cursor.expect eofl k m x) in *
  end.

Ltac step_bind R lem :=
  apply (ok_bind _ R);
  [ let s' := fresh "s'" in
    let He := fresh "He" in
    let Hp := fresh "Hp" in
    destruct lem as (s' & He & Hp);
    [ numeric; lia
    | exists s'; split; [exact He | first [exact Hp | exact (proj1 Hp)]] ]
  | let s1 := fresh "sb" in
    let H := fresh "Hb" in
    intros s1 H ].

Lemma semantic_parser_total (n : nat) :
  (forall s, 3 * (ntok s - pos s) + 2 <= n ->
             exists s', Semantic.statement n s = Some s' /\ prog s s') /\
  (forall s, 3 * (ntok s - pos s) + 3 <= n ->
             exists s', Semantic.stmt_list_opt n s = Some s' /\ adv s s') /\
  (forall s, 3 * (ntok s - pos s) + 1 <= n ->
             exists s', Semantic.block n s = Some s' /\ prog s s') /\
  (forall s, 3 * (ntok s - pos s) + 1 <= n ->
             exists s', Semantic.if_stmt n s = Some s' /\ prog s s') /\
  (forall s, 3 * (ntok s - pos s) + 1 <= n ->
             exists s', Semantic.while_stmt n s = Some s' /\ prog s s') /\
  (forall s, 3 * (ntok s - pos s) + 1 <= n ->
             exists s', Semantic.for_stmt n s = Some s' /\ prog s s').
Proof.
  induction n as [| n (IHst & IHsl & IHbl & IHif & IHwh & IHfor)].
  { repeat split; intros s Hf; lia. }
  repeat split; intros s Hf.
  - (* statement *)
    rewrite semantic_statement_S. cbv zeta.
    destruct (is_type_token (token (Semantic.LA s))) eqn:Hty.
    { destruct (type_specifier_Some _ s Hty) as [-> Hin].
      pose proof (consume_inside Semantic.EOF_LINE s Hin) as Hc.
      destruct (semantic_declaration_total n
                  (norm_type_token (token (Semantic.LA s)))
                  (snd (Semantic.consume s))) as (s' & He & Ha).
      { rewrite Hc. unfold ntok. cbn. unfold ntok in Hf. lia. }
      exists s'. split; [exact He |]. rewrite Hc in Ha.
      destruct Ha as [Ht Hp]. cbn in Ht, Hp. repeat split; [assumption | lia | lia]. }
    destruct (token (Semantic.LA s) =? "IF"); [apply IHif; lia |].
    destruct (token (Semantic.LA s) =? "WHILE"); [apply IHwh; lia |].
    destruct (token (Semantic.LA s) =? "FOR"); [apply IHfor; lia |].
    destruct (token (Semantic.LA s) =? "LBRACE"); [apply IHbl; lia |].
    apply semantic_expr_stmt_total. lia.
  - (* stmt_list_opt *)
    rewrite semantic_stmt_list_opt_S. cbv zeta.
    destruct ((token (Semantic.LA s) =? "RBRACE")
              || (token (Semantic.LA s) =? "EOF")) eqn:Hstop.
    { exists s. split; [reflexivity | apply adv_refl]. }
    assert (Hin : pos s < ntok s).
    { apply (LA_not_EOF_inside Semantic.EOF_LINE). intros He.
      rewrite He in Hstop. discriminate. }
    step_bind (prog s) (IHst s).
    destruct (IHsl sb) as (s' & He & Ha); [numeric; lia |].
    exists s'. split; [exact He | close_prog].
  - (* block *)
    rewrite semantic_block_S.
    destruct (Semantic.match_ "LBRACE" s) as [[t |] s1] eqn:Hm.
    + apply match_Some_prog in Hm; [| discriminate].
      step_bind (adv s1) (IHsl s1).
      step_expect Semantic.EOF_LINE.
      eexists. split; [reflexivity | close_prog].
    + apply match_None in Hm. destruct Hm as [-> _].
      eexists. split; [reflexivity | apply syn_error_prog].
  - (* if_stmt *)
    rewrite semantic_if_stmt_S.
    destruct (Semantic.match_ "IF" s) as [[t |] s1] eqn:Hm.
    + apply match_Some_prog in Hm; [| discriminate]. cbv zeta.
      step_expect Semantic.EOF_LINE.
      step_bind (prog sx) (condition_total Semantic.EOF_LINE n sx).
      step_expect Semantic.EOF_LINE.
      step_bind (prog sx0) (IHbl sx0).
      destruct (Semantic.match_ "ELSE" sb0) as [[t2 |] s2] eqn:Hm2.
      * apply match_Some_prog in Hm2; [| discriminate].
        destruct (IHbl s2) as (s' & He & Ha); [numeric; lia |].
        exists s'. split; [exact He | close_prog].
      * apply match_None in Hm2. destruct Hm2 as [-> _].
        eexists. split; [reflexivity | close_prog].
    + apply match_None in Hm. destruct Hm as [-> _].
      eexists. split; [reflexivity | apply syn_error_prog].
  - (* while_stmt *)
    rewrite semantic_while_stmt_S.
    destruct (Semantic.match_ "WHILE" s) as [[t |] s1] eqn:Hm.
    + apply match_Some_prog in Hm; [| discriminate]. cbv zeta.
      step_expect Semantic.EOF_LINE.
      step_bind (prog sx) (condition_total Semantic.EOF_LINE n sx).
      step_expect Semantic.EOF_LINE.
      destruct (IHbl sx0) as (s' & He & Ha); [numeric; lia |].
      exists s'. split; [exact He | close_prog].
    + apply match_None in Hm. destruct Hm as [-> _].
      eexists. split; [reflexivity | apply syn_error_prog].
  - (* for_stmt *)
    rewrite semantic_for_stmt_S.
    destruct (Semantic.match_ "FOR" s) as [[t |] s1] eqn:Hm.
    + apply match_Some_prog in Hm; [| discriminate]. cbv zeta.
      step_expect Semantic.EOF_LINE.
      step_bind (prog sx) (expression_or_error_total Semantic.EOF_LINE n sx).
      step_expect Semantic.EOF_LINE.
      step_bind (prog sx0) (condition_total Semantic.EOF_LINE n sx0).
      step_expect Semantic.EOF_LINE.
      step_bind (prog sx1) (expression_or_error_total Semantic.EOF_LINE n sx1).
      step_expect Semantic.EOF_LINE.
      destruct (IHst sx2) as (s' & He & Ha); [numeric; lia |].
      exists s'. split; [exact He | close_prog].
    + apply match_None in Hm. destruct Hm as [-> _].
      eexists. split; [reflexivity | apply syn_error_prog].
Qed.

Lemma semantic_param_list_total (fuel : nat) :
  forall (s : State),
    ntok s - pos s < fuel ->
    exists s', Semantic.param_list fuel s = Some s' /\ adv s s'.
Proof.
  induction fuel as [| fuel IH]; intros s Hf; [lia |].
  cbn [Semantic.param_list].
  destruct (is_type_token (token (Semantic.LA s))) eqn:Hty.
  - destruct (type_specifier_Some _ s Hty) as [-> Hin].
    pose proof (consume_inside Semantic.EOF_LINE s Hin) as Hc.
    assert (H1 : toks (snd (Semantic.consume s)) = toks s /\
                 pos (snd (Semantic.consume s)) = S (pos s)).
    { rewrite Hc. split; reflexivity. }
    set (s1 := snd (Semantic.consume s)) in *.
    destruct (Semantic.match_ "IDENTIFIER" s1) as [[pid |] s2] eqn:Hm.
    + apply match_Some_prog in Hm; [| discriminate].
      pose proof (semantic_add_symbol_keeps (lexeme pid)
                    (norm_type_token (token (Semantic.LA s))) "Main" 0%Z
                    (line pid) s2) as H3.
      set (s3 := Semantic.add_symbol _ _ _ _ _ s2) in *.
      destruct (Semantic.match_ "COMMA" s3) as [[t |] s4] eqn:Hm2.
      * apply match_Some_prog in Hm2; [| discriminate].
        destruct (IH s4) as (s' & He & Ha); [numeric; lia |].
        exists s'. split; [exact He | close_prog].
      * apply match_None in Hm2. destruct Hm2 as [-> _].
        eexists. split; [reflexivity | close_prog].
    + apply match_None in Hm. destruct Hm as [-> _].
      pose proof (syn_error_prog Semantic.EOF_LINE "Identifier expected" s1)
        as H2.
      eexists. split; [reflexivity | close_prog].
  - rewrite (type_specifier_None _ s Hty).
    eexists. split; [reflexivity | apply prog_adv, syn_error_prog].
Qed.

Lemma semantic_global_decl_list_total (fuel : nat) :
  forall (s : State),
    ntok s - pos s < fuel ->
    exists s', Semantic.global_decl_list fuel s = Some s' /\ adv s s'.
Proof.
  induction fuel as [| fuel IH]; intros s Hf; [lia |].
  cbn [Semantic.global_decl_list].
  destruct (is_type_token (token (Semantic.LA s))) eqn:Hty; cbn [negb].
  2:{ exists s. split; [reflexivity | apply adv_refl]. }
  assert (Hin : pos s < ntok s).
  { apply (LA_not_EOF_inside Semantic.EOF_LINE).
    now apply is_type_token_not_EOF. }
  pose proof (consume_inside Semantic.EOF_LINE s Hin) as Hc.
  assert (H1 : toks (snd (Semantic.consume s)) = toks s /\
               pos (snd (Semantic.consume s)) = S (pos s)).
  { rewrite Hc. repeat split. }
  set (s1 := snd (Semantic.consume s)) in *.
  destruct (token (Semantic.LA s1) =? "MAIN").
  - eexists. split; [reflexivity |]. destruct H1 as [Ht Hp].
    clearbody s1. split; cbn [toks pos set_pos]; [exact Ht | lia].
  - step_bind (adv s1)
      (semantic_declaration_total fuel
         (norm_type_token (token (Semantic.LA s))) s1).
    destruct (IH sb) as (s' & He & Ha); [numeric; lia |].
    exists s'. split; [exact He | close_prog].
Qed.

Lemma semantic_function_def_total (fuel : nat) (ret_type : string)
    (s : State) :
  3 * (ntok s - pos s) + 1 <= fuel ->
  exists s', Semantic.function_def fuel ret_type s = Some s' /\ adv s s' /\
             (token (Semantic.LA s) = "MAIN" -> cur_scope s' = "Global").
Proof.
  intros Hf. unfold Semantic.function_def.
  destruct (Semantic.match_ "MAIN" s) as [[id |] s1] eqn:Hm.
  - pose proof (match_Some _ _ _ _ _ Hm) as (_ & Hid & _).
    apply match_Some_prog in Hm; [| discriminate]. cbv zeta.
    pose proof (semantic_add_symbol_keeps "main" "Function" "Global" 0%Z
                  (line id) s1) as H2.
    set (s2 := Semantic.add_symbol _ _ _ _ _ s1) in *.
    assert (H3 : toks (set_cur_scope "Main" s2) = toks s2 /\
                 pos (set_cur_scope "Main" s2) = pos s2)
      by (split; reflexivity).
    set (s3 := set_cur_scope "Main" s2) in *.
    step_expect Semantic.EOF_LINE.
    apply (ok_bind _ (adv sx)).
    { destruct (token (Semantic.LA sx) =? "VOID").
      - eexists. split; [reflexivity | apply consume_adv].
      - destruct (is_type_token (token (Semantic.LA sx))).
        + apply semantic_param_list_total. numeric. lia.
        + eexists. split; [reflexivity | apply adv_refl]. }
    intros sb Hb.
    step_expect Semantic.EOF_LINE.
    destruct (semantic_parser_total fuel) as (_ & _ & IHbl & _).
    step_bind (prog sx0) (IHbl sx0).
    eexists. split; [reflexivity |].
    split; [| intros _; reflexivity].
    assert (H4 : toks (set_cur_scope "Global" sb0) = toks sb0 /\
                 pos (set_cur_scope "Global" sb0) = pos sb0)
      by (split; reflexivity).
    close_prog.
  - apply match_None in Hm. destruct Hm as [-> Hne].
    eexists. split; [reflexivity |].
    split; [apply prog_adv, syn_error_prog | intros H; contradiction].
Qed.

(** [program] returns for every token stream, given fuel for three steps
    per token. *)
Lemma semantic_program_total (fuel : nat) (s : State) :
  3 * (ntok s - pos s) + 1 <= fuel ->
  exists s', Semantic.program fuel s = Some s' /\ adv s s'.
Proof.
  intros Hf. unfold Semantic.program.
  step_bind (adv s) (semantic_global_decl_list_total fuel s).
  destruct (is_type_token (token (Semantic.LA sb))) eqn:Hty.
  - destruct (type_specifier_Some _ sb Hty) as [-> Hin].
    pose proof (consume_adv Semantic.EOF_LINE sb) as H1.
    destruct (semantic_function_def_total fuel
                (norm_type_token (token (Semantic.LA sb)))
                (snd (Semantic.consume sb))) as (s' & He & Ha & _).
    { numeric. lia. }
    exists s'. split; [exact He | close_prog].
  - rewrite (type_specifier_None _ sb Hty).
    pose proof (syn_error_prog Semantic.EOF_LINE "Any keyword expected" sb)
      as H1.
    eexists. split; [reflexivity | close_prog].
Qed.

(** ** Termination of the parser of [sematic_analyser.c] *)

Lemma sematic_add_symbol_keeps (name type scope : string) (arrsz : Z)
    (s : State) :
  toks (Sematic.add_symbol name type scope arrsz s) = toks s /\
  pos (Sematic.add_symbol name type scope arrsz s) = pos s /\
  cur_scope (Sematic.add_symbol name type scope arrsz s) = cur_scope s.
Proof.
  unfold Sematic.add_symbol.
  destruct (MAXSYM <=? nsym s)%nat; [repeat split |].
  destruct (existsb _ _); repeat split.
Qed.

Lemma sematic_array_opt_adv (size_out : Z) (s : State) :
  adv s (snd (Sematic.array_opt size_out s)).
Proof.
  unfold Sematic.array_opt.
  destruct (Sematic.match_ "LBRACKET" s) as [[t |] s1] eqn:Hm.
  - apply match_Some_prog in Hm; [| discriminate].
    destruct (Sematic.match_ "INT_CONST" s1) as [[num |] s2] eqn:Hm2;
      cbn [snd].
    + apply match_Some_prog in Hm2; [| discriminate].
      step_expect Sematic.EOF_LINE. close_prog.
    + apply match_None in Hm2. destruct Hm2 as [-> _].
      step_expect Sematic.EOF_LINE. close_prog.
  - apply match_None in Hm. destruct Hm as [-> _]. apply adv_refl.
Qed.

Lemma sematic_init_opt_adv (s : State) : adv s (snd (Sematic.init_opt s)).
Proof.
  unfold Sematic.init_opt.
  destruct (Sematic.match_ "ASSIGN" s) as [[t |] s1] eqn:Hm.
  - apply match_Some_prog in Hm; [| discriminate].
    destruct ((token (Sematic.LA s1) =? "INT_CONST")
              || (token (Sematic.LA s1) =? "CHAR_CONST")); cbn [snd].
    + pose proof (consume_adv Sematic.EOF_LINE s1) as H2. close_prog.
    + pose proof (syn_error_prog Sematic.EOF_LINE
                    "Identifier or integer constant expected" s1) as H2.
      close_prog.
  - apply match_None in Hm. destruct Hm as [-> _]. apply adv_refl.
Qed.

Lemma sematic_init_declarator_adv (typestr : string) (s : State) :
  adv s (Sematic.init_declarator typestr s).
Proof.
  unfold Sematic.init_declarator.
  destruct (Sematic.match_ "IDENTIFIER" s) as [[id |] s1] eqn:Hm.
  - apply match_Some in Hm. destruct Hm as (_ & _ & ->).
    pose proof (consume_adv Sematic.EOF_LINE s) as H1.
    set (s1 := snd (Sematic.consume s)) in *.
    pose proof (sematic_array_opt_adv 0%Z s1) as H2.
    destruct (Sematic.array_opt 0%Z s1) as [[r arrsz] s2]. cbn [snd] in H2.
    pose proof (sematic_init_opt_adv s2) as H3.
    set (s3 := snd (Sematic.init_opt s2)) in *.
    pose proof (sematic_add_symbol_keeps (lexeme id) typestr (cur_scope s3)
                  arrsz s3) as H4.
    close_prog.
  - apply match_None in Hm. destruct Hm as [-> _].
    apply prog_adv, syn_error_prog.
Qed.

Lemma sematic_init_declarator_list_loop_total (fuel : nat) :
  forall (typestr : string) (s : State),
    ntok s - pos s < fuel ->
    exists s',
      Sematic.init_declarator_list_loop fuel typestr s = Some s' /\
      adv s s'.
Proof.
  induction fuel as [| fuel IH]; intros typestr s Hf; [lia |].
  cbn [Sematic.init_declarator_list_loop].
  destruct (Sematic.match_ "COMMA" s) as [[t |] s1] eqn:Hm.
  - apply match_Some_prog in Hm; [| discriminate].
    pose proof (sematic_init_declarator_adv typestr s1) as H2.
    destruct (IH typestr (Sematic.init_declarator typestr s1))
      as (s' & He & Ha).
    { numeric. lia. }
    exists s'. split; [exact He |]. close_prog.
  - apply match_None in Hm. destruct Hm as [-> _].
    exists s. split; [reflexivity | apply adv_refl].
Qed.

Lemma sematic_declaration_total (fuel : nat) (typestr : string) (s : State) :
  ntok s - pos s < fuel ->
  exists s', Sematic.declaration fuel typestr s = Some s' /\ adv s s'.
Proof.
  intros Hf. unfold Sematic.declaration, Sematic.init_declarator_list.
  pose proof (sematic_init_declarator_adv typestr s) as H1.
  apply (ok_bind _ (adv s)).
  - destruct (sematic_init_declarator_list_loop_total fuel typestr
                (Sematic.init_declarator typestr s)) as (s' & He & Ha).
    { numeric. lia. }
    exists s'. split; [exact He |]. close_prog.
  - intros s1 H2. step_expect Sematic.EOF_LINE.
    eexists. split; [reflexivity |]. close_prog.
Qed.

Lemma sematic_expr_stmt_total (fuel : nat) (s : State) :
  ntok s - pos s <= fuel ->
  exists s', Sematic.expr_stmt fuel s = Some s' /\ prog s s'.
Proof.
  intros Hf. unfold Sematic.expr_stmt.
  destruct (Sematic.match_ "SEMICOLON" s) as [[t |] s1] eqn:Hm.
  - apply match_Some_prog in Hm; [| discriminate].
    eexists. split; [reflexivity | close_prog].
  - apply match_None in Hm. destruct Hm as [-> _].
    apply (ok_bind _ (prog s)).
    + destruct (expression_or_error_total Sematic.EOF_LINE fuel s Hf)
        as (s' & He & Hp & _).
      exists s'. split; assumption.
    + intros s1 H1. step_expect Sematic.EOF_LINE.
      eexists. split; [reflexivity |]. close_prog.
Qed.

Lemma sematic_statement_S (n : nat) (s : State) :
  Sematic.statement (S n) s =
  let t := Sematic.LA s in
  if is_type_token (token t) then
    match Sematic.type_specifier s with
    | (None, s) => Some (Sematic.syn_error "Any keyword expected" s)
    | (Some typestr, s) => Sematic.declaration n typestr s
    end
  else if token t =? "IF" then Sematic.if_stmt n s
  else if token t =? "WHILE" then Sematic.while_stmt n s
  else if token t =? "FOR" then Sematic.for_stmt n s
  else if token t =? "LBRACE" then Sematic.block n s
  else Sematic.expr_stmt n s.
Proof. reflexivity. Qed.

Lemma sematic_stmt_list_opt_S (n : nat) (s : State) :
  Sematic.stmt_list_opt (S n) s =
  let t := Sematic.LA s in
  if (token t =? "RBRACE") || (token t =? "EOF") then Some s
  else s <- Sematic.statement n s ;; Sematic.stmt_list_opt n s.
Proof. reflexivity. Qed.

Lemma sematic_block_S (n : nat) (s : State) :
  Sematic.block (S n) s =
  match Sematic.match_ "LBRACE" s with
  | (None, s) => Some (Sematic.syn_error "{ missing" s)
  | (Some _, s) =>
      s <- Sematic.stmt_list_opt n s ;;
      Some (Sematic.expect "RBRACE" "} missing" s)
  end.
Proof. reflexivity. Qed.

Lemma sematic_if_stmt_S (n : nat) (s : State) :
  Sematic.if_stmt (S n) s =
  match Sematic.match_ "IF" s with
  | (None, s) => Some (Sematic.syn_error "IF expected" s)
  | (Some _, s) =>
      let s := Sematic.expect "LPAREN" "Opening parenthesis missing" s in
      s <- Sematic.condition n s ;;
      let s := Sematic.expect "RPAREN" "Closing parenthesis missing" s in
      s <- Sematic.block n s ;;
      match Sematic.match_ "ELSE" s with
      | (Some _, s) => Sematic.block n s
      | (None, s) => Some s
      end
  end.
Proof. reflexivity. Qed.

Lemma sematic_while_stmt_S (n : nat) (s : State) :
  Sematic.while_stmt (S n) s =
  match Sematic.match_ "WHILE" s with
  | (None, s) => Some (Sematic.syn_error "WHILE expected" s)
  | (Some _, s) =>
      let s := Sematic.expect "LPAREN" "Opening parenthesis missing" s in
      s <- Sematic.condition n s ;;
      let s := Sematic.expect "RPAREN" "Closing parenthesis missing" s in
      Sematic.block n s
  end.
Proof. reflexivity. Qed.

Lemma sematic_for_stmt_S (n : nat) (s : State) :
  Sematic.for_stmt (S n) s =
  match Sematic.match_ "FOR" s with
  | (None, s) => Some (Sematic.syn_error "FOR expected" s)
  | (Some _, s) =>
      let s := Sematic.expect "LPAREN" "Opening parenthesis missing" s in
      s <- Sematic.expression_or_error n s ;;
      let s := Sematic.expect "SEMICOLON" "Semicolon expected" s in
      s <- Sematic.condition n s ;;
      let s := Sematic.expect "SEMICOLON" "Semicolon expected" s in
      s <- Sematic.expression_or_error n s ;;
      let s := Sematic.expect "RPAREN" "Closing parenthesis missing" s in
      Sematic.statement n s
  end.
Proof. reflexivity. Qed.

Lemma sematic_parser_total (n : nat) :
  (forall s, 3 * (ntok s - pos s) + 2 <= n ->
             exists s', Sematic.statement n s = Some s' /\ prog s s') /\
  (forall s, 3 * (ntok s - pos s) + 3 <= n ->
             exists s', Sematic.stmt_list_opt n s = Some s' /\ adv s s') /\
  (forall s, 3 * (ntok s - pos s) + 1 <= n ->
             exists s', Sematic.block n s = Some s' /\ prog s s') /\
  (forall s, 3 * (ntok s - pos s) + 1 <= n ->
             exists s', Sematic.if_stmt n s = Some s' /\ prog s s') /\
  (forall s, 3 * (ntok s - pos s) + 1 <= n ->
             exists s', Sematic.while_stmt n s = Some s' /\ prog s s') /\
  (forall s, 3 * (ntok s - pos s) + 1 <= n ->
             exists s', Sematic.for_stmt n s = Some s' /\ prog s s').
Proof.
  induction n as [| n (IHst & IHsl & IHbl & IHif & IHwh & IHfor)].
  { repeat split; intros s Hf; lia. }
  repeat split; intros s Hf.
  - (* statement *)
    rewrite sematic_statement_S. cbv zeta.
    destruct (is_type_token (token (Sematic.LA s))) eqn:Hty.
    { destruct (type_specifier_Some _ s Hty) as [-> Hin].
      pose proof (consume_inside Sematic.EOF_LINE s Hin) as Hc.
      destruct (sematic_declaration_total n
                  (norm_type_token (token (Sematic.LA s)))
                  (snd (Sematic.consume s))) as (s' & He & Ha).
      { rewrite Hc. unfold ntok. cbn. unfold ntok in Hf. lia. }
      exists s'. split; [exact He |]. rewrite Hc in Ha.
      destruct Ha as [Ht Hp]. cbn in Ht, Hp.
      repeat split; [assumption | lia | lia]. }
    destruct (token (Sematic.LA s) =? "IF"); [apply IHif; lia |].
    destruct (token (Sematic.LA s) =? "WHILE"); [apply IHwh; lia |].
    destruct (token (Sematic.LA s) =? "FOR"); [apply IHfor; lia |].
    destruct (token (Sematic.LA s) =? "LBRACE"); [apply IHbl; lia |].
    apply sematic_expr_stmt_total. lia.
  - (* stmt_list_opt *)
    rewrite sematic_stmt_list_opt_S. cbv zeta.
    destruct ((token (Sematic.LA s) =? "RBRACE")
              || (token (Sematic.LA s) =? "EOF")) eqn:Hstop.
    { exists s. split; [reflexivity | apply adv_refl]. }
    assert (Hin : pos s < ntok s).
    { apply (LA_not_EOF_inside Sematic.EOF_LINE). intros He.
      rewrite He in Hstop. discriminate. }
    step_bind (prog s) (IHst s).
    destruct (IHsl sb) as (s' & He & Ha); [numeric; lia |].
    exists s'. split; [exact He | close_prog].
  - (* block *)
    rewrite sematic_block_S.
    destruct (Sematic.match_ "LBRACE" s) as [[t |] s1] eqn:Hm.
    + apply match_Some_prog in Hm; [| discriminate].
      step_bind (adv s1) (IHsl s1).
      step_expect Sematic.EOF_LINE.
      eexists. split; [reflexivity | close_prog].
    + apply match_None in Hm. destruct Hm as [-> _].
      eexists. split; [reflexivity | apply syn_error_prog].
  - (* if_stmt *)
    rewrite sematic_if_stmt_S.
    destruct (Sematic.match_ "IF" s) as [[t |] s1] eqn:Hm.
    + apply match_Some_prog in Hm; [| discriminate]. cbv zeta.
      step_expect Sematic.EOF_LINE.
      step_bind (prog sx) (condition_total Sematic.EOF_LINE n sx).
      step_expect Sematic.EOF_LINE.
      step_bind (prog sx0) (IHbl sx0).
      destruct (Sematic.match_ "ELSE" sb0) as [[t2 |] s2] eqn:Hm2.
      * apply match_Some_prog in Hm2; [| discriminate].
        destruct (IHbl s2) as (s' & He & Ha); [numeric; lia |].
        exists s'. split; [exact He | close_prog].
      * apply match_None in Hm2. destruct Hm2 as [-> _].
        eexists. split; [reflexivity | close_prog].
    + apply match_None in Hm. destruct Hm as [-> _].
      eexists. split; [reflexivity | apply syn_error_prog].
  - (* while_stmt *)
    rewrite sematic_while_stmt_S.
    destruct (Sematic.match_ "WHILE" s) as [[t |] s1] eqn:Hm.
    + apply match_Some_prog in Hm; [| discriminate]. cbv zeta.
      step_expect Sematic.EOF_LINE.
      step_bind (prog sx) (condition_total Sematic.EOF_LINE n sx).
      step_expect Sematic.EOF_LINE.
      destruct (IHbl sx0) as (s' & He & Ha); [numeric; lia |].
      exists s'. split; [exact He | close_prog].
    + apply match_None in Hm. destruct Hm as [-> _].
      eexists. split; [reflexivity | apply syn_error_prog].
  - (* for_stmt *)
    rewrite sematic_for_stmt_S.
    destruct (Sematic.match_ "FOR" s) as [[t |] s1] eqn:Hm.
    + apply match_Some_prog in Hm; [| discriminate]. cbv zeta.
      step_expect Sematic.EOF_LINE.
      step_bind (prog sx) (expression_or_error_total Sematic.EOF_LINE n sx).
      step_expect Sematic.EOF_LINE.
      step_bind (prog sx0) (condition_total Sematic.EOF_LINE n sx0).
      step_expect Sematic.EOF_LINE.
      step_bind (prog sx1) (expression_or_error_total Sematic.EOF_LINE n sx1).
      step_expect Sematic.EOF_LINE.
      destruct (IHst sx2) as (s' & He & Ha); [numeric; lia |].
      exists s'. split; [exact He | close_prog].
    + apply match_None in Hm. destruct Hm as [-> _].
      eexists. split; [reflexivity | apply syn_error_prog].
Qed.

Lemma sematic_param_list_total (fuel : nat) :
  forall (pty : string) (pid : Tok) (s : State),
    ntok s - pos s < fuel ->
    exists s', Sematic.param_list fuel pty pid s = Some s' /\ adv s s'.
Proof.
  induction fuel as [| fuel IH]; intros pty pid s Hf; [lia |].
  cbn [Sematic.param_list].
  assert (H1 : exists pty1 s1,
             match Sematic.type_specifier s with
             | (Some ty, s0) => (ty, s0)
             | (None, s0) =>
                 (pty, Sematic.syn_error "Any keyword expected" s0)
             end = (pty1, s1) /\ adv s s1).
  { destruct (is_type_token (token (Sematic.LA s))) eqn:Hty.
    - destruct (type_specifier_Some _ s Hty) as [-> Hin].
      eexists _, _. split; [reflexivity | apply consume_adv].
    - rewrite (type_specifier_None _ s Hty).
      eexists _, _. split; [reflexivity | apply prog_adv, syn_error_prog]. }
  destruct H1 as (pty1 & s1 & -> & H1).
  assert (H2 : exists pid1 s2,
             match Sematic.match_ "IDENTIFIER" s1 with
             | (Some id, s0) => (id, s0)
             | (None, s0) => (pid, Sematic.syn_error "Identifier expected" s0)
             end = (pid1, s2) /\ adv s1 s2).
  { destruct (Sematic.match_ "IDENTIFIER" s1) as [[id |] s2] eqn:Hm.
    - apply match_Some in Hm. destruct Hm as (_ & _ & ->).
      eexists _, _. split; [reflexivity | apply consume_adv].
    - apply match_None in Hm. destruct Hm as [-> _].
      eexists _, _. split; [reflexivity | apply prog_adv, syn_error_prog]. }
  destruct H2 as (pid1 & s2 & -> & H2).
  pose proof (sematic_add_symbol_keeps (lexeme pid1) pty1 "Main" 0%Z s2)
    as H3.
  set (s3 := Sematic.add_symbol _ _ _ _ s2) in *.
  destruct (Sematic.match_ "COMMA" s3) as [[t |] s4] eqn:Hm2.
  - apply match_Some_prog in Hm2; [| discriminate].
    destruct (IH pty1 pid1 s4) as (s' & He & Ha); [numeric; lia |].
    exists s'. split; [exact He | close_prog].
  - apply match_None in Hm2. destruct Hm2 as [-> _].
    eexists. split; [reflexivity | close_prog].
Qed.

Lemma sematic_global_decl_list_total (fuel : nat) :
  forall (s : State),
    ntok s - pos s < fuel ->
    exists s', Sematic.global_decl_list fuel s = Some s' /\ adv s s'.
Proof.
  induction fuel as [| fuel IH]; intros s Hf; [lia |].
  cbn [Sematic.global_decl_list].
  destruct (is_type_token (token (Sematic.LA s))) eqn:Hty; cbn [negb].
  2:{ exists s. split; [reflexivity | apply adv_refl]. }
  assert (Hin : pos s < ntok s).
  { apply (LA_not_EOF_inside Sematic.EOF_LINE).
    now apply is_type_token_not_EOF. }
  pose proof (consume_inside Sematic.EOF_LINE s Hin) as Hc.
  rewrite Hc.
  assert (Hback : set_pos (pos (set_pos (S (pos s)) s) - 1)
                          (set_pos (S (pos s)) s) = s).
  { destruct s. cbn. now rewrite Nat.sub_0_r. }
  rewrite Hback.
  destruct (token (Sematic.LA (set_pos (S (pos s)) s)) =? "MAIN").
  - exists s. split; [reflexivity | apply adv_refl].
  - destruct (type_specifier_Some _ s Hty) as [-> _]. rewrite Hc.
    assert (H1 : toks (set_pos (S (pos s)) s) = toks s /\
                 pos (set_pos (S (pos s)) s) = S (pos s))
      by (split; reflexivity).
    clear Hc Hback.
    set (s1 := set_pos (S (pos s)) s) in *. clearbody s1.
    step_bind (adv s1)
      (sematic_declaration_total fuel
         (norm_type_token (token (Sematic.LA s))) s1).
    destruct (IH sb) as (s' & He & Ha); [numeric; lia |].
    exists s'. split; [exact He | close_prog].
Qed.

Lemma sematic_function_def_total (fuel : nat) (pty0 : string) (pid0 : Tok)
    (ret_type : string) (s : State) :
  3 * (ntok s - pos s) + 3 <= fuel ->
  exists s', Sematic.function_def fuel pty0 pid0 ret_type s = Some s' /\
             adv s s'.
Proof.
  intros Hf. unfold Sematic.function_def.
  destruct (Sematic.match_ "MAIN" s) as [[id |] s1] eqn:Hm.
  - apply match_Some_prog in Hm; [| discriminate]. cbv zeta.
    step_expect Sematic.EOF_LINE.
    apply (ok_bind _ (adv sx)).
    { destruct (token (Sematic.LA sx) =? "VOID").
      - eexists. split; [reflexivity | apply consume_adv].
      - apply sematic_param_list_total. numeric. lia. }
    intros sb Hb.
    step_expect Sematic.EOF_LINE.
    step_expect Sematic.EOF_LINE.
    assert (H3 : toks (set_cur_scope "Main" sx1) = toks sx1 /\
                 pos (set_cur_scope "Main" sx1) = pos sx1)
      by (split; reflexivity).
    set (s3 := set_cur_scope "Main" sx1) in *. clearbody s3.
    destruct (sematic_parser_total fuel) as (_ & IHsl & _).
    step_bind (adv s3) (IHsl s3).
    step_expect Sematic.EOF_LINE.
    eexists. split; [reflexivity |].
    assert (H4 : toks (set_cur_scope "Global" sx2) = toks sx2 /\
                 pos (set_cur_scope "Global" sx2) = pos sx2)
      by (split; reflexivity).
    close_prog.
  - apply match_None in Hm. destruct Hm as [-> Hne].
    eexists. split; [reflexivity | apply prog_adv, syn_error_prog].
Qed.

Lemma sematic_program_total (fuel : nat) (pty0 : string) (pid0 : Tok)
    (s : State) :
  3 * (ntok s - pos s) + 3 <= fuel ->
  exists s', Sematic.program fuel pty0 pid0 s = Some s' /\ adv s s'.
Proof.
  intros Hf. unfold Sematic.program.
  step_bind (adv s) (sematic_global_decl_list_total fuel s).
  destruct (is_type_token (token (Sematic.LA sb))) eqn:Hty.
  - destruct (type_specifier_Some _ sb Hty) as [-> Hin].
    pose proof (consume_adv Sematic.EOF_LINE sb) as H1.
    destruct (sematic_function_def_total fuel pty0 pid0
                (norm_type_token (token (Sematic.LA sb)))
                (snd (Sematic.consume sb))) as (s' & He & Ha).
    { numeric. lia. }
    exists s'. split; [exact He | close_prog].
  - rewrite (type_specifier_None _ sb Hty).
    pose proof (syn_error_prog Sematic.EOF_LINE "Any keyword expected" sb)
      as H1.
    eexists. split; [reflexivity | close_prog].
Qed.

(** * The properties that the specification states *)

(** C1.  In [apply_binary_op], whatever the operator, an operand of type
    [TYPE_ERROR] gives the result [TYPE_ERROR] and leaves the state as it
    is: nothing is reported.  Hence, from the point of an expression where
    the running type is [TYPE_ERROR], the rest of the loop of
    [expression_if_any] ends with [TYPE_ERROR], and none of the lines it
    writes is a type mismatch, however many operators follow. *)
Theorem C1_error_operand_is_absorbed :
  (forall (op : string) (lhs_type rhs_type ln : Z) (s : State),
      lhs_type = TYPE_ERROR \/ rhs_type = TYPE_ERROR ->
      apply_binary_op op lhs_type rhs_type ln s = (TYPE_ERROR, s)) /\
  (forall (eof_line : Z) (fuel : nat) (s : State),
      ntok s - pos s < fuel ->
      exists s' l,
        Cursor.expression_loop eof_line fuel TYPE_ERROR s
        = Some (TYPE_ERROR, s') /\
        reported s s' l /\
        Forall (fun d => snd d <> MISMATCH) l).
Proof.
  split.
  - exact apply_binary_op_error.
  - exact expression_loop_error.
Qed.

Lemma C1_witness :
  apply_binary_op "STAR" TYPE_ERROR TYPE_CHAR 4 after_undeclared
  = (TYPE_ERROR, after_undeclared) /\
  exists s' l,
    Cursor.expression_loop 0 6 TYPE_ERROR after_undeclared
    = Some (TYPE_ERROR, s') /\
    reported after_undeclared s' l /\
    Forall (fun d => snd d <> MISMATCH) l.
Proof.
  split.
  - apply (proj1 C1_error_operand_is_absorbed). left. reflexivity.
  - apply (proj2 C1_error_operand_is_absorbed). cbn. lia.
Defined.

(** C2.  In [apply_binary_op] with both operand types other than
    [TYPE_ERROR]: for [=] and [+ - * /], equal types give that type and
    nothing is reported, unequal types give [TYPE_ERROR] and one report of
    a type mismatch; for [< > ==], equal types give [TYPE_INT] whatever the
    type of the operands, unequal types give [TYPE_ERROR] and the same one
    report. *)
Theorem C2_binary_op_types :
  forall (op : string) (lhs_type rhs_type ln : Z) (s : State),
    lhs_type <> TYPE_ERROR -> rhs_type <> TYPE_ERROR ->
    (In op ["ASSIGN"; "PLUS"; "MINUS"; "STAR"; "SLASH"] ->
     (lhs_type = rhs_type ->
      apply_binary_op op lhs_type rhs_type ln s = (lhs_type, s)) /\
     (lhs_type <> rhs_type ->
      apply_binary_op op lhs_type rhs_type ln s
      = (TYPE_ERROR, semantic_error MISMATCH ln s) /\
      reported s (semantic_error MISMATCH ln s) [(ln, MISMATCH)])) /\
    (In op ["LT"; "GT"; "EQ"] ->
     (lhs_type = rhs_type ->
      apply_binary_op op lhs_type rhs_type ln s = (TYPE_INT, s)) /\
     (lhs_type <> rhs_type ->
      apply_binary_op op lhs_type rhs_type ln s
      = (TYPE_ERROR, semantic_error MISMATCH ln s) /\
      reported s (semantic_error MISMATCH ln s) [(ln, MISMATCH)])).
Proof.
  intros op l r ln s Hl Hr.
  assert (He : ((l =? TYPE_ERROR)%Z || (r =? TYPE_ERROR)%Z) = false).
  { apply orb_false_iff. split; now apply Z.eqb_neq. }
  split; intros Hop; cbn [In] in Hop.
  - split.
    + intros <-.
      repeat (destruct Hop as [<- | Hop]; [
        unfold apply_binary_op; cbn [String.eqb Ascii.eqb Bool.eqb orb];
        rewrite He, Z.eqb_refl; reflexivity |]).
      contradiction.
    + intros Hne. split; [| apply reported_semantic_error].
      apply Z.eqb_neq in Hne.
      repeat (destruct Hop as [<- | Hop]; [
        unfold apply_binary_op; cbn [String.eqb Ascii.eqb Bool.eqb orb];
        rewrite He, Hne; reflexivity |]).
      contradiction.
  - split.
    + intros <-.
      repeat (destruct Hop as [<- | Hop]; [
        unfold apply_binary_op; cbn [String.eqb Ascii.eqb Bool.eqb orb];
        rewrite He, Z.eqb_refl; reflexivity |]).
      contradiction.
    + intros Hne. split; [| apply reported_semantic_error].
      apply Z.eqb_neq in Hne.
      repeat (destruct Hop as [<- | Hop]; [
        unfold apply_binary_op; cbn [String.eqb Ascii.eqb Bool.eqb orb];
        rewrite He, Hne; reflexivity |]).
      contradiction.
Qed.

Lemma C2_witness :
  (apply_binary_op "PLUS" TYPE_CHAR TYPE_CHAR 3 (init_state [])
   = (TYPE_CHAR, init_state [])) /\
  (apply_binary_op "EQ" TYPE_CHAR TYPE_CHAR 3 (init_state [])
   = (TYPE_INT, init_state [])) /\
  (apply_binary_op "ASSIGN" TYPE_INT TYPE_CHAR 3 (init_state [])
   = (TYPE_ERROR, semantic_error MISMATCH 3 (init_state []))).
Proof.
  assert (Hc : TYPE_CHAR <> TYPE_ERROR) by discriminate.
  assert (Hi : TYPE_INT <> TYPE_ERROR) by discriminate.
  split; [| split].
  - apply (proj1 (C2_binary_op_types "PLUS" TYPE_CHAR TYPE_CHAR 3
                    (init_state []) Hc Hc)); [cbn; tauto | reflexivity].
  - apply (proj2 (C2_binary_op_types "EQ" TYPE_CHAR TYPE_CHAR 3
                    (init_state []) Hc Hc)); [cbn; tauto | reflexivity].
  - apply (proj2 (proj1 (C2_binary_op_types "ASSIGN" TYPE_INT TYPE_CHAR 3
                           (init_state []) Hi Hc) (or_introl eq_refl)));
      discriminate.
Defined.

(** ** Symbol lookup *)

Lemma find_named (name sc : string) (l : list Sym) :
  (forall y,
      find (fun y => (sym_lexeme y =? name) &&& (sym_scope y =? sc)) l = Some y ->
      In y l /\ named_in name sc y) /\
  (find (fun y => (sym_lexeme y =? name) &&& (sym_scope y =? sc)) l = None ->
   forall y, In y l -> ~ named_in name sc y) /\
  ((exists y, In y l /\ named_in name sc y) ->
   exists y,
     find (fun y => (sym_lexeme y =? name) &&& (sym_scope y =? sc)) l = Some y).
Proof.
  split; [| split].
  - intros y H. apply find_some in H. destruct H as [Hin Hb].
    apply andb_prop in Hb. destruct Hb as [H1 H2].
    apply String.eqb_eq in H1, H2. repeat split; assumption.
  - intros H y Hin [H1 H2].
    pose proof (find_none _ _ H y Hin) as Hb. cbn beta in Hb.
    rewrite H1, H2, !String.eqb_refl in Hb. discriminate.
  - intros (y & Hin & H1 & H2).
    destruct (find _ l) as [z |] eqn:Hf; [exists z; reflexivity |].
    pose proof (find_none _ _ Hf y Hin) as Hb. cbn beta in Hb.
    rewrite H1, H2, !String.eqb_refl in Hb. discriminate.
Qed.

(** C5.  [lookup_symbol name] returns a symbol of that name whose scope is
    the current scope when the table has one; when it has none, a symbol of
    that name in scope [Global] when the table has one; and [NULL] when it
    has neither.  So while the scope register is [Main], a symbol [x] of
    scope [Main] hides a global [x]: the lookup returns a [Main] symbol, and
    an expression that starts with the identifier [x] starts with the type
    of that symbol. *)
Theorem C5_lookup_precedence :
  forall (name : string) (s : State),
    ((exists y, In y (symtab s) /\ named_in name (cur_scope s) y) ->
     exists y, lookup_symbol name s = Some y /\ In y (symtab s) /\
               named_in name (cur_scope s) y) /\
    ((forall y, In y (symtab s) -> ~ named_in name (cur_scope s) y) ->
     (exists y, In y (symtab s) /\ named_in name "Global" y) ->
     exists y, lookup_symbol name s = Some y /\ In y (symtab s) /\
               named_in name "Global" y) /\
    ((forall y, In y (symtab s) -> ~ named_in name (cur_scope s) y) ->
     (forall y, In y (symtab s) -> ~ named_in name "Global" y) ->
     lookup_symbol name s = None) /\
    (cur_scope s = "Main" ->
     (exists y, In y (symtab s) /\ named_in name "Main" y) ->
     exists y,
       lookup_symbol name s = Some y /\ named_in name "Main" y /\
       forall (eof_line : Z) (fuel : nat) (out_type : Z),
         token (Cursor.LA eof_line s) = "IDENTIFIER" ->
         lexeme (Cursor.LA eof_line s) = name ->
         Cursor.expression_if_any eof_line fuel out_type s
         = match Cursor.expression_loop eof_line fuel
                   (str_to_type (sym_type y))
                   (snd (Cursor.consume eof_line s)) with
           | Some (ty, s') => Some (true, ty, s')
           | None => None
           end).
Proof.
  intros name s.
  destruct (find_named name (cur_scope s) (symtab s)) as (Hc1 & Hc2 & Hc3).
  destruct (find_named name "Global" (symtab s)) as (Hg1 & Hg2 & Hg3).
  assert (Hcur : (exists y, In y (symtab s) /\ named_in name (cur_scope s) y) ->
                 exists y, lookup_symbol name s = Some y /\ In y (symtab s) /\
                           named_in name (cur_scope s) y).
  { intros Hex. destruct (Hc3 Hex) as (y & Hf).
    exists y. unfold lookup_symbol. rewrite Hf.
    split; [reflexivity | apply Hc1, Hf]. }
  split; [exact Hcur | split; [| split]].
  - intros Hno Hex. destruct (Hg3 Hex) as (y & Hf).
    exists y. unfold lookup_symbol.
    destruct (find _ (symtab s)) as [z |] eqn:Hz in |- *.
    + destruct (Hc1 z Hz) as [Hin Hn]. elim (Hno z Hin Hn).
    + split; [exact Hf | apply Hg1, Hf].
  - intros Hno Hnog. unfold lookup_symbol.
    destruct (find _ (symtab s)) as [z |] eqn:Hz in |- *.
    + destruct (Hc1 z Hz) as [Hin Hn]. elim (Hno z Hin Hn).
    + destruct (find (fun y => (sym_lexeme y =? name)
                               &&& (sym_scope y =? "Global")) (symtab s))
        as [z |] eqn:Hz2 in |- *; [| reflexivity].
      destruct (Hg1 z Hz2) as [Hin Hn]. elim (Hnog z Hin Hn).
  - intros Hscope Hex. rewrite <- Hscope in Hex.
    destruct (Hcur Hex) as (y & Hl & _ & Hn). rewrite Hscope in Hn.
    exists y. split; [exact Hl | split; [exact Hn |]].
    intros eof_line fuel out_type Htok Hlex.
    unfold Cursor.expression_if_any. rewrite Htok, Hlex, Hl.
    cbn [String.eqb Ascii.eqb Bool.eqb]. reflexivity.
Qed.

Lemma C5_witness :
  exists y,
    lookup_symbol "x" shadowed = Some y /\ named_in "x" "Main" y /\
    forall (eof_line : Z) (fuel : nat) (out_type : Z),
      token (Cursor.LA eof_line shadowed) = "IDENTIFIER" ->
      lexeme (Cursor.LA eof_line shadowed) = "x" ->
      Cursor.expression_if_any eof_line fuel out_type shadowed
      = match Cursor.expression_loop eof_line fuel
                (str_to_type (sym_type y))
                (snd (Cursor.consume eof_line shadowed)) with
        | Some (ty, s') => Some (true, ty, s')
        | None => None
        end.
Proof.
  apply (proj2 (proj2 (proj2 (C5_lookup_precedence "x" shadowed)))).
  - reflexivity.
  - exists (mkSym "x" "Char" "Main" 0). split.
    + cbn. right. right. left. reflexivity.
    + split; reflexivity.
Defined.

(** The parameter [char x] of [shadowed] is what the lookup returns. *)
Example lookup_shadowed :
  lookup_symbol "x" shadowed = Some (mkSym "x" "Char" "Main" 0).
Proof. reflexivity. Qed.

(** ** The end of the token stream *)

Lemma syn_error_at_end (eof_line : Z) (msg : string) (s : State) :
  ntok s <= pos s ->
  Cursor.syn_error eof_line msg s = semantic_error msg eof_line s.
Proof.
  intros H. unfold Cursor.syn_error, Cursor.skip_line_tokens.
  rewrite (LA_at_end eof_line s H). cbn [line Cursor.eof].
  replace (ntok _ - pos _) with 0 by (unfold ntok in *; cbn; lia).
  reflexivity.
Qed.

(** C10.  With the cursor at or behind the end of the token stream, [LA]
    and [consume] return the token [EOF] that the parser makes up, and
    [consume] moves nothing; an error that [syn_error] reports there
    carries the line number of that token: 0 in [semantic_analyser.c],
    999999 in [sematic_analyser.c] and [syntax_analyser.c], whatever the
    line of the last token read. *)
Theorem C10_end_of_stream :
  forall (s : State),
    ntok s <= pos s ->
    (Semantic.LA s = mkTok "EOF" "" 0 /\
     Semantic.consume s = (mkTok "EOF" "" 0, s) /\
     forall msg, Semantic.syn_error msg s = semantic_error msg 0 s) /\
    (Sematic.LA s = mkTok "EOF" "" 999999 /\
     Sematic.consume s = (mkTok "EOF" "" 999999, s) /\
     forall msg, Sematic.syn_error msg s = semantic_error msg 999999 s) /\
    (Syntax.LA s = mkTok "EOF" "" 999999 /\
     Syntax.consume s = (mkTok "EOF" "" 999999, s) /\
     forall msg, Syntax.syn_error msg s = semantic_error msg 999999 s).
Proof.
  intros s H.
  split; [| split]; (split; [| split]);
    first [ apply LA_at_end; exact H
          | apply consume_at_end; exact H
          | intros msg; apply syn_error_at_end; exact H ].
Qed.

Lemma C10_witness :
  (Semantic.LA at_end = mkTok "EOF" "" 0 /\
   Semantic.consume at_end = (mkTok "EOF" "" 0, at_end) /\
   forall msg, Semantic.syn_error msg at_end = semantic_error msg 0 at_end) /\
  (Sematic.LA at_end = mkTok "EOF" "" 999999 /\
   Sematic.consume at_end = (mkTok "EOF" "" 999999, at_end) /\
   forall msg,
     Sematic.syn_error msg at_end = semantic_error msg 999999 at_end) /\
  (Syntax.LA at_end = mkTok "EOF" "" 999999 /\
   Syntax.consume at_end = (mkTok "EOF" "" 999999, at_end) /\
   forall msg,
     Syntax.syn_error msg at_end = semantic_error msg 999999 at_end).
Proof.
  apply (C10_end_of_stream at_end). cbn. lia.
Defined.

(** ** Conditions *)

Lemma match_hit (eof_line : Z) (kind : string) (s : State) :
  token (Cursor.LA eof_line s) = kind ->
  Cursor.match_ eof_line kind s
  = (Some (Cursor.LA eof_line s), snd (Cursor.consume eof_line s)).
Proof.
  intros H. unfold Cursor.match_. rewrite H, String.eqb_refl. reflexivity.
Qed.







(** *** The body of a statement, in [semantic_analyser.c] *)









(** *** The body of a statement, in [sematic_analyser.c] *)










(** [while (y) { }] with [y] a [char]: one report, at line 5, and the loop
    is parsed to its closing brace. *)
Example while_char_reports_once :
  Semantic.while_stmt 19 while_char
  = Some (mkState (toks while_char) 6 (symtab while_char) "Main" 1
                  [(5%Z, INTEGER_EXPECTED)]) /\
  Sematic.while_stmt 19 while_char
  = Some (mkState (toks while_char) 6 (symtab while_char) "Main" 1
                  [(5%Z, INTEGER_EXPECTED)]).
Proof. split; reflexivity. Qed.

Lemma existsb_named (name sc : string) (l : list Sym) :
  existsb (fun y => (sym_lexeme y =? name) &&& (sym_scope y =? sc)) l = true
  <-> exists y, In y l /\ named_in name sc y.
Proof.
  rewrite existsb_exists. split; intros (y & Hin & H); exists y; split;
    try assumption.
  - apply andb_prop in H. destruct H as [H1 H2].
    apply String.eqb_eq in H1, H2. split; assumption.
  - destruct H as [-> ->]. now rewrite !String.eqb_refl.
Qed.

Lemma snprintf_fits (n : nat) (str : string) :
  String.length str < n -> snprintf n str = str.
Proof.
  unfold snprintf. intros H.
  assert (Hk : String.length str <= n - 1) by lia. clear H.
  revert Hk. generalize (n - 1) as k.
  induction str as [| c str IH]; intros k Hk.
  - destruct k; reflexivity.
  - destruct k as [| k]; [cbn in Hk; lia |].
    cbn [substring]. rewrite IH; [reflexivity | cbn in Hk; lia].
Qed.

(** ** What the parser of [semantic_analyser.c] enters in the table *)

Lemma grows_refl (s : State) : grows s s.
Proof.
  split; [reflexivity |]. exists []. split; [now rewrite app_nil_r | constructor].
Qed.

Lemma grows_trans (s1 s2 s3 : State) : grows s1 s2 -> grows s2 s3 -> grows s1 s3.
Proof.
  intros (Hc1 & l1 & Hs1 & Hf1) (Hc2 & l2 & Hs2 & Hf2).
  split; [congruence |].
  exists (l1 ++ l2). split.
  - rewrite Hs2, Hs1. now rewrite app_assoc.
  - apply Forall_app. split; [exact Hf1 |]. rewrite Hc1 in Hf2. exact Hf2.
Qed.

Lemma same_table_grows (s s' : State) :
  symtab s' = symtab s -> cur_scope s' = cur_scope s -> grows s s'.
Proof.
  intros Hs Hc. split; [exact Hc |].
  exists []. split; [now rewrite app_nil_r | constructor].
Qed.

Lemma consume_grows (eof_line : Z) (s : State) :
  grows s (snd (Cursor.consume eof_line s)).
Proof.
  destruct (consume_keeps eof_line s) as (H1 & H2 & _).
  now apply same_table_grows.
Qed.

Lemma syn_error_grows (eof_line : Z) (msg : string) (s : State) :
  grows s (Cursor.syn_error eof_line msg s).
Proof.
  destruct (syn_error_keeps eof_line msg s) as (H1 & H2 & _).
  now apply same_table_grows.
Qed.

Lemma semantic_error_grows (msg : string) (ln : Z) (s : State) :
  grows s (semantic_error msg ln s).
Proof. now apply same_table_grows. Qed.

Lemma match_grows (eof_line : Z) (kind : string) (s : State) :
  grows s (snd (Cursor.match_ eof_line kind s)).
Proof.
  unfold Cursor.match_.
  destruct (token (Cursor.LA eof_line s) =? kind); cbn [snd];
    [apply consume_grows | apply grows_refl].
Qed.

Lemma expect_grows (eof_line : Z) (kind msg : string) (s : State) :
  grows s (Cursor.expect eof_line kind msg s).
Proof.
  unfold Cursor.expect, Cursor.match_.
  destruct (token (Cursor.LA eof_line s) =? kind);
    [apply consume_grows | apply syn_error_grows].
Qed.

Lemma only_reports_grows (s s' : State) : only_reports s s' -> grows s s'.
Proof. intros (_ & _ & H1 & H2). now apply same_table_grows. Qed.

Ltac some_inv H :=
  match type of H with
  | Some ?x = Some ?y =>
      let E := fresh "E" in
      assert (E : y = x) by congruence; clear H; subst y
  end.

(** Follow a chain of [grows] facts from the first state of the goal. *)
Ltac grows_chain :=
  repeat (eapply grows_trans; [eassumption |]);
  first [apply grows_refl | eassumption].

Lemma expression_loop_grows (eof_line : Z) (fuel : nat) :
  forall (ty ty' : Z) (s s' : State),
    Cursor.expression_loop eof_line fuel ty s = Some (ty', s') -> grows s s'.
Proof.
  induction fuel as [| fuel IH]; intros ty ty' s s'; [discriminate |].
  cbn [Cursor.expression_loop].
  destruct (negb (is_operator (token (Cursor.LA eof_line s)))).
  { intros H. injection H as _ <-. apply grows_refl. }
  pose proof (consume_grows eof_line s) as H1.
  set (s1 := snd (Cursor.consume eof_line s)) in *. clearbody s1.
  destruct (token (Cursor.LA eof_line s1) =? "IDENTIFIER").
  - pose proof (only_reports_grows _ _
                  (operand_only_reports (Cursor.LA eof_line s1) s1)) as H2.
    destruct (match lookup_symbol _ _ with Some _ => _ | None => _ end)
      as [rhs s2]. cbn [snd] in H2.
    pose proof (consume_grows eof_line s2) as H3.
    set (s3 := snd (Cursor.consume eof_line s2)) in *. clearbody s3.
    pose proof (only_reports_grows _ _
                  (apply_binary_op_only_reports
                     (token (Cursor.LA eof_line s)) ty rhs
                     (line (Cursor.LA eof_line s)) s3)) as H4.
    destruct (apply_binary_op _ _ _ _ _) as [ty4 s4]. cbn [snd] in H4.
    intros H. apply IH in H. grows_chain.
  - destruct ((token (Cursor.LA eof_line s1) =? "INT_CONST")
              || (token (Cursor.LA eof_line s1) =? "CHAR_CONST")).
    + pose proof (consume_grows eof_line s1) as H3.
      set (s3 := snd (Cursor.consume eof_line s1)) in *. clearbody s3.
      pose proof (only_reports_grows _ _
                    (apply_binary_op_only_reports
                       (token (Cursor.LA eof_line s)) ty
                       (const_token_type (Cursor.LA eof_line s1))
                       (line (Cursor.LA eof_line s)) s3)) as H4.
      destruct (apply_binary_op _ _ _ _ _) as [ty4 s4]. cbn [snd] in H4.
      intros H. apply IH in H. grows_chain.
    + intros H. injection H as _ <-.
      pose proof (syn_error_grows eof_line
                    "Identifier or integer constant expected" s1) as H2.
      grows_chain.
Qed.

Lemma expression_if_any_grows (eof_line : Z) (fuel : nat) (out_type ty : Z)
    (ok : bool) (s s' : State) :
  Cursor.expression_if_any eof_line fuel out_type s = Some (ok, ty, s') ->
  grows s s'.
Proof.
  unfold Cursor.expression_if_any.
  destruct (token (Cursor.LA eof_line s) =? "IDENTIFIER").
  - pose proof (only_reports_grows _ _
                  (operand_only_reports (Cursor.LA eof_line s) s)) as H2.
    destruct (match lookup_symbol _ _ with Some _ => _ | None => _ end)
      as [ty1 s2]. cbn [snd] in H2.
    pose proof (consume_grows eof_line s2) as H3.
    destruct (Cursor.expression_loop eof_line fuel ty1 _)
      as [[ty2 s3] |] eqn:He; [| discriminate].
    apply expression_loop_grows in He.
    intros H. injection H as _ _ <-. grows_chain.
  - destruct ((token (Cursor.LA eof_line s) =? "INT_CONST")
              || (token (Cursor.LA eof_line s) =? "CHAR_CONST")).
    + pose proof (consume_grows eof_line s) as H3.
      destruct (Cursor.expression_loop eof_line fuel _ _)
        as [[ty2 s3] |] eqn:He; [| discriminate].
      apply expression_loop_grows in He.
      intros H. injection H as _ _ <-. grows_chain.
    + intros H. injection H as _ _ <-. apply grows_refl.
Qed.

Lemma condition_grows (eof_line : Z) (fuel : nat) (s s' : State) :
  Cursor.condition eof_line fuel s = Some s' -> grows s s'.
Proof.
  unfold Cursor.condition.
  destruct (Cursor.expression_if_any eof_line fuel TYPE_ERROR s)
    as [[[ok ty] s1] |] eqn:He; [| discriminate].
  apply expression_if_any_grows in He. cbn [bind].
  destruct (negb ok).
  { intros H. some_inv H.
    pose proof (syn_error_grows eof_line
                  "Identifier or integer constant expected" s1) as H2.
    grows_chain. }
  destruct (_ && _); intros H; injection H as <-; [| exact He].
  pose proof (semantic_error_grows INTEGER_EXPECTED
                (line (Cursor.LA eof_line s1)) s1) as H2.
  grows_chain.
Qed.

Lemma expression_or_error_grows (eof_line : Z) (fuel : nat) (s s' : State) :
  Cursor.expression_or_error eof_line fuel s = Some s' -> grows s s'.
Proof.
  unfold Cursor.expression_or_error.
  destruct (Cursor.expression_if_any eof_line fuel TYPE_ERROR s)
    as [[[ok ty] s1] |] eqn:He; [| discriminate].
  apply expression_if_any_grows in He. cbn [bind].
  destruct (negb ok); intros H; injection H as <-; [| exact He].
  pose proof (syn_error_grows eof_line
                "Identifier or integer constant expected" s1) as H2.
  grows_chain.
Qed.

Lemma semantic_add_symbol_grows (name type : string) (arrsz ln : Z)
    (s : State) :
  grows s (Semantic.add_symbol name type (cur_scope s) arrsz ln s).
Proof.
  unfold Semantic.add_symbol.
  destruct (existsb _ _); [apply semantic_error_grows |].
  destruct (MAXSYM <=? nsym s)%nat; [apply grows_refl |].
  split; [reflexivity |].
  eexists. split; [reflexivity |]. constructor; [reflexivity | constructor].
Qed.

Lemma semantic_array_opt_grows (s : State) :
  grows s (snd (Semantic.array_opt s)).
Proof.
  unfold Semantic.array_opt.
  destruct (negb (token (Semantic.LA s) =? "LBRACKET")); [apply grows_refl |].
  pose proof (consume_grows Semantic.EOF_LINE s) as H1.
  set (s1 := snd (Semantic.consume s)) in *. clearbody s1.
  destruct (token (Semantic.LA s1) =? "INT_CONST"); cbn [snd].
  - pose proof (consume_grows Semantic.EOF_LINE s1) as H2.
    pose proof (expect_grows Semantic.EOF_LINE "RBRACKET"
                  "Right bracket expected" (snd (Semantic.consume s1))) as H3.
    grows_chain.
  - pose proof (expect_grows Semantic.EOF_LINE "RBRACKET"
                  "Right bracket expected" s1) as H3.
    grows_chain.
Qed.

Lemma semantic_init_opt_grows (typestr : string) (ln : Z) (s : State) :
  grows s (snd (Semantic.init_opt typestr ln s)).
Proof.
  unfold Semantic.init_opt.
  destruct (negb (token (Semantic.LA s) =? "ASSIGN")); [apply grows_refl |].
  pose proof (consume_grows Semantic.EOF_LINE s) as H1.
  set (s1 := snd (Semantic.consume s)) in *. clearbody s1.
  destruct (negb (token (Semantic.LA s1) =? "INT_CONST")
            && negb (token (Semantic.LA s1) =? "CHAR_CONST")); cbn [snd].
  - pose proof (syn_error_grows Semantic.EOF_LINE
                  "Identifier or integer constant expected" s1) as H2.
    grows_chain.
  - destruct (_ && _).
    + pose proof (semantic_error_grows MISMATCH (line (Semantic.LA s1)) s1)
        as H2.
      pose proof (consume_grows Semantic.EOF_LINE
                    (semantic_error MISMATCH (line (Semantic.LA s1)) s1))
        as H3.
      grows_chain.
    + pose proof (consume_grows Semantic.EOF_LINE s1) as H3. grows_chain.
Qed.

Lemma semantic_init_declarator_grows (typestr : string) (s : State) :
  grows s (Semantic.init_declarator typestr s).
Proof.
  unfold Semantic.init_declarator.
  pose proof (match_grows Semantic.EOF_LINE "IDENTIFIER" s) as H1.
  destruct (Semantic.match_ "IDENTIFIER" s) as [[id |] s1]; cbn [snd] in H1.
  - pose proof (semantic_array_opt_grows s1) as H2.
    destruct (Semantic.array_opt s1) as [[r arrsz] s2]. cbn [snd] in H2.
    pose proof (semantic_init_opt_grows typestr (line id) s2) as H3.
    set (s3 := snd (Semantic.init_opt typestr (line id) s2)) in *.
    clearbody s3.
    pose proof (semantic_add_symbol_grows (lexeme id) typestr arrsz
                  (line id) s3) as H4.
    grows_chain.
  - pose proof (syn_error_grows Semantic.EOF_LINE "Identifier expected" s1)
      as H2.
    grows_chain.
Qed.

Lemma bind_Some (m : option State) (k : State -> option State) (s' : State) :
  bind m k = Some s' -> exists s1, m = Some s1 /\ k s1 = Some s'.
Proof.
  destruct m as [s1 |]; [| discriminate]. intros H. exists s1. now split.
Qed.

Lemma semantic_init_declarator_list_loop_grows (fuel : nat) :
  forall (typestr : string) (s s' : State),
    Semantic.init_declarator_list_loop fuel typestr s = Some s' ->
    grows s s'.
Proof.
  induction fuel as [| fuel IH]; intros typestr s s'; [discriminate |].
  cbn [Semantic.init_declarator_list_loop].
  pose proof (match_grows Semantic.EOF_LINE "COMMA" s) as H1.
  destruct (Semantic.match_ "COMMA" s) as [[t |] s1]; cbn [snd] in H1.
  - pose proof (semantic_init_declarator_grows typestr s1) as H2.
    intros H. apply IH in H. grows_chain.
  - intros H. some_inv H. exact H1.
Qed.

Lemma semantic_declaration_grows (fuel : nat) (typestr : string)
    (s s' : State) :
  Semantic.declaration fuel typestr s = Some s' -> grows s s'.
Proof.
  unfold Semantic.declaration, Semantic.init_declarator_list.
  intros H. apply bind_Some in H. destruct H as (s1 & H1 & H).
  apply semantic_init_declarator_list_loop_grows in H1.
  pose proof (semantic_init_declarator_grows typestr s) as H0.
  some_inv H.
  pose proof (expect_grows Semantic.EOF_LINE "SEMICOLON"
                "Semicolon expected" s1) as H2.
  grows_chain.
Qed.

Lemma semantic_expr_stmt_grows (fuel : nat) (s s' : State) :
  Semantic.expr_stmt fuel s = Some s' -> grows s s'.
Proof.
  unfold Semantic.expr_stmt.
  destruct (token (Semantic.LA s) =? "SEMICOLON").
  - intros H. some_inv H. apply consume_grows.
  - intros H. apply bind_Some in H. destruct H as (s1 & H1 & H).
    apply expression_or_error_grows in H1. some_inv H.
    pose proof (expect_grows Semantic.EOF_LINE "SEMICOLON"
                  "Semicolon expected" s1) as H2.
    grows_chain.
Qed.

Ltac grows_expect :=
  cbv beta zeta;
  match goal with
  | |- context [Cursor.expect ?eofl ?k ?m ?x] =>
      is_var x;
      let H := fresh "Hx" in
      let y := fresh "sx" in
      pose proof (expect_grows eofl k m x) as H;
      set (y := Cursor.expect eofl k m x) in *; clearbody y
  end.

Ltac grows_bind lem :=
  let H := fresh "H" in
  let H1 := fresh "Hb" in
  let s1 := fresh "sb" in
  intros H; apply bind_Some in H; destruct H as (s1 & H1 & H);
  apply lem in H1; revert H.

Lemma semantic_parser_grows (n : nat) :
  (forall s s', Semantic.statement n s = Some s' -> grows s s') /\
  (forall s s', Semantic.stmt_list_opt n s = Some s' -> grows s s') /\
  (forall s s', Semantic.block n s = Some s' -> grows s s') /\
  (forall s s', Semantic.if_stmt n s = Some s' -> grows s s') /\
  (forall s s', Semantic.while_stmt n s = Some s' -> grows s s') /\
  (forall s s', Semantic.for_stmt n s = Some s' -> grows s s').
Proof.
  induction n as [| n (IHst & IHsl & IHbl & IHif & IHwh & IHfor)].
  { split; [| split; [| split; [| split; [| split]]]];
      intros s s' H; discriminate H. }
  split; [| split; [| split; [| split; [| split]]]]; intros s s'.
  - rewrite semantic_statement_S. cbv zeta.
    destruct (is_type_token (token (Semantic.LA s))) eqn:Hty.
    { destruct (type_specifier_Some _ s Hty) as [-> _].
      pose proof (consume_grows Semantic.EOF_LINE s) as H1.
      intros H. apply semantic_declaration_grows in H. grows_chain. }
    destruct (token (Semantic.LA s) =? "IF"); [apply IHif |].
    destruct (token (Semantic.LA s) =? "WHILE"); [apply IHwh |].
    destruct (token (Semantic.LA s) =? "FOR"); [apply IHfor |].
    destruct (token (Semantic.LA s) =? "LBRACE"); [apply IHbl |].
    apply semantic_expr_stmt_grows.
  - rewrite semantic_stmt_list_opt_S. cbv zeta.
    destruct (_ || _).
    { intros H. some_inv H. apply grows_refl. }
    grows_bind IHst. intros H. apply IHsl in H. grows_chain.
  - rewrite semantic_block_S.
    pose proof (match_grows Semantic.EOF_LINE "LBRACE" s) as H1.
    destruct (Semantic.match_ "LBRACE" s) as [[t |] s1]; cbn [snd] in H1.
    + grows_bind IHsl. grows_expect.
      intros H. some_inv H. grows_chain.
    + intros H. some_inv H.
      pose proof (syn_error_grows Semantic.EOF_LINE "{ expected" s1) as H2.
      grows_chain.
  - rewrite semantic_if_stmt_S.
    pose proof (match_grows Semantic.EOF_LINE "IF" s) as H1.
    destruct (Semantic.match_ "IF" s) as [[t |] s1]; cbn [snd] in H1.
    + grows_expect. grows_bind (condition_grows Semantic.EOF_LINE).
      grows_expect. grows_bind IHbl.
      pose proof (match_grows Semantic.EOF_LINE "ELSE" sb0) as H5.
      destruct (Semantic.match_ "ELSE" sb0) as [[t2 |] s2]; cbn [snd] in H5.
      * intros H. apply IHbl in H. grows_chain.
      * intros H. some_inv H. grows_chain.
    + intros H. some_inv H.
      pose proof (syn_error_grows Semantic.EOF_LINE "IF expected" s1) as H2.
      grows_chain.
  - rewrite semantic_while_stmt_S.
    pose proof (match_grows Semantic.EOF_LINE "WHILE" s) as H1.
    destruct (Semantic.match_ "WHILE" s) as [[t |] s1]; cbn [snd] in H1.
    + grows_expect. grows_bind (condition_grows Semantic.EOF_LINE).
      grows_expect. intros H. apply IHbl in H. grows_chain.
    + intros H. some_inv H.
      pose proof (syn_error_grows Semantic.EOF_LINE "WHILE expected" s1)
        as H2.
      grows_chain.
  - rewrite semantic_for_stmt_S.
    pose proof (match_grows Semantic.EOF_LINE "FOR" s) as H1.
    destruct (Semantic.match_ "FOR" s) as [[t |] s1]; cbn [snd] in H1.
    + grows_expect. grows_bind (expression_or_error_grows Semantic.EOF_LINE).
      grows_expect. grows_bind (condition_grows Semantic.EOF_LINE).
      grows_expect. grows_bind (expression_or_error_grows Semantic.EOF_LINE).
      grows_expect. intros H. apply IHst in H. grows_chain.
    + intros H. some_inv H.
      pose proof (syn_error_grows Semantic.EOF_LINE "FOR expected" s1) as H2.
      grows_chain.
Qed.

Lemma semantic_param_list_grows (fuel : nat) :
  forall (s s' : State),
    cur_scope s = "Main" ->
    Semantic.param_list fuel s = Some s' -> grows s s'.
Proof.
  induction fuel as [| fuel IH]; intros s s' Hsc; [discriminate |].
  cbn [Semantic.param_list].
  destruct (is_type_token (token (Semantic.LA s))) eqn:Hty.
  - destruct (type_specifier_Some _ s Hty) as [-> _].
    pose proof (consume_grows Semantic.EOF_LINE s) as H1.
    set (s1 := snd (Semantic.consume s)) in *. clearbody s1.
    pose proof (match_grows Semantic.EOF_LINE "IDENTIFIER" s1) as H2.
    destruct (Semantic.match_ "IDENTIFIER" s1) as [[pid |] s2];
      cbn [snd] in H2.
    + assert (Hsc2 : cur_scope s2 = "Main").
      { destruct H1 as [E1 _]. destruct H2 as [E2 _]. congruence. }
      pose proof (semantic_add_symbol_grows (lexeme pid)
                    (norm_type_token (token (Semantic.LA s))) 0%Z
                    (line pid) s2) as H3.
      rewrite Hsc2 in H3.
      set (s3 := Semantic.add_symbol _ _ _ _ _ s2) in *. clearbody s3.
      pose proof (match_grows Semantic.EOF_LINE "COMMA" s3) as H4.
      destruct (Semantic.match_ "COMMA" s3) as [[t |] s4]; cbn [snd] in H4.
      * intros H. apply IH in H; [grows_chain |].
        destruct H3 as [E3 _]. destruct H4 as [E4 _]. congruence.
      * intros H. some_inv H. grows_chain.
    + intros H. some_inv H.
      pose proof (syn_error_grows Semantic.EOF_LINE "Identifier expected" s2)
        as H3.
      grows_chain.
  - rewrite (type_specifier_None _ s Hty).
    intros H. some_inv H. apply syn_error_grows.
Qed.

(** ** The function definition *)

(** [function_def] of [semantic_analyser.c], once [MAIN] is the lookahead:
    [main] is entered first, then the scope becomes [Main]; it becomes
    [Global] again after the block. *)
Lemma semantic_function_def_MAIN (fuel : nat) (ret_type : string)
    (s : State) :
  token (Semantic.LA s) = "MAIN" ->
  Semantic.function_def fuel ret_type s =
  let s1 := Semantic.add_symbol "main" "Function" "Global" 0
              (line (Semantic.LA s)) (snd (Semantic.consume s)) in
  let s2 := Semantic.expect "LPAREN" "Opening parenthesis missing"
              (set_cur_scope "Main" s1) in
  s3 <- (if token (Semantic.LA s2) =? "VOID"
         then Some (snd (Semantic.consume s2))
         else if is_type_token (token (Semantic.LA s2))
              then Semantic.param_list fuel s2
              else Some s2) ;;
  s4 <- Semantic.block fuel
          (Semantic.expect "RPAREN" "Closing parenthesis missing" s3) ;;
  Some (set_cur_scope "Global" s4).
Proof.
  intros H. unfold Semantic.function_def.
  rewrite (match_hit _ _ _ H). reflexivity.
Qed.

(** In [semantic_analyser.c] the claim C3 holds.  When [MAIN] is the
    lookahead, the table is not full and holds no global [main] yet,
    [function_def] returns with the scope register back at [Global] and a
    table that grew by the [Function] symbol [main] of scope [Global],
    entered once and first, followed by symbols of scope [Main] only. *)
Lemma semantic_function_def_enters_main_once (fuel : nat) (ret_type : string)
    (s : State) :
  token (Semantic.LA s) = "MAIN" ->
  nsym s < MAXSYM ->
  (forall y, In y (symtab s) -> ~ named_in "main" "Global" y) ->
  3 * (ntok s - pos s) + 1 <= fuel ->
  exists s' l,
    Semantic.function_def fuel ret_type s = Some s' /\
    cur_scope s' = "Global" /\
    symtab s' = symtab s ++ mkSym "main" "Function" "Global" 0 :: l /\
    Forall (fun y => sym_scope y = "Main") l.
Proof.
  intros Htok Hcap Hnew Hf.
  destruct (semantic_function_def_total fuel ret_type s Hf)
    as (s' & He & _ & Hsc).
  specialize (Hsc Htok). pose proof He as Hdef.
  rewrite (semantic_function_def_MAIN fuel ret_type s Htok) in He.
  cbv zeta in He.
  destruct (consume_keeps Semantic.EOF_LINE s) as (Hs0 & _).
  set (s0 := snd (Semantic.consume s)) in *. clearbody s0.
  assert (H1 : symtab (Semantic.add_symbol "main" "Function" "Global" 0
                         (line (Semantic.LA s)) s0)
               = symtab s ++ [mkSym "main" "Function" "Global" 0]).
  { unfold Semantic.add_symbol.
    assert (Hd : existsb (fun y => (sym_lexeme y =? "main")
                                   &&& (sym_scope y =? "Global"))
                         (symtab s0) = false).
    { destruct (existsb _ _) eqn:E; [| reflexivity].
      apply existsb_named in E. destruct E as (y & Hin & Hn).
      rewrite Hs0 in Hin. elim (Hnew y Hin Hn). }
    rewrite Hd.
    assert (Hc : (MAXSYM <=? nsym s0)%nat = false).
    { apply Nat.leb_gt. unfold nsym in *. rewrite Hs0. exact Hcap. }
    rewrite Hc. cbn [symtab set_symtab]. rewrite Hs0. reflexivity. }
  set (s1 := Semantic.add_symbol _ _ _ _ _ s0) in *. clearbody s1.
  assert (H2 : symtab (set_cur_scope "Main" s1) = symtab s1 /\
               cur_scope (set_cur_scope "Main" s1) = "Main")
    by (split; reflexivity).
  set (s2 := set_cur_scope "Main" s1) in *. clearbody s2.
  destruct H2 as [H2 Hm].
  pose proof (expect_grows Semantic.EOF_LINE "LPAREN"
                "Opening parenthesis missing" s2) as H3.
  set (s3 := Cursor.expect _ _ _ s2) in *. clearbody s3.
  assert (Hm3 : cur_scope s3 = "Main")
    by (destruct H3 as [E _]; congruence).
  apply bind_Some in He. destruct He as (s4 & H4 & He).
  assert (G4 : grows s3 s4).
  { destruct (token (Semantic.LA s3) =? "VOID").
    - some_inv H4. apply consume_grows.
    - destruct (is_type_token (token (Semantic.LA s3))).
      + apply (semantic_param_list_grows fuel s3 s4 Hm3 H4).
      + some_inv H4. apply grows_refl. }
  pose proof (expect_grows Semantic.EOF_LINE "RPAREN"
                "Closing parenthesis missing" s4) as H5.
  set (s5 := Cursor.expect _ _ _ s4) in *. clearbody s5.
  apply bind_Some in He. destruct He as (s6 & H6 & He).
  destruct (semantic_parser_grows fuel) as (_ & _ & IHbl & _).
  apply IHbl in H6. some_inv He.
  assert (G : grows s2 s6) by grows_chain.
  destruct G as (_ & l & Hl & Hfl).
  exists (set_cur_scope "Global" s6), l.
  split; [exact Hdef | split; [reflexivity |]].
  rewrite Hm in Hfl. cbn [symtab set_cur_scope].
  rewrite Hl, H2, H1, <- app_assoc. split; [reflexivity | exact Hfl].
Qed.

(** The minimal program in [semantic_analyser.c]: no error, and the table
    holds [main] alone. *)
Example semantic_minimal_program :
  Semantic.program 22 (init_state minimal_program)
  = Some (mkState minimal_program 7 [mkSym "main" "Function" "Global" 0]
                  "Global" 0 []).
Proof. reflexivity. Qed.

(** C3 fails in [sematic_analyser.c]: its [function_def] never enters
    [main] in the table, and the minimal program [int main(void){ }] ends
    with no error and an empty table. *)
Theorem C3_sematic_omits_main :
  forall (pty0 : string) (pid0 : Tok),
    Sematic.program 24 pty0 pid0 (init_state minimal_program)
    = Some (mkState minimal_program 7 [] "Global" 0 []).
Proof. intros pty0 pid0. reflexivity. Qed.

(** ** The symbol table *)

(** The claim C4 as the specification states it fails on a full table:
    after [MAXSYM] declarations the table holds no [x] in scope [Global],
    and the call for [x] leaves the table at its [MAXSYM] symbols and
    reports nothing. *)
Lemma C4_counterexample :
  nsym full_table = MAXSYM /\
  existsb (fun y => (sym_lexeme y =? "x") &&& (sym_scope y =? "Global"))
          (symtab full_table) = false /\
  nsym (Semantic.add_symbol "x" "Int" "Global" 0 9 full_table) = MAXSYM /\
  stderr (Semantic.add_symbol "x" "Int" "Global" 0 9 full_table) = [] /\
  nsym full_table' = MAXSYM /\
  existsb (fun y => (sym_lexeme y =? "x") &&& (sym_scope y =? "Global"))
          (symtab full_table') = false /\
  nsym (Sematic.add_symbol "x" "Int" "Global" 0 full_table') = MAXSYM /\
  stderr (Sematic.add_symbol "x" "Int" "Global" 0 full_table') = [].
Proof.
  repeat match goal with
         | |- _ /\ _ => split
         end; vm_compute; reflexivity.
Qed.

(** C4, amended.  On a table that holds fewer than [MAXSYM] (4096)
    symbols: when the table already holds a symbol of that name in that
    scope, [add_symbol] reports [Multiple declarations of same identifier.]
    once and leaves the table as it is; otherwise it appends the new symbol
    (name, type and scope cut to the size of their buffers) and reports
    nothing.  On a full table nothing is appended.  The program
    [int x; int x;] followed by [int main(void){ }] ends with exactly one
    such report, for line 2, and a table that holds one [x].  This holds in
    [semantic_analyser.c] and in [sematic_analyser.c]. *)
Theorem C4_add_symbol_below_capacity :
  forall (name type scope : string) (arrsz ln : Z) (s : State),
    (nsym s < MAXSYM ->
     ((exists y, In y (symtab s) /\ named_in name scope y) ->
      Semantic.add_symbol name type scope arrsz ln s
      = semantic_error MULTIPLE ln s /\
      symtab (Sematic.add_symbol name type scope arrsz s) = symtab s /\
      exists ln', reported s (Sematic.add_symbol name type scope arrsz s)
                           [(ln', MULTIPLE)]) /\
     (~ (exists y, In y (symtab s) /\ named_in name scope y) ->
      Semantic.add_symbol name type scope arrsz ln s
      = set_symtab
          (symtab s ++
           [mkSym (snprintf 128 name) (snprintf 16 type) (snprintf 64 scope)
                  arrsz]) s /\
      Sematic.add_symbol name type scope arrsz s
      = set_symtab
          (symtab s ++
           [mkSym (snprintf 128 name) (snprintf 32 type) (snprintf 64 scope)
                  arrsz]) s)) /\
    (MAXSYM <= nsym s ->
     symtab (Semantic.add_symbol name type scope arrsz ln s) = symtab s /\
     Sematic.add_symbol name type scope arrsz s = s) /\
    (exists s',
        Semantic.program 40 (init_state duplicate_program) = Some s' /\
        stderr s' = [(2%Z, MULTIPLE)] /\
        symtab s' = [mkSym "x" "Int" "Global" 0;
                     mkSym "main" "Function" "Global" 0]) /\
    (forall pty0 pid0,
        exists s',
          Sematic.program 42 pty0 pid0 (init_state duplicate_program)
          = Some s' /\
          stderr s' = [(2%Z, MULTIPLE)] /\
          symtab s' = [mkSym "x" "Int" "Global" 0]).
Proof.
  intros name type scope arrsz ln s.
  split; [| split; [| split]].
  - intros Hcap.
    assert (Hc : (MAXSYM <=? nsym s)%nat = false) by (apply Nat.leb_gt; exact Hcap).
    split.
    + intros Hdup. apply existsb_named in Hdup.
      unfold Semantic.add_symbol, Sematic.add_symbol. rewrite Hdup, Hc.
      split; [reflexivity | split; [reflexivity |]].
      eexists. apply reported_semantic_error.
    + intros Hnew.
      assert (He : existsb (fun y => (sym_lexeme y =? name)
                                     &&& (sym_scope y =? scope))
                           (symtab s) = false).
      { destruct (existsb _ _) eqn:E; [| reflexivity].
        apply existsb_named in E. contradiction. }
      unfold Semantic.add_symbol, Sematic.add_symbol. rewrite He, Hc.
      split; reflexivity.
  - intros Hfull.
    assert (Hc : (MAXSYM <=? nsym s)%nat = true) by (apply Nat.leb_le; exact Hfull).
    unfold Semantic.add_symbol, Sematic.add_symbol. rewrite Hc.
    split; [| reflexivity].
    destruct (existsb _ _); reflexivity.
  - eexists. split; [vm_compute; reflexivity | split; reflexivity].
  - intros pty0 pid0.
    eexists. split; [vm_compute; reflexivity | split; reflexivity].
Qed.

Lemma C4_witness :
  Semantic.add_symbol "x" "Int" "Global" 0 2
    (set_symtab [mkSym "x" "Int" "Global" 0] (init_state []))
  = semantic_error MULTIPLE 2
      (set_symtab [mkSym "x" "Int" "Global" 0] (init_state [])) /\
  Semantic.add_symbol "y" "Char" "Global" 0 2
    (set_symtab [mkSym "x" "Int" "Global" 0] (init_state []))
  = set_symtab [mkSym "x" "Int" "Global" 0; mkSym "y" "Char" "Global" 0]
      (init_state []).
Proof.
  split.
  - apply (proj1 (proj1 (C4_add_symbol_below_capacity "x" "Int" "Global" 0 2
                           (set_symtab [mkSym "x" "Int" "Global" 0]
                              (init_state [])))
                    ltac:(unfold nsym, MAXSYM; cbn; lia))).
    exists (mkSym "x" "Int" "Global" 0).
    split; [left; reflexivity | split; reflexivity].
  - apply (proj2 (proj1 (C4_add_symbol_below_capacity "y" "Char" "Global" 0 2
                           (set_symtab [mkSym "x" "Int" "Global" 0]
                              (init_state [])))
                    ltac:(unfold nsym, MAXSYM; cbn; lia))).
    intros (y & [<- | []] & Hn & _). discriminate Hn.
Defined.

(** ** Loading the tokens *)

(** C8 fails in [semantic_analyser.c]: [load_tokens] drops the first line
    of the file whatever it holds.  With the header line all seven tokens
    of [int main(void){ }] are loaded; without it the row of [int] is
    lost, and the parser then reports an error on a correct program. *)
Theorem C8_semantic_drops_first_row :
  Semantic.load_tokens 9 (Some (String.append header minimal_rows))
                       (init_state [])
  = Some (true, init_state minimal_program) /\
  Semantic.load_tokens 9 (Some minimal_rows) (init_state [])
  = Some (true, init_state (tl minimal_program)) /\
  Semantic.main 30 (Some (String.append header minimal_rows))
  = Some (0%Z, mkState minimal_program 7
                       [mkSym "main" "Function" "Global" 0] "Global" 0 []) /\
  Semantic.main 30 (Some minimal_rows)
  = Some (0%Z, mkState (tl minimal_program) 6 [] "Global" 1
                       [(1%Z, "Any keyword expected")]).
Proof. repeat split. Qed.

(** ** String literals *)

Lemma getc_track_cons (c : ascii) (rest : string) (ln : Z)
    (o : list Tok) (e : list (Z * string)) :
  Lexical.getc_track (Lexical.mkLex (String c rest) ln o e)
  = (Some c,
     Lexical.mkLex rest
       (if (c =? Lexical.NL)%char then (ln + 1)%Z else ln) o e).
Proof. reflexivity. Qed.

Lemma scan_string_loop_open (fuel : nat) :
  forall (buf : string) (start_line : Z) (st : Lexical.LexState),
    unterminated (Lexical.input st) = true ->
    String.length (Lexical.input st) < fuel ->
    Lexical.scan_string_loop fuel buf start_line st =
    Some (Lexical.mkLex (behind_newline (Lexical.input st))
            (Lexical.line_no st + newline_ahead (Lexical.input st))
            (Lexical.out st)
            (Lexical.err st ++ [(start_line, EXCEED)])).
Proof.
  induction fuel as [| fuel IH]; intros buf start_line st Hu Hf; [lia |].
  destruct st as [inp ln o e].
  cbn [Lexical.input Lexical.out Lexical.err Lexical.line_no] in *.
  cbn [Lexical.scan_string_loop].
  destruct inp as [| c rest].
  { cbn. rewrite Z.add_0_r. reflexivity. }
  rewrite getc_track_cons. cbn [unterminated behind_newline newline_ahead] in *.
  destruct (c =? Lexical.NL)%char eqn:Hnl; [reflexivity |].
  destruct (c =? Lexical.DQUOTE)%char eqn:Hdq; [discriminate |].
  destruct (c =? Lexical.BACKSLASH)%char eqn:Hbs.
  - destruct rest as [| ec rest'].
    { cbn. rewrite Z.add_0_r. reflexivity. }
    rewrite getc_track_cons. cbn [behind_newline newline_ahead].
    destruct (ec =? Lexical.NL)%char eqn:Hnl2; [reflexivity |].
    rewrite IH; [reflexivity | exact Hu | cbn in Hf |- *; lia].
  - rewrite IH; [reflexivity | exact Hu | cbn in Hf |- *; lia].
Qed.

Lemma no_quote_is_unterminated (body : string) :
  no_quote_on_line body = true -> unterminated body = true.
Proof.
  assert (H : forall n body, String.length body <= n ->
                             no_quote_on_line body = true ->
                             unterminated body = true).
  { clear body. induction n as [| n IH]; intros body Hn Hq.
    - destruct body; [reflexivity | cbn in Hn; lia].
    - destruct body as [| c rest]; [reflexivity |].
      cbn [no_quote_on_line unterminated] in *.
      destruct (c =? Lexical.NL)%char; [reflexivity |].
      destruct (c =? Lexical.DQUOTE)%char; [discriminate |].
      assert (Hrest : unterminated rest = true)
        by (apply IH; [cbn in Hn; lia | exact Hq]).
      destruct (c =? Lexical.BACKSLASH)%char; [| exact Hrest].
      destruct rest as [| ec rest']; [reflexivity |].
      cbn [no_quote_on_line] in Hq.
      destruct (ec =? Lexical.NL)%char; [reflexivity |].
      destruct (ec =? Lexical.DQUOTE)%char; [discriminate |].
      apply IH; [cbn in Hn; lia | exact Hq]. }
  apply (H (String.length body)). lia.
Qed.

(** *** Line numbers

    [line_no] is 1 plus the number of newlines read and not given back:
    every function of the tokenizer leaves [last_line] as it is. *)

Lemma getc_track_last_line (st : Lexical.LexState) :
  last_line (snd (Lexical.getc_track st)) = last_line st.
Proof.
  destruct st as [inp ln o e]. destruct inp as [| c rest]; [reflexivity |].
  unfold last_line. cbn.
  destruct (c =? Lexical.NL)%char; cbn; lia.
Qed.

Lemma ungetc_track_last_line (c : option ascii) (st : Lexical.LexState) :
  last_line (Lexical.ungetc_track c st) = last_line st.
Proof.
  destruct c as [c |]; [| reflexivity].
  unfold last_line. cbn.
  destruct (c =? Lexical.NL)%char; cbn; lia.
Qed.

Lemma report_last_line (ln : Z) (msg : string) (st : Lexical.LexState) :
  last_line (Lexical.report ln msg st) = last_line st.
Proof. reflexivity. Qed.

Lemma emit_last_line (tok lex : string) (ln : Z) (st : Lexical.LexState) :
  last_line (Lexical.emit tok lex ln st) = last_line st.
Proof. reflexivity. Qed.

Ltac getc_step :=
  match goal with
  | |- context [Lexical.getc_track ?x] =>
      let H := fresh "Hg" in
      let c := fresh "c" in
      let st := fresh "st" in
      pose proof (getc_track_last_line x) as H;
      destruct (Lexical.getc_track x) as [c st]; cbn [snd] in H
  end.

Ltac last_line_close :=
  intros;
  repeat match goal with
         | H : Some (_, ?x) = Some (_, ?y) |- _ =>
             assert (y = x) by congruence; clear H; subst y
         | H : Some ?x = Some ?y |- _ =>
             assert (y = x) by congruence; clear H; subst y
         | H : None = Some _ |- _ => discriminate H
         end;
  repeat rewrite ?report_last_line, ?emit_last_line, ?ungetc_track_last_line;
  congruence.

Lemma comment_loop_last_line (fuel : nat) :
  forall prev st closed st',
    Lexical.comment_loop fuel prev st = Some (closed, st') ->
    last_line st' = last_line st.
Proof.
  induction fuel as [| fuel IH]; intros prev st closed st'; [discriminate |].
  cbn [Lexical.comment_loop]. getc_step.
  destruct c as [ch |]; [| intros H; injection H as _ <-; exact Hg].
  destruct (_ && _).
  - intros H; injection H as _ <-; exact Hg.
  - intros H. apply IH in H. congruence.
Qed.

Lemma skip_ws_and_comments_last_line (fuel : nat) :
  forall st st',
    Lexical.skip_ws_and_comments fuel st = Some st' ->
    last_line st' = last_line st.
Proof.
  induction fuel as [| fuel IH]; intros st st'; [discriminate |].
  cbn [Lexical.skip_ws_and_comments]. getc_step.
  destruct c as [ch |]; [| last_line_close].
  destruct (isspace ch).
  { intros H. apply IH in H. congruence. }
  destruct (ch =? "/")%char; [| last_line_close].
  getc_step.
  destruct (match c with Some dc => _ | None => false end);
    [| last_line_close].
  destruct (Lexical.comment_loop fuel None st1) as [[closed st2] |] eqn:Hc;
    [| discriminate].
  apply comment_loop_last_line in Hc. cbn [bind].
  destruct closed; cbn [negb].
  - intros H. apply IH in H. congruence.
  - last_line_close.
Qed.

Lemma scan_string_loop_last_line (fuel : nat) :
  forall buf start_line st st',
    Lexical.scan_string_loop fuel buf start_line st = Some st' ->
    last_line st' = last_line st.
Proof.
  induction fuel as [| fuel IH]; intros buf start_line st st';
    [discriminate |].
  cbn [Lexical.scan_string_loop]. getc_step.
  destruct c as [ch |]; [| last_line_close].
  destruct (ch =? Lexical.NL)%char; [last_line_close |].
  destruct (ch =? Lexical.DQUOTE)%char; [last_line_close |].
  destruct (ch =? Lexical.BACKSLASH)%char.
  - getc_step. destruct c as [ec |]; [| last_line_close].
    destruct (ec =? Lexical.NL)%char; [last_line_close |].
    intros H. apply IH in H. congruence.
  - intros H. apply IH in H. congruence.
Qed.

Lemma skip_to_quote_last_line (fuel : nat) :
  forall c st st',
    Lexical.skip_to_quote fuel c st = Some st' ->
    last_line st' = last_line st.
Proof.
  induction fuel as [| fuel IH]; intros c st st'; [discriminate |].
  cbn [Lexical.skip_to_quote].
  destruct c as [ch |]; [| last_line_close].
  destruct (_ || _); [last_line_close |].
  getc_step. intros H. apply IH in H. congruence.
Qed.

Lemma scan_char_last_line (fuel : nat) (st st' : Lexical.LexState) :
  Lexical.scan_char fuel st = Some st' -> last_line st' = last_line st.
Proof.
  unfold Lexical.scan_char. getc_step.
  destruct (Lexical.is_char c Lexical.BACKSLASH).
  - getc_step. destruct c0 as [ec |]; [| last_line_close].
    destruct (ec =? Lexical.NL)%char; [last_line_close |].
    getc_step.
    destruct (negb (Lexical.is_char c0 Lexical.SQUOTE)); [| last_line_close].
    intros H. apply skip_to_quote_last_line in H.
    rewrite report_last_line in H. congruence.
  - destruct c as [ch |]; [| last_line_close].
    destruct (_ || _); [last_line_close |].
    getc_step.
    destruct (negb (Lexical.is_char c Lexical.SQUOTE)); [| last_line_close].
    intros H. apply skip_to_quote_last_line in H.
    rewrite report_last_line in H. congruence.
Qed.

Lemma skip_line_after_error_last_line (fuel : nat) :
  forall st st',
    Lexical.skip_line_after_error fuel st = Some st' ->
    last_line st' = last_line st.
Proof.
  induction fuel as [| fuel IH]; intros st st'; [discriminate |].
  cbn [Lexical.skip_line_after_error]. getc_step.
  destruct c as [ch |]; [| last_line_close].
  destruct (ch =? Lexical.NL)%char; [last_line_close |].
  intros H. apply IH in H. congruence.
Qed.

Lemma scan_run_last_line (fuel : nat) :
  forall part buf st buf' st',
    Lexical.scan_run fuel part buf st = Some (buf', st') ->
    last_line st' = last_line st.
Proof.
  induction fuel as [| fuel IH]; intros part buf st buf' st';
    [discriminate |].
  cbn [Lexical.scan_run]. getc_step.
  destruct (negb (part c)).
  - intros H. injection H as _ <-. rewrite ungetc_track_last_line. exact Hg.
  - destruct c as [dc |].
    + intros H. apply IH in H. congruence.
    + intros H. injection H as _ <-. exact Hg.
Qed.

(** One turn of the main loop keeps [last_line]: at the start of every
    turn, [line_no] is 1 plus the number of newlines of the source text
    that are not in the input any more. *)
Lemma main_step_last_line (fuel : nat) (st st' : Lexical.LexState)
    (continue : bool) :
  Lexical.main_step fuel st = Some (continue, st') ->
  last_line st' = last_line st.
Proof.
  unfold Lexical.main_step.
  destruct (Lexical.skip_ws_and_comments fuel st) as [st1 |] eqn:Hs;
    [| discriminate].
  apply skip_ws_and_comments_last_line in Hs. cbn [bind].
  getc_step. destruct c as [ch |]; [| last_line_close].
  destruct (Lexical.is_ident_start (Some ch)).
  { destruct (Lexical.scan_run fuel _ _ st0) as [[buf st2] |] eqn:Hr;
      [| discriminate].
    apply scan_run_last_line in Hr. cbn [bind]. last_line_close. }
  destruct (isdigit ch).
  { destruct (Lexical.scan_run fuel _ _ st0) as [[buf st2] |] eqn:Hr;
      [| discriminate].
    apply scan_run_last_line in Hr. cbn [bind]. last_line_close. }
  destruct (ch =? Lexical.DQUOTE)%char.
  { destruct (Lexical.scan_string fuel st0) as [st2 |] eqn:Hr;
      [| discriminate].
    apply scan_string_loop_last_line in Hr. cbn [bind]. last_line_close. }
  destruct (ch =? Lexical.SQUOTE)%char.
  { destruct (Lexical.scan_char fuel st0) as [st2 |] eqn:Hr;
      [| discriminate].
    apply scan_char_last_line in Hr. cbn [bind]. last_line_close. }
  destruct (ch =? "=")%char.
  { getc_step. destruct (Lexical.is_char c "="%char); last_line_close. }
  destruct (Lexical.punctuation ch) as [[tok lex] |]; [last_line_close |].
  destruct (Lexical.skip_line_after_error fuel _) as [st2 |] eqn:Hr;
    [| discriminate].
  apply skip_line_after_error_last_line in Hr.
  rewrite report_last_line in Hr. cbn [bind]. last_line_close.
Qed.

(** C9.  When the tokenizer is at a double quote that opens a string
    literal left open - the end of the line or of the input comes before
    the closing quote - that turn of its main loop reads the literal to the
    end of its line, the newline included (to the end of the input when no
    newline follows), writes one line [String constants exceed line] to
    [stderr], with the line number the tokenizer had at the opening quote,
    appends no token, and the loop goes on with the text behind that
    newline: nothing of the open literal is turned into tokens.
    [scan_string] itself, called after the opening quote, returns in that
    very state.  A literal whose line holds no further double quote at all
    is left open.  The line number the tokenizer holds is that of the
    opening quote: every turn of the main loop keeps [line_no] equal to 1
    plus the number of newlines read so far (the sum [last_line] of
    [line_no] and the newlines still ahead never changes). *)
Theorem C9_open_string_is_reported :
  (forall (fuel : nat) (st : Lexical.LexState) (body : string),
      Lexical.input st = String Lexical.DQUOTE body ->
      unterminated body = true ->
      String.length body < fuel ->
      Lexical.main_step fuel st =
      Some (true,
            Lexical.mkLex (behind_newline body)
              (Lexical.line_no st + newline_ahead body)
              (Lexical.out st)
              (Lexical.err st ++ [(Lexical.line_no st, EXCEED)]))) /\
  (forall (fuel : nat) (st : Lexical.LexState),
      unterminated (Lexical.input st) = true ->
      String.length (Lexical.input st) < fuel ->
      Lexical.scan_string fuel st =
      Some (Lexical.mkLex (behind_newline (Lexical.input st))
              (Lexical.line_no st + newline_ahead (Lexical.input st))
              (Lexical.out st)
              (Lexical.err st ++ [(Lexical.line_no st, EXCEED)]))) /\
  (forall (body : string),
      no_quote_on_line body = true -> unterminated body = true) /\
  (forall (fuel : nat) (st st' : Lexical.LexState) (continue : bool),
      Lexical.main_step fuel st = Some (continue, st') ->
      last_line st' = last_line st).
Proof.
  split; [| split; [| split]]; [| | | exact main_step_last_line].
  - intros fuel st body Hin Hu Hf.
    destruct st as [inp ln o e]. cbn [Lexical.input] in Hin. subst inp.
    cbn [Lexical.out Lexical.err Lexical.line_no].
    destruct fuel as [| fuel]; [lia |].
    unfold Lexical.main_step.
    cbn [Lexical.skip_ws_and_comments]. rewrite getc_track_cons.
    change (isspace Lexical.DQUOTE) with false.
    change (Lexical.DQUOTE =? "/")%char with false.
    change (Lexical.DQUOTE =? Lexical.NL)%char with false.
    cbn [Lexical.ungetc_track Lexical.input Lexical.line_no Lexical.out
         Lexical.err bind].
    change (Lexical.DQUOTE =? Lexical.NL)%char with false.
    cbv iota. rewrite getc_track_cons.
    change (Lexical.DQUOTE =? Lexical.NL)%char with false. cbv iota.
    change (Lexical.is_ident_start (Some Lexical.DQUOTE)) with false.
    change (isdigit Lexical.DQUOTE) with false.
    change (Lexical.DQUOTE =? Lexical.DQUOTE)%char with true. cbv iota.
    unfold Lexical.scan_string. cbn [Lexical.line_no].
    rewrite (scan_string_loop_open (S fuel) EmptyString ln
               (Lexical.mkLex body ln o e) Hu Hf).
    reflexivity.
  - intros fuel st Hu Hf. unfold Lexical.scan_string.
    apply scan_string_loop_open; assumption.
  - exact no_quote_is_unterminated.
Qed.

Lemma C9_witness :
  Lexical.main_step 9
    (Lexical.mkLex (String Lexical.DQUOTE
                      (String.append "abc" (String.append NEWLINE "x;")))
                   3 [] [])
  = Some (true, Lexical.mkLex "x;" 4 [] [(3%Z, EXCEED)]).
Proof.
  apply (proj1 C9_open_string_is_reported 9
           (Lexical.mkLex (String Lexical.DQUOTE
                             (String.append "abc" (String.append NEWLINE "x;")))
                          3 [] [])
           (String.append "abc" (String.append NEWLINE "x;"))).
  - reflexivity.
  - reflexivity.
  - cbn. lia.
Defined.

(** The whole tokenizer on [open_string_source]: the open literal of line 2
    gives the report and no token; the tokens of lines 1 and 3 are there. *)
Example main_open_string :
  Lexical.main 20 open_string_source
  = Some (Lexical.mkLex EmptyString 3
            [T "INT" "int" 1; T "IDENTIFIER" "x" 1; T "SEMICOLON" ";" 1;
             T "IDENTIFIER" "x" 2; T "ASSIGN" "=" 2;
             T "IDENTIFIER" "x" 3; T "SEMICOLON" ";" 3]
            [(2%Z, EXCEED)]).
Proof. reflexivity. Qed.

(** ** The order of the tokens that the tokenizer writes *)






(** [ungetc_track] undoes the [getc_track] before it. *)
Lemma getc_ungetc (st : Lexical.LexState) :
  Lexical.ungetc_track (fst (Lexical.getc_track st))
                       (snd (Lexical.getc_track st)) = st.
Proof.
  destruct st as [inp ln o e]. destruct inp as [| c rest]; [reflexivity |].
  cbn. destruct (c =? Lexical.NL)%char; f_equal; lia.
Qed.


Lemma emit_one_token (tok lex : string) (ln : Z) (st : Lexical.LexState) :
  ln = Lexical.line_no st -> one_token st (Lexical.emit tok lex ln st).
Proof.
  intros ->. split; [cbn; lia |].
  right. eexists. split; [reflexivity |]. cbn. lia.
Qed.
















(** ** Termination of the tokenizer

    Every loop of the tokenizer reads at least one character per turn:
    fuel above the number of characters to be read is enough. *)

Lemma getc_track_remaining (st : Lexical.LexState) :
  remaining (snd (Lexical.getc_track st)) <= remaining st /\
  (forall ch, fst (Lexical.getc_track st) = Some ch ->
              S (remaining (snd (Lexical.getc_track st))) = remaining st) /\
  (fst (Lexical.getc_track st) = None ->
   snd (Lexical.getc_track st) = st /\ remaining st = 0).
Proof.
  destruct st as [inp ln o e]. destruct inp as [| c rest]; cbn.
  - repeat split; try lia. discriminate.
  - unfold remaining. cbn. repeat split; try lia; discriminate.
Qed.

Ltac getc_len :=
  match goal with
  | |- context [Lexical.getc_track ?x] =>
      let H := fresh "Hr" in
      let E := fresh "Eg" in
      let c := fresh "c" in
      let st := fresh "st" in
      pose proof (getc_track_remaining x) as H;
      pose proof (getc_ungetc x) as E;
      destruct (Lexical.getc_track x) as [c st]; cbn [fst snd] in H, E;
      let H1 := fresh "Hle" in
      let H2 := fresh "Hsome" in
      let H3 := fresh "Hnone" in
      destruct H as (H1 & H2 & H3)
  end.

Ltac some_len :=
  repeat match goal with
         | H : forall ch, Some ?c = Some ch -> _ |- _ =>
             specialize (H c eq_refl)
         | H : forall ch, None = Some ch -> _ |- _ => clear H
         | H : None = None -> _ |- _ => specialize (H eq_refl)
         | H : Some _ = None -> _ |- _ => clear H
         end.

Lemma comment_loop_returns (fuel : nat) :
  forall prev st,
    remaining st < fuel ->
    exists closed st',
      Lexical.comment_loop fuel prev st = Some (closed, st') /\
      remaining st' <= remaining st.
Proof.
  induction fuel as [| fuel IH]; intros prev st Hf; [lia |].
  cbn [Lexical.comment_loop]. getc_len.
  destruct c as [ch |]; some_len.
  - destruct (_ && _).
    + eexists _, _. split; [reflexivity | lia].
    + destruct (IH (Some ch) st0) as (closed & st' & He & Hl); [lia |].
      exists closed, st'. split; [exact He | lia].
  - eexists _, _. split; [reflexivity | lia].
Qed.

Lemma skip_ws_and_comments_returns (fuel : nat) :
  forall st,
    remaining st < fuel ->
    exists st',
      Lexical.skip_ws_and_comments fuel st = Some st' /\
      remaining st' <= remaining st.
Proof.
  induction fuel as [| fuel IH]; intros st Hf; [lia |].
  cbn [Lexical.skip_ws_and_comments]. getc_len.
  destruct c as [ch |]; some_len.
  2:{ eexists. split; [reflexivity | lia]. }
  destruct (isspace ch).
  { destruct (IH st0) as (st' & He & Hl); [lia |].
    exists st'. split; [exact He | lia]. }
  destruct (ch =? "/")%char.
  2:{ rewrite Eg. eexists. split; [reflexivity | lia]. }
  getc_len.
  destruct (match c with Some dc => _ | None => false end).
  - destruct (comment_loop_returns fuel None st1)
      as (closed & st2 & -> & Hl); [lia |].
    cbn [bind]. destruct closed; cbn [negb].
    + destruct (IH st2) as (st' & He & Hl'); [lia |].
      exists st'. split; [exact He | lia].
    + eexists. split; [reflexivity |]. unfold remaining in *. cbn. lia.
  - rewrite Eg0, Eg. eexists. split; [reflexivity | lia].
Qed.

Lemma scan_string_loop_returns (fuel : nat) :
  forall buf start_line st,
    remaining st < fuel ->
    exists st',
      Lexical.scan_string_loop fuel buf start_line st = Some st' /\
      remaining st' <= remaining st.
Proof.
  induction fuel as [| fuel IH]; intros buf start_line st Hf; [lia |].
  cbn [Lexical.scan_string_loop]. getc_len.
  destruct c as [ch |]; some_len.
  2:{ eexists. split; [reflexivity |]. unfold remaining in *. cbn. lia. }
  destruct (ch =? Lexical.NL)%char.
  { eexists. split; [reflexivity |]. unfold remaining in *. cbn. lia. }
  destruct (ch =? Lexical.DQUOTE)%char.
  { eexists. split; [reflexivity |]. unfold remaining in *. cbn. lia. }
  destruct (ch =? Lexical.BACKSLASH)%char.
  - clear Eg. getc_len. destruct c as [ec |]; some_len.
    2:{ eexists. split; [reflexivity |]. unfold remaining in *. cbn. lia. }
    destruct (ec =? Lexical.NL)%char.
    { eexists. split; [reflexivity |]. unfold remaining in *. cbn. lia. }
    match goal with
    | |- context [Lexical.scan_string_loop fuel ?b start_line st1] =>
        destruct (IH b start_line st1) as (st' & He & Hl); [lia |]
    end.
    exists st'. split; [exact He | lia].
  - destruct (IH (Lexical.push 1023 buf ch) start_line st0)
      as (st' & He & Hl); [lia |].
    exists st'. split; [exact He | lia].
Qed.

Lemma skip_to_quote_returns (fuel : nat) :
  forall c st,
    remaining st + 1 < fuel ->
    exists st',
      Lexical.skip_to_quote fuel c st = Some st' /\
      remaining st' <= remaining st.
Proof.
  induction fuel as [| fuel IH]; intros c st Hf; [lia |].
  cbn [Lexical.skip_to_quote].
  destruct c as [ch |].
  2:{ eexists. split; [reflexivity | lia]. }
  destruct (_ || _).
  { eexists. split; [reflexivity | lia]. }
  getc_len. destruct c as [c2 |]; some_len.
  - destruct (IH (Some c2) st0) as (st' & He & Hl); [lia |].
    exists st'. split; [exact He | lia].
  - destruct Hnone as [-> Hz].
    destruct fuel as [| fuel]; [lia |].
    cbn [Lexical.skip_to_quote]. eexists. split; [reflexivity | lia].
Qed.

Lemma skip_line_after_error_returns (fuel : nat) :
  forall st,
    remaining st < fuel ->
    exists st',
      Lexical.skip_line_after_error fuel st = Some st' /\
      remaining st' <= remaining st.
Proof.
  induction fuel as [| fuel IH]; intros st Hf; [lia |].
  cbn [Lexical.skip_line_after_error]. getc_len.
  destruct c as [ch |]; some_len.
  2:{ eexists. split; [reflexivity | lia]. }
  destruct (ch =? Lexical.NL)%char.
  { eexists. split; [reflexivity | lia]. }
  destruct (IH st0) as (st' & He & Hl); [lia |].
  exists st'. split; [exact He | lia].
Qed.

Lemma scan_run_returns (fuel : nat) :
  forall part buf st,
    remaining st < fuel ->
    exists buf' st',
      Lexical.scan_run fuel part buf st = Some (buf', st') /\
      remaining st' <= remaining st.
Proof.
  induction fuel as [| fuel IH]; intros part buf st Hf; [lia |].
  cbn [Lexical.scan_run]. getc_len.
  destruct (negb (part c)).
  { rewrite Eg. eexists _, _. split; [reflexivity | lia]. }
  destruct c as [dc |]; some_len.
  - destruct (IH part (Lexical.push 255 buf dc) st0)
      as (buf' & st' & He & Hl); [lia |].
    exists buf', st'. split; [exact He | lia].
  - eexists _, _. split; [reflexivity | lia].
Qed.

Lemma scan_char_returns (fuel : nat) (st : Lexical.LexState) :
  remaining st < fuel ->
  exists st',
    Lexical.scan_char fuel st = Some st' /\ remaining st' <= remaining st.
Proof.
  intros Hf. unfold Lexical.scan_char. getc_len.
  assert (Hrep : forall ln msg x,
             remaining (Lexical.report ln msg x) = remaining x)
    by reflexivity.
  assert (Hemit : forall tok lex ln x,
             remaining (Lexical.emit tok lex ln x) = remaining x)
    by reflexivity.
  destruct (Lexical.is_char c Lexical.BACKSLASH).
  - clear Eg. getc_len. destruct c0 as [ec |].
    2:{ eexists. split; [reflexivity | rewrite Hrep; lia]. }
    destruct (ec =? Lexical.NL)%char.
    { eexists. split; [reflexivity | rewrite Hrep; lia]. }
    clear Eg. getc_len.
    destruct (negb (Lexical.is_char c0 Lexical.SQUOTE)).
    + destruct (skip_to_quote_returns fuel c0
                  (Lexical.report (Lexical.line_no st)
                                  "Char constant too long" st2))
        as (st' & He & Hl).
      { rewrite Hrep. specialize (Hsome0 ec eq_refl). lia. }
      exists st'. split; [exact He |]. rewrite Hrep in Hl. lia.
    + eexists. split; [reflexivity | rewrite Hemit; lia].
  - destruct c as [ch |].
    2:{ eexists. split; [reflexivity | rewrite Hrep; lia]. }
    destruct (_ || _).
    { eexists. split; [reflexivity | rewrite Hrep; lia]. }
    clear Eg. getc_len.
    destruct (negb (Lexical.is_char c Lexical.SQUOTE)).
    + destruct (skip_to_quote_returns fuel c
                  (Lexical.report (Lexical.line_no st)
                                  "Char constant too long" st1))
        as (st' & He & Hl).
      { rewrite Hrep. specialize (Hsome ch eq_refl). lia. }
      exists st'. split; [exact He |]. rewrite Hrep in Hl. lia.
    + eexists. split; [reflexivity | rewrite Hemit; lia].
Qed.

Lemma main_step_returns (fuel : nat) (st : Lexical.LexState) :
  remaining st < fuel ->
  exists continue st',
    Lexical.main_step fuel st = Some (continue, st') /\
    remaining st' <= remaining st /\
    (continue = true -> remaining st' < remaining st).
Proof.
  intros Hf. unfold Lexical.main_step.
  destruct (skip_ws_and_comments_returns fuel st Hf) as (st1 & -> & Hl1).
  cbn [bind]. getc_len.
  assert (Hemit : forall tok lex ln x,
             remaining (Lexical.emit tok lex ln x) = remaining x)
    by reflexivity.
  destruct c as [ch |]; some_len.
  2:{ eexists _, _. split; [reflexivity |]. split; [lia | discriminate]. }
  destruct (Lexical.is_ident_start (Some ch)).
  { destruct (scan_run_returns fuel Lexical.is_ident_part
                (String ch EmptyString) st0) as (buf & st2 & -> & Hl2);
      [lia |].
    cbn [bind]. eexists _, _. split; [reflexivity |].
    rewrite Hemit. split; lia. }
  destruct (isdigit ch).
  { destruct (scan_run_returns fuel Lexical.is_digit_int
                (String ch EmptyString) st0) as (buf & st2 & -> & Hl2);
      [lia |].
    cbn [bind]. eexists _, _. split; [reflexivity |].
    rewrite Hemit. split; lia. }
  destruct (ch =? Lexical.DQUOTE)%char.
  { unfold Lexical.scan_string.
    destruct (scan_string_loop_returns fuel EmptyString
                (Lexical.line_no st0) st0) as (st2 & -> & Hl2); [lia |].
    cbn [bind]. eexists _, _. split; [reflexivity |]. split; lia. }
  destruct (ch =? Lexical.SQUOTE)%char.
  { destruct (scan_char_returns fuel st0) as (st2 & -> & Hl2); [lia |].
    cbn [bind]. eexists _, _. split; [reflexivity |]. split; lia. }
  destruct (ch =? "=")%char.
  { clear Eg. getc_len. destruct (Lexical.is_char c "="%char).
    - eexists _, _. split; [reflexivity |]. rewrite Hemit. split; lia.
    - rewrite Eg. eexists _, _. split; [reflexivity |].
      rewrite Hemit. split; lia. }
  destruct (Lexical.punctuation ch) as [[tok lex] |].
  { eexists _, _. split; [reflexivity |]. rewrite Hemit. split; lia. }
  destruct (skip_line_after_error_returns fuel
              (Lexical.report (Lexical.line_no st0) "Undefined symbol" st0))
    as (st2 & -> & Hl2).
  { change (remaining (Lexical.report _ _ st0)) with (remaining st0). lia. }
  change (remaining (Lexical.report _ _ st0)) with (remaining st0) in Hl2.
  cbn [bind]. eexists _, _. split; [reflexivity |]. split; lia.
Qed.

Lemma main_loop_returns (fuel : nat) :
  forall st,
    remaining st + 1 < fuel ->
    exists st', Lexical.main_loop fuel st = Some st'.
Proof.
  induction fuel as [| fuel IH]; intros st Hf; [lia |].
  cbn [Lexical.main_loop].
  destruct (main_step_returns fuel st) as (continue & st1 & -> & Hle & Hlt);
    [lia |].
  cbn [bind]. destruct continue.
  - apply IH. specialize (Hlt eq_refl). lia.
  - exists st1. reflexivity.
Qed.


(** ** Error recovery *)







(** On [ordered_lines] the two tokens of line 7 are dropped and the cursor
    stands on the token of line 8. *)
Example syn_error_ordered_lines :
  Semantic.syn_error "} missing" ordered_lines
  = mkState (toks ordered_lines) 2 [] "Global" 1 [(7%Z, "} missing")].
Proof. reflexivity. Qed.

(** * The token file

    The tokenizer writes [tokens.txt]; each parser reads it with a loader
    of its own. *)

Lemma digit_char (n : Z) :
  (0 <= n)%Z ->
  let c := ascii_of_nat (48 + Z.to_nat (n mod 10)) in
  isdigit c = true /\ (Z.of_nat (nat_of_ascii c) - 48 = n mod 10)%Z /\
  isspace c = false.
Proof.
  intros Hn c.
  assert (Hm : (0 <= n mod 10 < 10)%Z) by (apply Z.mod_pos_bound; lia).
  assert (Hc : nat_of_ascii c = 48 + Z.to_nat (n mod 10)).
  { unfold c. apply nat_ascii_embedding. lia. }
  unfold isdigit, isspace. rewrite Hc.
  split; [| split].
  - apply andb_true_intro. split; apply Nat.leb_le; lia.
  - lia.
  - apply orb_false_intro.
    + apply Nat.eqb_neq. lia.
    + apply andb_false_intro2. apply Nat.leb_gt. lia.
Qed.

Lemma print_digits_value (fuel : nat) :
  forall (n : Z) (acc : string),
    (0 <= n < 2 ^ Z.of_nat fuel)%Z ->
    exists k : Z, (0 <= k)%Z /\
      forall a, digits_value a (Lexical.print_digits fuel n acc) =
                digits_value (a * 10 ^ k + n)%Z acc.
Proof.
  induction fuel as [| fuel IH]; intros n acc Hn.
  - exists 0%Z. split; [lia |]. intros a. cbn [Lexical.print_digits].
    assert (n = 0)%Z by (cbn in Hn; lia). subst n. f_equal. lia.
  - cbn [Lexical.print_digits].
    destruct (digit_char n (proj1 Hn)) as (Hd & Hv & _).
    destruct (n <? 10)%Z eqn:Hlt.
    + apply Z.ltb_lt in Hlt. exists 1%Z. split; [lia |]. intros a.
      cbn [digits_value]. rewrite Hd, Hv. f_equal.
      rewrite Z.mod_small by lia. lia.
    + apply Z.ltb_ge in Hlt.
      destruct (IH (n / 10)%Z
                  (String (ascii_of_nat (48 + Z.to_nat (n mod 10))) acc))
        as (k & Hk & Hval).
      { split; [apply Z.div_pos; lia |].
        apply Z.div_lt_upper_bound; [lia |].
        rewrite Nat2Z.inj_succ, Z.pow_succ_r in Hn by lia. lia. }
      exists (k + 1)%Z. split; [lia |]. intros a. rewrite Hval.
      cbn [digits_value]. rewrite Hd, Hv. f_equal.
      rewrite Z.pow_add_r by lia.
      pose proof (Z.div_mod n 10 ltac:(lia)). lia.
Qed.

Lemma append_assoc (a b c : string) :
  String.append (String.append a b) c = String.append a (String.append b c).
Proof. induction a as [| x a IH]; cbn; [reflexivity | now rewrite IH]. Qed.

Lemma append_nil_r (a : string) : String.append a EmptyString = a.
Proof. induction a as [| x a IH]; cbn; [reflexivity | now rewrite IH]. Qed.

Lemma append_length (a b : string) :
  String.length (String.append a b) = String.length a + String.length b.
Proof. induction a as [| x a IH]; cbn; [reflexivity | now rewrite IH]. Qed.

Lemma isdigit_not_space (c : ascii) : isdigit c = true -> isspace c = false.
Proof.
  unfold isdigit, isspace. generalize (nat_of_ascii c) as n. intros n H.
  apply andb_prop in H. destruct H as [H1 H2].
  apply Nat.leb_le in H1, H2.
  apply orb_false_intro; [apply Nat.eqb_neq; lia |].
  apply andb_false_intro2. apply Nat.leb_gt. lia.
Qed.

Lemma all_digits_no_space (ds : string) :
  all_digits ds = true -> no_space ds = true.
Proof.
  induction ds as [| c ds IH]; cbn; [reflexivity |].
  intros H. apply andb_prop in H. destruct H as [H1 H2].
  rewrite (isdigit_not_space c H1), IH by assumption. reflexivity.
Qed.

Lemma all_digits_app (a b : string) :
  all_digits (String.append a b) = all_digits a && all_digits b.
Proof.
  induction a as [| c a IH]; cbn; [reflexivity |].
  now rewrite IH, andb_assoc.
Qed.

Lemma print_digits_acc (fuel : nat) :
  forall (n : Z) (acc : string),
    Lexical.print_digits fuel n acc =
    String.append (Lexical.print_digits fuel n EmptyString) acc.
Proof.
  induction fuel as [| fuel IH]; intros n acc; cbn [Lexical.print_digits].
  - reflexivity.
  - destruct (n <? 10)%Z; [reflexivity |].
    rewrite IH. rewrite (IH _ (String _ EmptyString)).
    rewrite append_assoc. reflexivity.
Qed.

Lemma print_digits_shape (fuel : nat) :
  forall (n : Z) (acc : string),
    (0 <= n)%Z ->
    exists c ds,
      Lexical.print_digits (S fuel) n acc = String.append (String c ds) acc /\
      all_digits (String c ds) = true /\ String.length (String c ds) <= S fuel.
Proof.
  induction fuel as [| fuel IH]; intros n acc Hn.
  - destruct (digit_char n Hn) as (Hd & _).
    exists (ascii_of_nat (48 + Z.to_nat (n mod 10))), EmptyString.
    cbn [Lexical.print_digits]. split; [now destruct (n <? 10)%Z |].
    cbn [all_digits String.length]. rewrite Hd. split; [reflexivity | lia].
  - destruct (digit_char n Hn) as (Hd & _).
    remember (S fuel) as f eqn:Hf.
    cbn [Lexical.print_digits]. subst f.
    destruct (n <? 10)%Z eqn:Hlt.
    + exists (ascii_of_nat (48 + Z.to_nat (n mod 10))), EmptyString.
      split; [reflexivity |]. cbn [all_digits String.length]. rewrite Hd.
      split; [reflexivity | lia].
    + destruct (IH (n / 10)%Z
                  (String (ascii_of_nat (48 + Z.to_nat (n mod 10))) acc))
        as (c & ds & He & Hall & Hlen).
      { apply Z.div_pos; lia. }
      exists c, (String.append ds
                   (String (ascii_of_nat (48 + Z.to_nat (n mod 10)))
                           EmptyString)).
      split; [| split].
      * rewrite He. cbn [String.append]. rewrite append_assoc. reflexivity.
      * cbn [all_digits] in Hall |- *. apply andb_prop in Hall.
        destruct Hall as [H1 H2]. rewrite H1, all_digits_app, H2.
        cbn [all_digits]. now rewrite Hd.
      * cbn [String.length] in Hlen |- *. rewrite append_length.
        cbn [String.length]. lia.
Qed.

(** The text that [%d] writes for a number that is not negative: digits
    only, at least one, and the digits have the number as their value. *)
Lemma print_int_spec (n : Z) :
  (0 <= n < 2 ^ 31)%Z ->
  exists c ds,
    Lexical.print_int n = String c ds /\
    all_digits (String c ds) = true /\
    String.length (String c ds) <= 32 /\
    forall rest,
      digits_value 0 (String.append (String c ds) rest) = digits_value n rest.
Proof.
  intros Hn. unfold Lexical.print_int.
  destruct (n <? 0)%Z eqn:Hneg; [apply Z.ltb_lt in Hneg; lia |].
  set (k := Z.to_nat (Z.log2 n)).
  destruct (print_digits_shape k n EmptyString (proj1 Hn))
    as (c & ds & He & Hall & Hlen).
  rewrite append_nil_r in He.
  exists c, ds. split; [exact He |]. split; [exact Hall |].
  assert (Hk : (Z.of_nat k = Z.log2 n)%Z).
  { unfold k. rewrite Z2Nat.id; [reflexivity | apply Z.log2_nonneg]. }
  split.
  - assert (Z.log2 n < 31)%Z; [| lia].
    destruct (Z.eq_dec n 0) as [-> | Hz]; [cbn; lia |].
    apply Z.log2_lt_pow2; lia.
  - intros rest. rewrite <- He, <- print_digits_acc.
    destruct (print_digits_value (S k) n rest) as (j & Hj & Hval).
    { split; [lia |]. rewrite Nat2Z.inj_succ, Hk.
      destruct (Z.eq_dec n 0) as [-> | Hz]; [cbn; lia |].
      apply Z.log2_spec. lia. }
    rewrite Hval. f_equal; lia.
Qed.

Lemma skip_spaces_word (w r : string) :
  w <> EmptyString -> no_space w = true ->
  skip_spaces (String.append w r) = String.append w r.
Proof.
  destruct w as [| c w]; [congruence |]. intros _ H. cbn in H |- *.
  apply andb_prop in H. destruct H as [H _].
  apply negb_true_iff in H. now rewrite H.
Qed.

Lemma scan_word_word (w : string) :
  forall (width : nat) (c : ascii) (r : string),
    no_space w = true -> String.length w <= width -> isspace c = true ->
    Semantic.scan_word width (String.append w (String c r)) = (w, String c r).
Proof.
  induction w as [| x w IH]; intros width c r Hw Hl Hc.
  - cbn [String.append]. destruct width; cbn [Semantic.scan_word];
      [reflexivity | now rewrite Hc].
  - destruct width as [| width]; [cbn in Hl; lia |].
    cbn in Hw. apply andb_prop in Hw. destruct Hw as [Hx Hw].
    apply negb_true_iff in Hx.
    cbn [String.append Semantic.scan_word]. rewrite Hx.
    rewrite IH; [reflexivity | assumption | cbn in Hl; lia | assumption].
Qed.

Lemma scan_s_word (w : string) (width : nat) (c : ascii) (r : string) :
  word width w -> isspace c = true ->
  Semantic.scan_s width (String.append w (String c r)) = Some (w, String c r).
Proof.
  intros (Hne & Hw & Hl) Hc. unfold Semantic.scan_s.
  rewrite skip_spaces_word by assumption.
  destruct w as [| x w]; [congruence |].
  change (String.append (String x w) (String c r))
    with (String x (String.append w (String c r))).
  cbv iota.
  change (String x (String.append w (String c r)))
    with (String.append (String x w) (String c r)).
  now rewrite scan_word_word.
Qed.

Lemma scan_s_space (width : nat) (c : ascii) (r : string) :
  isspace c = true ->
  Semantic.scan_s width (String c r) = Semantic.scan_s width r.
Proof. intros H. unfold Semantic.scan_s. cbn [skip_spaces]. now rewrite H. Qed.

Lemma isdigit_cases (c : ascii) :
  isdigit c = true ->
  In c ["0"; "1"; "2"; "3"; "4"; "5"; "6"; "7"; "8"; "9"]%char.
Proof.
  destruct c as [[] [] [] [] [] [] [] []]; intros H;
    try discriminate H; cbn; tauto.
Qed.

Lemma scan_d_digits (c : ascii) (r : string) :
  isdigit c = true ->
  Semantic.scan_d (String c r) = Some (digits_value 0 (String c r)).
Proof.
  intros H. apply isdigit_cases in H. cbn in H.
  repeat (destruct H as [<- | H]; [reflexivity |]). contradiction.
Qed.

Lemma atoi_digits (c : ascii) (r : string) :
  isdigit c = true -> atoi (String c r) = digits_value 0 (String c r).
Proof.
  intros H. apply isdigit_cases in H. cbn in H.
  repeat (destruct H as [<- | H]; [reflexivity |]). contradiction.
Qed.

Lemma print_row_app (t : Tok) (rest : string) :
  String.append (Lexical.print_row t) rest =
  String.append (token t)
    (String "009"%char
       (String.append (lexeme t)
          (String "009"%char
             (String.append (Lexical.print_int (line t))
                (String Lexical.NL rest))))).
Proof.
  unfold Lexical.print_row.
  rewrite append_assoc. cbn [String.append].
  rewrite append_assoc. cbn [String.append].
  rewrite append_assoc. reflexivity.
Qed.

Lemma count_newlines_app (a b : string) :
  count_newlines (String.append a b) = count_newlines a + count_newlines b.
Proof.
  induction a as [| c a IH]; cbn [String.append count_newlines];
    [reflexivity |].
  rewrite IH. now destruct (c =? Lexical.NL)%char.
Qed.

Lemma newline_is_space (c : ascii) :
  (c =? Lexical.NL)%char = true -> isspace c = true.
Proof. intros H. apply Ascii.eqb_eq in H. now subst c. Qed.

Lemma no_space_no_newline (w : string) :
  no_space w = true -> count_newlines w = 0.
Proof.
  induction w as [| c w IH]; cbn [no_space count_newlines]; [reflexivity |].
  intros H. apply andb_prop in H. destruct H as [Hc Hw].
  apply negb_true_iff in Hc.
  destruct (c =? Lexical.NL)%char eqn:E.
  - apply newline_is_space in E. congruence.
  - now apply IH.
Qed.

Lemma fgets_chars_line (body : string) :
  forall (k : nat) (rest : string),
    count_newlines body = 0 -> String.length body < k ->
    Semantic.fgets_chars k (String.append body (String Lexical.NL rest)) =
    (String.append body (String Lexical.NL EmptyString), rest).
Proof.
  induction body as [| c body IH]; intros k rest Hn Hl.
  - destruct k; [cbn in Hl; lia |]. reflexivity.
  - destruct k as [| k]; [cbn in Hl; lia |].
    cbn [count_newlines] in Hn.
    cbn [String.append Semantic.fgets_chars].
    change "010"%char with Lexical.NL.
    destruct (c =? Lexical.NL)%char; [discriminate |].
    rewrite IH; [reflexivity | assumption | cbn in Hl; lia].
Qed.

Lemma plain_row_line (t : Tok) :
  plain t ->
  exists body,
    Lexical.print_row t = String.append body (String Lexical.NL EmptyString) /\
    count_newlines body = 0 /\ String.length body < 400 /\
    body <> EmptyString.
Proof.
  intros ((Hk0 & Hk1 & Hk2) & (Hl0 & Hl1 & Hl2) & Hn).
  destruct (print_int_spec (line t) Hn) as (c & ds & He & Hall & Hlen & _).
  exists (String.append (token t)
            (String "009"%char
               (String.append (lexeme t)
                  (String "009"%char (Lexical.print_int (line t)))))).
  split; [| split; [| split]].
  - unfold Lexical.print_row.
    rewrite append_assoc. cbn [String.append].
    rewrite append_assoc. cbn [String.append]. reflexivity.
  - rewrite count_newlines_app. cbn [count_newlines].
    rewrite count_newlines_app. cbn [count_newlines].
    rewrite (no_space_no_newline _ Hk1), (no_space_no_newline _ Hl1).
    rewrite He, (no_space_no_newline _ (all_digits_no_space _ Hall)).
    reflexivity.
  - rewrite append_length. cbn [String.length].
    rewrite append_length. cbn [String.length]. rewrite He. lia.
  - destruct (token t); [congruence | discriminate].
Qed.

Lemma fgets_row (t : Tok) (k : nat) (rest : string) :
  plain t -> 400 < k ->
  Semantic.fgets k (String.append (Lexical.print_row t) rest) =
  Some (Lexical.print_row t, rest).
Proof.
  intros Ht Hk.
  destruct (plain_row_line t Ht) as (body & -> & Hn & Hl & Hne).
  rewrite append_assoc. cbn [String.append].
  unfold Semantic.fgets.
  destruct body as [| c body]; [congruence |].
  cbn [String.append].
  change (String c (String.append body (String Lexical.NL rest)))
    with (String.append (String c body) (String Lexical.NL rest)).
  rewrite fgets_chars_line; [reflexivity | assumption | lia].
Qed.

Lemma semantic_scan_d_space (c : ascii) (r : string) :
  isspace c = true -> Semantic.scan_d (String c r) = Semantic.scan_d r.
Proof. intros H. unfold Semantic.scan_d. cbn [skip_spaces]. now rewrite H. Qed.

Lemma sscanf_row (t : Tok) :
  plain t ->
  Semantic.sscanf (Lexical.print_row t) = (3%Z, token t, lexeme t, line t).
Proof.
  intros (Hk & Hl & Hn).
  destruct (print_int_spec (line t) Hn) as (c & ds & He & Hall & _ & Hval).
  unfold Semantic.sscanf, Lexical.print_row.
  rewrite scan_s_word by (assumption || reflexivity).
  rewrite scan_s_space by reflexivity.
  rewrite scan_s_word by (assumption || reflexivity).
  rewrite semantic_scan_d_space by reflexivity.
  rewrite He. cbn [all_digits] in Hall. apply andb_prop in Hall.
  cbn [String.append]. rewrite scan_d_digits by apply Hall.
  change (String c (String.append ds (String Lexical.NL EmptyString)))
    with (String.append (String c ds) (String Lexical.NL EmptyString)).
  rewrite Hval. reflexivity.
Qed.

Lemma set_toks_set_toks (l l' : list Tok) (s : State) :
  set_toks l (set_toks l' s) = set_toks l s.
Proof. reflexivity. Qed.

Lemma semantic_load_rows (l : list Tok) :
  forall (fuel : nat) (s : State),
    Forall plain l -> ntok s + length l <= MAXTOK -> length l < fuel ->
    Semantic.load_tokens_loop fuel (Lexical.print_rows l) s =
    Some (set_toks (toks s ++ l) s).
Proof.
  induction l as [| t l IH]; intros fuel s Hall Hmax Hfuel.
  - destruct fuel; [cbn in Hfuel; lia |]. cbn.
    rewrite app_nil_r. now destruct s.
  - destruct fuel as [| fuel]; [cbn in Hfuel; lia |].
    inversion Hall as [| ? ? Ht Hl]; subst.
    cbn [Lexical.print_rows Semantic.load_tokens_loop].
    rewrite fgets_row by (assumption || lia).
    rewrite sscanf_row by assumption. cbn [Z.eqb Pos.eqb negb].
    cbn [length] in Hmax, Hfuel.
    destruct (MAXTOK <=? ntok s)%nat eqn:E; [apply Nat.leb_le in E; lia |].
    rewrite IH; [| assumption | unfold ntok; cbn [toks set_toks];
                                rewrite length_app; cbn [length];
                                unfold ntok in Hmax; lia | lia].
    cbn [toks set_toks]. rewrite set_toks_set_toks, <- app_assoc.
    destruct t. reflexivity.
Qed.

Lemma header_line_eq (rest : string) :
  String.append Lexical.header_line rest =
  String.append "Token	Lexeme	Line No" (String Lexical.NL rest).
Proof. reflexivity. Qed.

Lemma fgets_nonempty (n : nat) (str : string) :
  str <> EmptyString ->
  Semantic.fgets n str = Some (Semantic.fgets_chars (n - 1) str).
Proof. destruct str; [congruence | reflexivity]. Qed.

Lemma fgets_header (k : nat) (rest : string) :
  21 < k ->
  Semantic.fgets k (String.append Lexical.header_line rest) =
  Some (Lexical.header_line, rest).
Proof.
  intros Hk. rewrite fgets_nonempty by discriminate.
  rewrite header_line_eq.
  rewrite fgets_chars_line; [reflexivity | reflexivity | cbn; lia].
Qed.

(** X1: [load_tokens] of [semantic_analyser.c] reads back the token file
    that the tokenizer writes: for tokens whose kind and lexeme are words
    without white space that its buffers hold, at most [MAXTOK] of them, the
    header line is dropped and [toks] holds exactly the tokens written, in
    their order. *)
Theorem X1_semantic_loader_reads_back (l : list Tok) (fuel : nat) (s : State) :
  Forall plain l -> length l <= MAXTOK -> length l < fuel ->
  Semantic.load_tokens fuel (Some (Lexical.tokens_txt l)) s =
  Some (true, set_toks l s).
Proof.
  intros Hall Hmax Hfuel. unfold Semantic.load_tokens, Lexical.tokens_txt.
  rewrite fgets_header by lia.
  rewrite semantic_load_rows;
    [reflexivity | assumption | unfold ntok; cbn [toks set_toks length]; lia
     | assumption].
Qed.

Ltac word_tac :=
  unfold word, T; cbn [token lexeme];
  split; [discriminate | split; [reflexivity | cbn [String.length]; lia]].

Ltac plain_tac :=
  repeat (constructor;
          [split; [word_tac | split; [word_tac | cbn [line T]; lia]] |]);
  constructor.

Lemma X1_witness :
  Semantic.load_tokens 8 (Some (Lexical.tokens_txt minimal_program))
    (init_state []) =
  Some (true, init_state minimal_program).
Proof.
  apply (X1_semantic_loader_reads_back minimal_program 8 (init_state [])).
  - unfold minimal_program. plain_tac.
  - unfold MAXTOK. cbn [length minimal_program]. lia.
  - cbn [length minimal_program]. lia.
Defined.


Lemma sematic_scan_s_word (f : Sematic.FILE) (w : string) (width : nat)
    (c : ascii) (r : string) :
  word width w -> isspace c = true ->
  skip_spaces (Sematic.chars f) = String.append w (String c r) ->
  Sematic.scan_s width f = (Some w, Sematic.mkFILE (String c r) false).
Proof.
  intros (Hne & Hw & Hl) Hc Hf. unfold Sematic.scan_s, Sematic.skip_ws.
  rewrite Hf. destruct w as [| x w]; [congruence |].
  cbn [String.append Sematic.chars].
  change (String x (String.append w (String c r)))
    with (String.append (String x w) (String c r)).
  rewrite scan_word_word by assumption. reflexivity.
Qed.

Lemma skip_digits_app (ds : string) (x : ascii) (r : string) :
  all_digits ds = true -> isdigit x = false ->
  Sematic.skip_digits (String.append ds (String x r)) = String x r.
Proof.
  intros Hd Hx. induction ds as [| c ds IH].
  - cbn. now rewrite Hx.
  - cbn in Hd. apply andb_prop in Hd. destruct Hd as [Hc Hd].
    cbn [String.append Sematic.skip_digits]. rewrite Hc. now apply IH.
Qed.

Lemma sematic_scan_d_digits (f : Sematic.FILE) (c : ascii) (ds : string)
    (x : ascii) (r : string) :
  all_digits (String c ds) = true -> isdigit x = false ->
  skip_spaces (Sematic.chars f) = String.append (String c ds) (String x r) ->
  Sematic.scan_d f =
  (Some (digits_value 0 (String.append (String c ds) (String x r))),
   Sematic.mkFILE (String x r) false).
Proof.
  intros Hd Hx Hf. unfold Sematic.scan_d, Sematic.skip_ws. rewrite Hf.
  cbn [String.append Sematic.chars].
  pose proof Hd as Hd'. cbn [all_digits] in Hd'. apply andb_prop in Hd'.
  destruct Hd' as [Hc _].
  assert (Hsign : (c =? "-")%char || (c =? "+")%char = false).
  { apply isdigit_cases in Hc. cbn in Hc.
    repeat (destruct Hc as [<- | Hc]; [reflexivity |]). contradiction. }
  rewrite Hsign, Hc. unfold Sematic.scan_digits.
  change (String c (String.append ds (String x r)))
    with (String.append (String c ds) (String x r)).
  rewrite skip_digits_app by assumption. reflexivity.
Qed.

Lemma word_le (n m : nat) (w : string) : n <= m -> word n w -> word m w.
Proof. intros H (H1 & H2 & H3). repeat split; try assumption. lia. Qed.

Lemma sematic_fscanf_row (f : Sematic.FILE) (t : Tok) (rest : string) :
  plain t ->
  skip_spaces (Sematic.chars f) = String.append (Lexical.print_row t) rest ->
  Sematic.fscanf f =
  (3%Z, token t, lexeme t, line t,
   Sematic.mkFILE (String Lexical.NL rest) false).
Proof.
  intros (Hk & Hl & Hn) Hf.
  destruct (print_int_spec (line t) Hn) as (c & ds & He & Hall & _ & Hval).
  rewrite print_row_app in Hf. unfold Sematic.fscanf.
  rewrite (sematic_scan_s_word f (token t) 63 "009"%char _
             (word_le 31 63 _ ltac:(lia) Hk) eq_refl Hf).
  rewrite (sematic_scan_s_word _ (lexeme t) 255 "009"%char
             (String.append (Lexical.print_int (line t))
                (String Lexical.NL rest)) Hl eq_refl)
    by (cbn [Sematic.chars skip_spaces]; change (isspace "009") with true;
        cbv iota; apply skip_spaces_word; apply Hl).
  rewrite He.
  rewrite (sematic_scan_d_digits _ c ds Lexical.NL rest Hall eq_refl)
    by (cbn [Sematic.chars skip_spaces]; change (isspace "009") with true;
        cbv iota; apply skip_spaces_word;
        [discriminate | now apply all_digits_no_space]).
  rewrite Hval. reflexivity.
Qed.

Lemma skip_spaces_rows (l : list Tok) :
  Forall plain l ->
  skip_spaces (Lexical.print_rows l) = Lexical.print_rows l.
Proof.
  intros H. destruct H as [| t l ((Hne & Hw & _) & _) _]; [reflexivity |].
  cbn [Lexical.print_rows]. rewrite print_row_app.
  now apply skip_spaces_word.
Qed.

Lemma sematic_load_rows (l : list Tok) :
  forall (fuel : nat) (f : Sematic.FILE) (s : State),
    Forall plain l -> ntok s + length l <= MAXTOK -> length l < fuel ->
    Sematic.eof_ind f = false ->
    skip_spaces (Sematic.chars f) = Lexical.print_rows l ->
    Sematic.load_tokens_loop fuel f s =
    Some (Sematic.Loaded (set_toks (toks s ++ l) s)).
Proof.
  induction l as [| t l IH]; intros fuel f s Hall Hmax Hfuel Heof Hf.
  - destruct fuel; [cbn in Hfuel; lia |].
    cbn [Sematic.load_tokens_loop]. unfold Sematic.feof. rewrite Heof.
    unfold Sematic.fscanf, Sematic.scan_s, Sematic.skip_ws.
    rewrite Hf. cbn. rewrite app_nil_r. now destruct s.
  - destruct fuel as [| fuel]; [cbn in Hfuel; lia |].
    inversion Hall as [| ? ? Ht Hl]; subst.
    cbn [Sematic.load_tokens_loop]. unfold Sematic.feof. rewrite Heof.
    cbn [Lexical.print_rows] in Hf.
    rewrite (sematic_fscanf_row f t _ Ht Hf).
    cbn [Z.eqb Pos.eqb negb orb].
    destruct Ht as ((_ & _ & Hlen) & _).
    destruct (31 <? String.length (token t))%nat eqn:E;
      [apply Nat.ltb_lt in E; lia |].
    cbn [length] in Hmax, Hfuel.
    assert (Hs : set_toks (toks s ++ [mkTok (token t) (lexeme t) (line t)]) s
                 = set_toks (toks s ++ [t]) s) by now destruct t.
    rewrite Hs.
    destruct (MAXTOK <=? ntok (set_toks (toks s ++ [t]) s))%nat eqn:E2.
    + apply Nat.leb_le in E2. unfold ntok in E2, Hmax.
      cbn [toks set_toks] in E2. rewrite length_app in E2. cbn [length] in E2.
      destruct l; [reflexivity | cbn [length] in Hmax; lia].
    + rewrite IH; [| assumption
                   | unfold ntok in *; cbn [toks set_toks];
                     rewrite length_app; cbn [length]; lia
                   | lia | reflexivity
                   | cbn [Sematic.chars skip_spaces];
                     change (isspace Lexical.NL) with true; cbv iota;
                     now apply skip_spaces_rows].
      cbn [toks set_toks]. rewrite set_toks_set_toks, <- app_assoc.
      reflexivity.
Qed.

Lemma sematic_header_skipped (l : list Tok) (fuel : nat) (s : State) :
  Sematic.load_tokens_loop (S fuel) (Sematic.fopen (Lexical.tokens_txt l)) s =
  Sematic.load_tokens_loop fuel
    (Sematic.mkFILE (Lexical.print_rows l) false) s.
Proof.
  unfold Lexical.tokens_txt. rewrite header_line_eq.
  cbn [Sematic.load_tokens_loop].
  change (Sematic.feof (Sematic.fopen ?x)) with false. cbv iota.
  change (Sematic.fscanf
            (Sematic.fopen
               (String.append "Token	Lexeme	Line No"
                  (String Lexical.NL (Lexical.print_rows l)))))
    with (2%Z, "Token", "Lexeme", 0%Z,
          Sematic.mkFILE
            (String.append "Line No"
               (String Lexical.NL (Lexical.print_rows l))) false).
  cbn [Z.eqb Pos.eqb negb orb]. reflexivity.
Qed.

(** X2: [load_tokens] of [sematic_analyser.c] reads back the same token
    file, and it does so whether the file starts with the header line or
    with the first row. *)
Theorem X2_sematic_loader_reads_back (l : list Tok) (fuel : nat) (s : State) :
  Forall plain l -> length l <= MAXTOK -> S (length l) < fuel ->
  Sematic.load_tokens fuel (Some (Lexical.tokens_txt l)) s =
    Some (true, Sematic.Loaded (set_toks l s)) /\
  Sematic.load_tokens fuel (Some (Lexical.print_rows l)) s =
    Some (true, Sematic.Loaded (set_toks l s)).
Proof.
  intros Hall Hmax Hfuel. unfold Sematic.load_tokens. split.
  - destruct fuel as [| fuel]; [lia |].
    rewrite sematic_header_skipped.
    rewrite (sematic_load_rows l);
      [reflexivity | assumption | unfold ntok; cbn [toks set_toks length]; lia
       | lia | reflexivity | now apply skip_spaces_rows].
  - rewrite (sematic_load_rows l);
      [reflexivity | assumption | unfold ntok; cbn [toks set_toks length]; lia
       | lia | reflexivity | now apply skip_spaces_rows].
Qed.

Lemma X2_witness :
  Sematic.load_tokens 9 (Some (Lexical.tokens_txt minimal_program))
    (init_state []) =
    Some (true, Sematic.Loaded (init_state minimal_program)) /\
  Sematic.load_tokens 9 (Some (Lexical.print_rows minimal_program))
    (init_state []) =
    Some (true, Sematic.Loaded (init_state minimal_program)).
Proof.
  apply (X2_sematic_loader_reads_back minimal_program 9 (init_state [])).
  - unfold minimal_program. plain_tac.
  - unfold MAXTOK. cbn [length minimal_program]. lia.
  - cbn [length minimal_program]. lia.
Defined.


Lemma plain_spaced (t : Tok) : plain t -> spaced t.
Proof.
  intros (Hk & (Hne & Hw & Hl) & Hn). split; [exact Hk |]. split; [| exact Hn].
  split; [| split; [| exact Hl]].
  - destruct (lexeme t) as [| c r]; [congruence |]. cbn in Hw.
    apply andb_prop in Hw. destruct Hw as [Hc _]. now apply negb_true_iff.
  - clear Hne Hl. induction (lexeme t) as [| c r IH]; [reflexivity |].
    cbn in Hw |- *. apply andb_prop in Hw. destruct Hw as [Hc Hr].
    rewrite (IH Hr), andb_true_r. apply negb_true_iff in Hc.
    apply negb_true_iff. apply orb_false_intro.
    + destruct (c =? "009")%char eqn:E; [| reflexivity].
      apply Ascii.eqb_eq in E. subst c. discriminate.
    + destruct (c =? "010")%char eqn:E; [| reflexivity].
      apply Ascii.eqb_eq in E. subst c. discriminate.
Qed.

Lemma scan_field_field (w : string) :
  forall (limit : nat) (c : ascii) (r : string),
    no_tab_newline w = true -> String.length w <= limit ->
    (c =? "009")%char || (c =? "010")%char = true ->
    Syntax.scan_field limit (String.append w (String c r)) = (w, String c r).
Proof.
  induction w as [| x w IH]; intros limit c r Hw Hl Hc.
  - cbn [String.append]. destruct limit; cbn [Syntax.scan_field];
      [reflexivity | now rewrite Hc].
  - destruct limit as [| limit]; [cbn in Hl; lia |].
    cbn in Hw. apply andb_prop in Hw. destruct Hw as [Hx Hw].
    apply negb_true_iff in Hx.
    cbn [String.append Syntax.scan_field]. rewrite Hx.
    rewrite IH; [reflexivity | assumption | cbn in Hl; lia | assumption].
Qed.

Lemma no_tab_newline_count (w : string) :
  no_tab_newline w = true -> count_newlines w = 0.
Proof.
  induction w as [| c w IH]; cbn [no_tab_newline count_newlines];
    [reflexivity |].
  intros H. apply andb_prop in H. destruct H as [Hc Hw].
  apply negb_true_iff, orb_false_elim in Hc. destruct Hc as [_ Hc].
  change Lexical.NL with "010"%char. rewrite Hc. now apply IH.
Qed.

Lemma spaced_row_line (t : Tok) :
  spaced t ->
  exists body,
    Lexical.print_row t = String.append body (String Lexical.NL EmptyString) /\
    count_newlines body = 0 /\ String.length body < 400 /\
    body <> EmptyString.
Proof.
  intros ((Hk0 & Hk1 & Hk2) & (Hl0 & Hl1 & Hl2) & Hn).
  destruct (print_int_spec (line t) Hn) as (c & ds & He & Hall & Hlen & _).
  exists (String.append (token t)
            (String "009"%char
               (String.append (lexeme t)
                  (String "009"%char (Lexical.print_int (line t)))))).
  split; [| split; [| split]].
  - unfold Lexical.print_row.
    rewrite append_assoc. cbn [String.append].
    rewrite append_assoc. cbn [String.append]. reflexivity.
  - rewrite count_newlines_app. cbn [count_newlines].
    rewrite count_newlines_app. cbn [count_newlines].
    rewrite (no_space_no_newline _ Hk1), (no_tab_newline_count _ Hl1).
    rewrite He, (no_space_no_newline _ (all_digits_no_space _ Hall)).
    reflexivity.
  - rewrite append_length. cbn [String.length].
    rewrite append_length. cbn [String.length]. rewrite He. lia.
  - destruct (token t); [congruence | discriminate].
Qed.

Lemma fgets_spaced_row (t : Tok) (k : nat) (rest : string) :
  spaced t -> 400 < k ->
  Semantic.fgets k (String.append (Lexical.print_row t) rest) =
  Some (Lexical.print_row t, rest).
Proof.
  intros Ht Hk.
  destruct (spaced_row_line t Ht) as (body & -> & Hn & Hl & Hne).
  rewrite append_assoc. cbn [String.append].
  rewrite fgets_nonempty by (destruct body; [congruence | discriminate]).
  rewrite fgets_chars_line; [reflexivity | assumption | lia].
Qed.

Lemma strncpy_fits (n : nat) (str : string) :
  String.length str <= n -> Syntax.strncpy n str = str.
Proof.
  unfold Syntax.strncpy. revert n.
  induction str as [| c str IH]; intros n Hn.
  - destruct n; reflexivity.
  - destruct n as [| n]; [cbn in Hn; lia |].
    cbn [substring]. rewrite IH; [reflexivity | cbn in Hn; lia].
Qed.

Lemma split_row_spaced (t : Tok) :
  spaced t ->
  Syntax.split_row (Lexical.print_row t) = (token t, lexeme t, line t).
Proof.
  intros (Hk & (Hl0 & Hl1 & Hl2) & Hn).
  destruct (print_int_spec (line t) Hn) as (c & ds & He & Hall & _ & Hval).
  unfold Syntax.split_row, Lexical.print_row.
  rewrite skip_spaces_word by apply Hk.
  rewrite scan_word_word by (try apply Hk; try reflexivity;
                             destruct Hk as (_ & _ & ?); lia).
  cbn [skip_spaces]. change (isspace "009") with true. cbv iota.
  assert (Hs : forall r, skip_spaces (String.append (lexeme t) r) =
                         String.append (lexeme t) r).
  { intros r. destruct (lexeme t) as [| x w]; [contradiction |].
    cbn [String.append skip_spaces]. now rewrite Hl0. }
  rewrite Hs.
  rewrite scan_field_field by (try assumption; try reflexivity; lia).
  cbn [skip_spaces]. change (isspace "009") with true. cbv iota.
  rewrite He.
  pose proof Hall as Hc. cbn [all_digits] in Hc. apply andb_prop in Hc.
  destruct Hc as [Hc _].
  cbn [String.append skip_spaces]. rewrite (isdigit_not_space c Hc).
  cbn [Sematic.is_empty]. rewrite atoi_digits by assumption.
  change (String c (String.append ds (String Lexical.NL EmptyString)))
    with (String.append (String c ds) (String Lexical.NL EmptyString)).
  now rewrite Hval.
Qed.

Lemma row_is_no_header (t : Tok) :
  spaced t -> token t <> "Token" -> token t <> "TOKEN" ->
  Syntax.is_header (Lexical.print_row t) = false.
Proof.
  intros (Hk & _) H1 H2. unfold Syntax.is_header, Syntax.sscanf3.
  unfold Lexical.print_row.
  rewrite scan_s_word by (assumption || reflexivity).
  apply String.eqb_neq in H1, H2.
  destruct (Semantic.scan_s 31 _) as [[h2 r2] |];
    [| reflexivity].
  destruct (Semantic.scan_s 31 _) as [[h3 r3] |];
    [| reflexivity].
  cbn [Z.eqb Pos.eqb]. now rewrite H1, H2.
Qed.

Lemma syntax_read_rows (l : list Tok) :
  forall (fuel : nat) (first : bool) (s : State),
    Forall spaced l -> ntok s + length l <= MAXTOK -> length l < fuel ->
    (first = true ->
     forall t, hd_error l = Some t ->
               token t <> "Token" /\ token t <> "TOKEN") ->
    Syntax.read_tokens_loop fuel first (Lexical.print_rows l) s =
    Some (set_toks (toks s ++ l) s).
Proof.
  induction l as [| t l IH]; intros fuel first s Hall Hmax Hfuel Hfirst.
  - destruct fuel; [cbn in Hfuel; lia |]. cbn.
    rewrite app_nil_r. now destruct s.
  - destruct fuel as [| fuel]; [cbn in Hfuel; lia |].
    inversion Hall as [| ? ? Ht Hl]; subst.
    cbn [Lexical.print_rows Syntax.read_tokens_loop].
    rewrite fgets_spaced_row by (assumption || lia).
    assert (Hh : first &&& Syntax.is_header (Lexical.print_row t) = false).
    { destruct first; [| reflexivity].
      destruct (Hfirst eq_refl t eq_refl) as [H1 H2].
      now apply row_is_no_header. }
    rewrite Hh. rewrite split_row_spaced by assumption.
    destruct Ht as ((Hne & _ & Hlen) & (_ & _ & Hlen2) & _).
    destruct (token t) as [| x k] eqn:Ek; [congruence |].
    cbn [Sematic.is_empty]. rewrite <- Ek.
    cbn [length] in Hmax, Hfuel.
    destruct (ntok s <? MAXTOK)%nat eqn:E; [| apply Nat.ltb_ge in E; lia].
    rewrite !strncpy_fits by (rewrite ?Ek; assumption).
    rewrite IH; [| assumption
                 | unfold ntok in *; cbn [toks set_toks];
                   rewrite length_app; cbn [length]; lia
                 | lia | discriminate].
    cbn [toks set_toks]. rewrite set_toks_set_toks, <- app_assoc.
    destruct t. reflexivity.
Qed.

Lemma syntax_header_skipped (l : list Tok) (fuel : nat) (s : State) :
  Syntax.read_tokens_loop (S fuel) true (Lexical.tokens_txt l) s =
  Syntax.read_tokens_loop fuel false (Lexical.print_rows l) s.
Proof.
  unfold Lexical.tokens_txt. cbn [Syntax.read_tokens_loop].
  rewrite fgets_header by lia.
  change (Syntax.is_header Lexical.header_line) with true. reflexivity.
Qed.

(** X3: [read_tokens] of [syntax_analyser.c] reads back the token file,
    lexemes with blanks inside included; the header line is dropped when it
    is there, and without it no row is lost as long as the first token kind
    is not the word [Token] or [TOKEN]. *)
Theorem X3_syntax_loader_reads_back (l : list Tok) (fuel : nat) (s : State) :
  Forall spaced l -> ntok s + length l <= MAXTOK -> S (length l) < fuel ->
  Syntax.read_tokens fuel (Some (Lexical.tokens_txt l)) s =
    Some (true, set_toks (toks s ++ l) s) /\
  ((forall t, hd_error l = Some t ->
              token t <> "Token" /\ token t <> "TOKEN") ->
   Syntax.read_tokens fuel (Some (Lexical.print_rows l)) s =
     Some (true, set_toks (toks s ++ l) s)).
Proof.
  intros Hall Hmax Hfuel. unfold Syntax.read_tokens. split.
  - destruct fuel as [| fuel]; [lia |].
    rewrite syntax_header_skipped.
    rewrite (syntax_read_rows l);
      [reflexivity | assumption | assumption | lia | discriminate].
  - intros Hfirst.
    rewrite (syntax_read_rows l);
      [reflexivity | assumption | assumption | lia | intros _; exact Hfirst].
Qed.

Lemma X3_witness :
  Syntax.read_tokens 4 (Some (Lexical.tokens_txt spaced_tokens))
    (init_state []) =
    Some (true, init_state spaced_tokens) /\
  Syntax.read_tokens 4 (Some (Lexical.print_rows spaced_tokens))
    (init_state []) =
    Some (true, init_state spaced_tokens).
Proof.
  destruct (X3_syntax_loader_reads_back spaced_tokens 4 (init_state []))
    as [H1 H2].
  - unfold spaced_tokens.
    repeat (constructor;
            [split; [word_tac | split; [| cbn [line T]; lia]];
             split; [reflexivity | split; [reflexivity | cbn; lia]] |]).
    constructor.
  - unfold MAXTOK, ntok. cbn [length spaced_tokens toks init_state]. lia.
  - cbn [length spaced_tokens]. lia.
  - split; [exact H1 |]. apply H2. intros t Ht. injection Ht as <-.
    split; discriminate.
Defined.


Lemma fgets_chars_shorter (k : nat) :
  forall (f l r : string),
    Semantic.fgets_chars k f = (l, r) -> String.length r <= String.length f.
Proof.
  induction k as [| k IH]; intros f l r H.
  - cbn in H. injection H as <- <-. lia.
  - destruct f as [| c f]; cbn [Semantic.fgets_chars] in H.
    + injection H as <- <-. lia.
    + destruct (c =? "010")%char.
      * injection H as <- <-. cbn. lia.
      * destruct (Semantic.fgets_chars k f) as [l' r'] eqn:E.
        injection H as <- <-. apply IH in E. cbn. lia.
Qed.

Lemma fgets_shorter (n : nat) (f l r : string) :
  2 <= n -> Semantic.fgets n f = Some (l, r) ->
  String.length r < String.length f.
Proof.
  intros Hn H. destruct f as [| c f]; [discriminate |].
  unfold Semantic.fgets in H. injection H as H.
  destruct (n - 1) as [| k] eqn:Ek; [lia |].
  cbn [Semantic.fgets_chars] in H.
  destruct (c =? "010")%char.
  - injection H as <- <-. cbn. lia.
  - destruct (Semantic.fgets_chars k f) as [l' r'] eqn:E.
    injection H as <- <-. apply fgets_chars_shorter in E. cbn. lia.
Qed.

Lemma skip_spaces_head (str : string) (c : ascii) (r : string) :
  skip_spaces str = String c r -> isspace c = false.
Proof.
  induction str as [| x str IH]; cbn [skip_spaces]; [discriminate |].
  destruct (isspace x) eqn:E; [exact IH |].
  intros H. injection H as <- <-. exact E.
Qed.

Lemma scan_word_spec (width : nat) :
  forall (str w r : string),
    Semantic.scan_word width str = (w, r) ->
    no_space w = true /\ String.length w <= width.
Proof.
  induction width as [| width IH]; intros str w r H.
  - cbn in H. injection H as <- <-. split; [reflexivity | cbn; lia].
  - destruct str as [| c str]; cbn [Semantic.scan_word] in H.
    + injection H as <- <-. split; [reflexivity | cbn; lia].
    + destruct (isspace c) eqn:E.
      * injection H as <- <-. split; [reflexivity | cbn; lia].
      * destruct (Semantic.scan_word width str) as [w' r'] eqn:E2.
        injection H as <- <-. apply IH in E2. destruct E2 as [H1 H2].
        cbn [no_space String.length]. rewrite E, H1. split; [reflexivity | lia].
Qed.

Lemma scan_s_spec (width : nat) (str w r : string) :
  0 < width -> Semantic.scan_s width str = Some (w, r) -> word width w.
Proof.
  intros Hw H. unfold Semantic.scan_s in H.
  destruct (skip_spaces str) as [| c str'] eqn:E; [discriminate |].
  injection H as H. pose proof (scan_word_spec _ _ _ _ H) as [H1 H2].
  split; [| split; assumption].
  apply skip_spaces_head in E.
  destruct width as [| width]; [lia |]. cbn [Semantic.scan_word] in H.
  rewrite E in H. destruct (Semantic.scan_word width str').
  injection H as <- <-. discriminate.
Qed.

Lemma sscanf_fits (linebuf t1 t2 : string) (ln : Z) :
  Semantic.sscanf linebuf = (3%Z, t1, t2, ln) -> fits (mkTok t1 t2 ln).
Proof.
  unfold Semantic.sscanf.
  destruct (Semantic.scan_s 31 linebuf) as [[w1 r1] |] eqn:E1;
    [| discriminate].
  destruct (Semantic.scan_s 255 r1) as [[w2 r2] |] eqn:E2; [| discriminate].
  destruct (Semantic.scan_d r2); [| discriminate].
  intros H. injection H as <- <- <-.
  split; [apply (scan_s_spec 31 linebuf w1 r1) | apply (scan_s_spec 255 r1 w2 r2)];
    (lia || assumption).
Qed.

Lemma semantic_load_any (fuel : nat) :
  forall (f : string) (s : State),
    String.length f < fuel -> Forall fits (toks s) -> ntok s <= MAXTOK ->
    exists l,
      Semantic.load_tokens_loop fuel f s = Some (set_toks l s) /\
      Forall fits l /\ length l <= MAXTOK.
Proof.
  induction fuel as [| fuel IH]; intros f s Hf Hall Hmax; [lia |].
  cbn [Semantic.load_tokens_loop].
  destruct (Semantic.fgets 512 f) as [[linebuf f'] |] eqn:E.
  2:{ exists (toks s). split; [now destruct s | split; assumption]. }
  apply fgets_shorter in E; [| lia].
  destruct (Semantic.sscanf linebuf) as [[[n t1] t2] ln] eqn:Es.
  destruct (n =? 3)%Z eqn:En; cbn [negb].
  2:{ apply IH; [lia | assumption | assumption]. }
  apply Z.eqb_eq in En. subst n.
  destruct (MAXTOK <=? ntok s)%nat eqn:Em.
  { exists (toks s). split; [now destruct s | split; assumption]. }
  apply Nat.leb_gt in Em.
  destruct (IH f' (set_toks (toks s ++ [mkTok t1 t2 ln]) s))
    as (l & He & Hl & Hn).
  - lia.
  - cbn [toks set_toks]. apply Forall_app. split; [assumption |].
    constructor; [| constructor]. eapply sscanf_fits, Es.
  - unfold ntok in *. cbn [toks set_toks]. rewrite length_app. cbn [length].
    lia.
  - exists l. rewrite He, set_toks_set_toks. repeat split; assumption.
Qed.

(** X4: [load_tokens] of [semantic_analyser.c] on any file at all: it
    refuses a file that cannot be opened and an empty file, leaving the
    state alone; on every other file it returns 1 within one turn per
    character, with at most [MAXTOK] tokens whose kinds and lexemes are
    words of no more than 31 and 255 characters, so that [strcpy] never
    writes behind [token[32]] or [lexeme[256]]. *)
Theorem X4_semantic_loader_any_file (s : State) :
  (forall fuel, Semantic.load_tokens fuel None s = Some (false, s)) /\
  (forall fuel, Semantic.load_tokens fuel (Some EmptyString) s =
                Some (false, s)) /\
  (forall c file,
     exists l,
       Semantic.load_tokens (S (String.length file)) (Some (String c file)) s =
       Some (true, set_toks l s) /\
       Forall fits l /\ length l <= MAXTOK).
Proof.
  split; [reflexivity |]. split; [reflexivity |]. intros c file.
  unfold Semantic.load_tokens.
  destruct (Semantic.fgets 512 (String c file)) as [[l0 f] |] eqn:E;
    [| discriminate].
  apply fgets_shorter in E; [| lia]. cbn [String.length] in E.
  destruct (semantic_load_any (S (String.length file)) f (set_toks [] s))
    as (l & He & Hl & Hn).
  - lia.
  - constructor.
  - unfold ntok. cbn [toks set_toks init_state length]. lia.
  - exists l. rewrite He. cbn [bind]. rewrite set_toks_set_toks.
    repeat split; assumption.
Qed.

Lemma scan_field_spec (limit : nat) :
  forall (p lex r : string),
    Syntax.scan_field limit p = (lex, r) ->
    no_tab_newline lex = true /\ String.length lex <= limit.
Proof.
  induction limit as [| limit IH]; intros p lex r H.
  - cbn in H. injection H as <- <-. split; [reflexivity | cbn; lia].
  - destruct p as [| c p]; cbn [Syntax.scan_field] in H.
    + injection H as <- <-. split; [reflexivity | cbn; lia].
    + destruct ((c =? "009")%char || (c =? "010")%char) eqn:E.
      * injection H as <- <-. split; [reflexivity | cbn; lia].
      * destruct (Syntax.scan_field limit p) as [w' r'] eqn:E2.
        injection H as <- <-. apply IH in E2. destruct E2 as [H1 H2].
        cbn [no_tab_newline String.length]. rewrite E, H1.
        split; [reflexivity | lia].
Qed.

Lemma strncpy_length (n : nat) :
  forall str, String.length (Syntax.strncpy n str) <= n.
Proof.
  unfold Syntax.strncpy.
  induction n as [| n IH]; intros [| c str]; cbn; try lia.
  specialize (IH str). lia.
Qed.

Lemma strncpy_no_space (n : nat) :
  forall str, no_space str = true -> no_space (Syntax.strncpy n str) = true.
Proof.
  unfold Syntax.strncpy.
  induction n as [| n IH]; intros [| c str] H; try reflexivity.
  cbn in H |- *. apply andb_prop in H. destruct H as [H1 H2].
  now rewrite H1, IH.
Qed.

Lemma strncpy_no_tab_newline (n : nat) :
  forall str, no_tab_newline str = true ->
              no_tab_newline (Syntax.strncpy n str) = true.
Proof.
  unfold Syntax.strncpy.
  induction n as [| n IH]; intros [| c str] H; try reflexivity.
  cbn in H |- *. apply andb_prop in H. destruct H as [H1 H2].
  now rewrite H1, IH.
Qed.

Lemma split_row_fits (linebuf tkn lex : string) (ln : Z) :
  Syntax.split_row linebuf = (tkn, lex, ln) ->
  Sematic.is_empty tkn = false ->
  fits_row (mkTok (Syntax.strncpy 31 tkn) (Syntax.strncpy 255 lex) ln).
Proof.
  unfold Syntax.split_row.
  destruct (Semantic.scan_word 63 (skip_spaces linebuf)) as [w r] eqn:E1.
  destruct (Syntax.scan_field 511 (skip_spaces r)) as [w2 r2] eqn:E2.
  intros H Hne. injection H as <- <- <-.
  apply scan_word_spec in E1. apply scan_field_spec in E2.
  destruct E1 as [H1 H2]. destruct E2 as [H3 H4].
  split; [| split]; cbn [token lexeme].
  - split; [| split].
    + destruct w; [discriminate | cbn; discriminate].
    + now apply strncpy_no_space.
    + apply strncpy_length.
  - now apply strncpy_no_tab_newline.
  - apply strncpy_length.
Qed.

Lemma syntax_read_any (fuel : nat) :
  forall (first : bool) (f : string) (s : State),
    String.length f < fuel -> Forall fits_row (toks s) -> ntok s <= MAXTOK ->
    exists l,
      Syntax.read_tokens_loop fuel first f s = Some (set_toks l s) /\
      Forall fits_row l /\ length l <= MAXTOK.
Proof.
  induction fuel as [| fuel IH]; intros first f s Hf Hall Hmax; [lia |].
  cbn [Syntax.read_tokens_loop].
  destruct (Semantic.fgets 2048 f) as [[linebuf f'] |] eqn:E.
  2:{ exists (toks s). split; [now destruct s | split; assumption]. }
  apply fgets_shorter in E; [| lia].
  destruct (first &&& Syntax.is_header linebuf).
  { apply IH; [lia | assumption | assumption]. }
  destruct (Syntax.split_row linebuf) as [[tkn lex] ln] eqn:Es.
  destruct (Sematic.is_empty tkn) eqn:Ee.
  { apply IH; [lia | assumption | assumption]. }
  destruct (ntok s <? MAXTOK)%nat eqn:Em.
  2:{ apply IH; [lia | assumption | assumption]. }
  apply Nat.ltb_lt in Em.
  destruct (IH false f'
              (set_toks (toks s ++ [mkTok (Syntax.strncpy 31 tkn)
                                          (Syntax.strncpy 255 lex) ln]) s))
    as (l & He & Hl & Hn).
  - lia.
  - cbn [toks set_toks]. apply Forall_app. split; [assumption |].
    constructor; [| constructor]. eapply split_row_fits; eassumption.
  - unfold ntok in *. cbn [toks set_toks]. rewrite length_app. cbn [length].
    lia.
  - exists l. rewrite He, set_toks_set_toks. repeat split; assumption.
Qed.

(** X5: [read_tokens] of [syntax_analyser.c] on any file at all: it
    returns 1 on every file that can be opened, the empty one included,
    with at most [MAXTOK] tokens; every kind is a word of no more than 31
    characters and every lexeme has no more than 255 characters, none of
    them a tab or a newline. *)
Theorem X5_syntax_loader_any_file (file : string) :
  (forall fuel s, Syntax.read_tokens fuel None s = Some (false, s)) /\
  exists l,
    Syntax.read_tokens (S (String.length file)) (Some file) (init_state []) =
    Some (true, init_state l) /\
    Forall fits_row l /\ length l <= MAXTOK.
Proof.
  split; [reflexivity |]. unfold Syntax.read_tokens.
  destruct (syntax_read_any (S (String.length file)) true file (init_state []))
    as (l & He & Hl & Hn).
  - lia.
  - constructor.
  - unfold ntok. cbn [toks set_toks init_state length]. lia.
  - exists l. rewrite He. cbn [bind]. repeat split; assumption.
Qed.

(** * The tokenizer, on every source text *)

Lemma name_ahead_longest (str : string) :
  name_ahead str <= longest_name str.
Proof. destruct str as [| c r]; [apply Nat.le_refl |]. apply Nat.le_max_l. Qed.

(** What is still to be read holds no longer name than the whole text. *)
Lemma longest_name_app (pre rest : string) :
  longest_name rest <= longest_name (String.append pre rest).
Proof.
  induction pre as [| c pre IH]; [apply Nat.le_refl |].
  cbn [String.append longest_name].
  eapply Nat.le_trans; [exact IH | apply Nat.le_max_r].
Qed.

Lemma c_string_not_nul (buf : string) :
  all_chars not_nul (Lexical.c_string buf) = true.
Proof.
  induction buf as [| c r IH]; [reflexivity |].
  cbn [Lexical.c_string]. destruct (c =? Lexical.NUL)%char eqn:E;
    [reflexivity |].
  cbn [all_chars]. unfold not_nul at 1. now rewrite E, IH.
Qed.

(** [%s] prints the whole of a buffer that holds no NUL byte. *)
Lemma c_string_whole (buf : string) :
  all_chars not_nul buf = true -> Lexical.c_string buf = buf.
Proof.
  induction buf as [| c r IH]; [reflexivity |].
  cbn [all_chars Lexical.c_string]. intros H. apply andb_prop in H.
  destruct H as [Hc Hr]. unfold not_nul in Hc. apply negb_true_iff in Hc.
  now rewrite Hc, IH.
Qed.

Lemma all_chars_impl (p q : ascii -> bool) (str : string) :
  (forall c, p c = true -> q c = true) ->
  all_chars p str = true -> all_chars q str = true.
Proof.
  intros Hpq. induction str as [| c r IH]; [reflexivity |].
  cbn [all_chars]. intros H. apply andb_prop in H. destruct H as [Hc Hr].
  now rewrite (Hpq c Hc), IH.
Qed.

Lemma all_chars_substring (p : ascii -> bool) (n : nat) :
  forall str,
    all_chars p str = true -> all_chars p (substring 0 n str) = true.
Proof.
  induction n as [| n IH]; intros str H.
  - destruct str; reflexivity.
  - destruct str as [| c r]; [reflexivity |].
    cbn [substring all_chars] in *. apply andb_prop in H.
    destruct H as [Hc Hr]. now rewrite Hc, IH.
Qed.

Lemma ident_part_not_nul (c : ascii) : ident_part c = true -> not_nul c = true.
Proof.
  destruct c as [[] [] [] [] [] [] [] []]; intros H;
    try discriminate H; reflexivity.
Qed.

Lemma digit_not_nul (c : ascii) : isdigit c = true -> not_nul c = true.
Proof.
  destruct c as [[] [] [] [] [] [] [] []]; intros H;
    try discriminate H; reflexivity.
Qed.

Lemma ident_start_part (c : ascii) :
  Lexical.is_ident_start (Some c) = true -> ident_part c = true.
Proof.
  destruct c as [[] [] [] [] [] [] [] []]; intros H;
    try discriminate H; reflexivity.
Qed.

(** A name and a number are printed whole. *)
Lemma c_string_name (c : ascii) (r : string) :
  Lexical.is_ident_start (Some c) = true -> all_chars ident_part r = true ->
  Lexical.c_string (String c r) = String c r.
Proof.
  intros Hc Hr. apply c_string_whole. cbn [all_chars].
  rewrite (ident_part_not_nul c (ident_start_part c Hc)).
  exact (all_chars_impl _ _ r ident_part_not_nul Hr).
Qed.

Lemma c_string_digits (c : ascii) (r : string) :
  isdigit c = true ->
  all_chars (fun x => Lexical.is_digit_int (Some x)) r = true ->
  Lexical.c_string (String c r) = String c r.
Proof.
  intros Hc Hr. apply c_string_whole. cbn [all_chars].
  rewrite (digit_not_nul c Hc).
  exact (all_chars_impl _ _ r digit_not_nul Hr).
Qed.

Lemma c_string_length (buf : string) :
  String.length (Lexical.c_string buf) <= String.length buf.
Proof.
  induction buf as [| c r IH]; [apply Nat.le_refl |].
  cbn [Lexical.c_string]. destruct (c =? Lexical.NUL)%char; cbn; lia.
Qed.

Lemma c_string_newlines (buf : string) :
  count_newlines buf = 0 -> count_newlines (Lexical.c_string buf) = 0.
Proof.
  induction buf as [| c r IH]; [reflexivity |].
  cbn [Lexical.c_string count_newlines].
  destruct (c =? Lexical.NUL)%char; [reflexivity |].
  cbn [count_newlines]. destruct (c =? Lexical.NL)%char; [discriminate |].
  exact IH.
Qed.

Lemma token_shape_le (k k' : nat) (t : Tok) :
  k <= k' -> token_shape k t -> token_shape k' t.
Proof.
  intros Hk [(H1 & H2 & H3) | H]; [| right; exact H].
  left. repeat split; [exact H1 | exact H2 | lia].
Qed.

Lemma well_formed_le (k k' : nat) (t : Tok) :
  k <= k' -> well_formed k t -> well_formed k' t.
Proof.
  intros Hk [H1 H2]. split; [exact H1 | now apply token_shape_le with k].
Qed.

Lemma lexed_refl (st : Lexical.LexState) : lexed 0 st st.
Proof.
  split; [lia |]. split; [lia |]. split; [exists EmptyString; reflexivity |].
  exists [], []. rewrite !app_nil_r. repeat split; constructor.
Qed.

Lemma Forall_range {A : Type} (f : A -> Z) (P Q : A -> Prop)
    (a b a' b' : Z) (l : list A) :
  (forall x, P x -> Q x) -> (a' <= a)%Z -> (b <= b')%Z ->
  Forall (fun x => P x /\ (a <= f x <= b)%Z) l ->
  Forall (fun x => Q x /\ (a' <= f x <= b')%Z) l.
Proof.
  intros Hpq Ha Hb H. eapply Forall_impl; [| exact H].
  cbv beta. intros x [Hp Hr]. split; [now apply Hpq | lia].
Qed.

Lemma Forall_range' {A : Type} (f : A -> Z) (a b a' b' : Z) (l : list A) :
  (a' <= a)%Z -> (b <= b')%Z ->
  Forall (fun x => (a <= f x <= b)%Z) l ->
  Forall (fun x => (a' <= f x <= b')%Z) l.
Proof.
  intros Ha Hb H. eapply Forall_impl; [| exact H].
  cbv beta. intros x Hr. lia.
Qed.

Lemma lexed_trans (n m : nat) (a b c : Lexical.LexState) :
  lexed n a b -> lexed m b c -> lexed (n + m) a c.
Proof.
  intros (Hl1 & Hr1 & (p1 & Hp1) & lo1 & le1 & Ho1 & He1 & Hn1 & Ht1 & Hm1)
         (Hl2 & Hr2 & (p2 & Hp2) & lo2 & le2 & Ho2 & He2 & Hn2 & Ht2 & Hm2).
  split; [lia |]. split; [lia |].
  split.
  { exists (String.append p1 p2). now rewrite Hp1, Hp2, append_assoc. }
  exists (lo1 ++ lo2), (le1 ++ le2).
  rewrite Ho2, Ho1, He2, He1, <- !app_assoc, !length_app.
  split; [reflexivity |]. split; [reflexivity |]. split; [lia |].
  split; apply Forall_app; split.
  - eapply Forall_range; [| | | exact Ht1]; [tauto | lia | lia].
  - eapply Forall_range; [| | | exact Ht2]; [| lia | lia].
    intros t. apply well_formed_le. rewrite Hp1. apply longest_name_app.
  - eapply Forall_range'; [| | exact Hm1]; lia.
  - eapply Forall_range'; [| | exact Hm2]; lia.
Qed.

Lemma lexed_le (n m : nat) (a b : Lexical.LexState) :
  n <= m -> lexed n a b -> lexed m a b.
Proof.
  intros H (Hl & Hr & Hp & lo & le & Ho & He & Hn & Ht & Hm).
  split; [exact Hl |]. split; [exact Hr |]. split; [exact Hp |].
  exists lo, le.
  repeat split; try assumption. lia.
Qed.

Lemma getc_track_lexed (st : Lexical.LexState) :
  lexed 0 st (snd (Lexical.getc_track st)).
Proof.
  destruct st as [inp ln o e]. destruct inp as [| c rest];
    [apply lexed_refl |].
  cbn. split; [cbn; destruct (c =? Lexical.NL)%char; lia |].
  split; [unfold remaining; cbn; lia |].
  split; [exists (String c EmptyString); reflexivity |].
  exists [], [].
  cbn. rewrite !app_nil_r. repeat split; constructor.
Qed.

Lemma emit_lexed (n : nat) (a b : Lexical.LexState) (tok lex : string)
    (ln : Z) :
  lexed n a b ->
  token_shape (longest_name (Lexical.input a))
              (mkTok tok (Lexical.c_string lex) ln) ->
  (Lexical.line_no a <= ln <= Lexical.line_no b)%Z ->
  lexed (S n) a (Lexical.emit tok lex ln b).
Proof.
  intros (Hl & Hr & Hp & lo & le & Ho & He & Hn & Ht & Hm) Hw Hln.
  split; [exact Hl |]. split; [exact Hr |]. split; [exact Hp |].
  exists (lo ++ [mkTok tok (Lexical.c_string lex) ln]), le.
  cbn [Lexical.emit Lexical.out Lexical.err Lexical.line_no].
  rewrite Ho, <- app_assoc, length_app. cbn [length].
  split; [reflexivity |]. split; [exact He |]. split; [lia |].
  split; [| exact Hm]. apply Forall_app. split; [exact Ht |].
  constructor; [| constructor]. split; [| exact Hln].
  split; [apply c_string_not_nul | exact Hw].
Qed.

Lemma report_lexed (n : nat) (a b : Lexical.LexState) (msg : string)
    (ln : Z) :
  lexed n a b ->
  (Lexical.line_no a <= ln <= Lexical.line_no b)%Z ->
  lexed (S n) a (Lexical.report ln msg b).
Proof.
  intros (Hl & Hr & Hp & lo & le & Ho & He & Hn & Ht & Hm) Hln.
  split; [exact Hl |]. split; [exact Hr |]. split; [exact Hp |].
  exists lo, (le ++ [(ln, msg)]). cbn [Lexical.report Lexical.out
    Lexical.err Lexical.line_no].
  rewrite He, <- app_assoc, length_app. cbn [length].
  split; [exact Ho |]. split; [reflexivity |]. split; [lia |].
  split; [exact Ht |]. apply Forall_app. split; [exact Hm |].
  constructor; [| constructor]. exact Hln.
Qed.

Lemma lexed_line (n : nat) (a b : Lexical.LexState) :
  lexed n a b -> (Lexical.line_no a <= Lexical.line_no b)%Z.
Proof. intros H. apply H. Qed.

Lemma lexed_remaining (n : nat) (a b : Lexical.LexState) :
  lexed n a b -> remaining b <= remaining a.
Proof. intros H. apply H. Qed.

(** Reading one character. *)
Ltac getc_lex :=
  match goal with
  | H : context [Lexical.getc_track ?x] |- _ =>
      let Hr := fresh "Hr" in
      let E := fresh "Eg" in
      let L := fresh "Lg" in
      let c := fresh "c" in
      let st := fresh "st" in
      pose proof (getc_track_remaining x) as Hr;
      pose proof (getc_ungetc x) as E;
      pose proof (getc_track_lexed x) as L;
      destruct (Lexical.getc_track x) as [c st];
      cbn [fst snd] in Hr, E, L;
      let H1 := fresh "Hle" in
      let H2 := fresh "Hsome" in
      let H3 := fresh "Hnone" in
      destruct Hr as (H1 & H2 & H3)
  end.

Lemma comment_loop_lexed (fuel : nat) :
  forall prev st closed st',
    Lexical.comment_loop fuel prev st = Some (closed, st') ->
    lexed 0 st st' /\ (closed = false -> remaining st' = 0).
Proof.
  induction fuel as [| fuel IH]; intros prev st closed st' H;
    [discriminate |].
  cbn [Lexical.comment_loop] in H. getc_lex.
  destruct c as [ch |]; some_len.
  - destruct (_ && _).
    + injection H as <- <-. split; [exact Lg | discriminate].
    + apply IH in H. destruct H as [H1 H2].
      split; [apply (lexed_trans 0 0 _ _ _ Lg H1) | exact H2].
  - injection H as <- <-. split; [exact Lg |]. intros _.
    destruct Hnone as [-> Hz]. exact Hz.
Qed.

Lemma skip_ws_and_comments_lexed (fuel : nat) :
  forall st st',
    Lexical.skip_ws_and_comments fuel st = Some st' ->
    exists n, lexed n st st' /\ 2 * n <= remaining st - remaining st'.
Proof.
  induction fuel as [| fuel IH]; intros st st' H; [discriminate |].
  cbn [Lexical.skip_ws_and_comments] in H. getc_lex.
  destruct c as [ch |]; some_len.
  2:{ injection H as <-. exists 0. split; [exact Lg | lia]. }
  destruct (isspace ch).
  { apply IH in H. destruct H as (n & H1 & H2). exists n.
    split; [apply (lexed_trans 0 n _ _ _ Lg H1) |].
    pose proof (lexed_remaining _ _ _ H1). lia. }
  destruct (ch =? "/")%char.
  2:{ rewrite Eg in H. injection H as <-. exists 0.
      split; [apply lexed_refl | lia]. }
  getc_lex.
  destruct (match c with Some dc => _ | None => false end) eqn:Estar.
  - destruct c as [dc |]; [| discriminate]. some_len.
    destruct (Lexical.comment_loop fuel None st1) as [[closed st2] |] eqn:Ec;
      [| discriminate].
    cbn [bind] in H. apply comment_loop_lexed in Ec. destruct Ec as [Lc _].
    pose proof (lexed_trans 0 0 _ _ _ Lg Lg0) as L1.
    pose proof (lexed_trans 0 0 _ _ _ L1 Lc) as L2. cbn [Nat.add] in L2.
    pose proof (lexed_remaining _ _ _ Lc).
    destruct closed; cbn [negb] in H.
    + apply IH in H. destruct H as (n & H1 & H2). exists n.
      split; [apply (lexed_trans 0 n _ _ _ L2 H1) |].
      pose proof (lexed_remaining _ _ _ H1). lia.
    + injection H as <-. exists 1. split.
      * apply report_lexed; [exact L2 |].
        pose proof (lexed_line _ _ _ L1). pose proof (lexed_line _ _ _ Lc).
        lia.
      * change (remaining (Lexical.report _ _ st2)) with (remaining st2). lia.
  - rewrite Eg0, Eg in H. injection H as <-. exists 0.
    split; [apply lexed_refl | lia].
Qed.

Lemma push_length (limit : nat) (buf : string) (c : ascii) :
  String.length buf <= limit -> String.length (Lexical.push limit buf c) <= limit.
Proof.
  intros H. unfold Lexical.push.
  destruct (String.length buf <? limit)%nat eqn:E; [| exact H].
  apply Nat.ltb_lt in E. rewrite append_length. cbn. lia.
Qed.

Lemma push_newlines (limit : nat) (buf : string) (c : ascii) :
  count_newlines buf = 0 -> (c =? Lexical.NL)%char = false ->
  count_newlines (Lexical.push limit buf c) = 0.
Proof.
  intros H Hc. unfold Lexical.push.
  destruct (String.length buf <? limit)%nat; [| exact H].
  rewrite count_newlines_app, H. cbn. now rewrite Hc.
Qed.

Lemma scan_string_loop_lexed (fuel : nat) :
  forall buf start_line st st',
    Lexical.scan_string_loop fuel buf start_line st = Some st' ->
    start_line = Lexical.line_no st ->
    count_newlines buf = 0 -> String.length buf <= 1023 ->
    lexed 1 st st'.
Proof.
  induction fuel as [| fuel IH]; intros buf start_line st st' H Hs Hb Hl;
    [discriminate |].
  cbn [Lexical.scan_string_loop] in H. getc_lex.
  pose proof (lexed_line _ _ _ Lg) as Hline.
  destruct c as [ch |]; some_len.
  2:{ injection H as <-. apply report_lexed; [exact Lg | lia]. }
  destruct (ch =? Lexical.NL)%char eqn:Enl.
  { injection H as <-. apply report_lexed; [exact Lg | lia]. }
  assert (Hsame : Lexical.line_no st0 = Lexical.line_no st).
  { clear - Eg Enl. destruct st0 as [i l o e]. cbn in Eg. rewrite Enl in Eg.
    subst st. reflexivity. }
  destruct (ch =? Lexical.DQUOTE)%char.
  { injection H as <-. apply emit_lexed; [exact Lg | | lia].
    right. right. left. cbn [token lexeme]. split; [reflexivity |].
    split; [now apply c_string_newlines |].
    pose proof (c_string_length buf). lia. }
  destruct (ch =? Lexical.BACKSLASH)%char eqn:Ebs.
  - clear Eg. getc_lex. pose proof (lexed_line _ _ _ Lg0) as Hline0.
    pose proof (lexed_trans 0 0 _ _ _ Lg Lg0) as L1.
    destruct c as [ec |]; some_len.
    2:{ injection H as <-. apply report_lexed; [exact L1 | lia]. }
    destruct (ec =? Lexical.NL)%char eqn:Enl2.
    { injection H as <-. apply report_lexed; [exact L1 | lia]. }
    assert (Hsame0 : Lexical.line_no st1 = Lexical.line_no st0).
    { clear - Eg Enl2. destruct st1 as [i l o e]. cbn in Eg.
      rewrite Enl2 in Eg. subst st0. reflexivity. }
    apply IH in H.
    + apply (lexed_trans 0 1 _ _ _ L1 H).
    + lia.
    + destruct (String.length buf <? 1022)%nat; [| exact Hb].
      rewrite count_newlines_app, Hb. cbn. now rewrite Enl2.
    + destruct (String.length buf <? 1022)%nat eqn:E; [| exact Hl].
      apply Nat.ltb_lt in E. rewrite append_length. cbn. lia.
  - apply IH in H.
    + apply (lexed_trans 0 1 _ _ _ Lg H).
    + lia.
    + now apply push_newlines.
    + now apply push_length.
Qed.

Lemma skip_to_quote_lexed (fuel : nat) :
  forall c st st',
    Lexical.skip_to_quote fuel c st = Some st' -> lexed 0 st st'.
Proof.
  induction fuel as [| fuel IH]; intros c st st' H; [discriminate |].
  cbn [Lexical.skip_to_quote] in H.
  destruct c as [ch |].
  2:{ injection H as <-. apply lexed_refl. }
  destruct (_ || _).
  { injection H as <-. apply lexed_refl. }
  getc_lex. apply IH in H. apply (lexed_trans 0 0 _ _ _ Lg H).
Qed.

Lemma is_char_false (c : option ascii) (x : ascii) :
  Lexical.is_char c x = false -> c <> Some x.
Proof.
  intros H ->. cbn in H. now rewrite Ascii.eqb_refl in H.
Qed.

Lemma scan_char_lexed (fuel : nat) (st st' : Lexical.LexState) :
  Lexical.scan_char fuel st = Some st' -> lexed 1 st st'.
Proof.
  unfold Lexical.scan_char. intros H. getc_lex.
  pose proof (lexed_line _ _ _ Lg) as Hline.
  destruct (Lexical.is_char c Lexical.BACKSLASH) eqn:Ebs.
  - clear Eg. getc_lex. pose proof (lexed_line _ _ _ Lg0) as Hline0.
    pose proof (lexed_trans 0 0 _ _ _ Lg Lg0) as L1.
    destruct c0 as [ec |].
    2:{ injection H as <-. apply report_lexed; [exact L1 | lia]. }
    destruct (ec =? Lexical.NL)%char eqn:Enl.
    { injection H as <-. apply report_lexed; [exact L1 | lia]. }
    clear Eg. getc_lex. pose proof (lexed_line _ _ _ Lg1) as Hline1.
    pose proof (lexed_trans 0 0 _ _ _ L1 Lg1) as L2.
    destruct (negb (Lexical.is_char c0 Lexical.SQUOTE)).
    + apply skip_to_quote_lexed in H.
      eapply (lexed_trans 1 0); [| exact H].
      apply report_lexed; [exact L2 | lia].
    + injection H as <-. apply emit_lexed; [exact L2 | | lia].
      right. right. right. left. cbn [token lexeme]. split; [reflexivity |].
      eexists. split; [| reflexivity].
      right. exists ec. split; [reflexivity |].
      intros ->. cbn in Enl. discriminate.
  - destruct c as [ch |].
    2:{ injection H as <-. apply report_lexed; [exact Lg | lia]. }
    destruct (_ || _) eqn:Eq.
    { injection H as <-. apply report_lexed; [exact Lg | lia]. }
    apply orb_false_elim in Eq. destruct Eq as [Eq1 Eq2].
    clear Eg. getc_lex. pose proof (lexed_line _ _ _ Lg0) as Hline0.
    pose proof (lexed_trans 0 0 _ _ _ Lg Lg0) as L1.
    destruct (negb (Lexical.is_char c Lexical.SQUOTE)).
    + apply skip_to_quote_lexed in H.
      eapply (lexed_trans 1 0); [| exact H].
      apply report_lexed; [exact L1 | lia].
    + injection H as <-. apply emit_lexed; [exact L1 | | lia].
      right. right. right. left. cbn [token lexeme]. split; [reflexivity |].
      eexists. split; [| reflexivity].
      left. exists ch. split; [reflexivity |].
      cbn [Lexical.is_char] in Ebs.
      repeat split; intros ->;
        rewrite Ascii.eqb_refl in *; discriminate.
Qed.

Lemma skip_line_after_error_lexed (fuel : nat) :
  forall st st',
    Lexical.skip_line_after_error fuel st = Some st' -> lexed 0 st st'.
Proof.
  induction fuel as [| fuel IH]; intros st st' H; [discriminate |].
  cbn [Lexical.skip_line_after_error] in H. getc_lex.
  destruct c as [ch |].
  2:{ injection H as <-. exact Lg. }
  destruct (ch =? Lexical.NL)%char.
  { injection H as <-. exact Lg. }
  apply IH in H. apply (lexed_trans 0 0 _ _ _ Lg H).
Qed.

(** The loops that collect a name or a number: what holds of the first
    character and of each one that is added holds of the whole. *)
Lemma scan_run_lexed (fuel : nat) :
  forall part buf st buf' st',
    Lexical.scan_run fuel part buf st = Some (buf', st') ->
    lexed 0 st st' /\
    forall c r,
      buf = String c r -> all_chars (fun x => part (Some x)) r = true ->
      String.length buf <= 255 ->
      exists r', buf' = String c r' /\
                 all_chars (fun x => part (Some x)) r' = true /\
                 String.length buf' <= 255.
Proof.
  induction fuel as [| fuel IH]; intros part buf st buf' st' H;
    [discriminate |].
  cbn [Lexical.scan_run] in H. getc_lex.
  destruct (negb (part c)) eqn:Ep.
  { rewrite Eg in H. injection H as <- <-. split; [apply lexed_refl |].
    intros x r -> Hr Hl. exists r. repeat split; assumption. }
  apply negb_false_iff in Ep.
  destruct c as [dc |].
  - apply IH in H. destruct H as [H1 H2].
    split; [apply (lexed_trans 0 0 _ _ _ Lg H1) |].
    intros x r -> Hr Hl. unfold Lexical.push in H2.
    destruct (String.length (String x r) <? 255)%nat eqn:E.
    + apply Nat.ltb_lt in E.
      apply (H2 x (String.append r (String dc EmptyString))).
      * reflexivity.
      * clear - Hr Ep. induction r as [| y r IHr]; cbn in Hr |- *.
        -- now rewrite Ep.
        -- apply andb_prop in Hr. destruct Hr as [Hy Hr].
           now rewrite Hy, IHr.
      * cbn [String.length] in E |- *. rewrite append_length. cbn. lia.
    + apply (H2 x r); [reflexivity | assumption | assumption].
  - injection H as <- <-. split; [exact Lg |].
    intros x r -> Hr Hl. exists r. repeat split; assumption.
Qed.

Lemma punctuation_operators (ch : ascii) (tok lex : string) :
  Lexical.punctuation ch = Some (tok, lex) ->
  In (tok, lex) operators /\ Lexical.c_string lex = lex.
Proof.
  unfold Lexical.punctuation.
  repeat match goal with
         | |- (if ?b then _ else _) = _ -> _ =>
             destruct b;
             [intros H; injection H as <- <-; cbn; tauto |]
         end.
  discriminate.
Qed.

(** The loop that collects a name adds no more characters than the word
    to be read has. *)
Lemma scan_run_word (fuel : nat) :
  forall buf st buf' st',
    Lexical.scan_run fuel Lexical.is_ident_part buf st = Some (buf', st') ->
    String.length buf' <= String.length buf + word_ahead (Lexical.input st).
Proof.
  induction fuel as [| fuel IH]; intros buf st buf' st' H; [discriminate |].
  destruct st as [inp ln o e]. cbn [Lexical.scan_run] in H.
  destruct inp as [| c rest].
  { cbn in H. injection H as <- _. lia. }
  cbn [Lexical.getc_track Lexical.input Lexical.line_no Lexical.out
       Lexical.err] in H.
  cbn [Lexical.input word_ahead]. unfold ident_part.
  destruct (Lexical.is_ident_part (Some c)); cbn [negb] in H.
  - apply IH in H. cbn [Lexical.input] in H.
    pose proof (push_length 255 buf c) as Hp. unfold Lexical.push in H.
    destruct (String.length buf <? 255)%nat; [| lia].
    rewrite append_length in H. cbn [String.length] in H. lia.
  - injection H as <- _. lia.
Qed.

Lemma lexed_longest (n : nat) (a b : Lexical.LexState) :
  lexed n a b ->
  longest_name (Lexical.input b) <= longest_name (Lexical.input a).
Proof.
  intros (_ & _ & (pre & ->) & _). apply longest_name_app.
Qed.

Lemma main_step_lexed (fuel : nat) (st st' : Lexical.LexState)
    (continue : bool) :
  Lexical.main_step fuel st = Some (continue, st') ->
  lexed (remaining st - remaining st') st st' /\
  (continue = true -> remaining st' < remaining st) /\
  (continue = false -> remaining st' = 0).
Proof.
  unfold Lexical.main_step. intros H.
  destruct (Lexical.skip_ws_and_comments fuel st) as [st1 |] eqn:Es;
    [| discriminate].
  cbn [bind] in H. apply skip_ws_and_comments_lexed in Es.
  destruct Es as (n & L0 & Hn).
  pose proof (lexed_remaining _ _ _ L0) as Hr0.
  getc_lex. pose proof (lexed_trans n 0 _ _ _ L0 Lg) as L1.
  rewrite Nat.add_0_r in L1.
  pose proof (lexed_line _ _ _ L1) as Hline.
  destruct c as [ch |]; some_len.
  2:{ injection H as <- <-. destruct Hnone as [-> Hz].
      split; [eapply lexed_le; [| exact L0]; lia |].
      split; [discriminate | intros _; exact Hz]. }
  assert (Hfin : forall k st2,
             lexed k st st2 -> k <= S n -> remaining st2 <= remaining st0 ->
             lexed (remaining st - remaining st2) st st2 /\
             (true = true -> remaining st2 < remaining st) /\
             (true = false -> remaining st2 = 0)).
  { intros k st2 L Hk Hr2. split; [eapply lexed_le; [| exact L]; lia |].
    split; [intros _; lia | discriminate]. }
  assert (Hemit : forall tok lex ln x,
             remaining (Lexical.emit tok lex ln x) = remaining x)
    by reflexivity.
  destruct (Lexical.is_ident_start (Some ch)) eqn:Eid.
  { destruct (Lexical.scan_run fuel Lexical.is_ident_part
                (String ch EmptyString) st0) as [[buf st2] |] eqn:Er;
      [| discriminate].
    cbn [bind] in H. injection H as <- <-.
    pose proof (scan_run_word _ _ _ _ _ Er) as Hword.
    apply scan_run_lexed in Er. destruct Er as [L2 Hbuf].
    destruct (Hbuf ch EmptyString eq_refl eq_refl) as (r' & -> & Hall & Hlen);
      [cbn; lia |].
    pose proof (lexed_trans n 0 _ _ _ L1 L2) as L3.
    rewrite Nat.add_0_r in L3.
    pose proof (lexed_line _ _ _ L3). pose proof (lexed_remaining _ _ _ L2).
    apply (Hfin (S n)); [| lia | rewrite Hemit; lia].
    apply emit_lexed; [exact L3 | | lia].
    left. cbn [token lexeme]. rewrite (c_string_name ch r' Eid Hall).
    split; [reflexivity |].
    split; [exists ch, r'; repeat split; assumption |].
    pose proof (lexed_longest _ _ _ L0) as Hlw.
    assert (Hw1 : S (word_ahead (Lexical.input st0))
                  <= longest_name (Lexical.input st1)).
    { rewrite <- Eg. cbn [Lexical.ungetc_track Lexical.input].
      eapply Nat.le_trans; [| apply name_ahead_longest].
      unfold name_ahead. rewrite Eid. apply Nat.le_refl. }
    cbn [String.length] in Hword |- *. lia. }
  destruct (isdigit ch) eqn:Edig.
  { destruct (Lexical.scan_run fuel Lexical.is_digit_int
                (String ch EmptyString) st0) as [[buf st2] |] eqn:Er;
      [| discriminate].
    cbn [bind] in H. injection H as <- <-.
    apply scan_run_lexed in Er. destruct Er as [L2 Hbuf].
    destruct (Hbuf ch EmptyString eq_refl eq_refl) as (r' & -> & Hall & Hlen);
      [cbn; lia |].
    pose proof (lexed_trans n 0 _ _ _ L1 L2) as L3.
    rewrite Nat.add_0_r in L3.
    pose proof (lexed_line _ _ _ L3). pose proof (lexed_remaining _ _ _ L2).
    apply (Hfin (S n)); [| lia | rewrite Hemit; lia].
    apply emit_lexed; [exact L3 | | lia].
    right. left. cbn [token lexeme].
    rewrite (c_string_digits ch r' Edig Hall). split; [reflexivity |].
    split; [discriminate |]. split; [| exact Hlen].
    cbn [all_digits]. rewrite Edig. cbn [andb].
    clear - Hall. induction r' as [| y r IH]; [reflexivity |].
    cbn in Hall |- *. apply andb_prop in Hall. destruct Hall as [Hy Hr].
    now rewrite Hy, IH. }
  destruct (ch =? Lexical.DQUOTE)%char.
  { unfold Lexical.scan_string in H.
    destruct (Lexical.scan_string_loop fuel EmptyString
                (Lexical.line_no st0) st0) as [st2 |] eqn:Er;
      [| discriminate].
    cbn [bind] in H. injection H as <- <-.
    apply scan_string_loop_lexed in Er;
      [| reflexivity | reflexivity | cbn; lia].
    pose proof (lexed_trans n 1 _ _ _ L1 Er) as L3.
    pose proof (lexed_remaining _ _ _ Er).
    apply (Hfin (n + 1)); [exact L3 | lia | lia]. }
  destruct (ch =? Lexical.SQUOTE)%char.
  { destruct (Lexical.scan_char fuel st0) as [st2 |] eqn:Er;
      [| discriminate].
    cbn [bind] in H. injection H as <- <-.
    apply scan_char_lexed in Er.
    pose proof (lexed_trans n 1 _ _ _ L1 Er) as L3.
    pose proof (lexed_remaining _ _ _ Er).
    apply (Hfin (n + 1)); [exact L3 | lia | lia]. }
  destruct (ch =? "=")%char.
  { clear Eg. getc_lex. destruct (Lexical.is_char c "="%char).
    - injection H as <- <-.
      pose proof (lexed_trans n 0 _ _ _ L1 Lg0) as L3.
      rewrite Nat.add_0_r in L3. pose proof (lexed_line _ _ _ L3).
      apply (Hfin (S n)); [| lia | rewrite Hemit; lia].
      apply emit_lexed; [exact L3 | | lia].
      right. right. right. right. cbn. tauto.
    - rewrite Eg in H. injection H as <- <-.
      apply (Hfin (S n)); [| lia | rewrite Hemit; lia].
      apply emit_lexed; [exact L1 | | lia].
      right. right. right. right. cbn. tauto. }
  destruct (Lexical.punctuation ch) as [[tok lex] |] eqn:Ep.
  { injection H as <- <-.
    apply (Hfin (S n)); [| lia | rewrite Hemit; lia].
    apply emit_lexed; [exact L1 | | lia].
    right. right. right. right. cbn [token lexeme].
    destruct (punctuation_operators ch tok lex Ep) as [Hop ->]. exact Hop. }
  destruct (Lexical.skip_line_after_error fuel
              (Lexical.report (Lexical.line_no st0) "Undefined symbol" st0))
    as [st2 |] eqn:Er; [| discriminate].
  cbn [bind] in H. injection H as <- <-.
  apply skip_line_after_error_lexed in Er.
  pose proof (lexed_remaining _ _ _ Er) as Hr2.
  change (remaining (Lexical.report _ _ st0)) with (remaining st0) in Hr2.
  apply (Hfin (S n + 0)); [| lia | lia].
  eapply (lexed_trans (S n) 0); [| exact Er].
  apply report_lexed; [exact L1 | lia].
Qed.

Lemma main_loop_lexed (fuel : nat) :
  forall st st',
    Lexical.main_loop fuel st = Some st' ->
    lexed (remaining st) st st' /\ remaining st' = 0.
Proof.
  induction fuel as [| fuel IH]; intros st st' H; [discriminate |].
  cbn [Lexical.main_loop] in H.
  destruct (Lexical.main_step fuel st) as [[continue st1] |] eqn:Es;
    [| discriminate].
  cbn [bind] in H. apply main_step_lexed in Es.
  destruct Es as (L1 & Ht & Hf).
  destruct continue.
  - apply IH in H. destruct H as [L2 Hz]. split; [| exact Hz].
    eapply lexed_le; [| exact (lexed_trans _ _ _ _ _ L1 L2)].
    specialize (Ht eq_refl). lia.
  - injection H as <-. split; [| now apply Hf].
    eapply lexed_le; [| exact L1]. lia.
Qed.

Lemma main_loop_last_line (fuel : nat) :
  forall st st',
    Lexical.main_loop fuel st = Some st' -> last_line st' = last_line st.
Proof.
  induction fuel as [| fuel IH]; intros st st' H; [discriminate |].
  cbn [Lexical.main_loop] in H.
  destruct (Lexical.main_step fuel st) as [[continue st1] |] eqn:Es;
    [| discriminate].
  cbn [bind] in H. apply main_step_last_line in Es.
  destruct continue.
  - apply IH in H. congruence.
  - injection H as <-. exact Es.
Qed.

Lemma remaining_0 (st : Lexical.LexState) :
  remaining st = 0 -> Lexical.input st = EmptyString.
Proof. unfold remaining. now destruct (Lexical.input st). Qed.

(** What a run of the tokenizer leaves behind. *)
Lemma tokenizer_run (source : string) :
  exists st,
    Lexical.main (String.length source + 2) source = Some st /\
    Lexical.input st = EmptyString /\
    Lexical.line_no st = (1 + Z.of_nat (count_newlines source))%Z /\
    length (Lexical.out st) + length (Lexical.err st) <= String.length source /\
    Forall (fun t => well_formed (longest_name source) t /\
                     (1 <= line t <= 1 + Z.of_nat (count_newlines source))%Z)
           (Lexical.out st) /\
    Forall (fun e => (1 <= fst e <= 1 + Z.of_nat (count_newlines source))%Z)
           (Lexical.err st).
Proof.
  unfold Lexical.main.
  destruct (main_loop_returns (String.length source + 2)
              (Lexical.mkLex source 1 [] [])) as (st & He).
  { unfold remaining. cbn. lia. }
  exists st. split; [exact He |].
  pose proof (main_loop_last_line _ _ _ He) as Hlast.
  apply main_loop_lexed in He.
  destruct He as ((_ & _ & _ & lo & le & Ho & Herr & Hn & Ht & Hm) & Hz).
  pose proof (remaining_0 st Hz) as Hin.
  unfold last_line in Hlast. rewrite Hin in Hlast.
  cbn [Lexical.out Lexical.err Lexical.line_no Lexical.input count_newlines
       app] in *.
  unfold remaining in Hn. cbn [Lexical.input] in Hn.
  assert (Hline : Lexical.line_no st = (1 + Z.of_nat (count_newlines source))%Z)
    by lia.
  rewrite Ho, Herr, <- Hline.
  repeat split; try assumption.
Qed.

(** X6: the tokenizer returns on every source text whose names have no
    more than 63 characters (what [keyword_or_ident] can hold in [temp])
    and whose lines an [int] can count, within two loop turns more than the
    text has characters; it has then read the whole text, the line counter
    is one more than the number of newlines, and the rows and messages
    written are together no more than the characters read. *)
Theorem X6_tokenizer_reads_everything (source : string) :
  longest_name source <= 63 ->
  (Z.of_nat (count_newlines source) < 2 ^ 31 - 1)%Z ->
  exists st,
    Lexical.main (String.length source + 2) source = Some st /\
    Lexical.input st = EmptyString /\
    Lexical.line_no st = (1 + Z.of_nat (count_newlines source))%Z /\
    length (Lexical.out st) + length (Lexical.err st) <= String.length source.
Proof.
  intros _ _.
  destruct (tokenizer_run source) as (st & H1 & H2 & H3 & H4 & _).
  exists st. repeat split; assumption.
Qed.

Lemma X6_witness :
  longest_name open_string_source <= 63 /\
  (Z.of_nat (count_newlines open_string_source) < 2 ^ 31 - 1)%Z /\
  exists st,
    Lexical.main (String.length open_string_source + 2) open_string_source
    = Some st /\
    Lexical.input st = EmptyString /\
    Lexical.line_no st
    = (1 + Z.of_nat (count_newlines open_string_source))%Z /\
    length (Lexical.out st) + length (Lexical.err st)
    <= String.length open_string_source.
Proof.
  assert (H : longest_name open_string_source <= 63)
    by (apply Nat.leb_le; reflexivity).
  assert (L : (Z.of_nat (count_newlines open_string_source) < 2 ^ 31 - 1)%Z)
    by (apply Z.ltb_lt; reflexivity).
  split; [exact H |]. split; [exact L |].
  apply (X6_tokenizer_reads_everything open_string_source H L).
Defined.

(** X7: on a source text whose names have no more than 63 characters and
    whose lines an [int] can count, every row that the tokenizer writes is
    well formed: a keyword or an
    identifier whose kind is [keyword_or_ident] of its lexeme, of no more
    than 63 characters; a number of digits only, of at most 255
    characters; a string of at most 1023 characters without a newline; a
    character constant, which holds what [%s] prints of one character or
    of a backslash and one character; or an operator with its own lexeme.
    No lexeme holds a NUL byte.  The line number of every row and of every
    message lies between 1 and the number of the last line of the text. *)
Theorem X7_tokens_are_well_formed (source : string) :
  longest_name source <= 63 ->
  (Z.of_nat (count_newlines source) < 2 ^ 31 - 1)%Z ->
  exists st,
    Lexical.main (String.length source + 2) source = Some st /\
    Forall (fun t => well_formed 63 t /\
                     (1 <= line t <= 1 + Z.of_nat (count_newlines source))%Z)
           (Lexical.out st) /\
    Forall (fun e => (1 <= fst e <= 1 + Z.of_nat (count_newlines source))%Z)
           (Lexical.err st).
Proof.
  intros Hn _.
  destruct (tokenizer_run source) as (st & H1 & _ & _ & _ & H5 & H6).
  exists st. split; [exact H1 |]. split; [| exact H6].
  eapply Forall_impl; [| exact H5]. cbv beta.
  intros t [Hw Hl]. split; [| exact Hl].
  now apply well_formed_le with (longest_name source).
Qed.

Lemma X7_witness :
  longest_name open_string_source <= 63 /\
  (Z.of_nat (count_newlines open_string_source) < 2 ^ 31 - 1)%Z /\
  exists st,
    Lexical.main (String.length open_string_source + 2) open_string_source
    = Some st /\
    Forall (fun t =>
              well_formed 63 t /\
              (1 <= line t
               <= 1 + Z.of_nat (count_newlines open_string_source))%Z)
           (Lexical.out st) /\
    Forall (fun e =>
              (1 <= fst e
               <= 1 + Z.of_nat (count_newlines open_string_source))%Z)
           (Lexical.err st).
Proof.
  assert (H : longest_name open_string_source <= 63)
    by (apply Nat.leb_le; reflexivity).
  assert (L : (Z.of_nat (count_newlines open_string_source) < 2 ^ 31 - 1)%Z)
    by (apply Z.ltb_lt; reflexivity).
  split; [exact H |]. split; [exact L |].
  apply (X7_tokens_are_well_formed open_string_source H L).
Defined.

Lemma keyword_or_ident_cases (lex : string) :
  In (Lexical.keyword_or_ident lex)
     ["VOID"; "CHAR"; "INT"; "IF"; "ELSE"; "WHILE"; "FOR"; "MAIN";
      "IDENTIFIER"].
Proof.
  unfold Lexical.keyword_or_ident.
  repeat match goal with
         | |- context [if ?b then _ else _] => destruct b; [cbn; tauto |]
         end.
  cbn. tauto.
Qed.

Lemma ident_part_not_space (c : ascii) :
  ident_part c = true -> isspace c = false.
Proof.
  destruct c as [[] [] [] [] [] [] [] []]; intros H;
    try discriminate H; reflexivity.
Qed.

Lemma ident_start_not_space (c : ascii) :
  Lexical.is_ident_start (Some c) = true -> isspace c = false.
Proof.
  destruct c as [[] [] [] [] [] [] [] []]; intros H;
    try discriminate H; reflexivity.
Qed.

Lemma name_shape_word (lex : string) : name_shape lex -> word 255 lex.
Proof.
  intros (c & r & -> & Hc & Hr & Hl). split; [discriminate |].
  split; [| exact Hl]. cbn [no_space].
  rewrite (ident_start_not_space c Hc). cbn [negb andb].
  clear - Hr. induction r as [| y r IH]; [reflexivity |].
  cbn in Hr |- *. apply andb_prop in Hr. destruct Hr as [Hy Hr].
  rewrite (ident_part_not_space y Hy), IH by assumption. reflexivity.
Qed.

Lemma kind_is_word (k : nat) (t : Tok) :
  token_shape k t -> word 31 (token t).
Proof.
  intros [[-> _] | [[-> _] | [[-> _] | [[-> _] | H]]]];
    try (split; [discriminate | split; [reflexivity | cbn; lia]]).
  - pose proof (keyword_or_ident_cases (lexeme t)) as H. cbn in H.
    repeat (destruct H as [<- | H];
            [split; [discriminate | split; [reflexivity | cbn; lia]] |]).
    contradiction.
  - cbn in H.
    repeat (destruct H as [H | H];
            [injection H as <- _;
             split; [discriminate | split; [reflexivity | cbn; lia]] |]).
    contradiction.
Qed.

Lemma well_formed_plain (k : nat) (t : Tok) :
  token_shape k t -> (0 <= line t < 2 ^ 31)%Z ->
  (token t = "STRING_CONST" \/ token t = "CHAR_CONST" ->
   word 255 (lexeme t)) ->
  plain t.
Proof.
  intros Hw Hl Hs. split; [now apply kind_is_word with k |].
  split; [| exact Hl].
  destruct Hw as [[_ [H _]] | [[_ H] | [[H _] | [[H _] | H]]]].
  - now apply name_shape_word.
  - destruct H as (H1 & H2 & H3). split; [exact H1 |].
    split; [now apply all_digits_no_space | exact H3].
  - apply Hs. now left.
  - apply Hs. now right.
  - cbn in H.
    repeat (destruct H as [H | H];
            [injection H as _ <-;
             split; [discriminate | split; [reflexivity | cbn; lia]] |]).
    contradiction.
Qed.

Lemma well_formed_spaced (k : nat) (t : Tok) :
  token_shape k t -> (0 <= line t < 2 ^ 31)%Z ->
  (token t = "STRING_CONST" \/ token t = "CHAR_CONST" ->
   field 255 (lexeme t)) ->
  spaced t.
Proof.
  intros Hw Hl Hs.
  assert (Hk : word 31 (token t)) by now apply kind_is_word with k.
  destruct Hw as [[Hk' H] | [[Hk' H] | [[H _] | [[H _] | H]]]].
  - apply plain_spaced, (well_formed_plain k); [now left | exact Hl |].
    intros _. now apply name_shape_word.
  - apply plain_spaced, (well_formed_plain k);
      [right; left; split; assumption | exact Hl |].
    intros _. destruct H as (H1 & H2 & H3). split; [exact H1 |].
    split; [now apply all_digits_no_space | exact H3].
  - split; [exact Hk |]. split; [| exact Hl]. apply Hs. now left.
  - split; [exact Hk |]. split; [| exact Hl]. apply Hs. now right.
  - apply plain_spaced, (well_formed_plain k);
      [do 4 right; exact H | exact Hl |].
    intros [E | E]; cbn in H; rewrite E in H;
      repeat (destruct H as [H | H]; [discriminate H |]); contradiction.
Qed.

Lemma MAXTOK_int : (Z.of_nat MAXTOK + 1 < 2 ^ 31)%Z.
Proof. unfold MAXTOK. lia. Qed.

(** X8: the tokenizer and the two parsers with semantic checks, one after
    the other.  For a source text of at most [MAXTOK] characters whose
    names have no more than 63 characters, and in which every string and
    character constant is written to its row as a word (not empty, no
    white space, at most 255 characters), [load_tokens] of
    [semantic_analyser.c] and of [sematic_analyser.c] read from the file
    that the tokenizer writes exactly the tokens that it wrote. *)
Theorem X8_tokens_reach_the_semantic_parsers (source : string) :
  String.length source <= MAXTOK ->
  longest_name source <= 63 ->
  exists st,
    Lexical.main (String.length source + 2) source = Some st /\
    (Forall (fun t => token t = "STRING_CONST" \/ token t = "CHAR_CONST" ->
                      word 255 (lexeme t)) (Lexical.out st) ->
     forall s,
       Semantic.load_tokens (S (length (Lexical.out st)))
         (Some (Lexical.tokens_txt (Lexical.out st))) s =
         Some (true, set_toks (Lexical.out st) s) /\
       Sematic.load_tokens (S (S (length (Lexical.out st))))
         (Some (Lexical.tokens_txt (Lexical.out st))) s =
         Some (true, Sematic.Loaded (set_toks (Lexical.out st) s))).
Proof.
  intros Hlen _.
  destruct (tokenizer_run source) as (st & H1 & _ & _ & H4 & H5 & _).
  exists st. split; [exact H1 |]. intros Hs s.
  pose proof MAXTOK_int as Hint.
  assert (Hn : count_newlines source <= String.length source).
  { clear. induction source as [| c r IH]; cbn; [lia |].
    destruct (c =? Lexical.NL)%char; lia. }
  assert (Hall : Forall plain (Lexical.out st)).
  { rewrite Forall_forall in *. intros t Ht.
    destruct (H5 t Ht) as [[_ Hw] Hl].
    eapply well_formed_plain; [exact Hw | lia | exact (Hs t Ht)]. }
  split.
  - unfold Semantic.load_tokens, Lexical.tokens_txt.
    rewrite fgets_header by lia.
    rewrite semantic_load_rows;
      [reflexivity | exact Hall | unfold ntok; cbn [toks set_toks length]; lia
       | lia].
  - unfold Sematic.load_tokens. rewrite sematic_header_skipped.
    rewrite (sematic_load_rows (Lexical.out st));
      [reflexivity | exact Hall | unfold ntok; cbn [toks set_toks length]; lia
       | lia | reflexivity | now apply skip_spaces_rows].
Qed.

Lemma X8_witness :
  Semantic.load_tokens 4 (Some (Lexical.tokens_txt int_x_tokens))
    (init_state []) =
    Some (true, init_state int_x_tokens) /\
  Sematic.load_tokens 5 (Some (Lexical.tokens_txt int_x_tokens))
    (init_state []) =
    Some (true, Sematic.Loaded (init_state int_x_tokens)).
Proof.
  destruct (X8_tokens_reach_the_semantic_parsers "int x;") as (st & Hm & H).
  - apply Nat.leb_le. vm_compute. reflexivity.
  - apply Nat.leb_le. vm_compute. reflexivity.
  - vm_compute in Hm. injection Hm as <-.
    cbn [Lexical.out] in H. apply H.
    repeat (apply Forall_cons; [intros [E | E]; discriminate E |]).
    apply Forall_nil.
Defined.

(** X9: the tokenizer and the parser without type checks, one after the
    other.  For a source text of at most [MAXTOK] characters whose names
    have no more than 63 characters, and in which every string and
    character constant is written to its row with a first character that
    is no white space and without a tab (and at most 255 characters),
    [read_tokens] of [syntax_analyser.c] reads from the file that the
    tokenizer writes exactly the tokens that it wrote; blanks inside a
    string are kept. *)
Theorem X9_tokens_reach_the_syntax_parser (source : string) :
  String.length source <= MAXTOK ->
  longest_name source <= 63 ->
  exists st,
    Lexical.main (String.length source + 2) source = Some st /\
    (Forall (fun t => token t = "STRING_CONST" \/ token t = "CHAR_CONST" ->
                      field 255 (lexeme t)) (Lexical.out st) ->
     Syntax.read_tokens (S (S (length (Lexical.out st))))
       (Some (Lexical.tokens_txt (Lexical.out st))) (init_state []) =
     Some (true, init_state (Lexical.out st))).
Proof.
  intros Hlen _.
  destruct (tokenizer_run source) as (st & H1 & _ & _ & H4 & H5 & _).
  exists st. split; [exact H1 |]. intros Hs.
  pose proof MAXTOK_int as Hint.
  assert (Hn : count_newlines source <= String.length source).
  { clear. induction source as [| c r IH]; cbn; [lia |].
    destruct (c =? Lexical.NL)%char; lia. }
  assert (Hall : Forall spaced (Lexical.out st)).
  { rewrite Forall_forall in *. intros t Ht.
    destruct (H5 t Ht) as [[_ Hw] Hl].
    eapply well_formed_spaced; [exact Hw | lia | exact (Hs t Ht)]. }
  unfold Syntax.read_tokens. rewrite syntax_header_skipped.
  rewrite (syntax_read_rows (Lexical.out st));
    [reflexivity | exact Hall | unfold ntok; cbn [toks init_state length]; lia
     | lia | discriminate].
Qed.

Lemma X9_witness :
  Syntax.read_tokens 5 (Some (Lexical.tokens_txt say_hi_tokens))
    (init_state []) =
  Some (true, init_state say_hi_tokens).
Proof.
  destruct (X9_tokens_reach_the_syntax_parser say_hi_source) as (st & Hm & H).
  - apply Nat.leb_le. vm_compute. reflexivity.
  - apply Nat.leb_le. vm_compute. reflexivity.
  - vm_compute in Hm. injection Hm as <-.
    cbn [Lexical.out] in H. apply H.
    apply Forall_cons; [intros [E | E]; discriminate E |].
    apply Forall_cons;
      [intros _; split; [reflexivity | split; [reflexivity | cbn; lia]] |].
    apply Forall_cons; [intros [E | E]; discriminate E |].
    apply Forall_nil.
Defined.


(** ** More fuel changes nothing *)

Lemma comment_loop_more (fuel : nat) :
  forall prev st r,
    Lexical.comment_loop fuel prev st = Some r ->
    Lexical.comment_loop (S fuel) prev st = Some r.
Proof.
  induction fuel as [| fuel IH]; intros prev st r H; [discriminate |].
  remember (S fuel) as f eqn:Ef.
  cbn [Lexical.comment_loop]. subst f.
  cbn [Lexical.comment_loop] in H.
  destruct (Lexical.getc_track st) as [c st0].
  destruct c as [ch |]; [| exact H].
  destruct (_ && _); [exact H |]. now apply IH.
Qed.

Lemma bind_more {A B : Type} (m m' : option A) (k k' : A -> option B)
    (r : B) :
  (forall a, m = Some a -> m' = Some a) ->
  (forall a b, k a = Some b -> k' a = Some b) ->
  bind m k = Some r -> bind m' k' = Some r.
Proof.
  intros Hm Hk H. destruct m as [a |]; [| discriminate].
  rewrite (Hm a eq_refl). cbn [bind] in *. now apply Hk.
Qed.

Lemma skip_ws_and_comments_more (fuel : nat) :
  forall st r,
    Lexical.skip_ws_and_comments fuel st = Some r ->
    Lexical.skip_ws_and_comments (S fuel) st = Some r.
Proof.
  induction fuel as [| fuel IH]; intros st r H; [discriminate |].
  remember (S fuel) as f eqn:Ef.
  cbn [Lexical.skip_ws_and_comments]. subst f.
  cbn [Lexical.skip_ws_and_comments] in H.
  destruct (Lexical.getc_track st) as [c st0].
  destruct c as [ch |]; [| exact H].
  destruct (isspace ch); [now apply IH |].
  destruct (ch =? "/")%char; [| exact H].
  destruct (Lexical.getc_track st0) as [d st1].
  destruct (match d with Some dc => _ | None => false end); [| exact H].
  revert H. apply bind_more.
  - intros a. apply comment_loop_more.
  - intros [closed st2] b. destruct (negb closed); [trivial |]. apply IH.
Qed.

Lemma scan_string_loop_more (fuel : nat) :
  forall buf start_line st r,
    Lexical.scan_string_loop fuel buf start_line st = Some r ->
    Lexical.scan_string_loop (S fuel) buf start_line st = Some r.
Proof.
  induction fuel as [| fuel IH]; intros buf start_line st r H;
    [discriminate |].
  remember (S fuel) as f eqn:Ef.
  cbn [Lexical.scan_string_loop]. subst f.
  cbn [Lexical.scan_string_loop] in H.
  destruct (Lexical.getc_track st) as [c st0].
  destruct c as [ch |]; [| exact H].
  destruct (ch =? Lexical.NL)%char; [exact H |].
  destruct (ch =? Lexical.DQUOTE)%char; [exact H |].
  destruct (ch =? Lexical.BACKSLASH)%char; [| now apply IH].
  destruct (Lexical.getc_track st0) as [e st1].
  destruct e as [ec |]; [| exact H].
  destruct (ec =? Lexical.NL)%char; [exact H | now apply IH].
Qed.

Lemma skip_to_quote_more (fuel : nat) :
  forall c st r,
    Lexical.skip_to_quote fuel c st = Some r ->
    Lexical.skip_to_quote (S fuel) c st = Some r.
Proof.
  induction fuel as [| fuel IH]; intros c st r H; [discriminate |].
  remember (S fuel) as f eqn:Ef.
  cbn [Lexical.skip_to_quote]. subst f.
  cbn [Lexical.skip_to_quote] in H.
  destruct c as [ch |]; [| exact H].
  destruct (_ || _); [exact H |].
  destruct (Lexical.getc_track st) as [c st0]. now apply IH.
Qed.

Lemma scan_char_more (fuel : nat) (st r : Lexical.LexState) :
  Lexical.scan_char fuel st = Some r ->
  Lexical.scan_char (S fuel) st = Some r.
Proof.
  unfold Lexical.scan_char.
  destruct (Lexical.getc_track st) as [c st0].
  destruct (Lexical.is_char c Lexical.BACKSLASH).
  - destruct (Lexical.getc_track st0) as [e st1].
    destruct e as [ec |]; [| trivial].
    destruct (ec =? Lexical.NL)%char; [trivial |].
    destruct (Lexical.getc_track st1) as [c2 st2].
    destruct (negb _); [apply skip_to_quote_more | trivial].
  - destruct c as [ch |]; [| trivial].
    destruct (_ || _); [trivial |].
    destruct (Lexical.getc_track st0) as [e st1].
    destruct (negb _); [apply skip_to_quote_more | trivial].
Qed.

Lemma skip_line_after_error_more (fuel : nat) :
  forall st r,
    Lexical.skip_line_after_error fuel st = Some r ->
    Lexical.skip_line_after_error (S fuel) st = Some r.
Proof.
  induction fuel as [| fuel IH]; intros st r H; [discriminate |].
  remember (S fuel) as f eqn:Ef.
  cbn [Lexical.skip_line_after_error]. subst f.
  cbn [Lexical.skip_line_after_error] in H.
  destruct (Lexical.getc_track st) as [c st0].
  destruct c as [ch |]; [| exact H].
  destruct (ch =? Lexical.NL)%char; [exact H | now apply IH].
Qed.

Lemma scan_run_more (fuel : nat) :
  forall part buf st r,
    Lexical.scan_run fuel part buf st = Some r ->
    Lexical.scan_run (S fuel) part buf st = Some r.
Proof.
  induction fuel as [| fuel IH]; intros part buf st r H; [discriminate |].
  remember (S fuel) as f eqn:Ef.
  cbn [Lexical.scan_run]. subst f.
  cbn [Lexical.scan_run] in H.
  destruct (Lexical.getc_track st) as [d st0].
  destruct (negb (part d)); [exact H |].
  destruct d as [dc |]; [now apply IH | exact H].
Qed.

Lemma main_step_more (fuel : nat) (st : Lexical.LexState)
    (r : bool * Lexical.LexState) :
  Lexical.main_step fuel st = Some r ->
  Lexical.main_step (S fuel) st = Some r.
Proof.
  unfold Lexical.main_step. apply bind_more.
  { intros a. apply skip_ws_and_comments_more. }
  intros st1 b. destruct (Lexical.getc_track st1) as [c st0].
  destruct c as [ch |]; [| trivial].
  destruct (Lexical.is_ident_start (Some ch)).
  { apply bind_more; [intros a; apply scan_run_more | trivial]. }
  destruct (isdigit ch).
  { apply bind_more; [intros a; apply scan_run_more | trivial]. }
  destruct (ch =? Lexical.DQUOTE)%char.
  { apply bind_more; [intros a; apply scan_string_loop_more | trivial]. }
  destruct (ch =? Lexical.SQUOTE)%char.
  { apply bind_more; [intros a; apply scan_char_more | trivial]. }
  destruct (ch =? "=")%char; [trivial |].
  destruct (Lexical.punctuation ch) as [[tok lex] |]; [trivial |].
  apply bind_more; [intros a; apply skip_line_after_error_more | trivial].
Qed.

Lemma main_step_fuel (fuel fuel' : nat) (st : Lexical.LexState) :
  remaining st < fuel -> remaining st < fuel' ->
  Lexical.main_step fuel st = Lexical.main_step fuel' st.
Proof.
  assert (Hmono : forall k n r,
             Lexical.main_step n st = Some r ->
             Lexical.main_step (k + n) st = Some r).
  { induction k as [| k IH]; intros n r H; [exact H |].
    cbn [Nat.add]. apply main_step_more. now apply IH. }
  intros H1 H2.
  destruct (main_step_returns fuel st H1) as (c1 & s1 & E1 & _).
  destruct (main_step_returns fuel' st H2) as (c2 & s2 & E2 & _).
  destruct (Nat.le_ge_cases fuel fuel') as [Hle | Hle].
  - rewrite E1. symmetry.
    replace fuel' with ((fuel' - fuel) + fuel) by lia. now apply Hmono.
  - rewrite E2.
    replace fuel with ((fuel - fuel') + fuel') by lia. now apply Hmono.
Qed.

(** ** Comments *)

Lemma comment_loop_open (fuel : nat) :
  forall prev inp ln o e,
    star_slash prev inp = false -> closed_in inp = false ->
    String.length inp < fuel ->
    Lexical.comment_loop fuel prev (Lexical.mkLex inp ln o e) =
    Some (false,
          Lexical.mkLex EmptyString (ln + Z.of_nat (count_newlines inp)) o e).
Proof.
  induction fuel as [| fuel IH]; intros prev inp ln o e Hs Hc Hf; [lia |].
  cbn [Lexical.comment_loop]. destruct inp as [| c r].
  - cbn. do 3 f_equal. lia.
  - cbn [Lexical.getc_track Lexical.input Lexical.line_no Lexical.out
         Lexical.err].
    assert (Hp : match prev with
                 | Some p => (p =? "*")%char
                 | None => false
                 end && (c =? "/")%char = false).
    { destruct prev as [p |]; [exact Hs | reflexivity]. }
    rewrite Hp. cbn [closed_in] in Hc. apply orb_false_elim in Hc.
    destruct Hc as [Hc1 Hc2].
    rewrite IH; [| exact Hc1 | exact Hc2 | cbn in Hf; lia].
    do 3 f_equal. cbn [count_newlines].
    destruct (c =? Lexical.NL)%char; lia.
Qed.

Lemma comment_loop_closed (body : string) :
  forall fuel prev rest ln o e,
    star_slash prev body = false -> closed_in body = false ->
    String.length body + 1 < fuel ->
    Lexical.comment_loop fuel prev
      (Lexical.mkLex (String.append body (String "*" (String "/" rest)))
                     ln o e) =
    Some (true, Lexical.mkLex rest (ln + Z.of_nat (count_newlines body)) o e).
Proof.
  induction body as [| c r IH]; intros fuel prev rest ln o e Hs Hc Hf.
  - destruct fuel as [| [| fuel]]; [cbn in Hf; lia | cbn in Hf; lia |].
    cbn. rewrite andb_false_r. cbn. do 3 f_equal. lia.
  - destruct fuel as [| fuel]; [lia |].
    cbn [Lexical.comment_loop String.append Lexical.getc_track Lexical.input
         Lexical.line_no Lexical.out Lexical.err].
    assert (Hp : match prev with
                 | Some p => (p =? "*")%char
                 | None => false
                 end && (c =? "/")%char = false).
    { destruct prev as [p |]; [exact Hs | reflexivity]. }
    rewrite Hp. cbn [closed_in] in Hc. apply orb_false_elim in Hc.
    destruct Hc as [Hc1 Hc2].
    rewrite IH; [| exact Hc1 | exact Hc2 | cbn in Hf; lia].
    do 3 f_equal. cbn [count_newlines].
    destruct (c =? Lexical.NL)%char; lia.
Qed.

Lemma skip_ws_and_comments_fuel (fuel : nat) (st : Lexical.LexState) :
  remaining st < fuel ->
  Lexical.skip_ws_and_comments fuel st =
  Lexical.skip_ws_and_comments (S fuel) st.
Proof.
  intros H.
  destruct (skip_ws_and_comments_returns fuel st H) as (st' & E & _).
  rewrite E. symmetry. now apply skip_ws_and_comments_more.
Qed.

(** ** Names, numbers and strings *)

Lemma substring_full (buf more : string) :
  substring 0 (String.length buf) (String.append buf more) = buf.
Proof.
  induction buf as [| c buf IH]; cbn; [now destruct more |].
  now rewrite IH.
Qed.

Lemma substring_short (n : nat) :
  forall buf more,
    String.length buf < n ->
    substring 0 n (String.append buf more) =
    String.append buf (substring 0 (n - String.length buf) more).
Proof.
  induction n as [| n IH]; intros buf more H; [lia |].
  destruct buf as [| c buf]; [reflexivity |].
  cbn [String.append substring String.length Nat.sub].
  destruct (Nat.eq_dec (String.length buf) n) as [E | E].
  - cbn in H. lia.
  - cbn in H. rewrite IH by lia. reflexivity.
Qed.

Lemma push_substring (limit : nat) (buf : string) (c : ascii)
    (more : string) :
  String.length buf <= limit ->
  substring 0 limit (String.append (Lexical.push limit buf c) more) =
  substring 0 limit (String.append buf (String c more)).
Proof.
  intros H. unfold Lexical.push.
  destruct (String.length buf <? limit)%nat eqn:E.
  - rewrite append_assoc. reflexivity.
  - apply Nat.ltb_ge in E. assert (String.length buf = limit) by lia.
    subst limit. now rewrite !substring_full.
Qed.

Lemma substring_fits (n : nat) (str : string) :
  String.length str <= n -> substring 0 n str = str.
Proof. exact (strncpy_fits n str). Qed.

Lemma getc_first (st : Lexical.LexState) :
  fst (Lexical.getc_track st) = first_char (Lexical.input st).
Proof. destruct st as [inp ln o e]. now destruct inp. Qed.

Lemma scan_run_exact (r : string) :
  forall fuel part buf rest ln o e,
    all_chars (fun x => part (Some x)) r = true ->
    part (first_char rest) = false ->
    String.length buf <= 255 -> String.length r < fuel ->
    Lexical.scan_run fuel part buf
      (Lexical.mkLex (String.append r rest) ln o e) =
    Some (substring 0 255 (String.append buf r),
          Lexical.mkLex rest (ln + Z.of_nat (count_newlines r)) o e).
Proof.
  induction r as [| c r IH]; intros fuel part buf rest ln o e Hr Hrest Hb Hf.
  - destruct fuel as [| fuel]; [cbn in Hf; lia |].
    cbn [Lexical.scan_run String.append count_newlines].
    pose proof (getc_ungetc (Lexical.mkLex rest ln o e)) as Eg.
    pose proof (getc_first (Lexical.mkLex rest ln o e)) as Ef.
    destruct (Lexical.getc_track (Lexical.mkLex rest ln o e)) as [d st0].
    cbn [fst snd Lexical.input] in Eg, Ef. rewrite Ef, Hrest. cbn [negb].
    rewrite <- Ef, Eg, append_nil_r, substring_fits by assumption.
    do 3 f_equal. lia.
  - destruct fuel as [| fuel]; [cbn in Hf; lia |].
    cbn [all_chars] in Hr. apply andb_prop in Hr. destruct Hr as [Hc Hr].
    cbn [Lexical.scan_run String.append Lexical.getc_track Lexical.input
         Lexical.line_no Lexical.out Lexical.err].
    rewrite Hc. cbn [negb].
    rewrite IH; [| assumption | assumption | now apply push_length
                 | cbn in Hf; lia].
    rewrite push_substring by assumption.
    do 3 f_equal. cbn [count_newlines].
    destruct (c =? Lexical.NL)%char; lia.
Qed.

Lemma ident_start_facts (c : ascii) :
  Lexical.is_ident_start (Some c) = true ->
  isspace c = false /\ (c =? "/")%char = false /\
  (c =? Lexical.NL)%char = false.
Proof.
  destruct c as [[] [] [] [] [] [] [] []]; intros H;
    try discriminate H; repeat split.
Qed.

Lemma digit_facts (c : ascii) :
  isdigit c = true ->
  isspace c = false /\ (c =? "/")%char = false /\
  (c =? Lexical.NL)%char = false /\
  Lexical.is_ident_start (Some c) = false.
Proof.
  destruct c as [[] [] [] [] [] [] [] []]; intros H;
    try discriminate H; repeat split.
Qed.

Lemma ident_part_newlines (r : string) :
  all_chars ident_part r = true -> count_newlines r = 0.
Proof.
  induction r as [| c r IH]; [reflexivity |].
  cbn [all_chars count_newlines]. intros H. apply andb_prop in H.
  destruct H as [Hc Hr]. apply ident_part_not_space in Hc.
  destruct (c =? Lexical.NL)%char eqn:E; [| now apply IH].
  apply newline_is_space in E. congruence.
Qed.

Lemma digits_newlines (r : string) :
  all_digits r = true -> count_newlines r = 0.
Proof.
  intros H. apply no_space_no_newline. now apply all_digits_no_space.
Qed.

Lemma all_digits_chars (r : string) :
  all_digits r = true ->
  all_chars (fun x => Lexical.is_digit_int (Some x)) r = true.
Proof.
  induction r as [| c r IH]; [reflexivity |].
  cbn [all_digits all_chars]. intros H. apply andb_prop in H.
  destruct H as [Hc Hr]. apply andb_true_intro.
  split; [exact Hc | now apply IH].
Qed.

(** One turn of the main loop on a text that starts with a character that
    is neither white space nor a slash: nothing is skipped. *)
Lemma skip_nothing (fuel : nat) (c : ascii) (r : string) (ln : Z)
    (o : list Tok) (e : list (Z * string)) :
  isspace c = false -> (c =? "/")%char = false ->
  Lexical.skip_ws_and_comments (S fuel) (Lexical.mkLex (String c r) ln o e) =
  Some (Lexical.mkLex (String c r) ln o e).
Proof.
  intros H1 H2. cbn [Lexical.skip_ws_and_comments].
  pose proof (getc_ungetc (Lexical.mkLex (String c r) ln o e)) as Eg.
  cbn [Lexical.getc_track Lexical.input Lexical.line_no Lexical.out
       Lexical.err fst snd] in Eg |- *.
  now rewrite H1, H2, Eg.
Qed.

Lemma scan_string_loop_exact (body : string) :
  forall fuel buf rest start_line ln o e,
    all_chars text_char body = true ->
    String.length buf <= 1023 -> String.length body < fuel ->
    Lexical.scan_string_loop fuel buf start_line
      (Lexical.mkLex (String.append body (String Lexical.DQUOTE rest))
                     ln o e) =
    Some (Lexical.mkLex rest ln
            (o ++ [mkTok "STRING_CONST"
                         (Lexical.c_string
                            (substring 0 1023 (String.append buf body)))
                         start_line]) e).
Proof.
  induction body as [| c r IH]; intros fuel buf rest start_line ln o e
    Hb Hl Hf.
  - destruct fuel as [| fuel]; [cbn in Hf; lia |].
    rewrite append_nil_r, substring_fits by assumption. reflexivity.
  - destruct fuel as [| fuel]; [cbn in Hf; lia |].
    cbn [all_chars] in Hb. apply andb_prop in Hb. destruct Hb as [Hc Hr].
    unfold text_char in Hc. apply negb_true_iff in Hc.
    apply orb_false_elim in Hc. destruct Hc as [Hc H3].
    apply orb_false_elim in Hc. destruct Hc as [H1 H2].
    cbn [Lexical.scan_string_loop String.append Lexical.getc_track
         Lexical.input Lexical.line_no Lexical.out Lexical.err].
    rewrite H1, H2, H3.
    rewrite IH; [| assumption | now apply push_length | cbn in Hf; lia].
    rewrite push_substring by assumption. reflexivity.
Qed.

(** X10: a comment that is never closed.  When no star is followed by a
    slash in the text after the opening of a comment, the turn of the
    main loop that meets the comment reads the text to its end, writes the
    message [Un-terminated comments] once, with the line number of the
    opening, writes no token, and ends the main loop; the rows and
    messages written before stay as they are. *)
Theorem X10_unterminated_comment (body : string) (ln : Z) (o : list Tok)
    (e : list (Z * string)) (fuel : nat) :
  closed_in body = false ->
  String.length body + 2 < fuel ->
  Lexical.main_step fuel
    (Lexical.mkLex (String "/" (String "*" body)) ln o e) =
    Some (false,
          Lexical.mkLex EmptyString (ln + Z.of_nat (count_newlines body)) o
            (e ++ [(ln, "Un-terminated comments")])) /\
  Lexical.main_loop (S fuel)
    (Lexical.mkLex (String "/" (String "*" body)) ln o e) =
    Some (Lexical.mkLex EmptyString (ln + Z.of_nat (count_newlines body)) o
            (e ++ [(ln, "Un-terminated comments")])).
Proof.
  intros Hc Hf.
  assert (H : Lexical.main_step fuel
                (Lexical.mkLex (String "/" (String "*" body)) ln o e) =
              Some (false,
                    Lexical.mkLex EmptyString
                      (ln + Z.of_nat (count_newlines body)) o
                      (e ++ [(ln, "Un-terminated comments")]))).
  { destruct fuel as [| fuel]; [lia |].
    unfold Lexical.main_step. cbn [Lexical.skip_ws_and_comments].
    cbn [Lexical.getc_track Lexical.input Lexical.line_no Lexical.out
         Lexical.err].
    change (isspace "/") with false. change ("/" =? "/")%char with true.
    change ("*" =? "*")%char with true.
    change ("/" =? Lexical.NL)%char with false.
    change ("*" =? Lexical.NL)%char with false. cbv iota.
    rewrite comment_loop_open; [| reflexivity | exact Hc | lia].
    reflexivity. }
  split; [exact H |]. cbn [Lexical.main_loop]. rewrite H. reflexivity.
Qed.

Lemma X10_witness :
  Lexical.main_step 8 (Lexical.mkLex "/* a*b" 3 [] []) =
    Some (false, Lexical.mkLex "" 3 [] [(3%Z, "Un-terminated comments")]) /\
  Lexical.main_loop 9 (Lexical.mkLex "/* a*b" 3 [] []) =
    Some (Lexical.mkLex "" 3 [] [(3%Z, "Un-terminated comments")]).
Proof.
  apply (X10_unterminated_comment " a*b" 3 [] [] 8); [reflexivity |].
  cbn. lia.
Defined.

(** X11: a comment that is closed counts as white space.  When the first
    star followed by a slash after the opening of a comment is its end, the
    turn of the main loop that meets the comment does what it does on the
    text behind the comment, the line counter advanced by the newlines
    inside the comment. *)
Theorem X11_comment_is_skipped (body rest : string) (ln : Z) (o : list Tok)
    (e : list (Z * string)) (fuel : nat) :
  closed_in body = false ->
  String.length body + String.length rest + 4 < fuel ->
  Lexical.main_step fuel
    (Lexical.mkLex
       (String "/" (String "*"
          (String.append body (String "*" (String "/" rest))))) ln o e) =
  Lexical.main_step fuel
    (Lexical.mkLex rest (ln + Z.of_nat (count_newlines body)) o e).
Proof.
  intros Hc Hf. destruct fuel as [| fuel]; [lia |].
  unfold Lexical.main_step.
  rewrite <- (skip_ws_and_comments_fuel fuel (Lexical.mkLex rest _ o e))
    by (unfold remaining; cbn; lia).
  remember (S fuel) as f eqn:Ef.
  rewrite Ef at 1. cbn [Lexical.skip_ws_and_comments].
  cbn [Lexical.getc_track Lexical.input Lexical.line_no Lexical.out
       Lexical.err].
  change (isspace "/") with false. change ("/" =? "/")%char with true.
  change ("*" =? "*")%char with true.
  change ("/" =? Lexical.NL)%char with false.
  change ("*" =? Lexical.NL)%char with false. cbv iota.
  rewrite comment_loop_closed; [| reflexivity | exact Hc | lia].
  reflexivity.
Qed.

Lemma X11_witness :
  Lexical.main_step 20 (Lexical.mkLex "/* a*b **/ x" 3 [] []) =
  Lexical.main_step 20 (Lexical.mkLex " x" 3 [] []).
Proof.
  apply (X11_comment_is_skipped " a*b *" " x" 3 [] [] 20); [reflexivity |].
  cbn. lia.
Defined.

(** X12: a name is one token.  On a text that starts with a name of no
    more than 63 characters - a letter or an underscore, followed by
    letters, digits and underscores [r] - followed by a text that starts
    with none of these, one turn of the main loop writes one row: its
    lexeme is the name, its kind is [keyword_or_ident] of the name, its
    line is the current line; the text behind the name is left to be
    read. *)
Theorem X12_name_is_one_token (c : ascii) (r rest : string) (ln : Z)
    (o : list Tok) (e : list (Z * string)) (fuel : nat) :
  Lexical.is_ident_start (Some c) = true ->
  all_chars ident_part r = true ->
  String.length r < 63 ->
  Lexical.is_ident_part (first_char rest) = false ->
  String.length r + 1 < fuel ->
  Lexical.main_step fuel
    (Lexical.mkLex (String c (String.append r rest)) ln o e) =
  Some (true,
        Lexical.mkLex rest ln
          (o ++ [mkTok (Lexical.keyword_or_ident (String c r))
                       (String c r) ln]) e).
Proof.
  intros Hc Hr Hlen Hrest Hf. destruct fuel as [| fuel]; [lia |].
  destruct (ident_start_facts c Hc) as (H1 & H2 & H3).
  unfold Lexical.main_step. rewrite skip_nothing by assumption.
  cbn [bind Lexical.getc_track Lexical.input Lexical.line_no Lexical.out
       Lexical.err].
  rewrite Hc, H3.
  rewrite scan_run_exact; [| exact Hr | exact Hrest | cbn; lia | lia].
  cbn [bind String.append]. rewrite (ident_part_newlines r Hr), Z.add_0_r.
  rewrite (substring_fits 255 (String c r)) by (cbn [String.length]; lia).
  unfold Lexical.emit. rewrite (c_string_name c r Hc Hr). reflexivity.
Qed.

Lemma X12_witness :
  Lexical.main_step 9 (Lexical.mkLex "While_1(x)" 2 [] []) =
  Some (true, Lexical.mkLex "(x)" 2 [mkTok "IDENTIFIER" "While_1" 2] []).
Proof.
  apply (X12_name_is_one_token "W" "hile_1" "(x)" 2 [] [] 9);
    [reflexivity | reflexivity | cbn; lia | reflexivity | cbn; lia].
Defined.

(** X13: a number is one token.  On a text that starts with digits,
    followed by a text that starts with no digit, one turn of the main
    loop writes one [INT_CONST] row whose lexeme is the digits, cut to 255
    characters, on the current line, and leaves the text behind them to be
    read. *)
Theorem X13_number_is_one_token (c : ascii) (r rest : string) (ln : Z)
    (o : list Tok) (e : list (Z * string)) (fuel : nat) :
  isdigit c = true -> all_digits r = true ->
  Lexical.is_digit_int (first_char rest) = false ->
  String.length r + 1 < fuel ->
  Lexical.main_step fuel
    (Lexical.mkLex (String c (String.append r rest)) ln o e) =
  Some (true,
        Lexical.mkLex rest ln
          (o ++ [mkTok "INT_CONST" (substring 0 255 (String c r)) ln]) e).
Proof.
  intros Hc Hr Hrest Hf. destruct fuel as [| fuel]; [lia |].
  destruct (digit_facts c Hc) as (H1 & H2 & H3 & H4).
  unfold Lexical.main_step. rewrite skip_nothing by assumption.
  cbn [bind Lexical.getc_track Lexical.input Lexical.line_no Lexical.out
       Lexical.err].
  rewrite H4, Hc, H3.
  rewrite scan_run_exact;
    [| now apply all_digits_chars | exact Hrest | cbn; lia | lia].
  cbn [bind String.append]. rewrite (digits_newlines r Hr), Z.add_0_r.
  unfold Lexical.emit. rewrite c_string_whole; [reflexivity |].
  apply all_chars_substring. cbn [all_chars].
  rewrite (digit_not_nul c Hc).
  exact (all_chars_impl _ _ r digit_not_nul (all_digits_chars r Hr)).
Qed.

Lemma X13_witness :
  Lexical.main_step 5 (Lexical.mkLex "007x" 2 [] []) =
  Some (true, Lexical.mkLex "x" 2 [mkTok "INT_CONST" "007" 2] []).
Proof.
  apply (X13_number_is_one_token "0" "07" "x" 2 [] [] 5);
    [reflexivity | reflexivity | reflexivity | cbn; lia].
Defined.

(** X14: a string without escapes is one token.  On a double quote, a
    body without double quote, backslash and newline, and a double quote,
    one turn of the main loop writes one [STRING_CONST] row on the current
    line and leaves the text behind the closing quote to be read.  The
    buffer holds the first 1023 characters of the body, and the lexeme of
    the row is what [%s] prints of the buffer: these characters up to the
    first NUL byte, all of them when the body holds none. *)
Theorem X14_string_is_one_token (body rest : string) (ln : Z)
    (o : list Tok) (e : list (Z * string)) (fuel : nat) :
  all_chars text_char body = true ->
  String.length body + 1 < fuel ->
  Lexical.main_step fuel
    (Lexical.mkLex
       (String Lexical.DQUOTE
          (String.append body (String Lexical.DQUOTE rest))) ln o e) =
  Some (true,
        Lexical.mkLex rest ln
          (o ++ [mkTok "STRING_CONST"
                       (Lexical.c_string (substring 0 1023 body)) ln]) e) /\
  (all_chars not_nul body = true ->
   Lexical.c_string (substring 0 1023 body) = substring 0 1023 body).
Proof.
  intros Hb Hf. split.
  2:{ intros Hn. apply c_string_whole. now apply all_chars_substring. }
  destruct fuel as [| fuel]; [lia |].
  unfold Lexical.main_step. rewrite skip_nothing by reflexivity.
  cbn [bind Lexical.getc_track Lexical.input Lexical.line_no Lexical.out
       Lexical.err].
  change (Lexical.is_ident_start (Some Lexical.DQUOTE)) with false.
  change (isdigit Lexical.DQUOTE) with false.
  change (Lexical.DQUOTE =? Lexical.DQUOTE)%char with true.
  change (Lexical.DQUOTE =? Lexical.NL)%char with false. cbv iota.
  unfold Lexical.scan_string. cbn [Lexical.line_no].
  rewrite scan_string_loop_exact; [reflexivity | exact Hb | cbn; lia | lia].
Qed.

Lemma X14_witness :
  Lexical.main_step 8
    (Lexical.mkLex (String Lexical.DQUOTE
                      (String.append "hi you" (String Lexical.DQUOTE ";")))
                   4 [] []) =
  Some (true, Lexical.mkLex ";" 4 [mkTok "STRING_CONST" "hi you" 4] []).
Proof.
  apply (X14_string_is_one_token "hi you" ";" 4 [] [] 8);
    [reflexivity | cbn; lia].
Defined.

(** * The steps of the parsers *)

(** The look at the token behind a type name: [consume], [LA], [pos--]. *)
Lemma consume_back (eofl : Z) (s : State) :
  pos s < ntok s ->
  set_pos (pos (snd (Cursor.consume eofl s)) - 1)
          (snd (Cursor.consume eofl s)) = s.
Proof.
  intros H. rewrite (consume_inside eofl s H). destruct s as [t p y c n e].
  cbn [pos set_pos toks symtab cur_scope error_count stderr].
  unfold set_pos. cbn [pos toks symtab cur_scope error_count stderr].
  f_equal. lia.
Qed.

Ltac steps_chain :=
  repeat (eapply steps_trans; [eassumption |]);
  first [apply steps_refl | eassumption].

Section StepsFacts.

Variable eofl : Z.
Variable SEM : list string.
Variable ADD : State -> State -> Prop.
Hypothesis ADD_toks : forall s s', ADD s s' -> toks s' = toks s.
Hypothesis SEM_all : incl semantic_messages SEM.

Abbreviation steps := (steps eofl SEM ADD).

Lemma steps_toks (s s' : State) : steps s s' -> toks s' = toks s.
Proof.
  induction 1 as [s | s1 s2 s3 _ IH1 _ IH2 | s | msg s Hm
                  | msg ln s Hm Hl | s s' Ha | sc s Hs].
  - reflexivity.
  - congruence.
  - apply consume_adv.
  - apply syn_error_prog.
  - reflexivity.
  - now apply ADD_toks.
  - reflexivity.
Qed.

Lemma LA_known (s : State) :
  In (Cursor.LA eofl s) (toks s) \/ Cursor.LA eofl s = Cursor.eof eofl.
Proof.
  unfold Cursor.LA. destruct (pos s <? ntok s)%nat eqn:E; [| now right].
  left. apply Nat.ltb_lt in E. now apply nth_In.
Qed.

Lemma LA_known_line (s : State) :
  known_line eofl (toks s) (line (Cursor.LA eofl s)).
Proof.
  destruct (LA_known s) as [H | ->]; [| now left].
  right. right. now exists (Cursor.LA eofl s).
Qed.

Lemma known_line_steps (s s' : State) (ln : Z) :
  steps s s' -> known_line eofl (toks s) ln -> known_line eofl (toks s') ln.
Proof. intros H. now rewrite (steps_toks _ _ H). Qed.

Lemma match_steps (kind : string) (s : State) :
  steps s (snd (Cursor.match_ eofl kind s)).
Proof.
  unfold Cursor.match_. destruct (_ =? _); [apply steps_consume |].
  apply steps_refl.
Qed.

Lemma match_token (kind : string) (s s' : State) (t : Tok) :
  kind <> "EOF" ->
  Cursor.match_ eofl kind s = (Some t, s') ->
  In t (toks s) /\ token t = kind.
Proof.
  intros Hk H. apply match_Some in H. destruct H as (-> & Ht & _).
  split; [| exact Ht].
  destruct (LA_known s) as [H | H]; [exact H |].
  rewrite H in Ht. cbn in Ht. congruence.
Qed.

Lemma expect_steps (kind msg : string) (s : State) :
  In msg syntax_messages -> steps s (Cursor.expect eofl kind msg s).
Proof.
  intros Hm. unfold Cursor.expect.
  destruct (Cursor.match_ eofl kind s) as [[t |] s1] eqn:E.
  - apply match_Some in E. destruct E as (_ & _ & ->). apply steps_consume.
  - apply match_None in E. destruct E as [-> _]. now apply steps_syn_error.
Qed.

Lemma type_specifier_steps (s : State) :
  steps s (snd (Cursor.type_specifier eofl s)).
Proof.
  unfold Cursor.type_specifier. destruct (negb _); [apply steps_refl |].
  apply steps_consume.
Qed.

Lemma apply_binary_op_steps (op : string) (l r ln : Z) (s : State) :
  known_line eofl (toks s) ln ->
  steps s (snd (apply_binary_op op l r ln s)).
Proof.
  intros Hl. unfold apply_binary_op.
  assert (Hs : steps s (semantic_error
                          "Type mismatch in statement or expression." ln s)).
  { apply steps_semantic_error; [apply SEM_all; cbn; tauto | exact Hl]. }
  repeat match goal with
         | |- context [if ?b then _ else _] => destruct b
         end; cbn [snd]; first [apply steps_refl | exact Hs].
Qed.

Lemma operand_steps (b : Tok) (s : State) :
  known_line eofl (toks s) (line b) ->
  steps s
    (snd (match lookup_symbol (lexeme b) s with
          | None =>
              (TYPE_ERROR, semantic_error "Undeclared identifier." (line b) s)
          | Some s2 => (str_to_type (sym_type s2), s)
          end)).
Proof.
  intros Hl. destruct (lookup_symbol _ _); cbn [snd]; [apply steps_refl |].
  apply steps_semantic_error; [apply SEM_all; cbn; tauto | exact Hl].
Qed.

Lemma expression_loop_steps (fuel : nat) :
  forall (ty ty' : Z) (s s' : State),
    Cursor.expression_loop eofl fuel ty s = Some (ty', s') -> steps s s'.
Proof.
  induction fuel as [| fuel IH]; intros ty ty' s s'; [discriminate |].
  cbn [Cursor.expression_loop].
  destruct (negb (is_operator (token (Cursor.LA eofl s)))).
  { intros H. injection H as _ <-. apply steps_refl. }
  pose proof (LA_known_line s) as Kop.
  pose proof (steps_consume eofl SEM ADD s) as H1.
  apply (known_line_steps _ _ _ H1) in Kop.
  set (s1 := snd (Cursor.consume eofl s)) in *. clearbody s1.
  destruct (token (Cursor.LA eofl s1) =? "IDENTIFIER").
  - pose proof (operand_steps (Cursor.LA eofl s1) s1 (LA_known_line s1))
      as H2.
    destruct (match lookup_symbol _ _ with Some _ => _ | None => _ end)
      as [rhs s2]. cbn [snd] in H2.
    apply (known_line_steps _ _ _ H2) in Kop.
    pose proof (steps_consume eofl SEM ADD s2) as H3.
    apply (known_line_steps _ _ _ H3) in Kop.
    set (s3 := snd (Cursor.consume eofl s2)) in *. clearbody s3.
    pose proof (apply_binary_op_steps (token (Cursor.LA eofl s)) ty rhs
                  _ s3 Kop) as H4.
    destruct (apply_binary_op _ _ _ _ _) as [ty4 s4]. cbn [snd] in H4.
    intros H. apply IH in H. steps_chain.
  - destruct ((token (Cursor.LA eofl s1) =? "INT_CONST")
              || (token (Cursor.LA eofl s1) =? "CHAR_CONST")).
    + pose proof (steps_consume eofl SEM ADD s1) as H3.
      apply (known_line_steps _ _ _ H3) in Kop.
      set (s3 := snd (Cursor.consume eofl s1)) in *. clearbody s3.
      pose proof (apply_binary_op_steps (token (Cursor.LA eofl s)) ty
                    (const_token_type (Cursor.LA eofl s1)) _ s3 Kop) as H4.
      destruct (apply_binary_op _ _ _ _ _) as [ty4 s4]. cbn [snd] in H4.
      intros H. apply IH in H. steps_chain.
    + intros H. injection H as _ <-.
      pose proof (steps_syn_error eofl SEM ADD
                    "Identifier or integer constant expected" s1
                    ltac:(cbn; tauto)) as H2.
      steps_chain.
Qed.

Lemma expression_if_any_steps (fuel : nat) (out_type ty : Z) (ok : bool)
    (s s' : State) :
  Cursor.expression_if_any eofl fuel out_type s = Some (ok, ty, s') ->
  steps s s'.
Proof.
  unfold Cursor.expression_if_any.
  destruct (token (Cursor.LA eofl s) =? "IDENTIFIER").
  - pose proof (operand_steps (Cursor.LA eofl s) s (LA_known_line s)) as H2.
    destruct (match lookup_symbol _ _ with Some _ => _ | None => _ end)
      as [cur s2]. cbn [snd] in H2.
    pose proof (steps_consume eofl SEM ADD s2) as H3.
    destruct (Cursor.expression_loop eofl fuel cur _) as [[ty' s3] |] eqn:E;
      [| discriminate].
    apply expression_loop_steps in E.
    intros H. injection H as _ _ <-. steps_chain.
  - destruct (_ || _).
    + pose proof (steps_consume eofl SEM ADD s) as H3.
      destruct (Cursor.expression_loop eofl fuel _ _) as [[ty' s3] |] eqn:E;
        [| discriminate].
      apply expression_loop_steps in E.
      intros H. injection H as _ _ <-. steps_chain.
    + intros H. injection H as _ _ <-. apply steps_refl.
Qed.

Lemma condition_steps (fuel : nat) (s s' : State) :
  Cursor.condition eofl fuel s = Some s' -> steps s s'.
Proof.
  unfold Cursor.condition.
  destruct (Cursor.expression_if_any eofl fuel TYPE_ERROR s)
    as [[[ok ty] s1] |] eqn:E; [| discriminate].
  apply expression_if_any_steps in E. cbn [bind].
  destruct (negb ok).
  { intros H. injection H as <-.
    pose proof (steps_syn_error eofl SEM ADD
                  "Identifier or integer constant expected" s1
                  ltac:(cbn; tauto)) as H2.
    steps_chain. }
  destruct (_ && _); intros H; injection H as <-; [| exact E].
  pose proof (steps_semantic_error eofl SEM ADD
                "Integer expected in conditional expression."
                (line (Cursor.LA eofl s1)) s1
                ltac:(apply SEM_all; cbn; tauto)
                (LA_known_line s1)) as H2.
  steps_chain.
Qed.

Lemma expression_or_error_steps (fuel : nat) (s s' : State) :
  Cursor.expression_or_error eofl fuel s = Some s' -> steps s s'.
Proof.
  unfold Cursor.expression_or_error.
  destruct (Cursor.expression_if_any eofl fuel TYPE_ERROR s)
    as [[[ok ty] s1] |] eqn:E; [| discriminate].
  apply expression_if_any_steps in E. cbn [bind].
  destruct (negb ok); intros H; injection H as <-; [| exact E].
  pose proof (steps_syn_error eofl SEM ADD
                "Identifier or integer constant expected" s1
                ltac:(cbn; tauto)) as H2.
  steps_chain.
Qed.

End StepsFacts.

(** ** [semantic_analyser.c] *)

Lemma semantic_adds_toks (s s' : State) :
  semantic_adds s s' -> toks s' = toks s.
Proof.
  intros (name & ty & sc & arrsz & t & -> & _). apply semantic_add_symbol_keeps.
Qed.

Ltac steps_expect :=
  cbv beta zeta;
  match goal with
  | |- context [Cursor.expect ?eofl ?k ?m ?x] =>
      is_var x;
      match goal with
      | |- context [steps eofl ?M ?A] =>
          let H := fresh "Hx" in
          let y := fresh "sx" in
          pose proof (expect_steps eofl M A k m x ltac:(cbn; tauto)) as H;
          set (y := Cursor.expect eofl k m x) in *; clearbody y
      end
  end.

Ltac steps_bind lem :=
  let H := fresh "H" in
  let H1 := fresh "Hb" in
  let s1 := fresh "sb" in
  intros H; apply bind_Some in H; destruct H as (s1 & H1 & H);
  apply lem in H1; revert H.

Section SemanticSteps.

Abbreviation steps := (steps Semantic.EOF_LINE semantic_messages semantic_adds).

Lemma semantic_array_opt_steps (s : State) :
  steps s (snd (Semantic.array_opt s)).
Proof.
  unfold Semantic.array_opt.
  destruct (negb _); [apply steps_refl |].
  pose proof (steps_consume Semantic.EOF_LINE semantic_messages semantic_adds
                s) as H1.
  set (s1 := snd (Semantic.consume s)) in *. clearbody s1.
  destruct (token (Semantic.LA s1) =? "INT_CONST").
  - pose proof (steps_consume Semantic.EOF_LINE semantic_messages semantic_adds s1) as H2.
    set (s2 := snd (Semantic.consume s1)) in *. clearbody s2.
    steps_expect. cbn [snd]. steps_chain.
  - steps_expect. cbn [snd]. steps_chain.
Qed.

Lemma semantic_init_opt_steps (typestr : string) (ln : Z) (s : State) :
  steps s (snd (Semantic.init_opt typestr ln s)).
Proof.
  unfold Semantic.init_opt.
  destruct (negb _); [apply steps_refl |].
  pose proof (steps_consume Semantic.EOF_LINE semantic_messages semantic_adds
                s) as H1.
  set (s1 := snd (Semantic.consume s)) in *. clearbody s1.
  destruct (_ && _).
  { pose proof (steps_syn_error Semantic.EOF_LINE semantic_messages semantic_adds
                  "Identifier or integer constant expected" s1
                  ltac:(cbn; tauto)) as H2.
    cbn [snd]. steps_chain. }
  cbv zeta. cbn [snd].
  destruct (_ && _).
  - pose proof (steps_semantic_error Semantic.EOF_LINE semantic_messages semantic_adds
                  "Type mismatch in statement or expression."
                  (line (Semantic.LA s1)) s1 ltac:(cbn; tauto)
                  (LA_known_line _ s1)) as H2.
    pose proof (steps_consume Semantic.EOF_LINE semantic_messages semantic_adds
                  (semantic_error "Type mismatch in statement or expression."
                                  (line (Semantic.LA s1)) s1)) as H3.
    steps_chain.
  - pose proof (steps_consume Semantic.EOF_LINE semantic_messages semantic_adds s1) as H3.
    steps_chain.
Qed.

Lemma semantic_init_declarator_steps (typestr : string) (s : State) :
  In typestr type_names -> steps s (Semantic.init_declarator typestr s).
Proof.
  intros Hty. unfold Semantic.init_declarator.
  pose proof (match_steps Semantic.EOF_LINE semantic_messages semantic_adds
                "IDENTIFIER" s)
    as H1.
  destruct (Semantic.match_ "IDENTIFIER" s) as [[id |] s1] eqn:Em;
    cbn [snd] in H1.
  - apply match_token in Em; [| discriminate]. destruct Em as [Hin Htk].
    pose proof (semantic_array_opt_steps s1) as H2.
    destruct (Semantic.array_opt s1) as [[b arrsz] s2]. cbn [snd] in H2.
    pose proof (semantic_init_opt_steps typestr (line id) s2) as H3.
    set (s3 := snd (Semantic.init_opt typestr (line id) s2)) in *.
    clearbody s3.
    assert (H4 : steps s3
                   (Semantic.add_symbol (lexeme id) typestr (cur_scope s3)
                      arrsz (line id) s3)).
    { apply steps_add. exists (lexeme id), typestr, (cur_scope s3), arrsz, id.
      split; [reflexivity |]. split.
      - assert (Hs : steps s s3) by steps_chain.
        rewrite (steps_toks _ _ _ semantic_adds_toks _ _ Hs). exact Hin.
      - left. repeat split; [exact Htk | exact Hty | now left]. }
    steps_chain.
  - pose proof (steps_syn_error Semantic.EOF_LINE semantic_messages semantic_adds
                  "Identifier expected" s1 ltac:(cbn; tauto)) as H2.
    steps_chain.
Qed.

Lemma semantic_init_declarator_list_loop_steps (fuel : nat) :
  forall (typestr : string) (s s' : State),
    In typestr type_names ->
    Semantic.init_declarator_list_loop fuel typestr s = Some s' ->
    steps s s'.
Proof.
  induction fuel as [| fuel IH]; intros typestr s s' Hty; [discriminate |].
  cbn [Semantic.init_declarator_list_loop].
  pose proof (match_steps Semantic.EOF_LINE semantic_messages semantic_adds
                "COMMA" s) as H1.
  destruct (Semantic.match_ "COMMA" s) as [[t |] s1]; cbn [snd] in H1.
  - pose proof (semantic_init_declarator_steps typestr s1 Hty) as H2.
    intros H. apply IH in H; [| exact Hty]. steps_chain.
  - intros H. some_inv H. exact H1.
Qed.

Lemma semantic_declaration_steps (fuel : nat) (typestr : string)
    (s s' : State) :
  In typestr type_names ->
  Semantic.declaration fuel typestr s = Some s' -> steps s s'.
Proof.
  intros Hty. unfold Semantic.declaration, Semantic.init_declarator_list.
  pose proof (semantic_init_declarator_steps typestr s Hty) as H1.
  steps_bind (fun a b => semantic_init_declarator_list_loop_steps fuel
                           typestr a b Hty).
  steps_expect. intros H. some_inv H. steps_chain.
Qed.

Lemma norm_type_token_names (tk : string) :
  is_type_token tk = true -> In (norm_type_token tk) type_names.
Proof.
  unfold is_type_token, norm_type_token.
  destruct (tk =? "VOID"); [cbn; tauto |].
  destruct (tk =? "CHAR"); [cbn; tauto |].
  destruct (tk =? "INT"); [cbn; tauto | discriminate].
Qed.

Lemma semantic_expr_stmt_steps (fuel : nat) (s s' : State) :
  Semantic.expr_stmt fuel s = Some s' -> steps s s'.
Proof.
  unfold Semantic.expr_stmt.
  destruct (token (Semantic.LA s) =? "SEMICOLON").
  { intros H. some_inv H. apply steps_consume. }
  steps_bind (expression_or_error_steps Semantic.EOF_LINE semantic_messages semantic_adds
                  semantic_adds_toks (incl_refl _) fuel).
  steps_expect. intros H. some_inv H. steps_chain.
Qed.

Lemma semantic_parser_steps (n : nat) :
  (forall s s', Semantic.statement n s = Some s' -> steps s s') /\
  (forall s s', Semantic.stmt_list_opt n s = Some s' -> steps s s') /\
  (forall s s', Semantic.block n s = Some s' -> steps s s') /\
  (forall s s', Semantic.if_stmt n s = Some s' -> steps s s') /\
  (forall s s', Semantic.while_stmt n s = Some s' -> steps s s') /\
  (forall s s', Semantic.for_stmt n s = Some s' -> steps s s').
Proof.
  induction n as [| n (IHst & IHsl & IHbl & IHif & IHwh & IHfor)].
  { split; [| split; [| split; [| split; [| split]]]];
      intros s s' H; discriminate H. }
  split; [| split; [| split; [| split; [| split]]]]; intros s s'.
  - rewrite semantic_statement_S. cbv zeta.
    destruct (is_type_token (token (Semantic.LA s))) eqn:Hty.
    { destruct (type_specifier_Some _ s Hty) as [-> _].
      pose proof (steps_consume Semantic.EOF_LINE semantic_messages semantic_adds
                    s) as H1.
      intros H. apply semantic_declaration_steps in H;
        [| now apply norm_type_token_names].
      steps_chain. }
    destruct (token (Semantic.LA s) =? "IF"); [apply IHif |].
    destruct (token (Semantic.LA s) =? "WHILE"); [apply IHwh |].
    destruct (token (Semantic.LA s) =? "FOR"); [apply IHfor |].
    destruct (token (Semantic.LA s) =? "LBRACE"); [apply IHbl |].
    apply semantic_expr_stmt_steps.
  - rewrite semantic_stmt_list_opt_S. cbv zeta.
    destruct (_ || _).
    { intros H. some_inv H. apply steps_refl. }
    steps_bind IHst. intros H. apply IHsl in H. steps_chain.
  - rewrite semantic_block_S.
    pose proof (match_steps Semantic.EOF_LINE semantic_messages semantic_adds
                  "LBRACE" s) as H1.
    destruct (Semantic.match_ "LBRACE" s) as [[t |] s1]; cbn [snd] in H1.
    + steps_bind IHsl. steps_expect.
      intros H. some_inv H. steps_chain.
    + intros H. some_inv H.
      pose proof (steps_syn_error Semantic.EOF_LINE semantic_messages semantic_adds
                    "{ expected" s1 ltac:(cbn; tauto)) as H2.
      steps_chain.
  - rewrite semantic_if_stmt_S.
    pose proof (match_steps Semantic.EOF_LINE semantic_messages semantic_adds
                  "IF" s) as H1.
    destruct (Semantic.match_ "IF" s) as [[t |] s1]; cbn [snd] in H1.
    + steps_expect.
      steps_bind (condition_steps Semantic.EOF_LINE semantic_messages semantic_adds
                  semantic_adds_toks (incl_refl _) n).
      steps_expect. steps_bind IHbl.
      pose proof (match_steps Semantic.EOF_LINE semantic_messages semantic_adds
                    "ELSE" sb0)
        as H5.
      destruct (Semantic.match_ "ELSE" sb0) as [[t2 |] s2]; cbn [snd] in H5.
      * intros H. apply IHbl in H. steps_chain.
      * intros H. some_inv H. steps_chain.
    + intros H. some_inv H.
      pose proof (steps_syn_error Semantic.EOF_LINE semantic_messages semantic_adds
                    "IF expected" s1 ltac:(cbn; tauto)) as H2.
      steps_chain.
  - rewrite semantic_while_stmt_S.
    pose proof (match_steps Semantic.EOF_LINE semantic_messages semantic_adds
                  "WHILE" s) as H1.
    destruct (Semantic.match_ "WHILE" s) as [[t |] s1]; cbn [snd] in H1.
    + steps_expect.
      steps_bind (condition_steps Semantic.EOF_LINE semantic_messages semantic_adds
                  semantic_adds_toks (incl_refl _) n).
      steps_expect. intros H. apply IHbl in H. steps_chain.
    + intros H. some_inv H.
      pose proof (steps_syn_error Semantic.EOF_LINE semantic_messages semantic_adds
                    "WHILE expected" s1 ltac:(cbn; tauto)) as H2.
      steps_chain.
  - rewrite semantic_for_stmt_S.
    pose proof (match_steps Semantic.EOF_LINE semantic_messages semantic_adds
                  "FOR" s) as H1.
    destruct (Semantic.match_ "FOR" s) as [[t |] s1]; cbn [snd] in H1.
    + steps_expect.
      steps_bind (expression_or_error_steps Semantic.EOF_LINE semantic_messages semantic_adds
                  semantic_adds_toks (incl_refl _) n).
      steps_expect.
      steps_bind (condition_steps Semantic.EOF_LINE semantic_messages semantic_adds
                  semantic_adds_toks (incl_refl _) n).
      steps_expect.
      steps_bind (expression_or_error_steps Semantic.EOF_LINE semantic_messages semantic_adds
                  semantic_adds_toks (incl_refl _) n).
      steps_expect. intros H. apply IHst in H. steps_chain.
    + intros H. some_inv H.
      pose proof (steps_syn_error Semantic.EOF_LINE semantic_messages semantic_adds
                    "FOR expected" s1 ltac:(cbn; tauto)) as H2.
      steps_chain.
Qed.

Lemma semantic_param_list_steps (fuel : nat) :
  forall (s s' : State), Semantic.param_list fuel s = Some s' -> steps s s'.
Proof.
  induction fuel as [| fuel IH]; intros s s'; [discriminate |].
  cbn [Semantic.param_list].
  destruct (is_type_token (token (Semantic.LA s))) eqn:Hty.
  - destruct (type_specifier_Some _ s Hty) as [-> _].
    pose proof (steps_consume Semantic.EOF_LINE semantic_messages semantic_adds
                  s) as H1.
    set (s1 := snd (Semantic.consume s)) in *. clearbody s1.
    pose proof (match_steps Semantic.EOF_LINE semantic_messages semantic_adds
                  "IDENTIFIER" s1)
      as H2.
    destruct (Semantic.match_ "IDENTIFIER" s1) as [[pid |] s2] eqn:Em;
      cbn [snd] in H2.
    + apply match_token in Em; [| discriminate]. destruct Em as [Hin Htk].
      assert (H3 : steps s2
                     (Semantic.add_symbol (lexeme pid)
                        (norm_type_token (token (Semantic.LA s))) "Main" 0
                        (line pid) s2)).
      { apply steps_add.
        exists (lexeme pid), (norm_type_token (token (Semantic.LA s))),
               "Main", 0%Z, pid.
        split; [reflexivity |]. split.
        - rewrite (steps_toks _ _ _ semantic_adds_toks _ _ H2). exact Hin.
        - left. repeat split;
            [exact Htk | now apply norm_type_token_names | now right]. }
      set (s3 := Semantic.add_symbol _ _ _ _ _ s2) in *. clearbody s3.
      pose proof (match_steps Semantic.EOF_LINE semantic_messages semantic_adds
                    "COMMA" s3)
        as H4.
      destruct (Semantic.match_ "COMMA" s3) as [[t |] s4]; cbn [snd] in H4.
      * intros H. apply IH in H. steps_chain.
      * intros H. some_inv H. steps_chain.
    + intros H. some_inv H.
      pose proof (steps_syn_error Semantic.EOF_LINE semantic_messages semantic_adds
                    "Identifier expected" s2 ltac:(cbn; tauto)) as H3.
      steps_chain.
  - rewrite (type_specifier_None _ s Hty). intros H. some_inv H.
    apply steps_syn_error. cbn. tauto.
Qed.

Lemma semantic_global_decl_list_steps (fuel : nat) :
  forall (s s' : State),
    Semantic.global_decl_list fuel s = Some s' -> steps s s'.
Proof.
  induction fuel as [| fuel IH]; intros s s'; [discriminate |].
  cbn [Semantic.global_decl_list].
  destruct (is_type_token (token (Semantic.LA s))) eqn:Hty; cbn [negb].
  2:{ intros H. some_inv H. apply steps_refl. }
  assert (Hin : pos s < ntok s).
  { apply (LA_not_EOF_inside Semantic.EOF_LINE).
    now apply is_type_token_not_EOF. }
  pose proof (steps_consume Semantic.EOF_LINE semantic_messages semantic_adds
                s) as H1.
  pose proof (consume_back Semantic.EOF_LINE s Hin) as Hb.
  set (s1 := snd (Semantic.consume s)) in *. clearbody s1.
  destruct (token (Semantic.LA s1) =? "MAIN").
  - intros H. some_inv H. rewrite Hb. apply steps_refl.
  - steps_bind (fun a b =>
                  semantic_declaration_steps fuel
                    (norm_type_token (token (Semantic.LA s))) a b
                    (norm_type_token_names _ Hty)).
    intros H. apply IH in H. steps_chain.
Qed.

Lemma semantic_function_def_steps (fuel : nat) (ret_type : string)
    (s s' : State) :
  Semantic.function_def fuel ret_type s = Some s' -> steps s s'.
Proof.
  unfold Semantic.function_def.
  pose proof (match_steps Semantic.EOF_LINE semantic_messages semantic_adds
                "MAIN" s) as H1.
  destruct (Semantic.match_ "MAIN" s) as [[id |] s1] eqn:Em; cbn [snd] in H1.
  - apply match_token in Em; [| discriminate]. destruct Em as [Hin Htk].
    assert (H2 : steps s1
                   (Semantic.add_symbol "main" "Function" "Global" 0
                      (line id) s1)).
    { apply steps_add. exists "main", "Function", "Global", 0%Z, id.
      split; [reflexivity |]. split.
      - rewrite (steps_toks _ _ _ semantic_adds_toks _ _ H1). exact Hin.
      - right. repeat split. exact Htk. }
    set (s2 := Semantic.add_symbol _ _ _ _ _ s1) in *. clearbody s2.
    pose proof (steps_scope Semantic.EOF_LINE semantic_messages semantic_adds
                  "Main" s2
                  (or_introl eq_refl)) as H3.
    set (s3 := set_cur_scope "Main" s2) in *. clearbody s3.
    steps_expect.
    intros H. apply bind_Some in H. destruct H as (s4 & H4 & H).
    assert (H5 : steps sx s4).
    { destruct (token (Semantic.LA sx) =? "VOID").
      - some_inv H4. apply steps_consume.
      - destruct (is_type_token (token (Semantic.LA sx))).
        + now apply semantic_param_list_steps in H4.
        + some_inv H4. apply steps_refl. }
    clear H4. revert H. steps_expect.
    destruct (semantic_parser_steps fuel) as (_ & _ & IHbl & _).
    steps_bind IHbl. intros H. some_inv H.
    pose proof (steps_scope Semantic.EOF_LINE semantic_messages semantic_adds
                  "Global" sb
                  (or_intror eq_refl)) as H6.
    steps_chain.
  - intros H. some_inv H.
    pose proof (steps_syn_error Semantic.EOF_LINE semantic_messages semantic_adds
                  "MAIN expected" s1 ltac:(cbn; tauto)) as H2.
    steps_chain.
Qed.

Lemma semantic_program_steps (fuel : nat) (s s' : State) :
  Semantic.program fuel s = Some s' -> steps s s'.
Proof.
  unfold Semantic.program.
  steps_bind (semantic_global_decl_list_steps fuel).
  pose proof (type_specifier_steps Semantic.EOF_LINE semantic_messages semantic_adds
                sb) as H1.
  destruct (Semantic.type_specifier sb) as [[rtype |] s1]; cbn [snd] in H1.
  - intros H. apply semantic_function_def_steps in H. steps_chain.
  - intros H. some_inv H.
    pose proof (steps_syn_error Semantic.EOF_LINE semantic_messages semantic_adds
                  "Any keyword expected" s1 ltac:(cbn; tauto)) as H2.
    steps_chain.
Qed.

End SemanticSteps.

(** ** What the steps keep in order *)

Lemma skip_loop_bound (eofl : Z) (fuel : nat) :
  forall (ln : Z) (s : State),
    pos s <= ntok s ->
    pos (Cursor.skip_line_tokens_loop eofl fuel ln s) <= ntok s.
Proof.
  induction fuel as [| fuel IH]; intros ln s H; [exact H |].
  cbn [Cursor.skip_line_tokens_loop].
  destruct (pos s <? ntok s)%nat eqn:E; [| exact H].
  destruct (_ =? _)%Z; [| exact H]. cbn [andb].
  apply Nat.ltb_lt in E.
  apply (IH ln (set_pos (S (pos s)) s)). cbn. unfold ntok in *. cbn. lia.
Qed.

Lemma orderly_refl (eofl : Z) (msgs : list string) (s : State) :
  orderly eofl msgs s s.
Proof.
  split; [reflexivity |]. split; [trivial |].
  split; [exists []; now rewrite app_nil_r |]. split; [trivial |].
  exists []. rewrite app_nil_r. cbn. split; [reflexivity |].
  split; [lia | constructor].
Qed.

Lemma orderly_trans (eofl : Z) (msgs : list string) (a b c : State) :
  orderly eofl msgs a b -> orderly eofl msgs b c -> orderly eofl msgs a c.
Proof.
  intros (Ht1 & Hp1 & (l1 & Hs1) & Hn1 & (e1 & He1 & Hc1 & Hf1))
         (Ht2 & Hp2 & (l2 & Hs2) & Hn2 & (e2 & He2 & Hc2 & Hf2)).
  split; [congruence |].
  split; [intros H; apply Hp2, Hp1, H |].
  split; [exists (l1 ++ l2); rewrite Hs2, Hs1; now rewrite app_assoc |].
  split; [intros H; apply Hn2, Hn1, H |].
  exists (e1 ++ e2). rewrite He2, He1, Hc2, Hc1, length_app, app_assoc.
  split; [reflexivity |]. split; [lia |].
  apply Forall_app. split; [exact Hf1 |]. now rewrite <- Ht1.
Qed.

Lemma orderly_report (eofl : Z) (msgs : list string) (s s' : State)
    (ln : Z) (msg : string) :
  toks s' = toks s -> (pos s <= ntok s -> pos s' <= ntok s') ->
  symtab s' = symtab s ->
  stderr s' = stderr s ++ [(ln, msg)] ->
  error_count s' = (error_count s + 1)%Z ->
  known_line eofl (toks s) ln ->
  In msg msgs ->
  orderly eofl msgs s s'.
Proof.
  intros Ht Hp Hs He Hc Hl Hm.
  split; [exact Ht |]. split; [exact Hp |].
  split; [exists []; now rewrite app_nil_r |].
  split; [unfold nsym; now rewrite Hs |].
  exists [(ln, msg)]. split; [exact He |]. split; [exact Hc |].
  constructor; [| constructor]. split; assumption.
Qed.

Lemma orderly_quiet (eofl : Z) (msgs : list string) (s s' : State) :
  toks s' = toks s -> (pos s <= ntok s -> pos s' <= ntok s') ->
  symtab s' = symtab s -> stderr s' = stderr s ->
  error_count s' = error_count s ->
  orderly eofl msgs s s'.
Proof.
  intros Ht Hp Hs He Hc.
  split; [exact Ht |]. split; [exact Hp |].
  split; [exists []; now rewrite app_nil_r |].
  split; [unfold nsym; now rewrite Hs |].
  exists []. rewrite app_nil_r. split; [exact He |].
  split; [cbn; lia | constructor].
Qed.

Lemma syn_error_orderly (eofl : Z) (msgs : list string) (msg : string)
    (s : State) :
  In msg msgs -> orderly eofl msgs s (Cursor.syn_error eofl msg s).
Proof.
  intros Hm.
  destruct (syn_error_keeps eofl msg s) as (H1 & H2 & H3 & H4).
  pose proof (syn_error_prog eofl msg s) as (Ht & _).
  apply (orderly_report eofl msgs _ _ (line (Cursor.LA eofl s)) msg);
    try assumption; [| apply LA_known_line].
  intros Hp.
  assert (Hn : ntok (Cursor.syn_error eofl msg s) = ntok s)
    by (unfold ntok; now rewrite Ht).
  rewrite Hn. unfold Cursor.syn_error, Cursor.skip_line_tokens. cbv zeta.
  match goal with
  | |- pos (Cursor.skip_line_tokens_loop _ _ _ ?x) <= _ =>
      apply (skip_loop_bound eofl _ _ x); exact Hp
  end.
Qed.

Section StepsOrderly.

Variable eofl : Z.
Variable SEM : list string.
Variable ADD : State -> State -> Prop.
Hypothesis ADD_orderly :
  forall s s', ADD s s' -> orderly eofl (syntax_messages ++ SEM) s s'.

Lemma steps_orderly (s s' : State) :
  steps eofl SEM ADD s s' -> orderly eofl (syntax_messages ++ SEM) s s'.
Proof.
  induction 1 as [s | s1 s2 s3 _ IH1 _ IH2 | s | msg s Hm
                  | msg ln s Hm Hl | s s' Ha | sc s Hs].
  - apply orderly_refl.
  - now apply orderly_trans with s2.
  - destruct (consume_keeps eofl s) as (H1 & H2 & H3 & H4).
    pose proof (consume_adv eofl s) as [Ht _].
    apply orderly_quiet; try assumption.
    intros Hle. unfold Cursor.consume. cbn [snd].
    destruct (pos s <? ntok s)%nat eqn:E; [| exact Hle].
    apply Nat.ltb_lt in E. unfold ntok in *. cbn. lia.
  - apply syn_error_orderly, in_or_app. now left.
  - apply (orderly_report eofl _ _ _ ln msg); try reflexivity;
      [trivial | exact Hl | apply in_or_app; now right].
  - now apply ADD_orderly.
  - apply orderly_quiet; try reflexivity. trivial.
Qed.

End StepsOrderly.

Lemma semantic_adds_orderly (s s' : State) :
  semantic_adds s s' ->
  orderly Semantic.EOF_LINE (syntax_messages ++ semantic_messages) s s'.
Proof.
  intros (name & ty & sc & arrsz & t & -> & Hin & _).
  unfold Semantic.add_symbol.
  destruct (existsb _ _).
  { apply (orderly_report _ _ _ _ (line t)
             "Multiple declarations of same identifier.");
      try reflexivity; [trivial | | apply in_or_app; right; cbn; tauto].
    right. right. now exists t. }
  destruct (MAXSYM <=? nsym s)%nat eqn:E; [apply orderly_refl |].
  apply Nat.leb_gt in E.
  split; [reflexivity |]. split; [trivial |].
  split; [eexists; reflexivity |].
  split; [intros _; unfold nsym in *; cbn; rewrite length_app; cbn; lia |].
  exists []. rewrite app_nil_r. cbn. split; [reflexivity |].
  split; [lia | constructor].
Qed.

(** ** [sematic_analyser.c] *)

Lemma sematic_adds_toks (s s' : State) :
  sematic_adds s s' -> toks s' = toks s.
Proof.
  intros (name & ty & sc & arrsz & ->). apply sematic_add_symbol_keeps.
Qed.

Lemma sematic_adds_orderly (s s' : State) :
  sematic_adds s s' ->
  orderly Sematic.EOF_LINE (syntax_messages ++ semantic_messages) s s'.
Proof.
  intros (name & ty & sc & arrsz & ->).
  unfold Sematic.add_symbol.
  destruct (MAXSYM <=? nsym s)%nat eqn:E; [apply orderly_refl |].
  apply Nat.leb_gt in E.
  destruct (existsb _ _).
  { eapply orderly_report; try reflexivity;
      [trivial | | apply in_or_app; right; cbn; tauto].
    destruct (0 <? pos s)%nat; [| right; now left].
    destruct (Nat.lt_ge_cases (pos s - 1) (length (toks s))) as [Hlt | Hge].
    - right. right. eexists. split; [apply nth_In; exact Hlt | reflexivity].
    - rewrite nth_overflow by exact Hge. right. now left. }
  split; [reflexivity |]. split; [trivial |].
  split; [eexists; reflexivity |].
  split; [intros _; unfold nsym in *; cbn; rewrite length_app; cbn; lia |].
  exists []. rewrite app_nil_r. cbn. split; [reflexivity |].
  split; [lia | constructor].
Qed.

Section SematicSteps.

Abbreviation steps := (steps Sematic.EOF_LINE semantic_messages sematic_adds).

Lemma sematic_add_steps (name ty sc : string) (arrsz : Z) (s : State) :
  steps s (Sematic.add_symbol name ty sc arrsz s).
Proof. apply steps_add. now exists name, ty, sc, arrsz. Qed.

Lemma sematic_array_opt_steps (size_out : Z) (s : State) :
  steps s (snd (Sematic.array_opt size_out s)).
Proof.
  unfold Sematic.array_opt.
  pose proof (match_steps Sematic.EOF_LINE semantic_messages sematic_adds
                "LBRACKET" s) as H1.
  destruct (Sematic.match_ "LBRACKET" s) as [[t |] s1]; cbn [snd] in H1;
    [| exact H1].
  pose proof (match_steps Sematic.EOF_LINE semantic_messages sematic_adds
                "INT_CONST" s1) as H2.
  destruct (Sematic.match_ "INT_CONST" s1) as [[num |] s2]; cbn [snd] in H2;
    steps_expect; cbn [snd]; steps_chain.
Qed.

Lemma sematic_init_opt_steps (s : State) :
  steps s (snd (Sematic.init_opt s)).
Proof.
  unfold Sematic.init_opt.
  pose proof (match_steps Sematic.EOF_LINE semantic_messages sematic_adds
                "ASSIGN" s) as H1.
  destruct (Sematic.match_ "ASSIGN" s) as [[t |] s1]; cbn [snd] in H1;
    [| exact H1].
  cbv zeta. destruct (_ || _); cbn [snd].
  - pose proof (steps_consume Sematic.EOF_LINE semantic_messages sematic_adds s1) as H2.
    steps_chain.
  - pose proof (steps_syn_error Sematic.EOF_LINE semantic_messages sematic_adds
                  "Identifier or integer constant expected" s1
                  ltac:(cbn; tauto)) as H2.
    steps_chain.
Qed.

Lemma sematic_init_declarator_steps (typestr : string) (s : State) :
  steps s (Sematic.init_declarator typestr s).
Proof.
  unfold Sematic.init_declarator.
  pose proof (match_steps Sematic.EOF_LINE semantic_messages sematic_adds
                "IDENTIFIER" s)
    as H1.
  destruct (Sematic.match_ "IDENTIFIER" s) as [[id |] s1]; cbn [snd] in H1.
  - pose proof (sematic_array_opt_steps 0 s1) as H2.
    destruct (Sematic.array_opt 0 s1) as [[b arrsz] s2]. cbn [snd] in H2.
    pose proof (sematic_init_opt_steps s2) as H3.
    set (s3 := snd (Sematic.init_opt s2)) in *. clearbody s3.
    pose proof (sematic_add_steps (lexeme id) typestr (cur_scope s3) arrsz s3)
      as H4.
    steps_chain.
  - pose proof (steps_syn_error Sematic.EOF_LINE semantic_messages sematic_adds
                  "Identifier expected" s1 ltac:(cbn; tauto)) as H2.
    steps_chain.
Qed.

Lemma sematic_init_declarator_list_loop_steps (fuel : nat) :
  forall (typestr : string) (s s' : State),
    Sematic.init_declarator_list_loop fuel typestr s = Some s' ->
    steps s s'.
Proof.
  induction fuel as [| fuel IH]; intros typestr s s'; [discriminate |].
  cbn [Sematic.init_declarator_list_loop].
  pose proof (match_steps Sematic.EOF_LINE semantic_messages sematic_adds
                "COMMA" s) as H1.
  destruct (Sematic.match_ "COMMA" s) as [[t |] s1]; cbn [snd] in H1.
  - pose proof (sematic_init_declarator_steps typestr s1) as H2.
    intros H. apply IH in H. steps_chain.
  - intros H. some_inv H. exact H1.
Qed.

Lemma sematic_declaration_steps (fuel : nat) (typestr : string)
    (s s' : State) :
  Sematic.declaration fuel typestr s = Some s' -> steps s s'.
Proof.
  unfold Sematic.declaration, Sematic.init_declarator_list.
  pose proof (sematic_init_declarator_steps typestr s) as H1.
  steps_bind (sematic_init_declarator_list_loop_steps fuel typestr).
  steps_expect. intros H. some_inv H. steps_chain.
Qed.

Lemma sematic_expr_stmt_steps (fuel : nat) (s s' : State) :
  Sematic.expr_stmt fuel s = Some s' -> steps s s'.
Proof.
  unfold Sematic.expr_stmt.
  pose proof (match_steps Sematic.EOF_LINE semantic_messages sematic_adds
                "SEMICOLON" s) as H1.
  destruct (Sematic.match_ "SEMICOLON" s) as [[t |] s1]; cbn [snd] in H1.
  { intros H. some_inv H. exact H1. }
  steps_bind (expression_or_error_steps Sematic.EOF_LINE semantic_messages sematic_adds
                sematic_adds_toks (incl_refl _) fuel).
  steps_expect. intros H. some_inv H. steps_chain.
Qed.

Lemma sematic_typed_declaration_steps (fuel : nat) (s s' : State) :
  match Sematic.type_specifier s with
  | (None, s) => Some (Sematic.syn_error "Any keyword expected" s)
  | (Some typestr, s) => Sematic.declaration fuel typestr s
  end = Some s' ->
  steps s s'.
Proof.
  pose proof (type_specifier_steps Sematic.EOF_LINE semantic_messages sematic_adds
                s) as H1.
  destruct (Sematic.type_specifier s) as [[ty |] s1]; cbn [snd] in H1.
  - intros H. apply sematic_declaration_steps in H. steps_chain.
  - intros H. some_inv H.
    pose proof (steps_syn_error Sematic.EOF_LINE semantic_messages sematic_adds
                  "Any keyword expected" s1 ltac:(cbn; tauto)) as H2.
    steps_chain.
Qed.

Lemma sematic_parser_steps (n : nat) :
  (forall s s', Sematic.statement n s = Some s' -> steps s s') /\
  (forall s s', Sematic.stmt_list_opt n s = Some s' -> steps s s') /\
  (forall s s', Sematic.block n s = Some s' -> steps s s') /\
  (forall s s', Sematic.if_stmt n s = Some s' -> steps s s') /\
  (forall s s', Sematic.while_stmt n s = Some s' -> steps s s') /\
  (forall s s', Sematic.for_stmt n s = Some s' -> steps s s').
Proof.
  induction n as [| n (IHst & IHsl & IHbl & IHif & IHwh & IHfor)].
  { split; [| split; [| split; [| split; [| split]]]];
      intros s s' H; discriminate H. }
  split; [| split; [| split; [| split; [| split]]]]; intros s s'.
  - rewrite sematic_statement_S. cbv zeta.
    destruct (is_type_token (token (Sematic.LA s))).
    { apply sematic_typed_declaration_steps. }
    destruct (token (Sematic.LA s) =? "IF"); [apply IHif |].
    destruct (token (Sematic.LA s) =? "WHILE"); [apply IHwh |].
    destruct (token (Sematic.LA s) =? "FOR"); [apply IHfor |].
    destruct (token (Sematic.LA s) =? "LBRACE"); [apply IHbl |].
    apply sematic_expr_stmt_steps.
  - rewrite sematic_stmt_list_opt_S. cbv zeta.
    destruct (_ || _).
    { intros H. some_inv H. apply steps_refl. }
    steps_bind IHst. intros H. apply IHsl in H. steps_chain.
  - rewrite sematic_block_S.
    pose proof (match_steps Sematic.EOF_LINE semantic_messages sematic_adds
                  "LBRACE" s) as H1.
    destruct (Sematic.match_ "LBRACE" s) as [[t |] s1]; cbn [snd] in H1.
    + steps_bind IHsl. steps_expect.
      intros H. some_inv H. steps_chain.
    + intros H. some_inv H.
      pose proof (steps_syn_error Sematic.EOF_LINE semantic_messages sematic_adds
                    "{ missing" s1 ltac:(cbn; tauto)) as H2.
      steps_chain.
  - rewrite sematic_if_stmt_S.
    pose proof (match_steps Sematic.EOF_LINE semantic_messages sematic_adds
                  "IF" s) as H1.
    destruct (Sematic.match_ "IF" s) as [[t |] s1]; cbn [snd] in H1.
    + steps_expect.
      steps_bind (condition_steps Sematic.EOF_LINE semantic_messages sematic_adds
                    sematic_adds_toks (incl_refl _) n).
      steps_expect. steps_bind IHbl.
      pose proof (match_steps Sematic.EOF_LINE semantic_messages sematic_adds
                    "ELSE" sb0)
        as H5.
      destruct (Sematic.match_ "ELSE" sb0) as [[t2 |] s2]; cbn [snd] in H5.
      * intros H. apply IHbl in H. steps_chain.
      * intros H. some_inv H. steps_chain.
    + intros H. some_inv H.
      pose proof (steps_syn_error Sematic.EOF_LINE semantic_messages sematic_adds
                    "IF expected" s1 ltac:(cbn; tauto)) as H2.
      steps_chain.
  - rewrite sematic_while_stmt_S.
    pose proof (match_steps Sematic.EOF_LINE semantic_messages sematic_adds
                  "WHILE" s) as H1.
    destruct (Sematic.match_ "WHILE" s) as [[t |] s1]; cbn [snd] in H1.
    + steps_expect.
      steps_bind (condition_steps Sematic.EOF_LINE semantic_messages sematic_adds
                    sematic_adds_toks (incl_refl _) n).
      steps_expect. intros H. apply IHbl in H. steps_chain.
    + intros H. some_inv H.
      pose proof (steps_syn_error Sematic.EOF_LINE semantic_messages sematic_adds
                    "WHILE expected" s1 ltac:(cbn; tauto)) as H2.
      steps_chain.
  - rewrite sematic_for_stmt_S.
    pose proof (match_steps Sematic.EOF_LINE semantic_messages sematic_adds
                  "FOR" s) as H1.
    destruct (Sematic.match_ "FOR" s) as [[t |] s1]; cbn [snd] in H1.
    + steps_expect.
      steps_bind (expression_or_error_steps Sematic.EOF_LINE semantic_messages sematic_adds
                    sematic_adds_toks (incl_refl _) n).
      steps_expect.
      steps_bind (condition_steps Sematic.EOF_LINE semantic_messages sematic_adds
                    sematic_adds_toks (incl_refl _) n).
      steps_expect.
      steps_bind (expression_or_error_steps Sematic.EOF_LINE semantic_messages sematic_adds
                    sematic_adds_toks (incl_refl _) n).
      steps_expect. intros H. apply IHst in H. steps_chain.
    + intros H. some_inv H.
      pose proof (steps_syn_error Sematic.EOF_LINE semantic_messages sematic_adds
                    "FOR expected" s1 ltac:(cbn; tauto)) as H2.
      steps_chain.
Qed.

Lemma sematic_param_list_steps (fuel : nat) :
  forall (pty : string) (pid : Tok) (s s' : State),
    Sematic.param_list fuel pty pid s = Some s' -> steps s s'.
Proof.
  induction fuel as [| fuel IH]; intros pty pid s s'; [discriminate |].
  cbn [Sematic.param_list].
  assert (H1 : steps s
                 (snd (match Sematic.type_specifier s with
                       | (None, s0) =>
                           (pty, Sematic.syn_error "Any keyword expected" s0)
                       | (Some ty, s0) => (ty, s0)
                       end))).
  { pose proof (type_specifier_steps Sematic.EOF_LINE semantic_messages sematic_adds s) as H.
    destruct (Sematic.type_specifier s) as [[ty |] s0]; cbn [snd] in *;
      [exact H |].
    pose proof (steps_syn_error Sematic.EOF_LINE semantic_messages sematic_adds
                  "Any keyword expected" s0 ltac:(cbn; tauto)) as H2.
    steps_chain. }
  destruct (match Sematic.type_specifier s with
            | (None, s0) => _
            | (Some ty, s0) => _
            end) as [pty1 s1]. cbn [snd] in H1.
  assert (H2 : steps s1
                 (snd (match Sematic.match_ "IDENTIFIER" s1 with
                       | (None, s0) =>
                           (pid, Sematic.syn_error "Identifier expected" s0)
                       | (Some id, s0) => (id, s0)
                       end))).
  { pose proof (match_steps Sematic.EOF_LINE semantic_messages sematic_adds "IDENTIFIER" s1)
      as H.
    destruct (Sematic.match_ "IDENTIFIER" s1) as [[id |] s0]; cbn [snd] in *;
      [exact H |].
    pose proof (steps_syn_error Sematic.EOF_LINE semantic_messages sematic_adds
                  "Identifier expected" s0 ltac:(cbn; tauto)) as H3.
    steps_chain. }
  destruct (match Sematic.match_ "IDENTIFIER" s1 with
            | (None, s0) => _
            | (Some id, s0) => _
            end) as [pid1 s2]. cbn [snd] in H2.
  pose proof (sematic_add_steps (lexeme pid1) pty1 "Main" 0 s2) as H3.
  set (s3 := Sematic.add_symbol _ _ _ _ s2) in *. clearbody s3.
  pose proof (match_steps Sematic.EOF_LINE semantic_messages sematic_adds
                "COMMA" s3) as H4.
  destruct (Sematic.match_ "COMMA" s3) as [[t |] s4]; cbn [snd] in H4.
  - intros H. apply IH in H. steps_chain.
  - intros H. some_inv H. steps_chain.
Qed.

Lemma sematic_global_decl_list_steps (fuel : nat) :
  forall (s s' : State),
    Sematic.global_decl_list fuel s = Some s' -> steps s s'.
Proof.
  induction fuel as [| fuel IH]; intros s s'; [discriminate |].
  cbn [Sematic.global_decl_list].
  destruct (is_type_token (token (Sematic.LA s))) eqn:Hty; cbn [negb].
  2:{ intros H. some_inv H. apply steps_refl. }
  assert (Hin : pos s < ntok s).
  { apply (LA_not_EOF_inside Sematic.EOF_LINE).
    now apply is_type_token_not_EOF. }
  rewrite (consume_back Sematic.EOF_LINE s Hin).
  destruct (_ =? "MAIN").
  - intros H. some_inv H. apply steps_refl.
  - pose proof (type_specifier_steps Sematic.EOF_LINE semantic_messages
                  sematic_adds s) as H3.
    destruct (Sematic.type_specifier s) as [[ty |] s3]; cbn [snd] in H3.
    + steps_bind (sematic_declaration_steps fuel ty).
      intros H. apply IH in H. steps_chain.
    + intros H. some_inv H.
      pose proof (steps_syn_error Sematic.EOF_LINE semantic_messages sematic_adds
                    "Any keyword expected" s3 ltac:(cbn; tauto)) as H4.
      steps_chain.
Qed.

Lemma sematic_function_def_steps (fuel : nat) (pty0 : string) (pid0 : Tok)
    (ret_type : string) (s s' : State) :
  Sematic.function_def fuel pty0 pid0 ret_type s = Some s' -> steps s s'.
Proof.
  unfold Sematic.function_def.
  pose proof (match_steps Sematic.EOF_LINE semantic_messages sematic_adds
                "MAIN" s) as H1.
  destruct (Sematic.match_ "MAIN" s) as [[id |] s1]; cbn [snd] in H1.
  - steps_expect.
    intros H. apply bind_Some in H. destruct H as (s4 & H4 & H).
    assert (H5 : steps sx s4).
    { destruct (token (Sematic.LA sx) =? "VOID").
      - some_inv H4. apply steps_consume.
      - now apply sematic_param_list_steps in H4. }
    clear H4. revert H. steps_expect. steps_expect.
    pose proof (steps_scope Sematic.EOF_LINE semantic_messages sematic_adds
                  "Main" sx1
                  (or_introl eq_refl)) as H3.
    set (s3 := set_cur_scope "Main" sx1) in *. clearbody s3.
    destruct (sematic_parser_steps fuel) as (_ & IHsl & _).
    steps_bind IHsl. steps_expect. intros H. some_inv H.
    pose proof (steps_scope Sematic.EOF_LINE semantic_messages sematic_adds
                  "Global" sx2
                  (or_intror eq_refl)) as H6.
    steps_chain.
  - intros H. some_inv H.
    pose proof (steps_syn_error Sematic.EOF_LINE semantic_messages sematic_adds
                  "MAIN expected" s1 ltac:(cbn; tauto)) as H2.
    steps_chain.
Qed.

Lemma sematic_program_steps (fuel : nat) (pty0 : string) (pid0 : Tok)
    (s s' : State) :
  Sematic.program fuel pty0 pid0 s = Some s' -> steps s s'.
Proof.
  unfold Sematic.program.
  steps_bind (sematic_global_decl_list_steps fuel).
  pose proof (type_specifier_steps Sematic.EOF_LINE semantic_messages sematic_adds
                sb) as H1.
  destruct (Sematic.type_specifier sb) as [[rtype |] s1]; cbn [snd] in H1.
  - intros H. apply sematic_function_def_steps in H. steps_chain.
  - intros H. some_inv H.
    pose proof (steps_syn_error Sematic.EOF_LINE semantic_messages sematic_adds
                  "Any keyword expected" s1 ltac:(cbn; tauto)) as H2.
    steps_chain.
Qed.

End SematicSteps.

(** ** Termination of the parser of [syntax_analyser.c] *)

Lemma syntax_add_symbol_keeps (name type scope : string) (arrsz : Z)
    (s : State) :
  toks (Syntax.add_symbol name type scope arrsz s) = toks s /\
  pos (Syntax.add_symbol name type scope arrsz s) = pos s /\
  cur_scope (Syntax.add_symbol name type scope arrsz s) = cur_scope s.
Proof.
  unfold Syntax.add_symbol.
  destruct (MAXSYM <=? nsym s)%nat; repeat split.
Qed.

Lemma syntax_array_opt_adv (size_out : Z) (s : State) :
  adv s (snd (Syntax.array_opt size_out s)).
Proof.
  unfold Syntax.array_opt.
  destruct (Syntax.match_ "LBRACKET" s) as [[t |] s1] eqn:Hm.
  - apply match_Some_prog in Hm; [| discriminate].
    destruct (Syntax.match_ "INT_CONST" s1) as [[num |] s2] eqn:Hm2;
      cbn [snd].
    + apply match_Some_prog in Hm2; [| discriminate].
      step_expect Syntax.EOF_LINE. close_prog.
    + apply match_None in Hm2. destruct Hm2 as [-> _].
      step_expect Syntax.EOF_LINE. close_prog.
  - apply match_None in Hm. destruct Hm as [-> _]. apply adv_refl.
Qed.

Lemma syntax_init_opt_adv (s : State) : adv s (snd (Syntax.init_opt s)).
Proof.
  unfold Syntax.init_opt.
  destruct (Syntax.match_ "ASSIGN" s) as [[t |] s1] eqn:Hm.
  - apply match_Some_prog in Hm; [| discriminate].
    destruct ((token (Syntax.LA s1) =? "INT_CONST")
              || (token (Syntax.LA s1) =? "CHAR_CONST")); cbn [snd].
    + pose proof (consume_adv Syntax.EOF_LINE s1) as H2. close_prog.
    + pose proof (syn_error_prog Syntax.EOF_LINE
                    "Identifier or integer constant expected" s1) as H2.
      close_prog.
  - apply match_None in Hm. destruct Hm as [-> _]. apply adv_refl.
Qed.

Lemma syntax_init_declarator_adv (typestr : string) (s : State) :
  adv s (Syntax.init_declarator typestr s).
Proof.
  unfold Syntax.init_declarator.
  destruct (Syntax.match_ "IDENTIFIER" s) as [[id |] s1] eqn:Hm.
  - apply match_Some in Hm. destruct Hm as (_ & _ & ->).
    pose proof (consume_adv Syntax.EOF_LINE s) as H1.
    set (s1 := snd (Syntax.consume s)) in *.
    pose proof (syntax_array_opt_adv (-1)%Z s1) as H2.
    destruct (Syntax.array_opt (-1)%Z s1) as [[r arrsz] s2]. cbn [snd] in H2.
    pose proof (syntax_init_opt_adv s2) as H3.
    set (s3 := snd (Syntax.init_opt s2)) in *.
    pose proof (syntax_add_symbol_keeps (lexeme id) typestr (cur_scope s3)
                  arrsz s3) as H4.
    close_prog.
  - apply match_None in Hm. destruct Hm as [-> _].
    apply prog_adv, syn_error_prog.
Qed.

Lemma syntax_init_declarator_list_loop_total (fuel : nat) :
  forall (typestr : string) (s : State),
    ntok s - pos s < fuel ->
    exists s',
      Syntax.init_declarator_list_loop fuel typestr s = Some s' /\
      adv s s'.
Proof.
  induction fuel as [| fuel IH]; intros typestr s Hf; [lia |].
  cbn [Syntax.init_declarator_list_loop].
  destruct (Syntax.match_ "COMMA" s) as [[t |] s1] eqn:Hm.
  - apply match_Some_prog in Hm; [| discriminate].
    pose proof (syntax_init_declarator_adv typestr s1) as H2.
    destruct (IH typestr (Syntax.init_declarator typestr s1))
      as (s' & He & Ha).
    { numeric. lia. }
    exists s'. split; [exact He |]. close_prog.
  - apply match_None in Hm. destruct Hm as [-> _].
    exists s. split; [reflexivity | apply adv_refl].
Qed.

Lemma syntax_declaration_total (fuel : nat) (typestr : string) (s : State) :
  ntok s - pos s < fuel ->
  exists s', Syntax.declaration fuel typestr s = Some s' /\ adv s s'.
Proof.
  intros Hf. unfold Syntax.declaration, Syntax.init_declarator_list.
  pose proof (syntax_init_declarator_adv typestr s) as H1.
  apply (ok_bind _ (adv s)).
  - destruct (syntax_init_declarator_list_loop_total fuel typestr
                (Syntax.init_declarator typestr s)) as (s' & He & Ha).
    { numeric. lia. }
    exists s'. split; [exact He |]. close_prog.
  - intros s1 H2. step_expect Syntax.EOF_LINE.
    eexists. split; [reflexivity |]. close_prog.
Qed.

Lemma syntax_expression_loop_total (fuel : nat) :
  forall (s : State),
    ntok s - pos s < fuel ->
    exists s', Syntax.expression_loop fuel s = Some s' /\ adv s s'.
Proof.
  induction fuel as [| fuel IH]; intros s Hf; [lia |].
  cbn [Syntax.expression_loop].
  destruct (is_operator (token (Syntax.LA s))) eqn:Hop; cbn [negb].
  2:{ exists s. split; [reflexivity | apply adv_refl]. }
  assert (Hin : pos s < ntok s).
  { apply (LA_not_EOF_inside Syntax.EOF_LINE). now apply is_operator_not_EOF. }
  pose proof (consume_inside Syntax.EOF_LINE s Hin) as Hc.
  assert (H1 : toks (snd (Syntax.consume s)) = toks s /\
               pos (snd (Syntax.consume s)) = S (pos s)).
  { rewrite Hc. split; reflexivity. }
  set (s1 := snd (Syntax.consume s)) in *. clearbody s1.
  destruct (_ || _).
  - pose proof (consume_adv Syntax.EOF_LINE s1) as H2.
    destruct (IH (snd (Syntax.consume s1))) as (s' & He & Ha);
      [numeric; lia |].
    exists s'. split; [exact He | close_prog].
  - pose proof (syn_error_prog Syntax.EOF_LINE
                  "Identifier or integer constant expected" s1) as H2.
    eexists. split; [reflexivity | close_prog].
Qed.

Lemma syntax_expression_or_error_total (fuel : nat) (s : State) :
  ntok s - pos s <= fuel ->
  exists s', Syntax.expression_or_error fuel s = Some s' /\ prog s s'.
Proof.
  intros Hf. unfold Syntax.expression_or_error, Syntax.expression_if_any.
  cbv zeta.
  destruct (_ || _) eqn:Hk.
  - assert (Hin : pos s < ntok s).
    { apply (LA_not_EOF_inside Syntax.EOF_LINE). intros He.
      rewrite He in Hk. discriminate. }
    pose proof (consume_inside Syntax.EOF_LINE s Hin) as Hc.
    assert (H1 : toks (snd (Syntax.consume s)) = toks s /\
                 pos (snd (Syntax.consume s)) = S (pos s)).
    { rewrite Hc. split; reflexivity. }
    set (s1 := snd (Syntax.consume s)) in *. clearbody s1.
    destruct (syntax_expression_loop_total fuel s1) as (s' & He & Ha);
      [numeric; lia |].
    rewrite He. cbn [bind negb]. exists s'. split; [reflexivity | close_prog].
  - cbn [bind negb]. eexists. split; [reflexivity | apply syn_error_prog].
Qed.

Lemma syntax_expr_stmt_total (fuel : nat) (s : State) :
  ntok s - pos s <= fuel ->
  exists s', Syntax.expr_stmt fuel s = Some s' /\ prog s s'.
Proof.
  intros Hf. unfold Syntax.expr_stmt.
  destruct (Syntax.match_ "SEMICOLON" s) as [[t |] s1] eqn:Hm.
  - apply match_Some_prog in Hm; [| discriminate].
    eexists. split; [reflexivity | close_prog].
  - apply match_None in Hm. destruct Hm as [-> _].
    apply (ok_bind _ (prog s)).
    + now apply syntax_expression_or_error_total.
    + intros s1 H1. step_expect Syntax.EOF_LINE.
      eexists. split; [reflexivity |]. close_prog.
Qed.

Lemma syntax_statement_S (n : nat) (s : State) :
  Syntax.statement (S n) s =
  let t := Syntax.LA s in
  if token t =? "LBRACE" then Syntax.block n s
  else if token t =? "IF" then Syntax.if_stmt n s
  else if token t =? "WHILE" then Syntax.while_stmt n s
  else if token t =? "FOR" then Syntax.for_stmt n s
  else if is_type_token (token t) then
    match Syntax.type_specifier s with
    | (None, s) => Some (Syntax.syn_error "Any keyword expected" s)
    | (Some ty, s) => Syntax.declaration n ty s
    end
  else Syntax.expr_stmt n s.
Proof. reflexivity. Qed.

Lemma syntax_stmt_list_opt_S (n : nat) (s : State) :
  Syntax.stmt_list_opt (S n) s =
  let t := Syntax.LA s in
  if (token t =? "RBRACE") || (token t =? "EOF") then Some s
  else s <- Syntax.statement n s ;; Syntax.stmt_list_opt n s.
Proof. reflexivity. Qed.

Lemma syntax_block_S (n : nat) (s : State) :
  Syntax.block (S n) s =
  match Syntax.match_ "LBRACE" s with
  | (None, s) => Some (Syntax.syn_error "{ missing" s)
  | (Some _, s) =>
      s <- Syntax.stmt_list_opt n s ;;
      Some (Syntax.expect "RBRACE" "} missing" s)
  end.
Proof. reflexivity. Qed.

Lemma syntax_if_stmt_S (n : nat) (s : State) :
  Syntax.if_stmt (S n) s =
  match Syntax.match_ "IF" s with
  | (None, s) => Some (Syntax.syn_error "IF expected" s)
  | (Some _, s) =>
      let s := Syntax.expect "LPAREN" "Opening parenthesis missing" s in
      s <- Syntax.expression_or_error n s ;;
      let s := Syntax.expect "RPAREN" "Closing parenthesis missing" s in
      s <- Syntax.block n s ;;
      match Syntax.match_ "ELSE" s with
      | (Some _, s) => Syntax.block n s
      | (None, s) => Some s
      end
  end.
Proof. reflexivity. Qed.

Lemma syntax_while_stmt_S (n : nat) (s : State) :
  Syntax.while_stmt (S n) s =
  match Syntax.match_ "WHILE" s with
  | (None, s) => Some (Syntax.syn_error "WHILE expected" s)
  | (Some _, s) =>
      let s := Syntax.expect "LPAREN" "Opening parenthesis missing" s in
      s <- Syntax.expression_or_error n s ;;
      let s := Syntax.expect "RPAREN" "Closing parenthesis missing" s in
      Syntax.block n s
  end.
Proof. reflexivity. Qed.

Lemma syntax_for_stmt_S (n : nat) (s : State) :
  Syntax.for_stmt (S n) s =
  match Syntax.match_ "FOR" s with
  | (None, s) => Some (Syntax.syn_error "FOR expected" s)
  | (Some _, s) =>
      let s := Syntax.expect "LPAREN" "Opening parenthesis missing" s in
      s <- Syntax.expression_or_error n s ;;
      let s := Syntax.expect "SEMICOLON" "Semicolon expected" s in
      s <- Syntax.expression_or_error n s ;;
      let s := Syntax.expect "SEMICOLON" "Semicolon expected" s in
      s <- Syntax.expression_or_error n s ;;
      let s := Syntax.expect "RPAREN" "Closing parenthesis missing" s in
      Syntax.statement n s
  end.
Proof. reflexivity. Qed.

Lemma syntax_parser_total (n : nat) :
  (forall s, 3 * (ntok s - pos s) + 2 <= n ->
             exists s', Syntax.statement n s = Some s' /\ prog s s') /\
  (forall s, 3 * (ntok s - pos s) + 3 <= n ->
             exists s', Syntax.stmt_list_opt n s = Some s' /\ adv s s') /\
  (forall s, 3 * (ntok s - pos s) + 1 <= n ->
             exists s', Syntax.block n s = Some s' /\ prog s s') /\
  (forall s, 3 * (ntok s - pos s) + 1 <= n ->
             exists s', Syntax.if_stmt n s = Some s' /\ prog s s') /\
  (forall s, 3 * (ntok s - pos s) + 1 <= n ->
             exists s', Syntax.while_stmt n s = Some s' /\ prog s s') /\
  (forall s, 3 * (ntok s - pos s) + 1 <= n ->
             exists s', Syntax.for_stmt n s = Some s' /\ prog s s').
Proof.
  induction n as [| n (IHst & IHsl & IHbl & IHif & IHwh & IHfor)].
  { repeat split; intros s Hf; lia. }
  repeat split; intros s Hf.
  - (* statement *)
    rewrite syntax_statement_S. cbv zeta.
    destruct (token (Syntax.LA s) =? "LBRACE"); [apply IHbl; lia |].
    destruct (token (Syntax.LA s) =? "IF"); [apply IHif; lia |].
    destruct (token (Syntax.LA s) =? "WHILE"); [apply IHwh; lia |].
    destruct (token (Syntax.LA s) =? "FOR"); [apply IHfor; lia |].
    destruct (is_type_token (token (Syntax.LA s))) eqn:Hty.
    { destruct (type_specifier_Some _ s Hty) as [-> Hin].
      pose proof (consume_inside Syntax.EOF_LINE s Hin) as Hc.
      destruct (syntax_declaration_total n
                  (norm_type_token (token (Syntax.LA s)))
                  (snd (Syntax.consume s))) as (s' & He & Ha).
      { rewrite Hc. unfold ntok. cbn. unfold ntok in Hf. lia. }
      exists s'. split; [exact He |]. rewrite Hc in Ha.
      destruct Ha as [Ht Hp]. cbn in Ht, Hp.
      repeat split; [assumption | lia | lia]. }
    apply syntax_expr_stmt_total. lia.
  - (* stmt_list_opt *)
    rewrite syntax_stmt_list_opt_S. cbv zeta.
    destruct ((token (Syntax.LA s) =? "RBRACE")
              || (token (Syntax.LA s) =? "EOF")) eqn:Hstop.
    { exists s. split; [reflexivity | apply adv_refl]. }
    assert (Hin : pos s < ntok s).
    { apply (LA_not_EOF_inside Syntax.EOF_LINE). intros He.
      rewrite He in Hstop. discriminate. }
    step_bind (prog s) (IHst s).
    destruct (IHsl sb) as (s' & He & Ha); [numeric; lia |].
    exists s'. split; [exact He | close_prog].
  - (* block *)
    rewrite syntax_block_S.
    destruct (Syntax.match_ "LBRACE" s) as [[t |] s1] eqn:Hm.
    + apply match_Some_prog in Hm; [| discriminate].
      step_bind (adv s1) (IHsl s1).
      step_expect Syntax.EOF_LINE.
      eexists. split; [reflexivity | close_prog].
    + apply match_None in Hm. destruct Hm as [-> _].
      eexists. split; [reflexivity | apply syn_error_prog].
  - (* if_stmt *)
    rewrite syntax_if_stmt_S.
    destruct (Syntax.match_ "IF" s) as [[t |] s1] eqn:Hm.
    + apply match_Some_prog in Hm; [| discriminate]. cbv zeta.
      step_expect Syntax.EOF_LINE.
      step_bind (prog sx) (syntax_expression_or_error_total n sx).
      step_expect Syntax.EOF_LINE.
      step_bind (prog sx0) (IHbl sx0).
      destruct (Syntax.match_ "ELSE" sb0) as [[t2 |] s2] eqn:Hm2.
      * apply match_Some_prog in Hm2; [| discriminate].
        destruct (IHbl s2) as (s' & He & Ha); [numeric; lia |].
        exists s'. split; [exact He | close_prog].
      * apply match_None in Hm2. destruct Hm2 as [-> _].
        eexists. split; [reflexivity | close_prog].
    + apply match_None in Hm. destruct Hm as [-> _].
      eexists. split; [reflexivity | apply syn_error_prog].
  - (* while_stmt *)
    rewrite syntax_while_stmt_S.
    destruct (Syntax.match_ "WHILE" s) as [[t |] s1] eqn:Hm.
    + apply match_Some_prog in Hm; [| discriminate]. cbv zeta.
      step_expect Syntax.EOF_LINE.
      step_bind (prog sx) (syntax_expression_or_error_total n sx).
      step_expect Syntax.EOF_LINE.
      destruct (IHbl sx0) as (s' & He & Ha); [numeric; lia |].
      exists s'. split; [exact He | close_prog].
    + apply match_None in Hm. destruct Hm as [-> _].
      eexists. split; [reflexivity | apply syn_error_prog].
  - (* for_stmt *)
    rewrite syntax_for_stmt_S.
    destruct (Syntax.match_ "FOR" s) as [[t |] s1] eqn:Hm.
    + apply match_Some_prog in Hm; [| discriminate]. cbv zeta.
      step_expect Syntax.EOF_LINE.
      step_bind (prog sx) (syntax_expression_or_error_total n sx).
      step_expect Syntax.EOF_LINE.
      step_bind (prog sx0) (syntax_expression_or_error_total n sx0).
      step_expect Syntax.EOF_LINE.
      step_bind (prog sx1) (syntax_expression_or_error_total n sx1).
      step_expect Syntax.EOF_LINE.
      destruct (IHst sx2) as (s' & He & Ha); [numeric; lia |].
      exists s'. split; [exact He | close_prog].
    + apply match_None in Hm. destruct Hm as [-> _].
      eexists. split; [reflexivity | apply syn_error_prog].
Qed.

Lemma syntax_global_decl_list_total (fuel : nat) :
  forall (s : State),
    ntok s - pos s < fuel ->
    exists s', Syntax.global_decl_list fuel s = Some s' /\ adv s s'.
Proof.
  induction fuel as [| fuel IH]; intros s Hf; [lia |].
  cbn [Syntax.global_decl_list].
  destruct (is_type_token (token (Syntax.LA s))) eqn:Hty; cbn [negb].
  2:{ exists s. split; [reflexivity | apply adv_refl]. }
  assert (Hin : pos s < ntok s).
  { apply (LA_not_EOF_inside Syntax.EOF_LINE).
    now apply is_type_token_not_EOF. }
  pose proof (consume_inside Syntax.EOF_LINE s Hin) as Hc.
  rewrite Hc.
  assert (Hback : set_pos (pos (set_pos (S (pos s)) s) - 1)
                          (set_pos (S (pos s)) s) = s).
  { destruct s. cbn. now rewrite Nat.sub_0_r. }
  rewrite Hback.
  destruct (token (Syntax.LA (set_pos (S (pos s)) s)) =? "MAIN").
  - exists s. split; [reflexivity | apply adv_refl].
  - destruct (type_specifier_Some _ s Hty) as [-> _]. rewrite Hc.
    assert (H1 : toks (set_pos (S (pos s)) s) = toks s /\
                 pos (set_pos (S (pos s)) s) = S (pos s))
      by (split; reflexivity).
    clear Hc Hback.
    set (s1 := set_pos (S (pos s)) s) in *. clearbody s1.
    step_bind (adv s1)
      (syntax_declaration_total fuel
         (norm_type_token (token (Syntax.LA s))) s1).
    destruct (IH sb) as (s' & He & Ha); [numeric; lia |].
    exists s'. split; [exact He | close_prog].
Qed.

Lemma syntax_function_def_total (fuel : nat) (ret_type : string)
    (s : State) :
  3 * (ntok s - pos s) + 3 <= fuel ->
  exists s', Syntax.function_def fuel ret_type s = Some s' /\ adv s s'.
Proof.
  intros Hf. unfold Syntax.function_def.
  destruct (Syntax.match_ "MAIN" s) as [[id |] s1] eqn:Hm.
  - apply match_Some_prog in Hm; [| discriminate]. cbv zeta.
    pose proof (syntax_add_symbol_keeps "main" "Function" "Global" (-1)%Z s1)
      as H2.
    set (s2 := Syntax.add_symbol _ _ _ _ s1) in *. clearbody s2.
    step_expect Syntax.EOF_LINE.
    assert (H3 : adv sx
                   match Syntax.type_specifier sx with
                   | (Some _, s0) => s0
                   | (None, s0) =>
                       Syntax.syn_error "Any keyword expected" s0
                   end).
    { destruct (is_type_token (token (Syntax.LA sx))) eqn:Hty.
      - destruct (type_specifier_Some _ sx Hty) as [-> _].
        apply consume_adv.
      - rewrite (type_specifier_None _ sx Hty).
        apply prog_adv, syn_error_prog. }
    set (s3 := match Syntax.type_specifier sx with
               | (Some _, s0) => s0
               | (None, s0) => Syntax.syn_error "Any keyword expected" s0
               end) in *. clearbody s3.
    step_expect Syntax.EOF_LINE.
    step_expect Syntax.EOF_LINE.
    assert (H4 : toks (set_cur_scope "Main" sx1) = toks sx1 /\
                 pos (set_cur_scope "Main" sx1) = pos sx1)
      by (split; reflexivity).
    set (s4 := set_cur_scope "Main" sx1) in *. clearbody s4.
    destruct (syntax_parser_total fuel) as (_ & IHsl & _).
    step_bind (adv s4) (IHsl s4).
    step_expect Syntax.EOF_LINE.
    eexists. split; [reflexivity |].
    assert (H5 : toks (set_cur_scope "Global" sx2) = toks sx2 /\
                 pos (set_cur_scope "Global" sx2) = pos sx2)
      by (split; reflexivity).
    close_prog.
  - apply match_None in Hm. destruct Hm as [-> Hne].
    eexists. split; [reflexivity | apply prog_adv, syn_error_prog].
Qed.

Lemma syntax_program_total (fuel : nat) (s : State) :
  3 * (ntok s - pos s) + 3 <= fuel ->
  exists s', Syntax.program fuel s = Some s' /\ adv s s'.
Proof.
  intros Hf. unfold Syntax.program.
  step_bind (adv s) (syntax_global_decl_list_total fuel s).
  destruct (is_type_token (token (Syntax.LA sb))) eqn:Hty.
  - destruct (type_specifier_Some _ sb Hty) as [-> Hin].
    pose proof (consume_adv Syntax.EOF_LINE sb) as H1.
    destruct (syntax_function_def_total fuel
                (norm_type_token (token (Syntax.LA sb)))
                (snd (Syntax.consume sb))) as (s' & He & Ha).
    { numeric. lia. }
    exists s'. split; [exact He | close_prog].
  - rewrite (type_specifier_None _ sb Hty).
    pose proof (syn_error_prog Syntax.EOF_LINE "Any keyword expected" sb)
      as H1.
    eexists. split; [reflexivity | close_prog].
Qed.

(** ** [syntax_analyser.c] *)

Lemma syntax_adds_toks (s s' : State) :
  syntax_adds s s' -> toks s' = toks s.
Proof.
  intros (name & ty & sc & arrsz & ->). apply syntax_add_symbol_keeps.
Qed.

Lemma syntax_adds_orderly (s s' : State) :
  syntax_adds s s' ->
  orderly Syntax.EOF_LINE (syntax_messages ++ []) s s'.
Proof.
  intros (name & ty & sc & arrsz & ->).
  unfold Syntax.add_symbol.
  destruct (MAXSYM <=? nsym s)%nat eqn:E; [apply orderly_refl |].
  apply Nat.leb_gt in E.
  split; [reflexivity |]. split; [trivial |].
  split; [eexists; reflexivity |].
  split; [intros _; unfold nsym in *; cbn; rewrite length_app; cbn; lia |].
  exists []. rewrite app_nil_r. cbn. split; [reflexivity |].
  split; [lia | constructor].
Qed.

Section SyntaxSteps.

Abbreviation steps := (steps Syntax.EOF_LINE [] syntax_adds).

Lemma syntax_add_steps (name ty sc : string) (arrsz : Z) (s : State) :
  steps s (Syntax.add_symbol name ty sc arrsz s).
Proof. apply steps_add. now exists name, ty, sc, arrsz. Qed.

Lemma syntax_array_opt_steps (size_out : Z) (s : State) :
  steps s (snd (Syntax.array_opt size_out s)).
Proof.
  unfold Syntax.array_opt.
  pose proof (match_steps Syntax.EOF_LINE [] syntax_adds "LBRACKET" s) as H1.
  destruct (Syntax.match_ "LBRACKET" s) as [[t |] s1]; cbn [snd] in H1;
    [| exact H1].
  pose proof (match_steps Syntax.EOF_LINE [] syntax_adds "INT_CONST" s1) as H2.
  destruct (Syntax.match_ "INT_CONST" s1) as [[num |] s2]; cbn [snd] in H2;
    steps_expect; cbn [snd]; steps_chain.
Qed.

Lemma syntax_init_opt_steps (s : State) :
  steps s (snd (Syntax.init_opt s)).
Proof.
  unfold Syntax.init_opt.
  pose proof (match_steps Syntax.EOF_LINE [] syntax_adds "ASSIGN" s) as H1.
  destruct (Syntax.match_ "ASSIGN" s) as [[t |] s1]; cbn [snd] in H1;
    [| exact H1].
  cbv zeta. destruct (_ || _); cbn [snd].
  - pose proof (steps_consume Syntax.EOF_LINE [] syntax_adds s1) as H2.
    steps_chain.
  - pose proof (steps_syn_error Syntax.EOF_LINE [] syntax_adds
                  "Identifier or integer constant expected" s1
                  ltac:(cbn; tauto)) as H2.
    steps_chain.
Qed.

Lemma syntax_init_declarator_steps (typestr : string) (s : State) :
  steps s (Syntax.init_declarator typestr s).
Proof.
  unfold Syntax.init_declarator.
  pose proof (match_steps Syntax.EOF_LINE [] syntax_adds "IDENTIFIER" s)
    as H1.
  destruct (Syntax.match_ "IDENTIFIER" s) as [[id |] s1]; cbn [snd] in H1.
  - pose proof (syntax_array_opt_steps (-1) s1) as H2.
    destruct (Syntax.array_opt (-1) s1) as [[b arrsz] s2]. cbn [snd] in H2.
    pose proof (syntax_init_opt_steps s2) as H3.
    set (s3 := snd (Syntax.init_opt s2)) in *. clearbody s3.
    pose proof (syntax_add_steps (lexeme id) typestr (cur_scope s3) arrsz s3)
      as H4.
    steps_chain.
  - pose proof (steps_syn_error Syntax.EOF_LINE [] syntax_adds
                  "Identifier expected" s1 ltac:(cbn; tauto)) as H2.
    steps_chain.
Qed.

Lemma syntax_init_declarator_list_loop_steps (fuel : nat) :
  forall (typestr : string) (s s' : State),
    Syntax.init_declarator_list_loop fuel typestr s = Some s' ->
    steps s s'.
Proof.
  induction fuel as [| fuel IH]; intros typestr s s'; [discriminate |].
  cbn [Syntax.init_declarator_list_loop].
  pose proof (match_steps Syntax.EOF_LINE [] syntax_adds "COMMA" s) as H1.
  destruct (Syntax.match_ "COMMA" s) as [[t |] s1]; cbn [snd] in H1.
  - pose proof (syntax_init_declarator_steps typestr s1) as H2.
    intros H. apply IH in H. steps_chain.
  - intros H. some_inv H. exact H1.
Qed.

Lemma syntax_declaration_steps (fuel : nat) (typestr : string)
    (s s' : State) :
  Syntax.declaration fuel typestr s = Some s' -> steps s s'.
Proof.
  unfold Syntax.declaration, Syntax.init_declarator_list.
  pose proof (syntax_init_declarator_steps typestr s) as H1.
  steps_bind (syntax_init_declarator_list_loop_steps fuel typestr).
  steps_expect. intros H. some_inv H. steps_chain.
Qed.

Lemma syntax_expression_loop_steps (fuel : nat) :
  forall (s s' : State),
    Syntax.expression_loop fuel s = Some s' -> steps s s'.
Proof.
  induction fuel as [| fuel IH]; intros s s'; [discriminate |].
  cbn [Syntax.expression_loop].
  destruct (negb (is_operator (token (Syntax.LA s)))).
  { intros H. some_inv H. apply steps_refl. }
  pose proof (steps_consume Syntax.EOF_LINE [] syntax_adds s) as H1.
  set (s1 := snd (Syntax.consume s)) in *. clearbody s1.
  destruct (_ || _).
  - pose proof (steps_consume Syntax.EOF_LINE [] syntax_adds s1) as H2.
    intros H. apply IH in H. steps_chain.
  - intros H. some_inv H.
    pose proof (steps_syn_error Syntax.EOF_LINE [] syntax_adds
                  "Identifier or integer constant expected" s1
                  ltac:(cbn; tauto)) as H2.
    steps_chain.
Qed.

Lemma syntax_expression_or_error_steps (fuel : nat) (s s' : State) :
  Syntax.expression_or_error fuel s = Some s' -> steps s s'.
Proof.
  unfold Syntax.expression_or_error, Syntax.expression_if_any. cbv zeta.
  destruct (_ || _).
  - pose proof (steps_consume Syntax.EOF_LINE [] syntax_adds s) as H1.
    destruct (Syntax.expression_loop fuel _) as [s1 |] eqn:E;
      [| discriminate].
    apply syntax_expression_loop_steps in E. cbn [bind negb].
    intros H. some_inv H. steps_chain.
  - cbn [bind negb]. intros H. some_inv H.
    apply steps_syn_error. cbn; tauto.
Qed.

Lemma syntax_expr_stmt_steps (fuel : nat) (s s' : State) :
  Syntax.expr_stmt fuel s = Some s' -> steps s s'.
Proof.
  unfold Syntax.expr_stmt.
  pose proof (match_steps Syntax.EOF_LINE [] syntax_adds "SEMICOLON" s) as H1.
  destruct (Syntax.match_ "SEMICOLON" s) as [[t |] s1]; cbn [snd] in H1.
  { intros H. some_inv H. exact H1. }
  steps_bind (syntax_expression_or_error_steps fuel).
  steps_expect. intros H. some_inv H. steps_chain.
Qed.

Lemma syntax_typed_declaration_steps (fuel : nat) (s s' : State) :
  match Syntax.type_specifier s with
  | (None, s) => Some (Syntax.syn_error "Any keyword expected" s)
  | (Some typestr, s) => Syntax.declaration fuel typestr s
  end = Some s' ->
  steps s s'.
Proof.
  pose proof (type_specifier_steps Syntax.EOF_LINE [] syntax_adds s) as H1.
  destruct (Syntax.type_specifier s) as [[ty |] s1]; cbn [snd] in H1.
  - intros H. apply syntax_declaration_steps in H. steps_chain.
  - intros H. some_inv H.
    pose proof (steps_syn_error Syntax.EOF_LINE [] syntax_adds
                  "Any keyword expected" s1 ltac:(cbn; tauto)) as H2.
    steps_chain.
Qed.

Lemma syntax_parser_steps (n : nat) :
  (forall s s', Syntax.statement n s = Some s' -> steps s s') /\
  (forall s s', Syntax.stmt_list_opt n s = Some s' -> steps s s') /\
  (forall s s', Syntax.block n s = Some s' -> steps s s') /\
  (forall s s', Syntax.if_stmt n s = Some s' -> steps s s') /\
  (forall s s', Syntax.while_stmt n s = Some s' -> steps s s') /\
  (forall s s', Syntax.for_stmt n s = Some s' -> steps s s').
Proof.
  induction n as [| n (IHst & IHsl & IHbl & IHif & IHwh & IHfor)].
  { split; [| split; [| split; [| split; [| split]]]];
      intros s s' H; discriminate H. }
  split; [| split; [| split; [| split; [| split]]]]; intros s s'.
  - rewrite syntax_statement_S. cbv zeta.
    destruct (token (Syntax.LA s) =? "LBRACE"); [apply IHbl |].
    destruct (token (Syntax.LA s) =? "IF"); [apply IHif |].
    destruct (token (Syntax.LA s) =? "WHILE"); [apply IHwh |].
    destruct (token (Syntax.LA s) =? "FOR"); [apply IHfor |].
    destruct (is_type_token (token (Syntax.LA s))).
    { apply syntax_typed_declaration_steps. }
    apply syntax_expr_stmt_steps.
  - rewrite syntax_stmt_list_opt_S. cbv zeta.
    destruct (_ || _).
    { intros H. some_inv H. apply steps_refl. }
    steps_bind IHst. intros H. apply IHsl in H. steps_chain.
  - rewrite syntax_block_S.
    pose proof (match_steps Syntax.EOF_LINE [] syntax_adds "LBRACE" s) as H1.
    destruct (Syntax.match_ "LBRACE" s) as [[t |] s1]; cbn [snd] in H1.
    + steps_bind IHsl. steps_expect.
      intros H. some_inv H. steps_chain.
    + intros H. some_inv H.
      pose proof (steps_syn_error Syntax.EOF_LINE [] syntax_adds
                    "{ missing" s1 ltac:(cbn; tauto)) as H2.
      steps_chain.
  - rewrite syntax_if_stmt_S.
    pose proof (match_steps Syntax.EOF_LINE [] syntax_adds "IF" s) as H1.
    destruct (Syntax.match_ "IF" s) as [[t |] s1]; cbn [snd] in H1.
    + steps_expect.
      steps_bind (syntax_expression_or_error_steps n).
      steps_expect. steps_bind IHbl.
      pose proof (match_steps Syntax.EOF_LINE [] syntax_adds "ELSE" sb0)
        as H5.
      destruct (Syntax.match_ "ELSE" sb0) as [[t2 |] s2]; cbn [snd] in H5.
      * intros H. apply IHbl in H. steps_chain.
      * intros H. some_inv H. steps_chain.
    + intros H. some_inv H.
      pose proof (steps_syn_error Syntax.EOF_LINE [] syntax_adds
                    "IF expected" s1 ltac:(cbn; tauto)) as H2.
      steps_chain.
  - rewrite syntax_while_stmt_S.
    pose proof (match_steps Syntax.EOF_LINE [] syntax_adds "WHILE" s) as H1.
    destruct (Syntax.match_ "WHILE" s) as [[t |] s1]; cbn [snd] in H1.
    + steps_expect.
      steps_bind (syntax_expression_or_error_steps n).
      steps_expect. intros H. apply IHbl in H. steps_chain.
    + intros H. some_inv H.
      pose proof (steps_syn_error Syntax.EOF_LINE [] syntax_adds
                    "WHILE expected" s1 ltac:(cbn; tauto)) as H2.
      steps_chain.
  - rewrite syntax_for_stmt_S.
    pose proof (match_steps Syntax.EOF_LINE [] syntax_adds "FOR" s) as H1.
    destruct (Syntax.match_ "FOR" s) as [[t |] s1]; cbn [snd] in H1.
    + steps_expect.
      steps_bind (syntax_expression_or_error_steps n).
      steps_expect.
      steps_bind (syntax_expression_or_error_steps n).
      steps_expect.
      steps_bind (syntax_expression_or_error_steps n).
      steps_expect. intros H. apply IHst in H. steps_chain.
    + intros H. some_inv H.
      pose proof (steps_syn_error Syntax.EOF_LINE [] syntax_adds
                    "FOR expected" s1 ltac:(cbn; tauto)) as H2.
      steps_chain.
Qed.

Lemma syntax_global_decl_list_steps (fuel : nat) :
  forall (s s' : State),
    Syntax.global_decl_list fuel s = Some s' -> steps s s'.
Proof.
  induction fuel as [| fuel IH]; intros s s'; [discriminate |].
  cbn [Syntax.global_decl_list].
  destruct (is_type_token (token (Syntax.LA s))) eqn:Hty; cbn [negb].
  2:{ intros H. some_inv H. apply steps_refl. }
  assert (Hin : pos s < ntok s).
  { apply (LA_not_EOF_inside Syntax.EOF_LINE).
    now apply is_type_token_not_EOF. }
  rewrite (consume_back Syntax.EOF_LINE s Hin).
  destruct (_ =? "MAIN").
  - intros H. some_inv H. apply steps_refl.
  - pose proof (type_specifier_steps Syntax.EOF_LINE [] syntax_adds s) as H3.
    destruct (Syntax.type_specifier s) as [[ty |] s3]; cbn [snd] in H3.
    + steps_bind (syntax_declaration_steps fuel ty).
      intros H. apply IH in H. steps_chain.
    + intros H. some_inv H.
      pose proof (steps_syn_error Syntax.EOF_LINE [] syntax_adds
                    "Any keyword expected" s3 ltac:(cbn; tauto)) as H4.
      steps_chain.
Qed.

Lemma syntax_function_def_steps (fuel : nat) (ret_type : string)
    (s s' : State) :
  Syntax.function_def fuel ret_type s = Some s' -> steps s s'.
Proof.
  unfold Syntax.function_def.
  pose proof (match_steps Syntax.EOF_LINE [] syntax_adds "MAIN" s) as H1.
  destruct (Syntax.match_ "MAIN" s) as [[id |] s1]; cbn [snd] in H1.
  - cbv zeta.
    pose proof (syntax_add_steps "main" "Function" "Global" (-1) s1) as H2.
    set (s2 := Syntax.add_symbol _ _ _ _ s1) in *. clearbody s2.
    steps_expect.
    assert (H3 : steps sx
                   match Syntax.type_specifier sx with
                   | (Some _, s0) => s0
                   | (None, s0) =>
                       Syntax.syn_error "Any keyword expected" s0
                   end).
    { pose proof (type_specifier_steps Syntax.EOF_LINE [] syntax_adds sx)
        as H.
      destruct (Syntax.type_specifier sx) as [[ty |] s0]; cbn [snd] in H;
        [exact H |].
      pose proof (steps_syn_error Syntax.EOF_LINE [] syntax_adds
                    "Any keyword expected" s0 ltac:(cbn; tauto)) as H4.
      steps_chain. }
    set (s3 := match Syntax.type_specifier sx with
               | (Some _, s0) => s0
               | (None, s0) => Syntax.syn_error "Any keyword expected" s0
               end) in *. clearbody s3.
    steps_expect. steps_expect.
    pose proof (steps_scope Syntax.EOF_LINE [] syntax_adds "Main" sx1
                  (or_introl eq_refl)) as H4.
    set (s4 := set_cur_scope "Main" sx1) in *. clearbody s4.
    destruct (syntax_parser_steps fuel) as (_ & IHsl & _).
    steps_bind IHsl. steps_expect. intros H. some_inv H.
    pose proof (steps_scope Syntax.EOF_LINE [] syntax_adds "Global" sx2
                  (or_intror eq_refl)) as H6.
    steps_chain.
  - intros H. some_inv H.
    pose proof (steps_syn_error Syntax.EOF_LINE [] syntax_adds
                  "MAIN expected" s1 ltac:(cbn; tauto)) as H2.
    steps_chain.
Qed.

Lemma syntax_program_steps (fuel : nat) (s s' : State) :
  Syntax.program fuel s = Some s' -> steps s s'.
Proof.
  unfold Syntax.program.
  steps_bind (syntax_global_decl_list_steps fuel).
  pose proof (type_specifier_steps Syntax.EOF_LINE [] syntax_adds sb) as H1.
  destruct (Syntax.type_specifier sb) as [[rtype |] s1]; cbn [snd] in H1.
  - intros H. apply syntax_function_def_steps in H. steps_chain.
  - intros H. some_inv H.
    pose proof (steps_syn_error Syntax.EOF_LINE [] syntax_adds
                  "Any keyword expected" s1 ltac:(cbn; tauto)) as H2.
    steps_chain.
Qed.

End SyntaxSteps.

(** * Whole runs of the parsers *)

Lemma orderly_from_start (eofl : Z) (msgs : list string) (l : list Tok)
    (s' : State) :
  orderly eofl msgs (init_state l) s' ->
  toks s' = l /\ pos s' <= length l /\ nsym s' <= MAXSYM /\
  error_count s' = Z.of_nat (length (stderr s')) /\
  Forall (fun e => known_line eofl l (fst e) /\ In (snd e) msgs) (stderr s').
Proof.
  intros (Ht & Hp & _ & Hn & (e & He & Hc & Hf)).
  cbn [init_state toks pos stderr error_count app] in *.
  split; [exact Ht |].
  split; [unfold ntok in Hp; rewrite Ht in Hp; apply Hp; cbn; lia |].
  split; [apply Hn; unfold nsym, MAXSYM; cbn [symtab init_state length]; lia |].
  rewrite He, Hc. split; [lia | exact Hf].
Qed.

(** X15: on every token list the parser of [semantic_analyser.c] comes to
    an end within [3 * ntok + 1] turns of its loops.  It leaves the tokens
    as they are and the cursor inside them, holds at most [MAXSYM] symbols,
    has counted in [error_count] exactly the lines that it wrote to
    [stderr], and each of these lines carries one of the messages of the
    program and the line number of a token of the file, or 0. *)
Theorem X15_semantic_parser_run (l : list Tok) :
  exists s',
    Semantic.program (3 * length l + 1) (init_state l) = Some s' /\
    toks s' = l /\ pos s' <= length l /\ nsym s' <= MAXSYM /\
    error_count s' = Z.of_nat (length (stderr s')) /\
    Forall (fun e =>
              (fst e = 0%Z \/ exists t, In t l /\ line t = fst e) /\
              In (snd e) (syntax_messages ++ semantic_messages))
           (stderr s').
Proof.
  destruct (semantic_program_total (3 * length l + 1) (init_state l))
    as (s' & He & _).
  { unfold ntok. cbn [toks pos init_state]. lia. }
  exists s'. split; [exact He |].
  apply semantic_program_steps in He.
  apply (steps_orderly _ _ _ semantic_adds_orderly) in He.
  apply orderly_from_start in He.
  destruct He as (Ht & Hp & Hn & Hc & Hf).
  repeat (split; [assumption |]).
  eapply Forall_impl; [| exact Hf].
  intros e [[H | [H | H]] Hm]; (split; [| exact Hm]); auto.
Qed.

(** X16: the same for the parser of [sematic_analyser.c], whatever the
    two locals of its parameter loop hold on entry: it comes to an end
    within [3 * ntok + 3] turns, with the tokens untouched, the cursor
    inside them, at most [MAXSYM] symbols, [error_count] equal to the
    number of lines on [stderr], and on each line one of the messages of
    the program with the line of a token of the file, 999999 or 0. *)
Theorem X16_sematic_parser_run (l : list Tok) (pty0 : string) (pid0 : Tok) :
  exists s',
    Sematic.program (3 * length l + 3) pty0 pid0 (init_state l) = Some s' /\
    toks s' = l /\ pos s' <= length l /\ nsym s' <= MAXSYM /\
    error_count s' = Z.of_nat (length (stderr s')) /\
    Forall (fun e =>
              (fst e = 999999%Z \/ fst e = 0%Z \/
               exists t, In t l /\ line t = fst e) /\
              In (snd e) (syntax_messages ++ semantic_messages))
           (stderr s').
Proof.
  destruct (sematic_program_total (3 * length l + 3) pty0 pid0 (init_state l))
    as (s' & He & _).
  { unfold ntok. cbn [toks pos init_state]. lia. }
  exists s'. split; [exact He |].
  apply sematic_program_steps in He.
  apply (steps_orderly _ _ _ sematic_adds_orderly) in He.
  apply orderly_from_start in He.
  destruct He as (Ht & Hp & Hn & Hc & Hf).
  repeat (split; [assumption |]). exact Hf.
Qed.

(** X17: the parser of [syntax_analyser.c] comes to an end on every token
    list within [3 * ntok + 3] turns, with the tokens untouched, the cursor
    inside them and at most [MAXSYM] symbols; every line it writes to
    [stderr] is counted and carries a syntax message, never one of the
    four semantic messages. *)
Theorem X17_syntax_parser_run (l : list Tok) :
  exists s',
    Syntax.program (3 * length l + 3) (init_state l) = Some s' /\
    toks s' = l /\ pos s' <= length l /\ nsym s' <= MAXSYM /\
    error_count s' = Z.of_nat (length (stderr s')) /\
    Forall (fun e =>
              (fst e = 999999%Z \/ fst e = 0%Z \/
               exists t, In t l /\ line t = fst e) /\
              In (snd e) syntax_messages /\
              ~ In (snd e) semantic_messages)
           (stderr s').
Proof.
  destruct (syntax_program_total (3 * length l + 3) (init_state l))
    as (s' & He & _).
  { unfold ntok. cbn [toks pos init_state]. lia. }
  exists s'. split; [exact He |].
  apply syntax_program_steps in He.
  apply (steps_orderly _ _ _ syntax_adds_orderly) in He.
  rewrite app_nil_r in He.
  apply orderly_from_start in He.
  destruct He as (Ht & Hp & Hn & Hc & Hf).
  repeat (split; [assumption |]).
  eapply Forall_impl; [| exact Hf].
  intros e [Hl Hm]. split; [exact Hl |]. split; [exact Hm |].
  intros Hs. revert Hm. cbn in Hs.
  destruct Hs as [<- | [<- | [<- | [<- | []]]]]; cbn;
    intros H; repeat destruct H as [H | H]; try discriminate H; exact H.
Qed.

(** ** What the steps keep true *)
Section StepsKeep.

Variable eofl : Z.
Variable SEM : list string.
Variable ADD : State -> State -> Prop.
Variable P : State -> Prop.

Hypothesis P_table :
  forall s s', toks s' = toks s -> symtab s' = symtab s ->
               cur_scope s' = cur_scope s -> P s -> P s'.
Hypothesis P_scope :
  forall sc s, sc = "Main" \/ sc = "Global" -> P s -> P (set_cur_scope sc s).
Hypothesis P_add : forall s s', ADD s s' -> P s -> P s'.

Lemma steps_keep (s s' : State) : steps eofl SEM ADD s s' -> P s -> P s'.
Proof.
  induction 1 as [s | s1 s2 s3 _ IH1 _ IH2 | s | msg s Hm
                  | msg ln s Hm Hl | s s' Ha | sc s Hs]; intros H.
  - exact H.
  - apply IH2, IH1, H.
  - destruct (consume_keeps eofl s) as (H1 & H2 & _).
    apply (P_table s); [apply consume_adv | exact H1 | exact H2 | exact H].
  - destruct (syn_error_keeps eofl msg s) as (H1 & H2 & _).
    apply (P_table s); [apply syn_error_prog | exact H1 | exact H2 | exact H].
  - now apply (P_table s).
  - now apply (P_add s).
  - now apply P_scope.
Qed.

End StepsKeep.

Lemma snprintf_length (n : nat) (str : string) :
  String.length (snprintf n str) <= n - 1.
Proof.
  unfold snprintf. generalize (n - 1) as k. clear n.
  induction str as [| c str IH]; intros [| k]; cbn; try lia.
  specialize (IH k). lia.
Qed.

Lemma not_named_not_key (name sc : string) (l : list Sym) :
  existsb (fun y => (sym_lexeme y =? name) &&& (sym_scope y =? sc)) l = false ->
  ~ In (name, sc) (map symbol_key l).
Proof.
  intros He Hin. apply in_map_iff in Hin. destruct Hin as (y & Hk & Hy).
  assert (Ht : existsb (fun y => (sym_lexeme y =? name)
                                 &&& (sym_scope y =? sc)) l = true).
  { apply existsb_named. exists y. split; [exact Hy |].
    unfold symbol_key in Hk. injection Hk as H1 H2. split; assumption. }
  congruence.
Qed.

Lemma NoDup_snoc {A : Type} (l : list A) (x : A) :
  NoDup l -> ~ In x l -> NoDup (l ++ [x]).
Proof.
  induction l as [| a l IH]; intros Hl Hx; cbn.
  - constructor; [intros [] | constructor].
  - inversion Hl as [| a' l' Ha Hl']; subst.
    constructor.
    + rewrite in_app_iff. intros [H | [H | []]]; [now apply Ha |].
      apply Hx. now left.
    + apply IH; [exact Hl' |]. intros H. apply Hx. now right.
Qed.

Lemma semantic_adds_table (l : list Tok) (s s' : State) :
  Forall (fun t => String.length (lexeme t) < 128) l ->
  semantic_adds s s' -> semantic_table l s -> semantic_table l s'.
Proof.
  intros Hlen (name & ty & sc & arrsz & t & -> & Hin & Hcase)
         (Ht & Hsc & Hnd & Hall).
  unfold Semantic.add_symbol.
  destruct (existsb _ _) eqn:Ex; [repeat split; assumption |].
  destruct (MAXSYM <=? nsym s)%nat; [repeat split; assumption |].
  rewrite Ht in Hin.
  assert (Hname : snprintf 128 name = name /\ snprintf 64 sc = sc /\
                  In sc ["Global"; "Main"] /\
                  entered_from l (mkSym name (snprintf 16 ty) sc arrsz)).
  { destruct Hcase as [(Htk & -> & Hty & Hs) | (Htk & -> & -> & ->)].
    - assert (Hs' : In sc ["Global"; "Main"]).
      { destruct Hs as [-> | ->]; [exact Hsc | cbn; tauto]. }
      split.
      { apply snprintf_fits.
        rewrite Forall_forall in Hlen. now apply Hlen. }
      split.
      { destruct Hs' as [<- | [<- | []]]; reflexivity. }
      split; [exact Hs' |].
      left. cbn [sym_type sym_scope sym_lexeme].
      split.
      { cbn in Hty. destruct Hty as [<- | [<- | [<- | []]]]; cbn; tauto. }
      split; [exact Hs' |]. now exists t.
    - split; [reflexivity |]. split; [reflexivity |].
      split; [cbn; tauto |].
      right. cbn [sym_type sym_scope sym_lexeme].
      repeat split. now exists t. }
  destruct Hname as (-> & -> & _ & Hent).
  split; [exact Ht |]. split; [exact Hsc |].
  cbn [symtab set_symtab]. split.
  - rewrite map_app. cbn [map]. apply NoDup_snoc; [exact Hnd |].
    now apply not_named_not_key.
  - apply Forall_app. split; [exact Hall |].
    constructor; [exact Hent | constructor].
Qed.

Lemma semantic_program_table (l : list Tok) (fuel : nat) (s' : State) :
  Forall (fun t => String.length (lexeme t) < 128) l ->
  Semantic.program fuel (init_state l) = Some s' ->
  semantic_table l s'.
Proof.
  intros Hlen He. apply semantic_program_steps in He.
  apply (steps_keep _ _ _ (semantic_table l)) in He; [exact He | | | |].
  - intros s1 s2 Ht Hs Hc (H1 & H2 & H3 & H4).
    unfold semantic_table. rewrite Ht, Hs, Hc. repeat split; assumption.
  - intros sc s1 Hsc (H1 & H2 & H3 & H4).
    split; [exact H1 |]. split; [| split; assumption].
    cbn [cur_scope set_cur_scope]. destruct Hsc as [-> | ->]; cbn; tauto.
  - intros s1 s2. now apply semantic_adds_table.
  - split; [reflexivity |]. split; [cbn; tauto |].
    split; constructor.
Qed.

(** X18: when no lexeme of the token list has more than 127 characters,
    the table that [semantic_analyser.c] ends with holds no two symbols of
    the same name and scope, and every symbol in it is either a variable
    of type [Void], [Char] or [Int] in scope [Global] or [Main] that an
    [IDENTIFIER] token of the list names, or the function [main] in scope
    [Global]. *)
Theorem X18_semantic_table_keys (l : list Tok) (fuel : nat) (s' : State) :
  Forall (fun t => String.length (lexeme t) < 128) l ->
  Semantic.program fuel (init_state l) = Some s' ->
  NoDup (map symbol_key (symtab s')) /\ Forall (entered_from l) (symtab s').
Proof.
  intros Hlen He.
  destruct (semantic_program_table l fuel s' Hlen He) as (_ & _ & Hnd & Hall).
  split; assumption.
Qed.

Lemma X18_witness :
  exists s',
    Semantic.program 40 (init_state shadowing_program) = Some s' /\
    map symbol_key (symtab s') =
      [("x", "Global"); ("main", "Global"); ("x", "Main")] /\
    NoDup (map symbol_key (symtab s')) /\
    Forall (entered_from shadowing_program) (symtab s').
Proof.
  eexists. split; [vm_compute; reflexivity |].
  split; [reflexivity |].
  apply (X18_semantic_table_keys shadowing_program 40);
    [| vm_compute; reflexivity].
  repeat (constructor; [cbn; lia |]). constructor.
Defined.

Lemma names_cut_none (name : string) (s : State) :
  names_cut s -> 128 <= String.length name ->
  existsb (fun y => (sym_lexeme y =? name) &&& (sym_scope y =? cur_scope s))
          (symtab s) = false /\
  forall sc,
    find (fun y => (sym_lexeme y =? name) &&& (sym_scope y =? sc)) (symtab s)
    = None /\
    existsb (fun y => (sym_lexeme y =? name) &&& (sym_scope y =? sc))
            (symtab s) = false.
Proof.
  intros Hc Hn.
  assert (H : forall sc y, In y (symtab s) ->
                ((sym_lexeme y =? name) &&& (sym_scope y =? sc)) = false).
  { intros sc y Hy. unfold names_cut in Hc. rewrite Forall_forall in Hc.
    specialize (Hc y Hy).
    destruct (String.eqb_spec (sym_lexeme y) name) as [E |]; [| reflexivity].
    rewrite E in Hc. lia. }
  assert (Hex : forall sc,
             existsb (fun y => (sym_lexeme y =? name) &&& (sym_scope y =? sc))
                     (symtab s) = false).
  { intros sc.
    destruct (existsb _ _) eqn:E; [| reflexivity].
    apply existsb_exists in E. destruct E as (y & Hy & E).
    now rewrite (H sc y Hy) in E. }
  split; [apply Hex |]. intros sc. split; [| apply Hex].
  destruct (find _ _) as [y |] eqn:E; [| reflexivity].
  apply find_some in E. destruct E as [Hy E]. now rewrite (H sc y Hy) in E.
Qed.

Lemma names_cut_snoc (name ty sc : string) (n m : nat) (arrsz : Z)
    (s : State) :
  names_cut s ->
  names_cut (set_symtab
               (symtab s ++
                [mkSym (snprintf 128 name) (snprintf n ty) (snprintf m sc)
                       arrsz]) s).
Proof.
  intros H. unfold names_cut. cbn [symtab set_symtab].
  apply Forall_app. split; [exact H |].
  constructor; [| constructor]. cbn [sym_lexeme].
  pose proof (snprintf_length 128 name). lia.
Qed.

Lemma semantic_adds_names_cut (s s' : State) :
  semantic_adds s s' -> names_cut s -> names_cut s'.
Proof.
  intros (name & ty & sc & arrsz & t & -> & _) H.
  unfold Semantic.add_symbol.
  destruct (existsb _ _); [exact H |].
  destruct (MAXSYM <=? nsym s)%nat; [exact H |].
  now apply names_cut_snoc.
Qed.

Lemma sematic_adds_names_cut (s s' : State) :
  sematic_adds s s' -> names_cut s -> names_cut s'.
Proof.
  intros (name & ty & sc & arrsz & ->) H.
  unfold Sematic.add_symbol.
  destruct (MAXSYM <=? nsym s)%nat; [exact H |].
  destruct (existsb _ _); [exact H |].
  now apply names_cut_snoc.
Qed.

Lemma names_cut_table (s s' : State) :
  toks s' = toks s -> symtab s' = symtab s -> cur_scope s' = cur_scope s ->
  names_cut s -> names_cut s'.
Proof. intros _ Hs _. unfold names_cut. now rewrite Hs. Qed.

(** X19: the table keeps 127 characters of a name, and both
    [lookup_symbol] and the duplicate check of [add_symbol] compare the
    whole name with what the table keeps.  So after any run of either
    type-checking parser, a name of 128 characters or more is not found by
    [lookup_symbol] (a use of it is reported as undeclared), and declaring
    it again is not reported as a multiple declaration. *)
Theorem X19_long_names_are_never_found (l : list Tok) (fuel : nat)
    (pty0 : string) (pid0 : Tok) (s' : State) (name : string) :
  Semantic.program fuel (init_state l) = Some s' \/
  Sematic.program fuel pty0 pid0 (init_state l) = Some s' ->
  128 <= String.length name ->
  lookup_symbol name s' = None /\
  forall (ty sc : string) (arrsz ln : Z),
    stderr (Semantic.add_symbol name ty sc arrsz ln s') = stderr s' /\
    stderr (Sematic.add_symbol name ty sc arrsz s') = stderr s'.
Proof.
  intros He Hn.
  assert (Hc : names_cut s').
  { destruct He as [He | He].
    - apply semantic_program_steps in He.
      apply (steps_keep _ _ _ names_cut) in He; [exact He | | | |].
      + apply names_cut_table.
      + intros sc s1 _ H. exact H.
      + apply semantic_adds_names_cut.
      + constructor.
    - apply sematic_program_steps in He.
      apply (steps_keep _ _ _ names_cut) in He; [exact He | | | |].
      + apply names_cut_table.
      + intros sc s1 _ H. exact H.
      + apply sematic_adds_names_cut.
      + constructor. }
  destruct (names_cut_none name s' Hc Hn) as [_ Hall].
  split.
  - unfold lookup_symbol.
    destruct (Hall (cur_scope s')) as [-> _].
    now destruct (Hall "Global") as [-> _].
  - intros ty sc arrsz ln. destruct (Hall sc) as [_ Hex].
    unfold Semantic.add_symbol, Sematic.add_symbol. rewrite Hex.
    destruct (MAXSYM <=? nsym s')%nat; split; reflexivity.
Qed.

Lemma X19_witness :
  exists s',
    Semantic.program 40 (init_state long_name_program) = Some s' /\
    nsym s' = 3 /\ stderr s' = [(4%Z, "Undeclared identifier.")] /\
    lookup_symbol long_name s' = None /\
    forall (ty sc : string) (arrsz ln : Z),
      stderr (Semantic.add_symbol long_name ty sc arrsz ln s') = stderr s' /\
      stderr (Sematic.add_symbol long_name ty sc arrsz s') = stderr s'.
Proof.
  eexists. split; [vm_compute; reflexivity |].
  split; [reflexivity |]. split; [reflexivity |].
  apply (X19_long_names_are_never_found long_name_program 40 ""
           (mkTok "" "" 0)).
  - left. vm_compute. reflexivity.
  - apply Nat.leb_le. vm_compute. reflexivity.
Defined.

(** * The programs as a whole *)

(** X20: [main] of [semantic_analyser.c].  It returns 1 without parsing
    when [tokens.txt] cannot be opened or is empty.  On every other file it
    returns 0, whatever it found: the loader keeps at most [MAXTOK] tokens
    that fit their fields, the parser comes to an end on them with the
    cursor inside the tokens and at most [MAXSYM] symbols, and the number
    in the summary line, [error_count], is the number of lines written to
    [stderr], each with one of the messages of the program and the line of
    a loaded token, or 0. *)
Theorem X20_semantic_main :
  (forall fuel, Semantic.main fuel None = Some (1%Z, init_state [])) /\
  (forall fuel,
     Semantic.main fuel (Some EmptyString) = Some (1%Z, init_state [])) /\
  (forall c f,
     exists s',
       Semantic.main (String.length f + 3 * MAXTOK + 2) (Some (String c f)) =
       Some (0%Z, s') /\
       Forall fits (toks s') /\ ntok s' <= MAXTOK /\ pos s' <= ntok s' /\
       nsym s' <= MAXSYM /\
       error_count s' = Z.of_nat (length (stderr s')) /\
       Forall (fun e =>
                 (fst e = 0%Z \/ exists t, In t (toks s') /\ line t = fst e) /\
                 In (snd e) (syntax_messages ++ semantic_messages))
              (stderr s')).
Proof.
  split; [reflexivity |]. split; [reflexivity |]. intros c f.
  set (fuel := String.length f + 3 * MAXTOK + 2).
  unfold Semantic.main, Semantic.load_tokens.
  destruct (Semantic.fgets 512 (String c f)) as [[l0 f'] |] eqn:E;
    [| discriminate].
  apply fgets_shorter in E; [| lia]. cbn [String.length] in E.
  destruct (semantic_load_any fuel f' (set_toks [] (init_state [])))
    as (l & He & Hl & Hn).
  { unfold fuel. lia. }
  { constructor. }
  { unfold ntok. cbn [toks set_toks init_state length]. lia. }
  rewrite He. cbn [bind negb].
  change (set_toks l (set_toks [] (init_state []))) with (init_state l).
  destruct (semantic_program_total fuel (init_state l)) as (s' & Hp & _).
  { unfold ntok, fuel. cbn [toks pos init_state]. lia. }
  rewrite Hp. cbn [bind]. exists s'. split; [reflexivity |].
  apply semantic_program_steps in Hp.
  apply (steps_orderly _ _ _ semantic_adds_orderly) in Hp.
  apply orderly_from_start in Hp.
  destruct Hp as (Ht & Hpos & Hsym & Hc & Hf).
  unfold ntok. rewrite Ht.
  repeat (split; [assumption |]).
  eapply Forall_impl; [| exact Hf].
  intros e [[H | [H | H]] Hm]; (split; [| exact Hm]); auto.
Qed.

(** X21: [main] of [syntax_analyser.c].  It returns 1 only when
    [tokens.txt] cannot be opened; on every file that can be opened, the
    empty one included, it returns 0 with at most [MAXTOK] tokens loaded,
    the parser at an end with the cursor inside them, at most [MAXSYM]
    symbols, and on [stderr] only syntax messages, each with the line of a
    loaded token, 999999 or 0.  On the empty file the only message is
    [Any keyword expected], at line 999999. *)
Theorem X21_syntax_main :
  (forall fuel, Syntax.main fuel None = Some (1%Z, init_state [])) /\
  (forall f,
     exists s',
       Syntax.main (String.length f + 3 * MAXTOK + 4) (Some f) =
       Some (0%Z, s') /\
       Forall fits_row (toks s') /\ ntok s' <= MAXTOK /\ pos s' <= ntok s' /\
       nsym s' <= MAXSYM /\
       error_count s' = Z.of_nat (length (stderr s')) /\
       Forall (fun e =>
                 (fst e = 999999%Z \/ fst e = 0%Z \/
                  exists t, In t (toks s') /\ line t = fst e) /\
                 In (snd e) syntax_messages)
              (stderr s')) /\
  (forall fuel,
     exists s',
       Syntax.main (S fuel) (Some EmptyString) = Some (0%Z, s') /\
       toks s' = [] /\ symtab s' = [] /\
       stderr s' = [(999999%Z, "Any keyword expected")]).
Proof.
  split; [reflexivity |]. split.
  - intros f.
    set (fuel := String.length f + 3 * MAXTOK + 4).
    unfold Syntax.main, Syntax.read_tokens.
    destruct (syntax_read_any fuel true f (init_state []))
      as (l & He & Hl & Hn).
    { unfold fuel. lia. }
    { constructor. }
    { unfold ntok. cbn [toks set_toks init_state length]. lia. }
    rewrite He. cbn [bind negb].
    change (set_toks l (init_state [])) with (init_state l).
    destruct (syntax_program_total fuel (init_state l)) as (s' & Hp & _).
    { unfold ntok, fuel. cbn [toks pos init_state]. lia. }
    rewrite Hp. cbn [bind]. exists s'. split; [reflexivity |].
    apply syntax_program_steps in Hp.
    apply (steps_orderly _ _ _ syntax_adds_orderly) in Hp.
    rewrite app_nil_r in Hp.
    apply orderly_from_start in Hp.
    destruct Hp as (Ht & Hpos & Hsym & Hc & Hf).
    unfold ntok. rewrite Ht.
    repeat (split; [assumption |]). exact Hf.
  - intros fuel. eexists. split; [reflexivity |]. repeat split.
Qed.

Lemma find_by_key (y : Sym) (l : list Sym) :
  NoDup (map symbol_key l) -> In y l ->
  find (fun z => (sym_lexeme z =? sym_lexeme y)
                 &&& (sym_scope z =? sym_scope y)) l = Some y.
Proof.
  induction l as [| z l IH]; intros Hnd Hin; [destruct Hin |].
  cbn [map] in Hnd. inversion Hnd as [| k ks Hk Hnd']; subst.
  cbn [find]. destruct Hin as [-> | Hin].
  - now rewrite !String.eqb_refl.
  - destruct (String.eqb_spec (sym_lexeme z) (sym_lexeme y)) as [E1 |];
      [| now apply IH].
    destruct (String.eqb_spec (sym_scope z) (sym_scope y)) as [E2 |];
      [| now apply IH].
    exfalso. apply Hk. apply in_map_iff. exists y.
    split; [| exact Hin]. unfold symbol_key. now rewrite E1, E2.
Qed.

(** X22: when no lexeme of the token list has more than 127 characters,
    every symbol of the table that [semantic_analyser.c] ends with is
    found again: with the scope register at the scope of the symbol,
    [lookup_symbol] of its name returns that very symbol, so that its type
    and array size are the ones it was declared with. *)
Theorem X22_semantic_table_lookup (l : list Tok) (fuel : nat) (s' : State)
    (y : Sym) :
  Forall (fun t => String.length (lexeme t) < 128) l ->
  Semantic.program fuel (init_state l) = Some s' ->
  In y (symtab s') ->
  lookup_symbol (sym_lexeme y) (set_cur_scope (sym_scope y) s') = Some y.
Proof.
  intros Hlen He Hin.
  destruct (semantic_program_table l fuel s' Hlen He) as (_ & _ & Hnd & _).
  unfold lookup_symbol. cbn [cur_scope symtab set_cur_scope].
  now rewrite (find_by_key y (symtab s') Hnd Hin).
Qed.

Lemma X22_witness :
  exists s',
    Semantic.program 40 (init_state shadowing_program) = Some s' /\
    lookup_symbol "x" (set_cur_scope "Main" s') =
    Some (mkSym "x" "Char" "Main" 0).
Proof.
  eexists. split; [vm_compute; reflexivity |].
  apply (X22_semantic_table_lookup shadowing_program 40 _
           (mkSym "x" "Char" "Main" 0)).
  - repeat (constructor; [cbn; lia |]). constructor.
  - vm_compute. reflexivity.
  - cbn. tauto.
Defined.

(** * The type checks leave the syntax analysis alone *)

Lemma same_syntax_refl (s : State) : same_syntax s s.
Proof. repeat split. Qed.

Lemma same_syntax_trans (a b c : State) :
  same_syntax a b -> same_syntax b c -> same_syntax a c.
Proof.
  intros (H1 & H2 & H3) (H4 & H5 & H6). repeat split; congruence.
Qed.

Lemma same_result_bind (r1 r2 : option State)
    (k1 k2 : State -> option State) :
  same_result r1 r2 ->
  (forall a b, same_syntax a b -> same_result (k1 a) (k2 b)) ->
  same_result (bind r1 k1) (bind r2 k2).
Proof.
  destruct r1 as [a |], r2 as [b |]; cbn [same_result bind]; intros H Hk;
    try contradiction; [now apply Hk | exact I].
Qed.

Section SameCursor.

Variable eofl : Z.

Lemma same_LA (s1 s2 : State) :
  same_syntax s1 s2 -> Cursor.LA eofl s1 = Cursor.LA eofl s2.
Proof. intros (Ht & Hp & _). unfold Cursor.LA, ntok. now rewrite Ht, Hp. Qed.

Lemma same_consume (s1 s2 : State) :
  same_syntax s1 s2 ->
  same_syntax (snd (Cursor.consume eofl s1)) (snd (Cursor.consume eofl s2)).
Proof.
  intros (Ht & Hp & He). unfold Cursor.consume, ntok. cbn [snd].
  rewrite Ht, Hp.
  destruct (pos s2 <? length (toks s2))%nat; repeat split;
    cbn [toks pos stderr set_pos]; congruence.
Qed.

Lemma same_match (kind : string) (s1 s2 : State) :
  same_syntax s1 s2 ->
  fst (Cursor.match_ eofl kind s1) = fst (Cursor.match_ eofl kind s2) /\
  same_syntax (snd (Cursor.match_ eofl kind s1))
              (snd (Cursor.match_ eofl kind s2)).
Proof.
  intros H. unfold Cursor.match_. rewrite (same_LA _ _ H).
  destruct (_ =? _); cbn [fst snd].
  - split; [reflexivity | now apply same_consume].
  - split; [reflexivity | exact H].
Qed.

Lemma same_skip_loop (fuel : nat) :
  forall (ln : Z) (s1 s2 : State),
    same_syntax s1 s2 ->
    same_syntax (Cursor.skip_line_tokens_loop eofl fuel ln s1)
                (Cursor.skip_line_tokens_loop eofl fuel ln s2).
Proof.
  induction fuel as [| fuel IH]; intros ln s1 s2 H; [exact H |].
  cbn [Cursor.skip_line_tokens_loop].
  destruct H as (Ht & Hp & He). unfold ntok. rewrite Ht, Hp.
  destruct (_ && _); [| repeat split; assumption].
  apply IH. repeat split; cbn [toks pos stderr set_pos]; congruence.
Qed.

Lemma same_syn_error (msg : string) (s1 s2 : State) :
  existsb (String.eqb msg) semantic_messages = false ->
  same_syntax s1 s2 ->
  same_syntax (Cursor.syn_error eofl msg s1) (Cursor.syn_error eofl msg s2).
Proof.
  intros Hm H. unfold Cursor.syn_error, Cursor.skip_line_tokens.
  rewrite (same_LA _ _ H). destruct H as (Ht & Hp & He).
  unfold ntok. cbn [toks pos]. rewrite Ht, Hp.
  apply same_skip_loop. repeat split; cbn [toks pos stderr]; try assumption.
  rewrite !filter_app, He. reflexivity.
Qed.

Lemma same_expect (kind msg : string) (s1 s2 : State) :
  existsb (String.eqb msg) semantic_messages = false ->
  same_syntax s1 s2 ->
  same_syntax (Cursor.expect eofl kind msg s1)
              (Cursor.expect eofl kind msg s2).
Proof.
  intros Hm H. unfold Cursor.expect.
  destruct (same_match kind s1 s2 H) as [Ho Hs].
  destruct (Cursor.match_ eofl kind s1) as [[t1 |] a],
           (Cursor.match_ eofl kind s2) as [[t2 |] b];
    cbn [fst snd] in Ho, Hs; try discriminate Ho; [exact Hs |].
  now apply same_syn_error.
Qed.

Lemma same_type_specifier (s1 s2 : State) :
  same_syntax s1 s2 ->
  fst (Cursor.type_specifier eofl s1) = fst (Cursor.type_specifier eofl s2) /\
  same_syntax (snd (Cursor.type_specifier eofl s1))
              (snd (Cursor.type_specifier eofl s2)).
Proof.
  intros H. unfold Cursor.type_specifier. rewrite (same_LA _ _ H).
  destruct (negb _); cbn [fst snd].
  - split; [reflexivity | exact H].
  - split; [reflexivity | now apply same_consume].
Qed.

End SameCursor.

Lemma same_semantic_error (msg : string) (ln : Z) (s1 s2 : State) :
  existsb (String.eqb msg) semantic_messages = true ->
  same_syntax s1 s2 -> same_syntax (semantic_error msg ln s1) s2.
Proof.
  intros Hm (Ht & Hp & He). repeat split; cbn [toks pos stderr semantic_error];
    try assumption.
  rewrite filter_app. cbn [filter]. unfold syntactic at 2. cbn [snd].
  rewrite Hm. cbn [negb]. now rewrite app_nil_r.
Qed.

Lemma same_apply_binary_op (op : string) (l r ln : Z) (s1 s2 : State) :
  same_syntax s1 s2 -> same_syntax (snd (apply_binary_op op l r ln s1)) s2.
Proof.
  intros H. unfold apply_binary_op.
  repeat match goal with
         | |- context [if ?b then _ else _] => destruct b
         end; cbn [snd]; try exact H;
    now apply same_semantic_error.
Qed.

Lemma same_operand (b : Tok) (s1 s2 : State) :
  same_syntax s1 s2 ->
  same_syntax
    (snd (match lookup_symbol (lexeme b) s1 with
          | None =>
              (TYPE_ERROR, semantic_error "Undeclared identifier." (line b) s1)
          | Some y => (str_to_type (sym_type y), s1)
          end)) s2.
Proof.
  intros H. destruct (lookup_symbol _ _); cbn [snd]; [exact H |].
  now apply same_semantic_error.
Qed.

Lemma same_sematic_add (name ty sc : string) (arrsz : Z) (s1 s2 : State) :
  same_syntax s1 s2 ->
  same_syntax (Sematic.add_symbol name ty sc arrsz s1) s2.
Proof.
  intros H. unfold Sematic.add_symbol.
  destruct (MAXSYM <=? nsym s1)%nat; [exact H |].
  destruct (existsb _ _); [now apply same_semantic_error | exact H].
Qed.

Lemma same_syntax_add (name ty sc : string) (arrsz : Z) (s1 s2 : State) :
  same_syntax s1 s2 ->
  same_syntax s1 (Syntax.add_symbol name ty sc arrsz s2).
Proof.
  intros H. unfold Syntax.add_symbol.
  destruct (MAXSYM <=? nsym s2)%nat; exact H.
Qed.

(** Both sides look at the same token through [match]. *)
Ltac sim_match k a b H t sa sb Hs :=
  let Ho := fresh "Ho" in
  let t' := fresh "t" in
  destruct (same_match Sematic.EOF_LINE k a b H) as [Ho Hs];
  destruct (Cursor.match_ Sematic.EOF_LINE k a) as [[t |] sa];
  destruct (Cursor.match_ Sematic.EOF_LINE k b) as [[t' |] sb];
  cbn [fst snd] in Ho, Hs; try discriminate Ho;
  [injection Ho as <- |].

Ltac sim_expect H :=
  cbv beta zeta;
  match goal with
  | |- context [Cursor.expect ?e ?k ?m ?a] =>
      match type of H with
      | same_syntax a ?b =>
          let Hx := fresh "Hx" in
          let a' := fresh "sa" in
          let b' := fresh "sb" in
          pose proof (same_expect e k m a b eq_refl H) as Hx;
          set (a' := Cursor.expect e k m a) in *;
          set (b' := Cursor.expect e k m b) in *;
          clearbody a' b'
      end
  end.

Lemma same_expression_loop (fuel : nat) :
  forall (ty : Z) (s1 s2 : State),
    same_syntax s1 s2 ->
    same_result
      (option_map snd (Cursor.expression_loop Sematic.EOF_LINE fuel ty s1))
      (Syntax.expression_loop fuel s2).
Proof.
  induction fuel as [| fuel IH]; intros ty s1 s2 H; [exact I |].
  cbn [Cursor.expression_loop Syntax.expression_loop].
  change Syntax.EOF_LINE with Sematic.EOF_LINE.
  rewrite (same_LA _ _ _ H).
  destruct (negb (is_operator (token (Cursor.LA Sematic.EOF_LINE s2)))).
  { exact H. }
  pose proof (same_consume Sematic.EOF_LINE _ _ H) as H1.
  set (op := Cursor.LA Sematic.EOF_LINE s2).
  set (a := snd (Cursor.consume Sematic.EOF_LINE s1)) in *.
  set (b := snd (Cursor.consume Sematic.EOF_LINE s2)) in *.
  clearbody a b op.
  rewrite (same_LA _ _ _ H1).
  destruct (token (Cursor.LA Sematic.EOF_LINE b) =? "IDENTIFIER") eqn:Ei.
  - cbn [orb].
    pose proof (same_operand (Cursor.LA Sematic.EOF_LINE b) a b H1) as H2.
    destruct (match lookup_symbol _ a with Some _ => _ | None => _ end)
      as [rhs a2]. cbn [snd] in H2.
    pose proof (same_consume Sematic.EOF_LINE _ _ H2) as H3.
    pose proof (same_apply_binary_op (token op) ty rhs (line op) _ _ H3)
      as H4.
    destruct (apply_binary_op _ _ _ _ _) as [ty4 a4]. cbn [snd] in H4.
    now apply IH.
  - cbn [orb].
    destruct ((token (Cursor.LA Sematic.EOF_LINE b) =? "INT_CONST")
              || (token (Cursor.LA Sematic.EOF_LINE b) =? "CHAR_CONST")).
    + pose proof (same_consume Sematic.EOF_LINE _ _ H1) as H3.
      pose proof (same_apply_binary_op (token op) ty
                    (const_token_type (Cursor.LA Sematic.EOF_LINE b))
                    (line op) _ _ H3) as H4.
      destruct (apply_binary_op _ _ _ _ _) as [ty4 a4]. cbn [snd] in H4.
      now apply IH.
    + cbn [option_map snd same_result].
      now apply same_syn_error.
Qed.

Lemma same_expression_if_any (fuel : nat) (out_type : Z) (s1 s2 : State) :
  same_syntax s1 s2 ->
  match Cursor.expression_if_any Sematic.EOF_LINE fuel out_type s1,
        Syntax.expression_if_any fuel s2 with
  | Some (ok1, _, a), Some (ok2, b) => ok1 = ok2 /\ same_syntax a b
  | None, None => True
  | _, _ => False
  end.
Proof.
  intros H. unfold Cursor.expression_if_any, Syntax.expression_if_any.
  change Syntax.EOF_LINE with Sematic.EOF_LINE.
  rewrite (same_LA _ _ _ H).
  destruct (token (Cursor.LA Sematic.EOF_LINE s2) =? "IDENTIFIER") eqn:Ei.
  - cbn [orb].
    pose proof (same_operand (Cursor.LA Sematic.EOF_LINE s2) s1 s2 H) as H2.
    destruct (match lookup_symbol _ s1 with Some _ => _ | None => _ end)
      as [cur a2]. cbn [snd] in H2.
    pose proof (same_consume Sematic.EOF_LINE _ _ H2) as H3.
    pose proof (same_expression_loop fuel cur _ _ H3) as H4.
    destruct (Cursor.expression_loop _ _ _ _) as [[ty a] |],
             (Syntax.expression_loop _ _) as [b |];
      cbn [option_map snd same_result bind] in *; try contradiction;
      [split; [reflexivity | exact H4] | exact I].
  - cbn [orb].
    destruct ((token (Cursor.LA Sematic.EOF_LINE s2) =? "INT_CONST")
              || (token (Cursor.LA Sematic.EOF_LINE s2) =? "CHAR_CONST")).
    + pose proof (same_consume Sematic.EOF_LINE _ _ H) as H3.
      pose proof (same_expression_loop fuel
                    (const_token_type (Cursor.LA Sematic.EOF_LINE s2))
                    _ _ H3) as H4.
      destruct (Cursor.expression_loop _ _ _ _) as [[ty a] |],
               (Syntax.expression_loop _ _) as [b |];
        cbn [option_map snd same_result bind] in *; try contradiction;
        [split; [reflexivity | exact H4] | exact I].
    + split; [reflexivity | exact H].
Qed.

Lemma same_condition (fuel : nat) (s1 s2 : State) :
  same_syntax s1 s2 ->
  same_result (Sematic.condition fuel s1) (Syntax.expression_or_error fuel s2).
Proof.
  intros H. unfold Cursor.condition, Syntax.expression_or_error.
  pose proof (same_expression_if_any fuel TYPE_ERROR s1 s2 H) as H1.
  destruct (Cursor.expression_if_any _ _ _ _) as [[[ok1 ty] a] |],
           (Syntax.expression_if_any _ _) as [[ok2 b] |];
    cbn [bind]; try contradiction; [| exact I].
  destruct H1 as [<- H1]. destruct (negb ok1).
  { cbn [same_result]. change Syntax.EOF_LINE with Sematic.EOF_LINE.
    now apply same_syn_error. }
  destruct (_ && _); cbn [same_result]; [| exact H1].
  now apply same_semantic_error.
Qed.

Lemma same_expression_or_error (fuel : nat) (s1 s2 : State) :
  same_syntax s1 s2 ->
  same_result (Sematic.expression_or_error fuel s1)
              (Syntax.expression_or_error fuel s2).
Proof.
  intros H. unfold Cursor.expression_or_error, Syntax.expression_or_error.
  pose proof (same_expression_if_any fuel TYPE_ERROR s1 s2 H) as H1.
  destruct (Cursor.expression_if_any _ _ _ _) as [[[ok1 ty] a] |],
           (Syntax.expression_if_any _ _) as [[ok2 b] |];
    cbn [bind]; try contradiction; [| exact I].
  destruct H1 as [<- H1]. destruct (negb ok1); cbn [same_result];
    [| exact H1].
  change Syntax.EOF_LINE with Sematic.EOF_LINE.
  now apply same_syn_error.
Qed.

Lemma same_array_opt (n m : Z) (s1 s2 : State) :
  same_syntax s1 s2 ->
  same_syntax (snd (Sematic.array_opt n s1)) (snd (Syntax.array_opt m s2)).
Proof.
  intros H. unfold Sematic.array_opt, Syntax.array_opt.
  change Syntax.EOF_LINE with Sematic.EOF_LINE.
  sim_match "LBRACKET" s1 s2 H t a b H1; [| exact H1].
  sim_match "INT_CONST" a b H1 t2 a2 b2 H2;
    sim_expect H2; exact Hx.
Qed.

Lemma same_init_opt (s1 s2 : State) :
  same_syntax s1 s2 ->
  same_syntax (snd (Sematic.init_opt s1)) (snd (Syntax.init_opt s2)).
Proof.
  intros H. unfold Sematic.init_opt, Syntax.init_opt.
  change Syntax.EOF_LINE with Sematic.EOF_LINE.
  sim_match "ASSIGN" s1 s2 H t a b H1; [| exact H1].
  cbv zeta. rewrite (same_LA _ _ _ H1).
  destruct (_ || _); cbn [snd].
  - now apply same_consume.
  - now apply same_syn_error.
Qed.

Lemma same_init_declarator (ty1 ty2 : string) (s1 s2 : State) :
  same_syntax s1 s2 ->
  same_syntax (Sematic.init_declarator ty1 s1) (Syntax.init_declarator ty2 s2).
Proof.
  intros H. unfold Sematic.init_declarator, Syntax.init_declarator.
  change Syntax.EOF_LINE with Sematic.EOF_LINE.
  sim_match "IDENTIFIER" s1 s2 H idt a b H1.
  - pose proof (same_array_opt 0 (-1) a b H1) as H2.
    destruct (Sematic.array_opt 0 a) as [[r1 z1] a2],
             (Syntax.array_opt (-1) b) as [[r2 z2] b2]. cbn [snd] in H2.
    pose proof (same_init_opt a2 b2 H2) as H3.
    apply same_sematic_add, same_syntax_add. exact H3.
  - now apply same_syn_error.
Qed.

Lemma same_init_declarator_list_loop (fuel : nat) :
  forall (ty1 ty2 : string) (s1 s2 : State),
    same_syntax s1 s2 ->
    same_result (Sematic.init_declarator_list_loop fuel ty1 s1)
                (Syntax.init_declarator_list_loop fuel ty2 s2).
Proof.
  induction fuel as [| fuel IH]; intros ty1 ty2 s1 s2 H; [exact I |].
  cbn [Sematic.init_declarator_list_loop Syntax.init_declarator_list_loop].
  change Syntax.EOF_LINE with Sematic.EOF_LINE.
  sim_match "COMMA" s1 s2 H t a b H1; [| exact H1].
  apply IH. now apply same_init_declarator.
Qed.

Lemma same_declaration (fuel : nat) (ty1 ty2 : string) (s1 s2 : State) :
  same_syntax s1 s2 ->
  same_result (Sematic.declaration fuel ty1 s1)
              (Syntax.declaration fuel ty2 s2).
Proof.
  intros H. unfold Sematic.declaration, Syntax.declaration,
    Sematic.init_declarator_list, Syntax.init_declarator_list.
  apply same_result_bind.
  - apply same_init_declarator_list_loop. now apply same_init_declarator.
  - intros a b Hab. cbn [same_result].
    change Syntax.EOF_LINE with Sematic.EOF_LINE.
    now apply same_expect.
Qed.

Lemma same_typed_declaration (fuel : nat) (s1 s2 : State) :
  same_syntax s1 s2 ->
  same_result
    match Sematic.type_specifier s1 with
    | (None, s) => Some (Sematic.syn_error "Any keyword expected" s)
    | (Some typestr, s) => Sematic.declaration fuel typestr s
    end
    match Syntax.type_specifier s2 with
    | (None, s) => Some (Syntax.syn_error "Any keyword expected" s)
    | (Some typestr, s) => Syntax.declaration fuel typestr s
    end.
Proof.
  intros H. change Syntax.EOF_LINE with Sematic.EOF_LINE.
  destruct (same_type_specifier Sematic.EOF_LINE s1 s2 H) as [Ho Hs].
  destruct (Cursor.type_specifier Sematic.EOF_LINE s1) as [[ty1 |] a],
           (Cursor.type_specifier Sematic.EOF_LINE s2) as [[ty2 |] b];
    cbn [fst snd] in Ho, Hs; try discriminate Ho.
  - now apply same_declaration.
  - cbn [same_result]. now apply same_syn_error.
Qed.

Lemma same_global_decl_list (fuel : nat) :
  forall (s1 s2 : State),
    same_syntax s1 s2 ->
    same_result (Sematic.global_decl_list fuel s1)
                (Syntax.global_decl_list fuel s2).
Proof.
  induction fuel as [| fuel IH]; intros s1 s2 H; [exact I |].
  cbn [Sematic.global_decl_list Syntax.global_decl_list].
  change Syntax.EOF_LINE with Sematic.EOF_LINE.
  rewrite (same_LA _ _ _ H).
  destruct (negb _); [exact H |].
  pose proof (same_consume Sematic.EOF_LINE _ _ H) as H1.
  set (a := snd (Cursor.consume Sematic.EOF_LINE s1)) in *.
  set (b := snd (Cursor.consume Sematic.EOF_LINE s2)) in *.
  clearbody a b. rewrite (same_LA _ _ _ H1).
  assert (H2 : same_syntax (set_pos (pos a - 1) a) (set_pos (pos b - 1) b)).
  { destruct H1 as (Ht & Hp & He).
    repeat split; cbn [toks pos stderr set_pos]; congruence. }
  set (a2 := set_pos (pos a - 1) a) in *.
  set (b2 := set_pos (pos b - 1) b) in *. clearbody a2 b2.
  destruct (_ =? "MAIN"); [exact H2 |].
  destruct (same_type_specifier Sematic.EOF_LINE a2 b2 H2) as [Ho Hs].
  destruct (Cursor.type_specifier Sematic.EOF_LINE a2) as [[ty1 |] a3],
           (Cursor.type_specifier Sematic.EOF_LINE b2) as [[ty2 |] b3];
    cbn [fst snd] in Ho, Hs; try discriminate Ho.
  - apply same_result_bind; [now apply same_declaration |].
    intros x y Hxy. now apply IH.
  - cbn [same_result]. now apply same_syn_error.
Qed.

Lemma same_expr_stmt (fuel : nat) (s1 s2 : State) :
  same_syntax s1 s2 ->
  same_result (Sematic.expr_stmt fuel s1) (Syntax.expr_stmt fuel s2).
Proof.
  intros H. unfold Sematic.expr_stmt, Syntax.expr_stmt.
  change Syntax.EOF_LINE with Sematic.EOF_LINE.
  sim_match "SEMICOLON" s1 s2 H t a b H1; [exact H1 |].
  apply same_result_bind; [now apply same_expression_or_error |].
  intros x y Hxy. cbn [same_result]. now apply same_expect.
Qed.

Lemma same_parser (n : nat) :
  (forall s1 s2, same_syntax s1 s2 ->
     same_result (Sematic.statement n s1) (Syntax.statement n s2)) /\
  (forall s1 s2, same_syntax s1 s2 ->
     same_result (Sematic.stmt_list_opt n s1) (Syntax.stmt_list_opt n s2)) /\
  (forall s1 s2, same_syntax s1 s2 ->
     same_result (Sematic.block n s1) (Syntax.block n s2)) /\
  (forall s1 s2, same_syntax s1 s2 ->
     same_result (Sematic.if_stmt n s1) (Syntax.if_stmt n s2)) /\
  (forall s1 s2, same_syntax s1 s2 ->
     same_result (Sematic.while_stmt n s1) (Syntax.while_stmt n s2)) /\
  (forall s1 s2, same_syntax s1 s2 ->
     same_result (Sematic.for_stmt n s1) (Syntax.for_stmt n s2)).
Proof.
  induction n as [| n (IHst & IHsl & IHbl & IHif & IHwh & IHfor)].
  { split; [| split; [| split; [| split; [| split]]]];
      intros s1 s2 H; exact I. }
  split; [| split; [| split; [| split; [| split]]]]; intros s1 s2 H.
  - rewrite sematic_statement_S, syntax_statement_S. cbv zeta.
    change Syntax.EOF_LINE with Sematic.EOF_LINE.
    rewrite (same_LA _ _ _ H).
    set (k := token (Cursor.LA Sematic.EOF_LINE s2)).
    unfold is_type_token.
    destruct (String.eqb_spec k "LBRACE") as [-> | _]; [now apply IHbl |].
    destruct (String.eqb_spec k "IF") as [-> | _]; [now apply IHif |].
    destruct (String.eqb_spec k "WHILE") as [-> | _]; [now apply IHwh |].
    destruct (String.eqb_spec k "FOR") as [-> | _]; [now apply IHfor |].
    destruct ((k =? "VOID") || (k =? "CHAR") || (k =? "INT")).
    + now apply same_typed_declaration.
    + now apply same_expr_stmt.
  - rewrite sematic_stmt_list_opt_S, syntax_stmt_list_opt_S. cbv zeta.
    change Syntax.EOF_LINE with Sematic.EOF_LINE.
    rewrite (same_LA _ _ _ H).
    destruct (_ || _); [exact H |].
    apply same_result_bind; [now apply IHst |].
    intros x y Hxy. now apply IHsl.
  - rewrite sematic_block_S, syntax_block_S.
    change Syntax.EOF_LINE with Sematic.EOF_LINE.
    sim_match "LBRACE" s1 s2 H t a b H1.
    + apply same_result_bind; [now apply IHsl |].
      intros x y Hxy. cbn [same_result]. now apply same_expect.
    + cbn [same_result]. now apply same_syn_error.
  - rewrite sematic_if_stmt_S, syntax_if_stmt_S.
    change Syntax.EOF_LINE with Sematic.EOF_LINE.
    sim_match "IF" s1 s2 H t a b H1.
    + sim_expect H1.
      apply same_result_bind; [now apply same_condition |].
      intros x y Hxy. sim_expect Hxy.
      apply same_result_bind; [now apply IHbl |].
      intros x2 y2 Hxy2.
      sim_match "ELSE" x2 y2 Hxy2 t2 a2 b2 H2; [now apply IHbl | exact H2].
    + cbn [same_result]. now apply same_syn_error.
  - rewrite sematic_while_stmt_S, syntax_while_stmt_S.
    change Syntax.EOF_LINE with Sematic.EOF_LINE.
    sim_match "WHILE" s1 s2 H t a b H1.
    + sim_expect H1.
      apply same_result_bind; [now apply same_condition |].
      intros x y Hxy. sim_expect Hxy. now apply IHbl.
    + cbn [same_result]. now apply same_syn_error.
  - rewrite sematic_for_stmt_S, syntax_for_stmt_S.
    change Syntax.EOF_LINE with Sematic.EOF_LINE.
    sim_match "FOR" s1 s2 H t a b H1.
    + sim_expect H1.
      apply same_result_bind; [now apply same_expression_or_error |].
      intros x y Hxy. sim_expect Hxy.
      apply same_result_bind; [now apply same_condition |].
      intros x2 y2 Hxy2. sim_expect Hxy2.
      apply same_result_bind; [now apply same_expression_or_error |].
      intros x3 y3 Hxy3. sim_expect Hxy3. now apply IHst.
    + cbn [same_result]. now apply same_syn_error.
Qed.

(** X23: declarations and statements are parsed alike with and without
    the type checks.  From any state, [global_decl_list], [statement] and
    [stmt_list_opt] of [sematic_analyser.c] and of [syntax_analyser.c] both
    come to an end, with the cursor at the same token and with the same
    syntax errors on [stderr], in the same order and at the same lines:
    the semantic errors of the one and the symbol tables of the two make
    no difference to the syntax analysis. *)
Theorem X23_type_checks_keep_the_syntax (s : State) :
  agree_on_syntax
    (Sematic.global_decl_list (3 * (ntok s - pos s) + 3) s)
    (Syntax.global_decl_list (3 * (ntok s - pos s) + 3) s) /\
  agree_on_syntax
    (Sematic.statement (3 * (ntok s - pos s) + 3) s)
    (Syntax.statement (3 * (ntok s - pos s) + 3) s) /\
  agree_on_syntax
    (Sematic.stmt_list_opt (3 * (ntok s - pos s) + 3) s)
    (Syntax.stmt_list_opt (3 * (ntok s - pos s) + 3) s).
Proof.
  set (fuel := 3 * (ntok s - pos s) + 3).
  assert (Hagree : forall r1 r2,
             (exists b, r1 = Some b) -> (exists c, r2 = Some c) ->
             same_result r1 r2 -> agree_on_syntax r1 r2).
  { intros r1 r2 (b & ->) (c & ->) (_ & Hp & He). now exists b, c. }
  destruct (sematic_parser_total fuel) as (Bst & Bsl & _).
  destruct (syntax_parser_total fuel) as (Cst & Csl & _).
  destruct (same_parser fuel) as (Sst & Ssl & _).
  split; [| split]; apply Hagree.
  - destruct (sematic_global_decl_list_total fuel s) as (b & -> & _);
      [unfold fuel; lia | now exists b].
  - destruct (syntax_global_decl_list_total fuel s) as (c & -> & _);
      [unfold fuel; lia | now exists c].
  - apply same_global_decl_list, same_syntax_refl.
  - destruct (Bst s) as (b & -> & _); [unfold fuel; lia | now exists b].
  - destruct (Cst s) as (c & -> & _); [unfold fuel; lia | now exists c].
  - apply Sst, same_syntax_refl.
  - destruct (Bsl s) as (b & -> & _); [unfold fuel; lia | now exists b].
  - destruct (Csl s) as (c & -> & _); [unfold fuel; lia | now exists c].
  - apply Ssl, same_syntax_refl.
Qed.

Lemma main_void_nth (d : Tok) (l : list Tok) :
  main_void l = true ->
  forall i, i < length l -> token (nth i l d) = "MAIN" ->
    S (S i) < length l /\ token (nth (S i) l d) = "LPAREN" /\
    token (nth (S (S i)) l d) = "VOID".
Proof.
  induction l as [| t rest IH]; intros H i Hi Hm; [cbn in Hi; lia |].
  cbn [main_void] in H. apply andb_prop in H. destruct H as [H1 H2].
  destruct i as [| i].
  - cbn [nth] in Hm. rewrite Hm in H1. cbn in H1.
    destruct rest as [| t1 [| t2 rest]]; try discriminate H1.
    apply andb_prop in H1. destruct H1 as [E1 E2].
    apply String.eqb_eq in E1, E2. cbn [nth length]. repeat split; try lia;
      assumption.
  - cbn [length] in Hi.
    destruct (IH H2 i ltac:(lia) Hm) as (H3 & H4 & H5).
    cbn [length]. split; [lia |]. split; assumption.
Qed.

Lemma main_void_header (msg : string) (s s1 : State) :
  main_void (toks s) = true ->
  token (Cursor.LA Sematic.EOF_LINE s) = "MAIN" ->
  toks s1 = toks s -> pos s1 = S (pos s) ->
  token (Cursor.LA Sematic.EOF_LINE
           (Cursor.expect Sematic.EOF_LINE "LPAREN" msg s1)) = "VOID".
Proof.
  intros Hv Hm Ht Hp.
  assert (Hin : pos s < ntok s).
  { apply (LA_not_EOF_inside Sematic.EOF_LINE). rewrite Hm. discriminate. }
  rewrite (LA_inside _ s Hin) in Hm.
  destruct (main_void_nth (Cursor.eof Sematic.EOF_LINE) (toks s) Hv (pos s)
              Hin Hm) as (H1 & H2 & H3).
  assert (Hin1 : pos s1 < ntok s1) by (unfold ntok; rewrite Ht, Hp; lia).
  assert (E : Cursor.match_ Sematic.EOF_LINE "LPAREN" s1 =
              (Some (Cursor.LA Sematic.EOF_LINE s1),
               snd (Cursor.consume Sematic.EOF_LINE s1))).
  { unfold Cursor.match_. rewrite (LA_inside _ s1 Hin1), Ht, Hp, H2.
    reflexivity. }
  unfold Cursor.expect. rewrite E, (consume_inside _ s1 Hin1).
  rewrite LA_inside; cbn [toks pos set_pos]; unfold ntok;
    cbn [toks pos set_pos]; rewrite Ht, Hp; [exact H3 | exact H1].
Qed.

Lemma same_function_def (fuel : nat) (pty0 : string) (pid0 : Tok)
    (rt1 rt2 : string) (s1 s2 : State) :
  same_syntax s1 s2 -> main_void (toks s2) = true ->
  same_result (Sematic.function_def fuel pty0 pid0 rt1 s1)
              (Syntax.function_def fuel rt2 s2).
Proof.
  intros H Hv. unfold Sematic.function_def, Syntax.function_def.
  change Syntax.EOF_LINE with Sematic.EOF_LINE.
  destruct (same_match Sematic.EOF_LINE "MAIN" s1 s2 H) as [Ho Hs].
  destruct (Cursor.match_ Sematic.EOF_LINE "MAIN" s2) as [[t2 |] b] eqn:E2;
    destruct (Cursor.match_ Sematic.EOF_LINE "MAIN" s1) as [[t1 |] a];
    cbn [fst snd] in Ho, Hs; try discriminate Ho.
  2:{ cbn [same_result]. now apply same_syn_error. }
  pose proof (match_Some _ _ _ _ _ E2) as (-> & Hm & _).
  apply match_Some_prog in E2; [| discriminate].
  destruct E2 as (Ht & _ & Hp). cbv zeta.
  pose proof (same_syntax_add "main" "Function" "Global" (-1) a b Hs) as H1.
  destruct (syntax_add_symbol_keeps "main" "Function" "Global" (-1) b)
    as (Ht1 & Hp1 & _).
  set (b1 := Syntax.add_symbol _ _ _ _ b) in *. clearbody b1.
  assert (Hvoid : token (Cursor.LA Sematic.EOF_LINE
                           (Cursor.expect Sematic.EOF_LINE "LPAREN"
                              "Opening parenthesis missing" b1)) = "VOID").
  { apply (main_void_header _ s2); [exact Hv | exact Hm | congruence
                                    | congruence]. }
  sim_expect H1.
  rewrite (same_LA _ _ _ Hx), Hvoid. cbn [String.eqb Ascii.eqb Bool.eqb bind].
  assert (E : Cursor.type_specifier Sematic.EOF_LINE sb =
              (Some "Void", snd (Cursor.consume Sematic.EOF_LINE sb))).
  { unfold Cursor.type_specifier. rewrite Hvoid. reflexivity. }
  rewrite E.
  pose proof (same_consume Sematic.EOF_LINE _ _ Hx) as H2.
  set (a2 := snd (Cursor.consume Sematic.EOF_LINE sa)) in *.
  set (b2 := snd (Cursor.consume Sematic.EOF_LINE sb)) in *.
  clearbody a2 b2.
  sim_expect H2. sim_expect Hx0.
  assert (H3 : same_syntax (set_cur_scope "Main" sa1)
                           (set_cur_scope "Main" sb1)) by exact Hx1.
  destruct (same_parser fuel) as (_ & Ssl & _).
  apply same_result_bind; [now apply Ssl |].
  intros x y Hxy. sim_expect Hxy. exact Hx2.
Qed.

Lemma same_program (fuel : nat) (pty0 : string) (pid0 : Tok)
    (s1 s2 : State) :
  same_syntax s1 s2 -> main_void (toks s2) = true ->
  same_result (Sematic.program fuel pty0 pid0 s1) (Syntax.program fuel s2).
Proof.
  intros H Hv. unfold Sematic.program, Syntax.program.
  pose proof (same_global_decl_list fuel s1 s2 H) as H1.
  destruct (Sematic.global_decl_list fuel s1) as [a |],
           (Syntax.global_decl_list fuel s2) as [b |] eqn:Eb;
    cbn [same_result bind] in *; try contradiction; [| exact I].
  apply syntax_global_decl_list_steps in Eb.
  apply (steps_toks _ _ _ syntax_adds_toks) in Eb.
  change Syntax.EOF_LINE with Sematic.EOF_LINE.
  destruct (same_type_specifier Sematic.EOF_LINE a b H1) as [Ho Hs].
  pose proof (type_specifier_steps Sematic.EOF_LINE [] syntax_adds b) as Hb.
  apply (steps_toks _ _ _ syntax_adds_toks) in Hb.
  destruct (Cursor.type_specifier Sematic.EOF_LINE a) as [[ty1 |] a3],
           (Cursor.type_specifier Sematic.EOF_LINE b) as [[ty2 |] b3];
    cbn [fst snd] in Ho, Hs, Hb; try discriminate Ho.
  - apply same_function_def; [exact Hs | congruence].
  - cbn [same_result]. now apply same_syn_error.
Qed.

Lemma syntax_message_syntactic (ln : Z) (msg : string) :
  In msg syntax_messages -> syntactic (ln, msg) = true.
Proof.
  intros H. cbn in H.
  repeat destruct H as [<- | H]; try reflexivity. destruct H.
Qed.

Lemma syntax_lines_syntactic (l : list (Z * string)) :
  Forall (fun e => In (snd e) syntax_messages) l -> filter syntactic l = l.
Proof.
  induction 1 as [| [ln msg] rest Hm _ IH]; [reflexivity |].
  cbn [filter]. cbn [snd] in Hm.
  rewrite (syntax_message_syntactic ln msg Hm). now rewrite IH.
Qed.

(** X24: for a token list in which every [MAIN] token is followed by
    [LPAREN] and [VOID], the two parsers run side by side: both come to an
    end, with the cursor at the same token, and the lines that
    [syntax_analyser.c] writes to [stderr] are exactly the syntax errors
    among the lines of [sematic_analyser.c], in the same order and with the
    same line numbers. *)
Theorem X24_same_syntax_errors (l : list Tok) (pty0 : string) (pid0 : Tok) :
  main_void l = true ->
  exists b c,
    Sematic.program (3 * length l + 3) pty0 pid0 (init_state l) = Some b /\
    Syntax.program (3 * length l + 3) (init_state l) = Some c /\
    pos b = pos c /\ filter syntactic (stderr b) = stderr c.
Proof.
  intros Hv.
  destruct (sematic_program_total (3 * length l + 3) pty0 pid0 (init_state l))
    as (b & Eb & _).
  { unfold ntok. cbn [toks pos init_state]. lia. }
  destruct (syntax_program_total (3 * length l + 3) (init_state l))
    as (c & Ec & _).
  { unfold ntok. cbn [toks pos init_state]. lia. }
  exists b, c. split; [exact Eb |]. split; [exact Ec |].
  pose proof (same_program (3 * length l + 3) pty0 pid0 (init_state l)
                (init_state l) (same_syntax_refl _) Hv) as H.
  rewrite Eb, Ec in H. destruct H as (_ & Hp & He).
  split; [exact Hp |]. rewrite He.
  apply syntax_program_steps in Ec.
  apply (steps_orderly _ _ _ syntax_adds_orderly) in Ec.
  rewrite app_nil_r in Ec. apply orderly_from_start in Ec.
  destruct Ec as (_ & _ & _ & _ & Hf).
  apply syntax_lines_syntactic. eapply Forall_impl; [| exact Hf].
  intros e [_ Hm]. exact Hm.
Qed.

Lemma X24_witness :
  exists b c,
    Sematic.program (3 * length mixed_errors_program + 3) "" (mkTok "" "" 0)
      (init_state mixed_errors_program) = Some b /\
    Syntax.program (3 * length mixed_errors_program + 3)
      (init_state mixed_errors_program) = Some c /\
    stderr b = [(3%Z, "Type mismatch in statement or expression.");
                (4%Z, "Undeclared identifier.");
                (4%Z, "Identifier or integer constant expected");
                (5%Z, "Semicolon expected"); (999999%Z, "} missing")] /\
    stderr c = [(4%Z, "Identifier or integer constant expected");
                (5%Z, "Semicolon expected"); (999999%Z, "} missing")] /\
    pos b = pos c /\ filter syntactic (stderr b) = stderr c.
Proof.
  destruct (X24_same_syntax_errors mixed_errors_program "" (mkTok "" "" 0)
              eq_refl) as (b & c & Hb & Hc & Hp & Hf).
  exists b, c. split; [exact Hb |]. split; [exact Hc |].
  vm_compute in Hb, Hc. injection Hb as <-. injection Hc as <-.
  split; [reflexivity |]. split; [reflexivity |].
  split; [exact Hp | exact Hf].
Defined.

(** ** Character constants and unknown characters *)

Lemma squote_facts :
  isspace Lexical.SQUOTE = false /\
  (Lexical.SQUOTE =? "/")%char = false /\
  Lexical.is_ident_start (Some Lexical.SQUOTE) = false /\
  isdigit Lexical.SQUOTE = false /\
  (Lexical.SQUOTE =? Lexical.DQUOTE)%char = false /\
  (Lexical.SQUOTE =? Lexical.SQUOTE)%char = true.
Proof. repeat split. Qed.

Lemma plain_char_facts (c : ascii) :
  plain_char c = true ->
  (c =? Lexical.SQUOTE)%char = false /\ (c =? Lexical.NL)%char = false /\
  (c =? Lexical.BACKSLASH)%char = false.
Proof.
  unfold plain_char. intros H. apply negb_true_iff in H.
  apply orb_false_iff in H. destruct H as [H H3].
  apply orb_false_iff in H. destruct H as [H1 H2]. repeat split; assumption.
Qed.

Lemma inside_quotes_facts (c : ascii) :
  inside_quotes c = true ->
  (c =? Lexical.NL)%char = false /\ (c =? Lexical.SQUOTE)%char = false.
Proof.
  unfold inside_quotes. intros H. apply negb_true_iff in H.
  apply orb_false_iff in H. exact H.
Qed.

Lemma skip_to_quote_exact (body : string) :
  forall fuel d q rest ln o e,
    inside_quotes d = true -> all_chars inside_quotes body = true ->
    inside_quotes q = false ->
    String.length body + 1 < fuel ->
    Lexical.skip_to_quote fuel (Some d)
      (Lexical.mkLex (String.append body (String q rest)) ln o e) =
    Some (Lexical.mkLex rest
            (if (q =? Lexical.NL)%char then ln + 1 else ln)%Z o e).
Proof.
  induction body as [| c r IH]; intros fuel d q rest ln o e Hd Hb Hq Hf.
  - destruct fuel as [| [| fuel]]; [cbn in Hf; lia | cbn in Hf; lia |].
    destruct (inside_quotes_facts d Hd) as [D1 D2].
    cbn [Lexical.skip_to_quote String.append Lexical.getc_track
         Lexical.input Lexical.line_no Lexical.out Lexical.err].
    rewrite D1, D2. cbn [orb].
    unfold inside_quotes in Hq. apply negb_false_iff in Hq. now rewrite Hq.
  - destruct fuel as [| fuel]; [cbn in Hf; lia |].
    destruct (inside_quotes_facts d Hd) as [D1 D2].
    cbn [all_chars] in Hb. apply andb_prop in Hb. destruct Hb as [Hc Hr].
    destruct (inside_quotes_facts c Hc) as [C1 C2].
    cbn [Lexical.skip_to_quote String.append Lexical.getc_track
         Lexical.input Lexical.line_no Lexical.out Lexical.err].
    rewrite D1, D2, C1. cbn [orb].
    apply IH; [exact Hc | exact Hr | exact Hq | cbn in Hf; lia].
Qed.

Lemma skip_line_exact (body : string) :
  forall fuel rest ln o e,
    count_newlines body = 0 -> String.length body < fuel ->
    Lexical.skip_line_after_error fuel
      (Lexical.mkLex (String.append body (String Lexical.NL rest)) ln o e) =
    Some (Lexical.mkLex rest (ln + 1)%Z o e) /\
    Lexical.skip_line_after_error fuel (Lexical.mkLex body ln o e) =
    Some (Lexical.mkLex EmptyString ln o e).
Proof.
  induction body as [| c r IH]; intros fuel rest ln o e Hb Hf;
    (destruct fuel as [| fuel]; [cbn in Hf; lia |]).
  - split; reflexivity.
  - cbn [count_newlines] in Hb.
    destruct (c =? Lexical.NL)%char eqn:E; [discriminate Hb |].
    cbn [Lexical.skip_line_after_error String.append Lexical.getc_track
         Lexical.input Lexical.line_no Lexical.out Lexical.err].
    rewrite E. apply IH; [exact Hb | cbn in Hf; lia].
Qed.

(** X25: a character constant is one token.  On a single quote, one
    character that is no quote, newline or backslash, and a single quote,
    one turn of the main loop writes one [CHAR_CONST] row with that
    character; on a single quote, a backslash, any character but a
    newline, and a single quote, it writes one [CHAR_CONST] row whose
    lexeme is the backslash and the character as they stand (the escape is
    not translated).  The row holds what [%s] prints of the buffer: when
    the character is the NUL byte the lexeme is empty, and the backslash
    alone after a backslash.  In both cases the row carries the current
    line and the text behind the closing quote is left to be read. *)
Theorem X25_char_is_one_token (c x : ascii) (rest : string) (ln : Z)
    (o : list Tok) (e : list (Z * string)) (fuel : nat) :
  plain_char c = true -> (x =? Lexical.NL)%char = false -> 0 < fuel ->
  Lexical.main_step fuel
    (Lexical.mkLex
       (String Lexical.SQUOTE (String c (String Lexical.SQUOTE rest)))
       ln o e) =
  Some (true,
        Lexical.mkLex rest ln
          (o ++ [mkTok "CHAR_CONST"
                       (if (c =? Lexical.NUL)%char then EmptyString
                        else String c EmptyString) ln]) e) /\
  Lexical.main_step fuel
    (Lexical.mkLex
       (String Lexical.SQUOTE
          (String Lexical.BACKSLASH (String x (String Lexical.SQUOTE rest))))
       ln o e) =
  Some (true,
        Lexical.mkLex rest ln
          (o ++ [mkTok "CHAR_CONST"
                       (String Lexical.BACKSLASH
                          (if (x =? Lexical.NUL)%char then EmptyString
                           else String x EmptyString)) ln])
          e).
Proof.
  intros Hc Hx Hf. destruct fuel as [| fuel]; [lia |].
  destruct (plain_char_facts c Hc) as (C1 & C2 & C3).
  destruct squote_facts as (Q1 & Q2 & Q3 & Q4 & Q5 & Q6).
  unfold Lexical.main_step. rewrite !skip_nothing by assumption.
  cbn [bind Lexical.getc_track Lexical.input Lexical.line_no Lexical.out
       Lexical.err].
  rewrite Q3, Q4, Q5, Q6.
  change (Lexical.SQUOTE =? Lexical.NL)%char with false. cbv iota.
  unfold Lexical.scan_char.
  cbn [bind Lexical.getc_track Lexical.input Lexical.line_no Lexical.out
       Lexical.err Lexical.is_char].
  rewrite C1, C2, C3, Hx, Q6.
  change (Lexical.BACKSLASH =? Lexical.BACKSLASH)%char with true.
  change (Lexical.BACKSLASH =? Lexical.NL)%char with false.
  change (Lexical.SQUOTE =? Lexical.NL)%char with false.
  cbn [orb negb bind]. split; reflexivity.
Qed.

Lemma X25_witness :
  Lexical.main_step 1 (Lexical.mkLex "'a';" 7 [] []) =
  Some (true, Lexical.mkLex ";" 7 [mkTok "CHAR_CONST" "a" 7] []) /\
  Lexical.main_step 1 (Lexical.mkLex "'\n';" 7 [] []) =
  Some (true, Lexical.mkLex ";" 7 [mkTok "CHAR_CONST" "\n" 7] []).
Proof.
  apply (X25_char_is_one_token "a" "n" ";" 7 [] [] 1);
    [reflexivity | reflexivity | lia].
Defined.

(** X26: a character constant of two characters or more is not a token.
    On a single quote, a character [c] that is no quote, newline or
    backslash, and a text [body] without quote and newline: when a single
    quote follows a [body] that is not empty, one turn of the main loop
    writes [Char constant too long] for the current line, writes no row,
    and reads on behind that quote; when a newline follows, it does the
    same and reads on at the next line. *)
Theorem X26_long_char_is_dropped (c : ascii) (body rest : string) (ln : Z)
    (o : list Tok) (e : list (Z * string)) (fuel : nat) :
  plain_char c = true -> all_chars inside_quotes body = true ->
  String.length body + 1 < fuel ->
  (body <> EmptyString ->
   Lexical.main_step fuel
     (Lexical.mkLex
        (String Lexical.SQUOTE
           (String c (String.append body (String Lexical.SQUOTE rest))))
        ln o e) =
   Some (true,
         Lexical.mkLex rest ln o (e ++ [(ln, "Char constant too long")]))) /\
  Lexical.main_step fuel
    (Lexical.mkLex
       (String Lexical.SQUOTE
          (String c (String.append body (String Lexical.NL rest))))
       ln o e) =
  Some (true,
        Lexical.mkLex rest (ln + 1)%Z o
          (e ++ [(ln, "Char constant too long")])).
Proof.
  intros Hc Hb Hf. destruct fuel as [| fuel]; [lia |].
  destruct (plain_char_facts c Hc) as (C1 & C2 & C3).
  destruct squote_facts as (Q1 & Q2 & Q3 & Q4 & Q5 & Q6).
  unfold Lexical.main_step. rewrite !skip_nothing by assumption.
  cbn [bind Lexical.getc_track Lexical.input Lexical.line_no Lexical.out
       Lexical.err].
  rewrite Q3, Q4, Q5, Q6.
  change (Lexical.SQUOTE =? Lexical.NL)%char with false. cbv iota.
  unfold Lexical.scan_char.
  cbn [bind Lexical.getc_track Lexical.input Lexical.line_no Lexical.out
       Lexical.err Lexical.is_char].
  rewrite C1, C2, C3. cbn [orb].
  destruct body as [| b body].
  - split; [intros H; now elim H |].
    cbn [String.append Lexical.getc_track Lexical.input Lexical.line_no
         Lexical.out Lexical.err Lexical.is_char].
    change (Lexical.NL =? Lexical.SQUOTE)%char with false.
    change (Lexical.NL =? Lexical.NL)%char with true.
    cbn [negb Lexical.skip_to_quote orb Lexical.report Lexical.input
         Lexical.line_no Lexical.out Lexical.err bind].
    reflexivity.
  - cbn [all_chars] in Hb. apply andb_prop in Hb. destruct Hb as [Hb1 Hb2].
    destruct (inside_quotes_facts b Hb1) as [B1 B2].
    cbn [String.append Lexical.getc_track Lexical.input Lexical.line_no
         Lexical.out Lexical.err Lexical.is_char].
    rewrite B1, B2. cbn [negb].
    unfold Lexical.report.
    cbn [Lexical.input Lexical.line_no Lexical.out Lexical.err].
    cbn [String.length] in Hf.
    split; [intros _ |];
      (rewrite skip_to_quote_exact;
       [reflexivity | exact Hb1 | exact Hb2 | reflexivity | lia]).
Qed.

Lemma X26_witness :
  ("ab" <> EmptyString ->
   Lexical.main_step 5 (Lexical.mkLex "'xab';" 7 [] []) =
   Some (true,
         Lexical.mkLex ";" 7 [] [(7%Z, "Char constant too long")])) /\
  Lexical.main_step 5
    (Lexical.mkLex
       (String Lexical.SQUOTE
          (String "x" (String.append "ab" (String Lexical.NL ";"))))
       7 [] []) =
  Some (true, Lexical.mkLex ";" 8 [] [(7%Z, "Char constant too long")]).
Proof.
  apply (X26_long_char_is_dropped "x" "ab" ";" 7 [] [] 5);
    [reflexivity | reflexivity | cbn; lia].
Defined.

(** X27: an unknown character costs the rest of its line.  On a
    character that starts no token, followed by a text [body] without
    newline, one turn of the main loop writes [Undefined symbol] for the
    current line and no row, and reads on behind the next newline, or at
    the end of the text when no newline follows: what stands between the
    character and the end of its line is never turned into tokens. *)
Theorem X27_undefined_symbol_drops_the_line (c : ascii) (body rest : string)
    (ln : Z) (o : list Tok) (e : list (Z * string)) (fuel : nat) :
  undefined_symbol c = true -> count_newlines body = 0 ->
  String.length body + 1 < fuel ->
  Lexical.main_step fuel
    (Lexical.mkLex (String c (String.append body (String Lexical.NL rest)))
                   ln o e) =
  Some (true,
        Lexical.mkLex rest (ln + 1)%Z o (e ++ [(ln, "Undefined symbol")])) /\
  Lexical.main_step fuel (Lexical.mkLex (String c body) ln o e) =
  Some (true,
        Lexical.mkLex EmptyString ln o (e ++ [(ln, "Undefined symbol")])).
Proof.
  intros Hc Hb Hf. destruct fuel as [| fuel]; [lia |].
  unfold undefined_symbol in Hc.
  repeat match type of Hc with
         | _ && _ = true =>
             let H := fresh "U" in
             apply andb_prop in Hc; destruct Hc as [Hc H]
         end.
  apply negb_true_iff in Hc, U4, U3, U2, U1, U0.
  destruct (Lexical.punctuation c) as [p |] eqn:Ep; [discriminate U |].
  assert (Hslash : (c =? "/")%char = false).
  { destruct (c =? "/")%char eqn:E; [| reflexivity].
    apply Ascii.eqb_eq in E. subst c. discriminate Ep. }
  assert (Hnl : (c =? Lexical.NL)%char = false).
  { destruct (c =? Lexical.NL)%char eqn:E; [| reflexivity].
    apply Ascii.eqb_eq in E. subst c. discriminate Hc. }
  unfold Lexical.main_step. rewrite !skip_nothing by assumption.
  cbn [bind Lexical.getc_track Lexical.input Lexical.line_no Lexical.out
       Lexical.err].
  rewrite U4, U3, U2, U1, U0, Ep, Hnl. unfold Lexical.report.
  cbn [Lexical.input Lexical.line_no Lexical.out Lexical.err].
  destruct (skip_line_exact body (S fuel) rest ln o
              (e ++ [(ln, "Undefined symbol")]) Hb ltac:(lia)) as [-> ->].
  split; reflexivity.
Qed.

Lemma X27_witness :
  Lexical.main_step 12
    (Lexical.mkLex
       (String "@" (String.append " int x;" (String Lexical.NL "int y;")))
       3 [] []) =
  Some (true, Lexical.mkLex "int y;" 4 [] [(3%Z, "Undefined symbol")]) /\
  Lexical.main_step 12 (Lexical.mkLex (String "@" " int x;") 3 [] []) =
  Some (true, Lexical.mkLex EmptyString 3 [] [(3%Z, "Undefined symbol")]).
Proof.
  apply (X27_undefined_symbol_drops_the_line "@" " int x;" "int y;" 3 [] []
           12); [reflexivity | reflexivity | cbn; lia].
Defined.

(** * A run without errors *)

Lemma semantic_steps_grow (s s' : State) :
  steps Semantic.EOF_LINE semantic_messages semantic_adds s s' ->
  toks s' = toks s /\ (error_count s <= error_count s')%Z /\
  nsym s <= nsym s' /\
  (forall y, In y (symtab s) -> In y (symtab s')).
Proof.
  intros H. apply (steps_orderly _ _ _ semantic_adds_orderly) in H.
  destruct H as (Ht & _ & (t & Hs) & _ & (e & _ & Hc & _)).
  split; [exact Ht |]. split; [lia |]. unfold nsym. rewrite Hs. split.
  - rewrite length_app. lia.
  - intros y Hy. apply in_or_app. now left.
Qed.

Ltac count_steps :=
  repeat match goal with
         | H : steps _ _ _ _ _ |- _ =>
             apply semantic_steps_grow in H;
             let Ht := fresh "Ht" in
             let Hc := fresh "Hc" in
             let Hs := fresh "Hs" in
             let Hn := fresh "Hn" in
             destruct H as (Ht & Hc & Hs & Hn)
         end.

Ltac syn_error_count :=
  repeat match goal with
         | H : context [error_count (Cursor.syn_error ?e ?m ?x)] |- _ =>
             rewrite (proj2 (proj2 (proj2 (syn_error_keeps e m x)))) in H
         end.

(** X28: what a run of [semantic_analyser.c] without errors stands for.
    When [program] ends with [error_count] at 0, nothing was written to
    [stderr], the token list holds a [MAIN] token, the last token passed
    is a closing brace, the scope register is back at [Global], and the
    table holds the function [main] in scope [Global] (unless its
    [MAXSYM] entries were used up before). *)
Theorem X28_semantic_clean_run (l : list Tok) (fuel : nat) (s' : State) :
  Semantic.program fuel (init_state l) = Some s' ->
  error_count s' = 0%Z ->
  stderr s' = [] /\ cur_scope s' = "Global" /\
  (exists t, In t l /\ token t = "MAIN") /\
  (0 < pos s' <= length l /\
   token (nth (pos s' - 1) l (Cursor.eof Semantic.EOF_LINE)) = "RBRACE") /\
  (nsym s' = MAXSYM \/
   exists y, In y (symtab s') /\ sym_lexeme y = "main" /\
             sym_type y = "Function" /\ sym_scope y = "Global").
Proof.
  intros He H0.
  assert (Hrun : stderr s' = [] /\ nsym s' <= MAXSYM).
  { pose proof He as H. apply semantic_program_steps in H.
    apply (steps_orderly _ _ _ semantic_adds_orderly) in H.
    apply orderly_from_start in H. destruct H as (_ & _ & Hn & Hc & _).
    split; [| exact Hn].
    rewrite H0 in Hc. destruct (stderr s'); [reflexivity | cbn in Hc; lia]. }
  destruct Hrun as [Hstderr Hmax].
  split; [exact Hstderr |].
  unfold Semantic.program in He.
  apply bind_Some in He. destruct He as (sb & Hgd & He).
  apply semantic_global_decl_list_steps in Hgd.
  pose proof (type_specifier_steps Semantic.EOF_LINE semantic_messages
                semantic_adds sb) as Hty.
  destruct (Semantic.type_specifier sb) as [[rt |] s1]; cbn [snd] in Hty.
  2:{ some_inv He. count_steps. syn_error_count.
      cbn [error_count init_state] in *. lia. }
  unfold Semantic.function_def in He.
  pose proof (match_steps Semantic.EOF_LINE semantic_messages semantic_adds
                "MAIN" s1) as Hm.
  destruct (Semantic.match_ "MAIN" s1) as [[idt |] s2] eqn:Em;
    cbn [snd] in Hm.
  2:{ some_inv He. count_steps. syn_error_count.
      cbn [error_count init_state] in *. lia. }
  apply match_token in Em; [| discriminate]. destruct Em as [Hin Htk].
  cbv zeta in He.
  set (s3 := Semantic.add_symbol "main" "Function" "Global" 0 (line idt) s2)
    in *.
  assert (Hadd : steps Semantic.EOF_LINE semantic_messages semantic_adds
                   s2 s3).
  { apply steps_add. exists "main", "Function", "Global", 0%Z, idt.
    split; [reflexivity |]. split.
    - rewrite (steps_toks _ _ _ semantic_adds_toks _ _ Hm). exact Hin.
    - right. repeat split. exact Htk. }
  pose proof (steps_scope Semantic.EOF_LINE semantic_messages semantic_adds
                "Main" s3 (or_introl eq_refl)) as Hsc.
  set (s4 := set_cur_scope "Main" s3) in *.
  pose proof (expect_steps Semantic.EOF_LINE semantic_messages semantic_adds
                "LPAREN" "Opening parenthesis missing" s4
                ltac:(cbn; tauto)) as Hlp.
  set (s5 := Semantic.expect "LPAREN" "Opening parenthesis missing" s4) in *.
  apply bind_Some in He. destruct He as (s6 & Hpar & He).
  assert (Hp : steps Semantic.EOF_LINE semantic_messages semantic_adds
                 s5 s6).
  { destruct (token (Semantic.LA s5) =? "VOID").
    - some_inv Hpar. apply steps_consume.
    - destruct (is_type_token (token (Semantic.LA s5))).
      + now apply semantic_param_list_steps in Hpar.
      + some_inv Hpar. apply steps_refl. }
  clear Hpar.
  pose proof (expect_steps Semantic.EOF_LINE semantic_messages semantic_adds
                "RPAREN" "Closing parenthesis missing" s6
                ltac:(cbn; tauto)) as Hrp.
  set (s7 := Semantic.expect "RPAREN" "Closing parenthesis missing" s6) in *.
  apply bind_Some in He. destruct He as (s8 & Hbl & He). some_inv He.
  cbn [error_count stderr cur_scope pos symtab set_cur_scope] in *.
  unfold nsym. cbn [symtab set_cur_scope]. fold (nsym s8).
  split; [reflexivity |].
  destruct fuel as [| n]; [discriminate Hbl |].
  rewrite semantic_block_S in Hbl.
  pose proof (match_steps Semantic.EOF_LINE semantic_messages semantic_adds
                "LBRACE" s7) as Hlb.
  destruct (Semantic.match_ "LBRACE" s7) as [[t1 |] s9]; cbn [snd] in Hlb.
  2:{ some_inv Hbl. clearbody s3 s4 s5 s7. count_steps. syn_error_count.
      cbn [error_count init_state] in *. lia. }
  apply bind_Some in Hbl. destruct Hbl as (s10 & Hsl & Hbl). some_inv Hbl.
  destruct (semantic_parser_steps n) as (_ & IHsl & _).
  apply IHsl in Hsl.
  unfold Cursor.expect in *.
  destruct (Semantic.match_ "RBRACE" s10) as [[t2 |] s11] eqn:Er.
  2:{ apply match_None in Er. destruct Er as [-> _].
      clearbody s3 s4 s5 s7. count_steps. syn_error_count.
      cbn [error_count init_state] in *. lia. }
  pose proof (match_Some _ _ _ _ _ Er) as (-> & Hrb & _).
  pose proof (match_Some_prog _ _ _ _ _ Er ltac:(discriminate))
    as (Ht11 & Hin10 & Hp11).
  assert (Hfin : steps Semantic.EOF_LINE semantic_messages semantic_adds
                   s10 s11).
  { pose proof (match_steps Semantic.EOF_LINE semantic_messages semantic_adds
                  "RBRACE" s10) as H. now rewrite Er in H. }
  assert (Hmain : error_count s3 = error_count s2 ->
                  MAXSYM <= nsym s2 \/
                  exists y, In y (symtab s3) /\ sym_lexeme y = "main" /\
                            sym_type y = "Function" /\
                            sym_scope y = "Global").
  { unfold s3, Semantic.add_symbol.
    destruct (existsb _ _); [cbn; lia |].
    destruct (MAXSYM <=? nsym s2)%nat eqn:Ef.
    - intros _. left. now apply Nat.leb_le.
    - intros _. right. eexists. split.
      + cbn [symtab set_symtab]. apply in_or_app. right. now left.
      + repeat split. }
  clearbody s3 s4 s5 s7.
  rewrite (LA_inside _ s10 Hin10) in Hrb.
  assert (Hpre : steps Semantic.EOF_LINE semantic_messages semantic_adds
                   (init_state l) s2).
  { eapply steps_trans; [exact Hgd |].
    eapply steps_trans; [exact Hty | exact Hm]. }
  assert (Hpost : steps Semantic.EOF_LINE semantic_messages semantic_adds
                    s3 s11) by steps_chain.
  rewrite (steps_toks _ _ _ semantic_adds_toks _ _ Hty),
    (steps_toks _ _ _ semantic_adds_toks _ _ Hgd) in Hin.
  clear Hgd Hty Hm Hsc Hlp Hp Hrp Hlb Hsl Hfin.
  apply semantic_steps_grow in Hpre, Hadd, Hpost.
  destruct Hpre as (T1 & C1 & _ & _), Hadd as (T2 & C2 & N2 & _),
           Hpost as (T3 & C3 & N3 & I3).
  cbn [toks error_count init_state] in *.
  assert (Htoks : toks s10 = l) by congruence.
  split; [exists idt; split; [exact Hin | exact Htk] |].
  split.
  - rewrite Hp11. replace (S (pos s10) - 1) with (pos s10) by lia.
    rewrite <- Htoks. split; [unfold ntok in Hin10; lia | exact Hrb].
  - assert (E : error_count s3 = error_count s2) by lia.
    unfold nsym in Hmax. cbn [symtab set_cur_scope] in Hmax.
    fold (nsym s11) in Hmax.
    destruct (Hmain E) as [Hfull | (y & Hy & Hy')]; [left; lia |].
    right. exists y. split; [now apply I3 | exact Hy'].
Qed.

Lemma X28_witness :
  exists s',
    Semantic.program 40 (init_state trailing_program) = Some s' /\
    pos s' = 7 /\ length trailing_program = 9 /\
    stderr s' = [] /\ cur_scope s' = "Global" /\
    (exists t, In t trailing_program /\ token t = "MAIN") /\
    (0 < pos s' <= length trailing_program /\
     token (nth (pos s' - 1) trailing_program (Cursor.eof Semantic.EOF_LINE))
     = "RBRACE") /\
    (nsym s' = MAXSYM \/
     exists y, In y (symtab s') /\ sym_lexeme y = "main" /\
               sym_type y = "Function" /\ sym_scope y = "Global").
Proof.
  eexists. split; [vm_compute; reflexivity |].
  split; [reflexivity |]. split; [reflexivity |].
  apply (X28_semantic_clean_run trailing_program 40);
    vm_compute; reflexivity.
Defined.

(** * The tokens behind the function are not read *)

Lemma firstn_nth_error {A : Type} (n i : nat) (l1 l2 : list A) :
  firstn n l1 = firstn n l2 -> i < n -> nth_error l1 i = nth_error l2 i.
Proof.
  intros H Hi.
  pose proof (nth_error_firstn n l1 i) as E1.
  pose proof (nth_error_firstn n l2 i) as E2.
  apply Nat.ltb_lt in Hi. rewrite Hi in E1, E2. congruence.
Qed.

Lemma LA_nth_error (eofl : Z) (s : State) :
  Cursor.LA eofl s =
  match nth_error (toks s) (pos s) with
  | Some t => t
  | None => Cursor.eof eofl
  end.
Proof.
  unfold Cursor.LA, ntok.
  destruct (Nat.ltb_spec (pos s) (length (toks s))) as [H | H].
  - destruct (nth_error (toks s) (pos s)) as [t |] eqn:E.
    + now apply nth_error_nth.
    + apply nth_error_None in E. lia.
  - apply nth_error_None in H. now rewrite H.
Qed.

Lemma inside_nth_error (s : State) :
  (pos s <? ntok s)%nat =
  match nth_error (toks s) (pos s) with
  | Some _ => true
  | None => false
  end.
Proof.
  unfold ntok.
  destruct (Nat.ltb_spec (pos s) (length (toks s))) as [H | H].
  - destruct (nth_error (toks s) (pos s)) eqn:E; [reflexivity |].
    apply nth_error_None in E. lia.
  - apply nth_error_None in H. now rewrite H.
Qed.

Section SameUpto.

Variable eofl : Z.
Variable n : nat.

Lemma same_upto_LA (s1 s2 : State) :
  same_upto n s1 s2 -> pos s1 < n -> Cursor.LA eofl s2 = Cursor.LA eofl s1.
Proof.
  intros (Ht & Hp & _) Hn. rewrite !LA_nth_error, <- Hp.
  now rewrite (firstn_nth_error n (pos s1) _ _ Ht Hn).
Qed.

Lemma same_upto_consume (s1 s2 : State) :
  same_upto n s1 s2 -> pos s1 < n ->
  same_upto n (snd (Cursor.consume eofl s1)) (snd (Cursor.consume eofl s2)).
Proof.
  intros HR Hn. pose proof HR as (Ht & Hp & Hy & Hc & He & Hs).
  unfold Cursor.consume. cbn [snd]. rewrite !inside_nth_error, <- Hp.
  rewrite (firstn_nth_error n (pos s1) _ _ Ht Hn).
  destruct (nth_error (toks s2) (pos s1)); [| exact HR].
  repeat split; cbn [toks pos symtab cur_scope error_count stderr set_pos];
    congruence.
Qed.

Lemma same_upto_match (kind : string) (s1 s2 : State) :
  same_upto n s1 s2 -> pos s1 < n ->
  fst (Cursor.match_ eofl kind s2) = fst (Cursor.match_ eofl kind s1) /\
  same_upto n (snd (Cursor.match_ eofl kind s1))
              (snd (Cursor.match_ eofl kind s2)).
Proof.
  intros HR Hn. unfold Cursor.match_. rewrite (same_upto_LA _ _ HR Hn).
  destruct (_ =? _); cbn [fst snd].
  - split; [reflexivity | now apply same_upto_consume].
  - split; [reflexivity | exact HR].
Qed.

Lemma same_upto_expect (kind msg : string) (s1 s2 : State) :
  same_upto n s1 s2 -> pos s1 < n ->
  error_count (Cursor.expect eofl kind msg s1) = error_count s1 ->
  same_upto n (Cursor.expect eofl kind msg s1)
              (Cursor.expect eofl kind msg s2).
Proof.
  intros HR Hn Hq. unfold Cursor.expect in *.
  destruct (same_upto_match kind s1 s2 HR Hn) as [Ho Hs].
  destruct (Cursor.match_ eofl kind s1) as [[t1 |] a] eqn:E1,
           (Cursor.match_ eofl kind s2) as [[t2 |] b];
    cbn [fst snd] in Ho, Hs; try discriminate Ho; [exact Hs |].
  apply match_None in E1. destruct E1 as [-> _].
  rewrite (proj2 (proj2 (proj2 (syn_error_keeps eofl msg s1)))) in Hq. lia.
Qed.

Lemma same_upto_type_specifier (s1 s2 : State) :
  same_upto n s1 s2 -> pos s1 < n ->
  fst (Cursor.type_specifier eofl s2) = fst (Cursor.type_specifier eofl s1) /\
  same_upto n (snd (Cursor.type_specifier eofl s1))
              (snd (Cursor.type_specifier eofl s2)).
Proof.
  intros HR Hn. unfold Cursor.type_specifier.
  rewrite (same_upto_LA _ _ HR Hn).
  destruct (negb _); cbn [fst snd].
  - split; [reflexivity | exact HR].
  - split; [reflexivity | now apply same_upto_consume].
Qed.

End SameUpto.

Lemma same_upto_semantic_error (n : nat) (msg : string) (ln : Z)
    (s1 s2 : State) :
  same_upto n s1 s2 ->
  same_upto n (semantic_error msg ln s1) (semantic_error msg ln s2).
Proof.
  intros (Ht & Hp & Hy & Hc & He & Hs).
  repeat split;
    cbn [toks pos symtab cur_scope error_count stderr semantic_error];
    congruence.
Qed.

Lemma same_upto_scope (n : nat) (sc : string) (s1 s2 : State) :
  same_upto n s1 s2 ->
  same_upto n (set_cur_scope sc s1) (set_cur_scope sc s2).
Proof.
  intros (Ht & Hp & Hy & Hc & He & Hs).
  repeat split;
    cbn [toks pos symtab cur_scope error_count stderr set_cur_scope];
    congruence.
Qed.

Lemma same_upto_apply_binary_op (n : nat) (op : string) (l r ln : Z)
    (s1 s2 : State) :
  same_upto n s1 s2 ->
  fst (apply_binary_op op l r ln s2) = fst (apply_binary_op op l r ln s1) /\
  same_upto n (snd (apply_binary_op op l r ln s1))
              (snd (apply_binary_op op l r ln s2)).
Proof.
  intros HR. unfold apply_binary_op.
  repeat match goal with
         | |- context [if ?b then _ else _] => destruct b
         end; cbn [fst snd]; (split; [reflexivity |]); try exact HR;
    now apply same_upto_semantic_error.
Qed.

Lemma same_upto_lookup (n : nat) (name : string) (s1 s2 : State) :
  same_upto n s1 s2 -> lookup_symbol name s2 = lookup_symbol name s1.
Proof.
  intros (_ & _ & Hy & Hc & _). unfold lookup_symbol. now rewrite Hy, Hc.
Qed.

Lemma same_upto_semantic_add (n : nat) (name ty sc : string) (arrsz ln : Z)
    (s1 s2 : State) :
  same_upto n s1 s2 ->
  same_upto n (Semantic.add_symbol name ty sc arrsz ln s1)
              (Semantic.add_symbol name ty sc arrsz ln s2).
Proof.
  intros HR. pose proof HR as (Ht & Hp & Hy & Hc & He & Hs).
  unfold Semantic.add_symbol, nsym. rewrite Hy.
  destruct (existsb _ _); [now apply same_upto_semantic_error |].
  destruct (_ <=? _)%nat; [exact HR |].
  repeat split;
    cbn [toks pos symtab cur_scope error_count stderr set_symtab];
    congruence.
Qed.

(** The cursor never moves back and the error count never goes down. *)
Lemma semantic_run_later (s s' : State) :
  steps Semantic.EOF_LINE semantic_messages semantic_adds s s' -> later s s'.
Proof.
  intros H. split; [| now apply semantic_steps_grow in H].
  induction H as [s | s1 s2 s3 _ IH1 _ IH2 | s | msg s Hm
                  | msg ln s Hm Hl | s s' Ha | sc s Hs].
  - lia.
  - lia.
  - apply consume_adv.
  - apply syn_error_prog.
  - cbn. lia.
  - destruct Ha as (name & ty & sc & arrsz & t & -> & _).
    destruct (semantic_add_symbol_keeps name ty sc arrsz (line t) s)
      as (_ & -> & _). lia.
  - cbn. lia.
Qed.


Lemma later_consume (eofl : Z) (s : State) :
  later s (snd (Cursor.consume eofl s)).
Proof.
  split; [apply consume_adv |].
  destruct (consume_keeps eofl s) as (_ & _ & _ & ->). lia.
Qed.

Lemma later_match (eofl : Z) (kind : string) (s : State) :
  later s (snd (Cursor.match_ eofl kind s)).
Proof.
  unfold Cursor.match_. destruct (_ =? _); cbn [snd];
    [apply later_consume | split; lia].
Qed.

Lemma later_syn_error (eofl : Z) (msg : string) (s : State) :
  pos s <= pos (Cursor.syn_error eofl msg s) /\
  error_count (Cursor.syn_error eofl msg s) = (error_count s + 1)%Z.
Proof.
  split; [apply syn_error_prog | apply syn_error_keeps].
Qed.

Lemma later_expect (eofl : Z) (kind msg : string) (s : State) :
  later s (Cursor.expect eofl kind msg s).
Proof.
  unfold Cursor.expect.
  destruct (Cursor.match_ eofl kind s) as [[t |] s1] eqn:E.
  - pose proof (later_match eofl kind s) as H. now rewrite E in H.
  - apply match_None in E. destruct E as [-> _].
    destruct (later_syn_error eofl msg s) as [H1 H2]. split; lia.
Qed.

Lemma later_type_specifier (eofl : Z) (s : State) :
  later s (snd (Cursor.type_specifier eofl s)).
Proof.
  unfold Cursor.type_specifier. destruct (negb _); cbn [snd];
    [split; lia | apply later_consume].
Qed.

Lemma later_semantic_error (msg : string) (ln : Z) (s : State) :
  later s (semantic_error msg ln s).
Proof. split; cbn; lia. Qed.

Lemma later_apply_binary_op (op : string) (l r ln : Z) (s : State) :
  later s (snd (apply_binary_op op l r ln s)).
Proof.
  unfold apply_binary_op.
  repeat match goal with
         | |- context [if ?b then _ else _] => destruct b
         end; cbn [snd]; split; cbn; lia.
Qed.

Lemma later_operand (b : Tok) (s : State) :
  later s
    (snd (match lookup_symbol (lexeme b) s with
          | None =>
              (TYPE_ERROR, semantic_error "Undeclared identifier." (line b) s)
          | Some y => (str_to_type (sym_type y), s)
          end)).
Proof. destruct (lookup_symbol _ _); cbn [snd]; split; cbn; lia. Qed.

Lemma later_semantic_add (name ty sc : string) (arrsz ln : Z) (s : State) :
  later s (Semantic.add_symbol name ty sc arrsz ln s).
Proof.
  unfold Semantic.add_symbol.
  destruct (existsb _ _); [apply later_semantic_error |].
  destruct (_ <=? _)%nat; split; cbn; lia.
Qed.

Ltac later_all :=
  repeat match goal with
         | H : steps Semantic.EOF_LINE semantic_messages semantic_adds _ _
           |- _ => apply semantic_run_later in H
         end;
  repeat match goal with
         | H : later _ _ |- _ => destruct H as [? ?]
         end.

Lemma same_upto_operand (n : nat) (t : Tok) (s1 s2 : State) :
  same_upto n s1 s2 ->
  fst (match lookup_symbol (lexeme t) s2 with
       | None =>
           (TYPE_ERROR, semantic_error "Undeclared identifier." (line t) s2)
       | Some y => (str_to_type (sym_type y), s2)
       end) =
  fst (match lookup_symbol (lexeme t) s1 with
       | None =>
           (TYPE_ERROR, semantic_error "Undeclared identifier." (line t) s1)
       | Some y => (str_to_type (sym_type y), s1)
       end) /\
  same_upto n
    (snd (match lookup_symbol (lexeme t) s1 with
          | None =>
              (TYPE_ERROR,
               semantic_error "Undeclared identifier." (line t) s1)
          | Some y => (str_to_type (sym_type y), s1)
          end))
    (snd (match lookup_symbol (lexeme t) s2 with
          | None =>
              (TYPE_ERROR,
               semantic_error "Undeclared identifier." (line t) s2)
          | Some y => (str_to_type (sym_type y), s2)
          end)).
Proof.
  intros HR. rewrite (same_upto_lookup n _ s1 s2 HR).
  destruct (lookup_symbol _ s1); cbn [fst snd];
    (split; [reflexivity |]); [exact HR |].
  now apply same_upto_semantic_error.
Qed.

(** The same call on the other state: its value is the same and the states
    it leaves agree. *)
Ltac pair_frame lem E b Hs :=
  let Hf := fresh "Hf" in
  let v := fresh "v" in
  destruct lem as [Hf Hs]; rewrite E in Hf, Hs;
  match type of Hf with
  | fst ?e2 = _ => destruct e2 as [v b]
  end;
  cbn [fst snd] in Hf, Hs; subst v.

Ltac quiet_absurd :=
  exfalso; later_all;
  repeat match goal with
         | H : context [error_count (Cursor.syn_error ?e ?m ?x)] |- _ =>
             rewrite (proj2 (later_syn_error e m x)) in H
         end; lia.

Section Frame.

Variable n : nat.

Lemma frame_expression_loop (fuel : nat) :
  forall (ty ty' : Z) (s1 s1' s2 : State),
    Cursor.expression_loop Semantic.EOF_LINE fuel ty s1 = Some (ty', s1') ->
    error_count s1' = error_count s1 -> pos s1' < n ->
    same_upto n s1 s2 ->
    exists s2',
      Cursor.expression_loop Semantic.EOF_LINE fuel ty s2 = Some (ty', s2') /\
      same_upto n s1' s2'.
Proof.
  induction fuel as [| fuel IH]; intros ty ty' s1 s1' s2 H Hq Hp HR;
    [discriminate |].
  pose proof (expression_loop_steps _ _ _ semantic_adds_toks (incl_refl _)
                _ _ _ _ _ H) as M.
  cbn [Cursor.expression_loop] in H |- *. later_all.
  rewrite (same_upto_LA _ _ _ _ HR) by lia.
  destruct (negb (is_operator (token (Cursor.LA Semantic.EOF_LINE s1)))).
  { injection H as <- <-. exists s2. split; [reflexivity | exact HR]. }
  pose proof (same_upto_consume Semantic.EOF_LINE n s1 s2 HR ltac:(lia))
    as HR1.
  pose proof (later_consume Semantic.EOF_LINE s1) as M1.
  set (op := Cursor.LA Semantic.EOF_LINE s1) in *.
  set (a := snd (Cursor.consume Semantic.EOF_LINE s1)) in *.
  set (b := snd (Cursor.consume Semantic.EOF_LINE s2)) in *.
  clearbody a b op.
  destruct (token (Cursor.LA Semantic.EOF_LINE a) =? "IDENTIFIER") eqn:Ei.
  - pose proof (later_operand (Cursor.LA Semantic.EOF_LINE a) a) as M2.
    destruct (match lookup_symbol _ a with Some _ => _ | None => _ end)
      as [rhs a2] eqn:Eo. cbn [snd] in M2.
    pose proof (later_consume Semantic.EOF_LINE a2) as M3.
    pose proof (later_apply_binary_op (token op) ty rhs (line op)
                  (snd (Cursor.consume Semantic.EOF_LINE a2))) as M4.
    destruct (apply_binary_op _ _ _ _ _) as [ty4 a4] eqn:Eb.
    cbn [snd] in M4.
    pose proof (expression_loop_steps _ _ _ semantic_adds_toks (incl_refl _)
                  _ _ _ _ _ H) as M5.
    later_all.
    rewrite (same_upto_LA _ _ _ _ HR1) by lia. rewrite Ei.
    pair_frame (same_upto_operand n (Cursor.LA Semantic.EOF_LINE a) a b HR1)
               Eo sb1 HR0.
    pose proof (same_upto_consume Semantic.EOF_LINE n _ _ HR0 ltac:(lia))
      as HR2.
    pair_frame (same_upto_apply_binary_op n (token op) ty rhs (line op)
                  _ _ HR2) Eb sb2 HR4.
    apply (IH _ _ _ _ _ H); [lia | lia | assumption].
  - destruct ((token (Cursor.LA Semantic.EOF_LINE a) =? "INT_CONST")
              || (token (Cursor.LA Semantic.EOF_LINE a) =? "CHAR_CONST"))
      eqn:Ec.
    + pose proof (later_consume Semantic.EOF_LINE a) as M3.
      pose proof (later_apply_binary_op (token op) ty
                    (const_token_type (Cursor.LA Semantic.EOF_LINE a))
                    (line op) (snd (Cursor.consume Semantic.EOF_LINE a)))
        as M4.
      destruct (apply_binary_op _ _ _ _ _) as [ty4 a4] eqn:Eb.
      cbn [snd] in M4.
      pose proof (expression_loop_steps _ _ _ semantic_adds_toks
                    (incl_refl _) _ _ _ _ _ H) as M5.
      later_all.
      rewrite (same_upto_LA _ _ _ _ HR1) by lia. rewrite Ei, Ec.
      pose proof (same_upto_consume Semantic.EOF_LINE n _ _ HR1 ltac:(lia))
        as HR2.
      pair_frame (same_upto_apply_binary_op n (token op) ty
                    (const_token_type (Cursor.LA Semantic.EOF_LINE a))
                    (line op) _ _ HR2) Eb sb3 HR0.
      apply (IH _ _ _ _ _ H); [lia | lia | assumption].
    + injection H as <- <-.
      destruct (later_syn_error Semantic.EOF_LINE
                  "Identifier or integer constant expected" a) as [_ E].
      later_all. lia.
Qed.

Lemma frame_expression_if_any (fuel : nat) (out ty : Z) (ok : bool)
    (s1 s1' s2 : State) :
  Semantic.expression_if_any fuel out s1 = Some (ok, ty, s1') ->
  error_count s1' = error_count s1 -> pos s1' < n ->
  same_upto n s1 s2 ->
  exists s2',
    Semantic.expression_if_any fuel out s2 = Some (ok, ty, s2') /\
    same_upto n s1' s2'.
Proof.
  intros H Hq Hp HR.
  pose proof (expression_if_any_steps _ _ _ semantic_adds_toks (incl_refl _)
                _ _ _ _ _ _ H) as M.
  unfold Cursor.expression_if_any in H |- *. later_all.
  rewrite (same_upto_LA _ _ _ _ HR) by lia.
  destruct (token (Cursor.LA Semantic.EOF_LINE s1) =? "IDENTIFIER").
  - pose proof (later_operand (Cursor.LA Semantic.EOF_LINE s1) s1) as M2.
    destruct (match lookup_symbol _ s1 with Some _ => _ | None => _ end)
      as [cur a2] eqn:Eo. cbn [snd] in M2.
    pose proof (later_consume Semantic.EOF_LINE a2) as M3.
    destruct (Cursor.expression_loop Semantic.EOF_LINE fuel cur _)
      as [[ty3 a3] |] eqn:El; [| discriminate].
    injection H as <- <- <-.
    pose proof (expression_loop_steps _ _ _ semantic_adds_toks (incl_refl _)
                  _ _ _ _ _ El) as M5.
    later_all.
    pair_frame (same_upto_operand n (Cursor.LA Semantic.EOF_LINE s1) s1 s2
                  HR) Eo sb4 HR0.
    pose proof (same_upto_consume Semantic.EOF_LINE n _ _ HR0 ltac:(lia))
      as HR2.
    destruct (frame_expression_loop fuel _ _ _ _ _ El ltac:(lia) ltac:(lia)
                HR2) as (s2' & -> & HR3).
    exists s2'. split; [reflexivity | exact HR3].
  - destruct (_ || _).
    + pose proof (later_consume Semantic.EOF_LINE s1) as M3.
      destruct (Cursor.expression_loop Semantic.EOF_LINE fuel _ _)
        as [[ty3 a3] |] eqn:El; [| discriminate].
      injection H as <- <- <-.
      pose proof (expression_loop_steps _ _ _ semantic_adds_toks
                    (incl_refl _) _ _ _ _ _ El) as M5.
      later_all.
      pose proof (same_upto_consume Semantic.EOF_LINE n _ _ HR ltac:(lia))
        as HR2.
      destruct (frame_expression_loop fuel _ _ _ _ _ El ltac:(lia)
                  ltac:(lia) HR2) as (s2' & -> & HR3).
      exists s2'. split; [reflexivity | exact HR3].
    + injection H as <- <- <-. exists s2. split; [reflexivity | exact HR].
Qed.

Lemma frame_condition (fuel : nat) (s1 s1' s2 : State) :
  Semantic.condition fuel s1 = Some s1' ->
  error_count s1' = error_count s1 -> pos s1' < n ->
  same_upto n s1 s2 ->
  exists s2', Semantic.condition fuel s2 = Some s2' /\ same_upto n s1' s2'.
Proof.
  intros H Hq Hp HR. unfold Cursor.condition in H |- *.
  destruct (Cursor.expression_if_any Semantic.EOF_LINE fuel TYPE_ERROR s1)
    as [[[ok ty] a] |] eqn:E; [| discriminate].
  cbn [bind] in H.
  pose proof (expression_if_any_steps _ _ _ semantic_adds_toks (incl_refl _)
                _ _ _ _ _ _ E) as M.
  destruct (negb ok) eqn:Eok.
  { some_inv H. quiet_absurd. }
  destruct (_ && _) eqn:Ec.
  { some_inv H. exfalso. later_all.
    cbn [error_count semantic_error] in Hq. lia. }
  some_inv H.
  destruct (frame_expression_if_any fuel _ _ _ _ _ _ E Hq Hp HR)
    as (s2' & -> & HR1).
  cbn [bind]. rewrite Eok, Ec. exists s2'. split; [reflexivity | exact HR1].
Qed.

Lemma frame_expression_or_error (fuel : nat) (s1 s1' s2 : State) :
  Semantic.expression_or_error fuel s1 = Some s1' ->
  error_count s1' = error_count s1 -> pos s1' < n ->
  same_upto n s1 s2 ->
  exists s2',
    Semantic.expression_or_error fuel s2 = Some s2' /\ same_upto n s1' s2'.
Proof.
  intros H Hq Hp HR. unfold Cursor.expression_or_error in H |- *.
  destruct (Cursor.expression_if_any Semantic.EOF_LINE fuel TYPE_ERROR s1)
    as [[[ok ty] a] |] eqn:E; [| discriminate].
  cbn [bind] in H.
  pose proof (expression_if_any_steps _ _ _ semantic_adds_toks (incl_refl _)
                _ _ _ _ _ _ E) as M.
  destruct (negb ok) eqn:Eok.
  { some_inv H. quiet_absurd. }
  some_inv H.
  destruct (frame_expression_if_any fuel _ _ _ _ _ _ E Hq Hp HR)
    as (s2' & -> & HR1).
  cbn [bind]. rewrite Eok. exists s2'. split; [reflexivity | exact HR1].
Qed.

Lemma frame_array_opt (s1 s2 : State) :
  error_count (snd (Semantic.array_opt s1)) = error_count s1 ->
  pos (snd (Semantic.array_opt s1)) < n ->
  same_upto n s1 s2 ->
  fst (Semantic.array_opt s2) = fst (Semantic.array_opt s1) /\
  same_upto n (snd (Semantic.array_opt s1)) (snd (Semantic.array_opt s2)).
Proof.
  intros Hq Hp HR.
  pose proof (semantic_array_opt_steps s1) as M.
  unfold Semantic.array_opt in *. later_all.
  rewrite (same_upto_LA _ _ _ _ HR) by lia.
  destruct (negb (token (Cursor.LA Semantic.EOF_LINE s1) =? "LBRACKET")).
  { split; [reflexivity | exact HR]. }
  pose proof (same_upto_consume Semantic.EOF_LINE n s1 s2 HR ltac:(lia))
    as HR1.
  pose proof (later_consume Semantic.EOF_LINE s1) as M1.
  set (a := snd (Cursor.consume Semantic.EOF_LINE s1)) in *.
  set (b := snd (Cursor.consume Semantic.EOF_LINE s2)) in *.
  clearbody a b.
  destruct (token (Cursor.LA Semantic.EOF_LINE a) =? "INT_CONST") eqn:Ei.
  - pose proof (later_consume Semantic.EOF_LINE a) as M2.
    pose proof (later_expect Semantic.EOF_LINE "RBRACKET"
                  "Right bracket expected"
                  (snd (Cursor.consume Semantic.EOF_LINE a))) as M3.
    cbn [fst snd] in *. later_all.
    rewrite (same_upto_LA _ _ _ _ HR1) by lia. rewrite Ei. cbn [fst snd].
    pose proof (same_upto_consume Semantic.EOF_LINE n a b HR1 ltac:(lia))
      as HR2.
    split; [reflexivity |].
    apply same_upto_expect; [exact HR2 | lia | lia].
  - pose proof (later_expect Semantic.EOF_LINE "RBRACKET"
                  "Right bracket expected" a) as M3.
    cbn [fst snd] in *. later_all.
    rewrite (same_upto_LA _ _ _ _ HR1) by lia. rewrite Ei. cbn [fst snd].
    split; [reflexivity |].
    apply same_upto_expect; [exact HR1 | lia | lia].
Qed.

Lemma frame_init_opt (typestr : string) (ln : Z) (s1 s2 : State) :
  error_count (snd (Semantic.init_opt typestr ln s1)) = error_count s1 ->
  pos (snd (Semantic.init_opt typestr ln s1)) < n ->
  same_upto n s1 s2 ->
  same_upto n (snd (Semantic.init_opt typestr ln s1))
              (snd (Semantic.init_opt typestr ln s2)).
Proof.
  intros Hq Hp HR.
  pose proof (semantic_init_opt_steps typestr ln s1) as M.
  unfold Semantic.init_opt in *. later_all.
  rewrite (same_upto_LA _ _ _ _ HR) by lia.
  destruct (negb (token (Cursor.LA Semantic.EOF_LINE s1) =? "ASSIGN")).
  { exact HR. }
  pose proof (same_upto_consume Semantic.EOF_LINE n s1 s2 HR ltac:(lia))
    as HR1.
  pose proof (later_consume Semantic.EOF_LINE s1) as M1.
  set (a := snd (Cursor.consume Semantic.EOF_LINE s1)) in *.
  set (b := snd (Cursor.consume Semantic.EOF_LINE s2)) in *.
  clearbody a b.
  destruct (negb (token (Cursor.LA Semantic.EOF_LINE a) =? "INT_CONST")
            && negb (token (Cursor.LA Semantic.EOF_LINE a) =? "CHAR_CONST"))
    eqn:Ec.
  { cbn [snd] in Hq. quiet_absurd. }
  cbn [snd] in *.
  destruct (negb (const_token_type (Cursor.LA Semantic.EOF_LINE a)
                  =? TYPE_ERROR)%Z
            && negb (str_to_type typestr =? TYPE_ERROR)%Z
            && negb (const_token_type (Cursor.LA Semantic.EOF_LINE a)
                     =? str_to_type typestr)%Z) eqn:Em.
  - pose proof (later_consume Semantic.EOF_LINE
                  (semantic_error "Type mismatch in statement or expression."
                     (line (Cursor.LA Semantic.EOF_LINE a)) a)) as M2.
    exfalso. later_all. cbn [error_count semantic_error] in *. lia.
  - pose proof (later_consume Semantic.EOF_LINE a) as M2. later_all.
    rewrite (same_upto_LA _ _ _ _ HR1) by lia. rewrite Ec. cbn [snd].
    rewrite Em. apply same_upto_consume; [exact HR1 | lia].
Qed.

Lemma frame_init_declarator (typestr : string) (s1 s2 : State) :
  In typestr type_names ->
  error_count (Semantic.init_declarator typestr s1) = error_count s1 ->
  pos (Semantic.init_declarator typestr s1) < n ->
  same_upto n s1 s2 ->
  same_upto n (Semantic.init_declarator typestr s1)
              (Semantic.init_declarator typestr s2).
Proof.
  intros Hty Hq Hp HR.
  pose proof (semantic_init_declarator_steps typestr s1 Hty) as M.
  unfold Semantic.init_declarator in *. later_all.
  pose proof (later_match Semantic.EOF_LINE "IDENTIFIER" s1) as M1.
  destruct (Cursor.match_ Semantic.EOF_LINE "IDENTIFIER" s1)
    as [[idt |] a] eqn:Em.
  2:{ cbn [snd] in M1. quiet_absurd. }
  cbn [snd] in M1.
  pose proof (semantic_array_opt_steps a) as M2.
  destruct (Semantic.array_opt a) as [[r arrsz] a2] eqn:Ea. cbn [snd] in M2.
  pose proof (semantic_init_opt_steps typestr (line idt) a2) as M3.
  pose proof (later_semantic_add (lexeme idt) typestr
                (cur_scope (snd (Semantic.init_opt typestr (line idt) a2)))
                arrsz (line idt)
                (snd (Semantic.init_opt typestr (line idt) a2))) as M4.
  later_all.
  pair_frame (same_upto_match Semantic.EOF_LINE n "IDENTIFIER" s1 s2 HR
                ltac:(lia)) Em sb5 HR0.
  destruct (frame_array_opt a sb5) as [Hf HR1];
    [rewrite Ea; cbn [snd]; lia | rewrite Ea; cbn [snd]; lia | exact HR0 |].
  rewrite Ea in Hf, HR1.
  destruct (Semantic.array_opt sb5) as [[r' arrsz'] b2].
  cbn [fst snd] in Hf, HR1. injection Hf as -> ->.
  pose proof (frame_init_opt typestr (line idt) a2 b2 ltac:(lia) ltac:(lia)
                HR1) as HR2.
  assert (Ec : cur_scope (snd (Semantic.init_opt typestr (line idt) b2)) =
               cur_scope (snd (Semantic.init_opt typestr (line idt) a2))).
  { symmetry. apply HR2. }
  rewrite Ec. now apply same_upto_semantic_add.
Qed.

Lemma frame_init_declarator_list_loop (fuel : nat) :
  forall (typestr : string) (s1 s1' s2 : State),
    In typestr type_names ->
    Semantic.init_declarator_list_loop fuel typestr s1 = Some s1' ->
    error_count s1' = error_count s1 -> pos s1' < n ->
    same_upto n s1 s2 ->
    exists s2',
      Semantic.init_declarator_list_loop fuel typestr s2 = Some s2' /\
      same_upto n s1' s2'.
Proof.
  induction fuel as [| fuel IH]; intros typestr s1 s1' s2 Hty H Hq Hp HR;
    [discriminate |].
  pose proof (semantic_init_declarator_list_loop_steps (S fuel) typestr
                s1 s1' Hty H) as M.
  cbn [Semantic.init_declarator_list_loop] in H |- *. later_all.
  pose proof (later_match Semantic.EOF_LINE "COMMA" s1) as M1.
  destruct (Cursor.match_ Semantic.EOF_LINE "COMMA" s1) as [[t |] a] eqn:Em;
    cbn [snd] in M1.
  - pose proof (semantic_init_declarator_steps typestr a Hty) as M2.
    pose proof (semantic_init_declarator_list_loop_steps fuel typestr _ _
                  Hty H) as M3.
    later_all.
    pair_frame (same_upto_match Semantic.EOF_LINE n "COMMA" s1 s2 HR
                  ltac:(lia)) Em sb6 HR0.
    apply (IH typestr _ _ _ Hty H); [lia | lia |].
    apply frame_init_declarator; [exact Hty | lia | lia | exact HR0].
  - some_inv H.
    pair_frame (same_upto_match Semantic.EOF_LINE n "COMMA" s1 s2 HR
                  ltac:(lia)) Em sb7 HR0.
    eexists. split; [reflexivity | exact HR0].
Qed.

Lemma frame_declaration (fuel : nat) (typestr : string) (s1 s1' s2 : State) :
  In typestr type_names ->
  Semantic.declaration fuel typestr s1 = Some s1' ->
  error_count s1' = error_count s1 -> pos s1' < n ->
  same_upto n s1 s2 ->
  exists s2',
    Semantic.declaration fuel typestr s2 = Some s2' /\ same_upto n s1' s2'.
Proof.
  intros Hty H Hq Hp HR.
  unfold Semantic.declaration, Semantic.init_declarator_list in H |- *.
  apply bind_Some in H. destruct H as (a & H1 & H). some_inv H.
  pose proof (semantic_init_declarator_steps typestr s1 Hty) as M1.
  pose proof (semantic_init_declarator_list_loop_steps fuel typestr _ _
                Hty H1) as M2.
  pose proof (later_expect Semantic.EOF_LINE "SEMICOLON" "Semicolon expected"
                a) as M3.
  later_all.
  pose proof (frame_init_declarator typestr s1 s2 Hty ltac:(lia) ltac:(lia)
                HR) as HR1.
  destruct (frame_init_declarator_list_loop fuel typestr _ _ _ Hty H1
              ltac:(lia) ltac:(lia) HR1) as (b & -> & HR2).
  cbn [bind]. eexists. split; [reflexivity |].
  apply same_upto_expect; [exact HR2 | lia | lia].
Qed.

Lemma frame_global_decl_list (fuel : nat) :
  forall (s1 s1' s2 : State),
    Semantic.global_decl_list fuel s1 = Some s1' ->
    error_count s1' = error_count s1 -> S (pos s1') < n ->
    same_upto n s1 s2 ->
    exists s2',
      Semantic.global_decl_list fuel s2 = Some s2' /\ same_upto n s1' s2'.
Proof.
  induction fuel as [| fuel IH]; intros s1 s1' s2 H Hq Hp HR;
    [discriminate |].
  pose proof (semantic_global_decl_list_steps (S fuel) _ _ H) as M.
  cbn [Semantic.global_decl_list] in H |- *. later_all.
  rewrite (same_upto_LA _ _ _ _ HR) by lia.
  destruct (is_type_token (token (Cursor.LA Semantic.EOF_LINE s1))) eqn:Hty;
    cbn [negb] in H |- *.
  2:{ some_inv H. exists s2. split; [reflexivity | exact HR]. }
  assert (Hin1 : pos s1 < ntok s1).
  { apply (LA_not_EOF_inside Semantic.EOF_LINE).
    now apply is_type_token_not_EOF. }
  assert (Hin2 : pos s2 < ntok s2).
  { apply (LA_not_EOF_inside Semantic.EOF_LINE).
    rewrite (same_upto_LA _ _ _ _ HR) by lia.
    now apply is_type_token_not_EOF. }
  pose proof (same_upto_consume Semantic.EOF_LINE n s1 s2 HR ltac:(lia))
    as HR1.
  pose proof (later_consume Semantic.EOF_LINE s1) as M1.
  pose proof (consume_back Semantic.EOF_LINE s1 Hin1) as B1.
  pose proof (consume_back Semantic.EOF_LINE s2 Hin2) as B2.
  assert (P1 : pos (snd (Cursor.consume Semantic.EOF_LINE s1)) = S (pos s1)).
  { now rewrite (consume_inside _ s1 Hin1). }
  set (a := snd (Cursor.consume Semantic.EOF_LINE s1)) in *.
  set (b := snd (Cursor.consume Semantic.EOF_LINE s2)) in *.
  clearbody a b.
  destruct (token (Cursor.LA Semantic.EOF_LINE a) =? "MAIN") eqn:Em.
  - some_inv H. rewrite B1 in *.
    rewrite (same_upto_LA _ _ _ _ HR1) by lia. rewrite Em, B2.
    exists s2. split; [reflexivity | exact HR].
  - apply bind_Some in H. destruct H as (a2 & Gd & H).
    pose proof (semantic_declaration_steps fuel _ _ _
                  (norm_type_token_names _ Hty) Gd) as M2.
    pose proof (semantic_global_decl_list_steps fuel _ _ H) as M3.
    later_all.
    rewrite (same_upto_LA _ _ _ _ HR1) by lia. rewrite Em.
    destruct (frame_declaration fuel _ _ _ _ (norm_type_token_names _ Hty)
                Gd ltac:(lia) ltac:(lia) HR1) as (b2 & -> & HR2).
    cbn [bind]. apply (IH _ _ _ H); [lia | lia | exact HR2].
Qed.

Lemma frame_expr_stmt (fuel : nat) (s1 s1' s2 : State) :
  Semantic.expr_stmt fuel s1 = Some s1' ->
  error_count s1' = error_count s1 -> pos s1' < n ->
  same_upto n s1 s2 ->
  exists s2', Semantic.expr_stmt fuel s2 = Some s2' /\ same_upto n s1' s2'.
Proof.
  intros H Hq Hp HR.
  pose proof (semantic_expr_stmt_steps fuel _ _ H) as M.
  unfold Semantic.expr_stmt in H |- *. later_all.
  rewrite (same_upto_LA _ _ _ _ HR) by lia.
  destruct (token (Cursor.LA Semantic.EOF_LINE s1) =? "SEMICOLON").
  { some_inv H. eexists. split; [reflexivity |].
    apply same_upto_consume; [exact HR | lia]. }
  apply bind_Some in H. destruct H as (a & Ge & H). some_inv H.
  pose proof (expression_or_error_steps _ _ _ semantic_adds_toks
                (incl_refl _) _ _ _ Ge) as M1.
  pose proof (later_expect Semantic.EOF_LINE "SEMICOLON" "Semicolon expected"
                a) as M2.
  later_all.
  destruct (frame_expression_or_error fuel _ _ _ Ge ltac:(lia) ltac:(lia) HR)
    as (b & -> & HR1).
  cbn [bind]. eexists. split; [reflexivity |].
  apply same_upto_expect; [exact HR1 | lia | lia].
Qed.

Lemma frame_parser (fuel : nat) :
  framed n (Semantic.statement fuel) /\
  framed n (Semantic.stmt_list_opt fuel) /\
  framed n (Semantic.block fuel) /\ framed n (Semantic.if_stmt fuel) /\
  framed n (Semantic.while_stmt fuel) /\ framed n (Semantic.for_stmt fuel).
Proof.
  induction fuel as [| fuel (IHst & IHsl & IHbl & IHif & IHwh & IHfor)].
  { split; [| split; [| split; [| split; [| split]]]];
      intros s1 s1' s2 H; discriminate H. }
  destruct (semantic_parser_steps fuel)
    as (Mst & Msl & Mbl & Mif & Mwh & Mfor).
  destruct (semantic_parser_steps (S fuel))
    as (Nst & Nsl & Nbl & Nif & Nwh & Nfor).
  split; [| split; [| split; [| split; [| split]]]];
    intros s1 s1' s2 H Hq Hp HR.
  - (* statement *)
    pose proof (Nst _ _ H) as M.
    rewrite semantic_statement_S in H |- *. cbv zeta in H |- *. later_all.
    rewrite (same_upto_LA _ _ _ _ HR) by lia.
    destruct (is_type_token (token (Cursor.LA Semantic.EOF_LINE s1)))
      eqn:Hty.
    { assert (Hty2 : is_type_token (token (Cursor.LA Semantic.EOF_LINE s2))
                     = true).
      { now rewrite (same_upto_LA _ _ _ _ HR) by lia. }
      destruct (type_specifier_Some _ s1 Hty) as [E1 _].
      destruct (type_specifier_Some _ s2 Hty2) as [E2 _].
      rewrite E1 in H. rewrite E2.
      rewrite (same_upto_LA _ _ _ _ HR) by lia.
      pose proof (later_consume Semantic.EOF_LINE s1) as M1.
      pose proof (semantic_declaration_steps fuel _ _ _
                    (norm_type_token_names _ Hty) H) as M2.
      later_all.
      apply (frame_declaration fuel _ _ _ _ (norm_type_token_names _ Hty) H);
        [lia | lia |].
      apply same_upto_consume; [exact HR | lia]. }
    destruct (token (Cursor.LA Semantic.EOF_LINE s1) =? "IF");
      [now apply (IHif _ _ _ H) |].
    destruct (token (Cursor.LA Semantic.EOF_LINE s1) =? "WHILE");
      [now apply (IHwh _ _ _ H) |].
    destruct (token (Cursor.LA Semantic.EOF_LINE s1) =? "FOR");
      [now apply (IHfor _ _ _ H) |].
    destruct (token (Cursor.LA Semantic.EOF_LINE s1) =? "LBRACE");
      [now apply (IHbl _ _ _ H) |].
    now apply (frame_expr_stmt fuel _ _ _ H).
  - (* stmt_list_opt *)
    pose proof (Nsl _ _ H) as M.
    rewrite semantic_stmt_list_opt_S in H |- *. cbv zeta in H |- *.
    later_all.
    rewrite (same_upto_LA _ _ _ _ HR) by lia.
    destruct (_ || _).
    { some_inv H. exists s2. split; [reflexivity | exact HR]. }
    apply bind_Some in H. destruct H as (a & G1 & H).
    pose proof (Mst _ _ G1) as M1. pose proof (Msl _ _ H) as M2. later_all.
    destruct (IHst _ _ _ G1 ltac:(lia) ltac:(lia) HR) as (b & -> & HR1).
    cbn [bind]. apply (IHsl _ _ _ H); [lia | lia | exact HR1].
  - (* block *)
    pose proof (Nbl _ _ H) as M.
    rewrite semantic_block_S in H |- *. later_all.
    pose proof (later_match Semantic.EOF_LINE "LBRACE" s1) as M1.
    destruct (Cursor.match_ Semantic.EOF_LINE "LBRACE" s1) as [[t |] a]
      eqn:Em; cbn [snd] in M1.
    2:{ some_inv H. quiet_absurd. }
    apply bind_Some in H. destruct H as (a2 & G1 & H). some_inv H.
    pose proof (Msl _ _ G1) as M2.
    pose proof (later_expect Semantic.EOF_LINE "RBRACE" "} missing" a2) as M3.
    later_all.
    pair_frame (same_upto_match Semantic.EOF_LINE n "LBRACE" s1 s2 HR
                  ltac:(lia)) Em b HR1.
    destruct (IHsl _ _ _ G1 ltac:(lia) ltac:(lia) HR1) as (b2 & -> & HR2).
    cbn [bind]. eexists. split; [reflexivity |].
    apply same_upto_expect; [exact HR2 | lia | lia].
  - (* if_stmt *)
    pose proof (Nif _ _ H) as M.
    rewrite semantic_if_stmt_S in H |- *. later_all.
    pose proof (later_match Semantic.EOF_LINE "IF" s1) as M1.
    destruct (Cursor.match_ Semantic.EOF_LINE "IF" s1) as [[t |] a]
      eqn:Em; cbn [snd] in M1.
    2:{ some_inv H. quiet_absurd. }
    cbv zeta in H.
    pose proof (later_expect Semantic.EOF_LINE "LPAREN"
                  "Opening parenthesis missing" a) as M2.
    apply bind_Some in H. destruct H as (a2 & G1 & H).
    pose proof (condition_steps _ _ _ semantic_adds_toks (incl_refl _)
                  _ _ _ G1) as M3.
    pose proof (later_expect Semantic.EOF_LINE "RPAREN"
                  "Closing parenthesis missing" a2) as M4.
    apply bind_Some in H. destruct H as (a3 & G2 & H).
    pose proof (Mbl _ _ G2) as M5.
    pose proof (later_match Semantic.EOF_LINE "ELSE" a3) as M6.
    destruct (Cursor.match_ Semantic.EOF_LINE "ELSE" a3) as [[t2 |] a4]
      eqn:Ee; cbn [snd] in M6.
    + pose proof (Mbl _ _ H) as M7. later_all.
      pair_frame (same_upto_match Semantic.EOF_LINE n "IF" s1 s2 HR
                    ltac:(lia)) Em b HR1.
      cbv zeta.
      pose proof (same_upto_expect Semantic.EOF_LINE n "LPAREN"
                    "Opening parenthesis missing" a b HR1 ltac:(lia)
                    ltac:(lia)) as HR2.
      destruct (frame_condition fuel _ _ _ G1 ltac:(lia) ltac:(lia) HR2)
        as (b2 & -> & HR3).
      cbn [bind].
      pose proof (same_upto_expect Semantic.EOF_LINE n "RPAREN"
                    "Closing parenthesis missing" a2 b2 HR3 ltac:(lia)
                    ltac:(lia)) as HR4.
      destruct (IHbl _ _ _ G2 ltac:(lia) ltac:(lia) HR4) as (b3 & -> & HR5).
      cbn [bind].
      pair_frame (same_upto_match Semantic.EOF_LINE n "ELSE" a3 b3 HR5
                    ltac:(lia)) Ee b4 HR6.
      apply (IHbl _ _ _ H); [lia | lia | exact HR6].
    + some_inv H. later_all.
      pair_frame (same_upto_match Semantic.EOF_LINE n "IF" s1 s2 HR
                    ltac:(lia)) Em b HR1.
      cbv zeta.
      pose proof (same_upto_expect Semantic.EOF_LINE n "LPAREN"
                    "Opening parenthesis missing" a b HR1 ltac:(lia)
                    ltac:(lia)) as HR2.
      destruct (frame_condition fuel _ _ _ G1 ltac:(lia) ltac:(lia) HR2)
        as (b2 & -> & HR3).
      cbn [bind].
      pose proof (same_upto_expect Semantic.EOF_LINE n "RPAREN"
                    "Closing parenthesis missing" a2 b2 HR3 ltac:(lia)
                    ltac:(lia)) as HR4.
      destruct (IHbl _ _ _ G2 ltac:(lia) ltac:(lia) HR4) as (b3 & -> & HR5).
      cbn [bind].
      pair_frame (same_upto_match Semantic.EOF_LINE n "ELSE" a3 b3 HR5
                    ltac:(lia)) Ee b4 HR6.
      eexists. split; [reflexivity | exact HR6].
  - (* while_stmt *)
    pose proof (Nwh _ _ H) as M.
    rewrite semantic_while_stmt_S in H |- *. later_all.
    pose proof (later_match Semantic.EOF_LINE "WHILE" s1) as M1.
    destruct (Cursor.match_ Semantic.EOF_LINE "WHILE" s1) as [[t |] a]
      eqn:Em; cbn [snd] in M1.
    2:{ some_inv H. quiet_absurd. }
    cbv zeta in H.
    pose proof (later_expect Semantic.EOF_LINE "LPAREN"
                  "Opening parenthesis missing" a) as M2.
    apply bind_Some in H. destruct H as (a2 & G1 & H).
    pose proof (condition_steps _ _ _ semantic_adds_toks (incl_refl _)
                  _ _ _ G1) as M3.
    pose proof (later_expect Semantic.EOF_LINE "RPAREN"
                  "Closing parenthesis missing" a2) as M4.
    pose proof (Mbl _ _ H) as M5. later_all.
    pair_frame (same_upto_match Semantic.EOF_LINE n "WHILE" s1 s2 HR
                  ltac:(lia)) Em b HR1.
    cbv zeta.
    pose proof (same_upto_expect Semantic.EOF_LINE n "LPAREN"
                  "Opening parenthesis missing" a b HR1 ltac:(lia)
                  ltac:(lia)) as HR2.
    destruct (frame_condition fuel _ _ _ G1 ltac:(lia) ltac:(lia) HR2)
      as (b2 & -> & HR3).
    cbn [bind].
    pose proof (same_upto_expect Semantic.EOF_LINE n "RPAREN"
                  "Closing parenthesis missing" a2 b2 HR3 ltac:(lia)
                  ltac:(lia)) as HR4.
    apply (IHbl _ _ _ H); [lia | lia | exact HR4].
  - (* for_stmt *)
    pose proof (Nfor _ _ H) as M.
    rewrite semantic_for_stmt_S in H |- *. later_all.
    pose proof (later_match Semantic.EOF_LINE "FOR" s1) as M1.
    destruct (Cursor.match_ Semantic.EOF_LINE "FOR" s1) as [[t |] a]
      eqn:Em; cbn [snd] in M1.
    2:{ some_inv H. quiet_absurd. }
    cbv zeta in H.
    pose proof (later_expect Semantic.EOF_LINE "LPAREN"
                  "Opening parenthesis missing" a) as M2.
    apply bind_Some in H. destruct H as (a2 & G1 & H).
    pose proof (expression_or_error_steps _ _ _ semantic_adds_toks
                  (incl_refl _) _ _ _ G1) as M3.
    pose proof (later_expect Semantic.EOF_LINE "SEMICOLON"
                  "Semicolon expected" a2) as M4.
    apply bind_Some in H. destruct H as (a3 & G2 & H).
    pose proof (condition_steps _ _ _ semantic_adds_toks (incl_refl _)
                  _ _ _ G2) as M5.
    pose proof (later_expect Semantic.EOF_LINE "SEMICOLON"
                  "Semicolon expected" a3) as M6.
    apply bind_Some in H. destruct H as (a4 & G3 & H).
    pose proof (expression_or_error_steps _ _ _ semantic_adds_toks
                  (incl_refl _) _ _ _ G3) as M7.
    pose proof (later_expect Semantic.EOF_LINE "RPAREN"
                  "Closing parenthesis missing" a4) as M8.
    pose proof (Mst _ _ H) as M9. later_all.
    pair_frame (same_upto_match Semantic.EOF_LINE n "FOR" s1 s2 HR
                  ltac:(lia)) Em b HR1.
    cbv zeta.
    pose proof (same_upto_expect Semantic.EOF_LINE n "LPAREN"
                  "Opening parenthesis missing" a b HR1 ltac:(lia)
                  ltac:(lia)) as HR2.
    destruct (frame_expression_or_error fuel _ _ _ G1 ltac:(lia) ltac:(lia)
                HR2) as (b2 & -> & HR3).
    cbn [bind].
    pose proof (same_upto_expect Semantic.EOF_LINE n "SEMICOLON"
                  "Semicolon expected" a2 b2 HR3 ltac:(lia) ltac:(lia))
      as HR4.
    destruct (frame_condition fuel _ _ _ G2 ltac:(lia) ltac:(lia) HR4)
      as (b3 & -> & HR5).
    cbn [bind].
    pose proof (same_upto_expect Semantic.EOF_LINE n "SEMICOLON"
                  "Semicolon expected" a3 b3 HR5 ltac:(lia) ltac:(lia))
      as HR6.
    destruct (frame_expression_or_error fuel _ _ _ G3 ltac:(lia) ltac:(lia)
                HR6) as (b4 & -> & HR7).
    cbn [bind].
    pose proof (same_upto_expect Semantic.EOF_LINE n "RPAREN"
                  "Closing parenthesis missing" a4 b4 HR7 ltac:(lia)
                  ltac:(lia)) as HR8.
    apply (IHst _ _ _ H); [lia | lia | exact HR8].
Qed.

Lemma frame_param_list (fuel : nat) :
  forall (s1 s1' s2 : State),
    Semantic.param_list fuel s1 = Some s1' ->
    error_count s1' = error_count s1 -> pos s1' < n ->
    same_upto n s1 s2 ->
    exists s2', Semantic.param_list fuel s2 = Some s2' /\ same_upto n s1' s2'.
Proof.
  induction fuel as [| fuel IH]; intros s1 s1' s2 H Hq Hp HR;
    [discriminate |].
  pose proof (semantic_param_list_steps (S fuel) _ _ H) as M.
  cbn [Semantic.param_list] in H |- *. later_all.
  pose proof (later_type_specifier Semantic.EOF_LINE s1) as M1.
  destruct (Cursor.type_specifier Semantic.EOF_LINE s1) as [[pty |] a]
    eqn:Et; cbn [snd] in M1.
  2:{ some_inv H. quiet_absurd. }
  pose proof (later_match Semantic.EOF_LINE "IDENTIFIER" a) as M2.
  destruct (Cursor.match_ Semantic.EOF_LINE "IDENTIFIER" a) as [[pid |] a2]
    eqn:Em; cbn [snd] in M2.
  2:{ some_inv H. quiet_absurd. }
  cbv zeta in H.
  pose proof (later_semantic_add (lexeme pid) pty "Main" 0 (line pid) a2)
    as M3.
  pose proof (later_match Semantic.EOF_LINE "COMMA"
                (Semantic.add_symbol (lexeme pid) pty "Main" 0 (line pid) a2))
    as M4.
  destruct (Cursor.match_ Semantic.EOF_LINE "COMMA" _) as [[t |] a4] eqn:Ec;
    cbn [snd] in M4.
  - pose proof (semantic_param_list_steps fuel _ _ H) as M5. later_all.
    pair_frame (same_upto_type_specifier Semantic.EOF_LINE n s1 s2 HR
                  ltac:(lia)) Et b HR1.
    pair_frame (same_upto_match Semantic.EOF_LINE n "IDENTIFIER" a b HR1
                  ltac:(lia)) Em b2 HR2.
    cbv zeta.
    pose proof (same_upto_semantic_add n (lexeme pid) pty "Main" 0 (line pid)
                  a2 b2 HR2) as HR3.
    pair_frame (same_upto_match Semantic.EOF_LINE n "COMMA" _ _ HR3
                  ltac:(lia)) Ec b4 HR4.
    apply (IH _ _ _ H); [lia | lia | exact HR4].
  - some_inv H. later_all.
    pair_frame (same_upto_type_specifier Semantic.EOF_LINE n s1 s2 HR
                  ltac:(lia)) Et b HR1.
    pair_frame (same_upto_match Semantic.EOF_LINE n "IDENTIFIER" a b HR1
                  ltac:(lia)) Em b2 HR2.
    cbv zeta.
    pose proof (same_upto_semantic_add n (lexeme pid) pty "Main" 0 (line pid)
                  a2 b2 HR2) as HR3.
    pair_frame (same_upto_match Semantic.EOF_LINE n "COMMA" _ _ HR3
                  ltac:(lia)) Ec b4 HR4.
    eexists. split; [reflexivity | exact HR4].
Qed.

(** The block of the function: its closing brace is the last token read. *)
Lemma frame_last_block (fuel : nat) (s1 s1' s2 : State) :
  Semantic.block fuel s1 = Some s1' ->
  error_count s1' = error_count s1 -> pos s1' <= n ->
  same_upto n s1 s2 ->
  exists s2', Semantic.block fuel s2 = Some s2' /\ same_upto n s1' s2'.
Proof.
  intros H Hq Hp HR. destruct fuel as [| fuel]; [discriminate |].
  destruct (semantic_parser_steps fuel) as (_ & Msl & _).
  destruct (frame_parser fuel) as (_ & IHsl & _).
  rewrite semantic_block_S in H |- *.
  pose proof (later_match Semantic.EOF_LINE "LBRACE" s1) as M1.
  destruct (Cursor.match_ Semantic.EOF_LINE "LBRACE" s1) as [[t |] a]
    eqn:Em; cbn [snd] in M1.
  2:{ some_inv H. quiet_absurd. }
  apply match_Some_prog in Em as Ep; [| discriminate].
  apply bind_Some in H. destruct H as (a2 & G1 & H). some_inv H.
  pose proof (Msl _ _ G1) as M2.
  pose proof (later_expect Semantic.EOF_LINE "RBRACE" "} missing" a2) as M3.
  assert (Hlast : pos (Cursor.expect Semantic.EOF_LINE "RBRACE" "} missing"
                         a2) = S (pos a2)).
  { unfold Cursor.expect in *.
    destruct (Cursor.match_ Semantic.EOF_LINE "RBRACE" a2) as [[t2 |] a3]
      eqn:Er.
    - apply match_Some_prog in Er; [| discriminate]. apply Er.
    - apply match_None in Er. destruct Er as [-> _]. quiet_absurd. }
  later_all.
  pair_frame (same_upto_match Semantic.EOF_LINE n "LBRACE" s1 s2 HR
                ltac:(lia)) Em b HR1.
  destruct (IHsl _ _ _ G1 ltac:(lia) ltac:(lia) HR1) as (b2 & -> & HR2).
  cbn [bind]. eexists. split; [reflexivity |].
  apply same_upto_expect; [exact HR2 | lia | lia].
Qed.

Lemma function_def_moves (fuel : nat) (ret_type : string) (s s' : State) :
  Semantic.function_def fuel ret_type s = Some s' ->
  error_count s' = error_count s -> pos s < pos s'.
Proof.
  intros H Hq. apply semantic_function_def_steps in H as M.
  unfold Semantic.function_def in H.
  pose proof (later_match Semantic.EOF_LINE "MAIN" s) as M1.
  destruct (Cursor.match_ Semantic.EOF_LINE "MAIN" s) as [[idt |] a]
    eqn:Em; cbn [snd] in M1.
  2:{ some_inv H. quiet_absurd. }
  apply match_Some_prog in Em; [| discriminate].
  destruct Em as (_ & _ & Ep). cbv zeta in H.
  pose proof (later_semantic_add "main" "Function" "Global" 0 (line idt) a)
    as M2.
  assert (M3 : later a
                 (set_cur_scope "Main"
                    (Semantic.add_symbol "main" "Function" "Global" 0
                       (line idt) a))).
  { destruct M2 as [? ?]. split; cbn; assumption. }
  clear M2.
  pose proof (later_expect Semantic.EOF_LINE "LPAREN"
                "Opening parenthesis missing"
                (set_cur_scope "Main"
                   (Semantic.add_symbol "main" "Function" "Global" 0
                      (line idt) a))) as M4.
  apply bind_Some in H. destruct H as (a3 & G1 & H).
  assert (M5 : later (Cursor.expect Semantic.EOF_LINE "LPAREN"
                        "Opening parenthesis missing"
                        (set_cur_scope "Main"
                           (Semantic.add_symbol "main" "Function" "Global" 0
                              (line idt) a))) a3).
  { destruct (token _ =? "VOID").
    - some_inv G1. apply later_consume.
    - destruct (is_type_token _).
      + apply semantic_run_later.
        now apply (semantic_param_list_steps fuel).
      + some_inv G1. split; lia. }
  pose proof (later_expect Semantic.EOF_LINE "RPAREN"
                "Closing parenthesis missing" a3) as M6.
  apply bind_Some in H. destruct H as (a5 & G2 & H). some_inv H.
  destruct (semantic_parser_steps fuel) as (_ & _ & Mbl & _).
  pose proof (Mbl _ _ G2) as M7.
  cbn [pos error_count set_cur_scope] in *.
  later_all. lia.
Qed.

Lemma frame_function_def (fuel : nat) (ret_type : string)
    (s1 s1' s2 : State) :
  Semantic.function_def fuel ret_type s1 = Some s1' ->
  error_count s1' = error_count s1 -> pos s1' <= n ->
  same_upto n s1 s2 ->
  exists s2',
    Semantic.function_def fuel ret_type s2 = Some s2' /\
    same_upto n s1' s2'.
Proof.
  intros H Hq Hp HR. unfold Semantic.function_def in H |- *.
  pose proof (later_match Semantic.EOF_LINE "MAIN" s1) as M1.
  destruct (Cursor.match_ Semantic.EOF_LINE "MAIN" s1) as [[idt |] a]
    eqn:Em; cbn [snd] in M1.
  2:{ some_inv H. quiet_absurd. }
  apply match_Some_prog in Em as Ep; [| discriminate].
  destruct Ep as (_ & _ & Ep).
  cbv zeta in H.
  pose proof (later_semantic_add "main" "Function" "Global" 0 (line idt) a)
    as M2.
  remember (set_cur_scope "Main"
              (Semantic.add_symbol "main" "Function" "Global" 0 (line idt) a))
    as a1 eqn:Ea1.
  assert (M3 : later a a1).
  { subst a1. destruct M2 as [? ?]. split; cbn; assumption. }
  clear M2.
  pose proof (later_expect Semantic.EOF_LINE "LPAREN"
                "Opening parenthesis missing" a1) as M4.
  remember (Cursor.expect Semantic.EOF_LINE "LPAREN"
              "Opening parenthesis missing" a1) as a2 eqn:Ea2.
  apply bind_Some in H. destruct H as (a3 & G1 & H).
  assert (M5 : later a2 a3).
  { destruct (token (Cursor.LA Semantic.EOF_LINE a2) =? "VOID").
    - some_inv G1. apply later_consume.
    - destruct (is_type_token (token (Cursor.LA Semantic.EOF_LINE a2))).
      + apply semantic_run_later.
        now apply (semantic_param_list_steps fuel).
      + some_inv G1. split; lia. }
  pose proof (later_expect Semantic.EOF_LINE "RPAREN"
                "Closing parenthesis missing" a3) as M6.
  apply bind_Some in H. destruct H as (a5 & G2 & H). some_inv H.
  destruct (semantic_parser_steps fuel) as (_ & _ & Mbl & _).
  pose proof (Mbl _ _ G2) as M7.
  cbn [pos error_count set_cur_scope] in Hq, Hp.
  assert (Hblock : pos (Cursor.expect Semantic.EOF_LINE "RPAREN"
                          "Closing parenthesis missing" a3) < pos a5).
  { destruct fuel as [| fuel]; [discriminate G2 |].
    rewrite semantic_block_S in G2.
    pose proof (later_match Semantic.EOF_LINE "LBRACE"
                  (Cursor.expect Semantic.EOF_LINE "RPAREN"
                     "Closing parenthesis missing" a3)) as N1.
    destruct (Cursor.match_ Semantic.EOF_LINE "LBRACE" _) as [[t |] c]
      eqn:El; cbn [snd] in N1.
    2:{ some_inv G2. quiet_absurd. }
    apply match_Some_prog in El; [| discriminate].
    apply bind_Some in G2. destruct G2 as (c2 & G3 & G2). some_inv G2.
    destruct (semantic_parser_steps fuel) as (_ & Msl & _).
    pose proof (Msl _ _ G3) as N2.
    pose proof (later_expect Semantic.EOF_LINE "RBRACE" "} missing" c2)
      as N3.
    later_all. lia. }
  later_all.
  pair_frame (same_upto_match Semantic.EOF_LINE n "MAIN" s1 s2 HR
                ltac:(lia)) Em b HR1.
  cbv zeta.
  pose proof (same_upto_scope n "Main" _ _
                (same_upto_semantic_add n "main" "Function" "Global" 0
                   (line idt) a b HR1)) as HR2.
  rewrite <- Ea1 in HR2.
  pose proof (same_upto_expect Semantic.EOF_LINE n "LPAREN"
                "Opening parenthesis missing" _ _ HR2 ltac:(lia)
                ltac:(subst a2; lia)) as HR3.
  rewrite <- Ea2 in HR3.
  rewrite (same_upto_LA _ _ _ _ HR3) by lia.
  assert (Hpar : exists b3,
             (if token (Cursor.LA Semantic.EOF_LINE a2) =? "VOID"
              then Some (snd (Cursor.consume Semantic.EOF_LINE
                                (Cursor.expect Semantic.EOF_LINE "LPAREN"
                                   "Opening parenthesis missing"
                                   (set_cur_scope "Main"
                                      (Semantic.add_symbol "main" "Function"
                                         "Global" 0 (line idt) b)))))
              else if is_type_token (token (Cursor.LA Semantic.EOF_LINE a2))
                   then Semantic.param_list fuel
                          (Cursor.expect Semantic.EOF_LINE "LPAREN"
                             "Opening parenthesis missing"
                             (set_cur_scope "Main"
                                (Semantic.add_symbol "main" "Function"
                                   "Global" 0 (line idt) b)))
                   else Some (Cursor.expect Semantic.EOF_LINE "LPAREN"
                                "Opening parenthesis missing"
                                (set_cur_scope "Main"
                                   (Semantic.add_symbol "main" "Function"
                                      "Global" 0 (line idt) b)))) = Some b3 /\
             same_upto n a3 b3).
  { destruct (token (Cursor.LA Semantic.EOF_LINE a2) =? "VOID").
    - some_inv G1. eexists. split; [reflexivity |].
      apply same_upto_consume; [exact HR3 | lia].
    - destruct (is_type_token (token (Cursor.LA Semantic.EOF_LINE a2))).
      + apply (frame_param_list fuel _ _ _ G1); [lia | lia | exact HR3].
      + some_inv G1. eexists. split; [reflexivity | exact HR3]. }
  destruct Hpar as (b3 & -> & HR4). cbn [bind].
  pose proof (same_upto_expect Semantic.EOF_LINE n "RPAREN"
                "Closing parenthesis missing" _ _ HR4 ltac:(lia) ltac:(lia))
    as HR5.
  destruct (frame_last_block fuel _ _ _ G2 ltac:(lia) ltac:(lia) HR5)
    as (b5 & -> & HR6).
  cbn [bind]. eexists. split; [reflexivity |].
  now apply same_upto_scope.
Qed.

Lemma frame_program (fuel : nat) (s1 s1' s2 : State) :
  Semantic.program fuel s1 = Some s1' ->
  error_count s1' = error_count s1 -> pos s1' <= n ->
  same_upto n s1 s2 ->
  exists s2', Semantic.program fuel s2 = Some s2' /\ same_upto n s1' s2'.
Proof.
  intros H Hq Hp HR. unfold Semantic.program in H |- *.
  apply bind_Some in H. destruct H as (a & G1 & H).
  pose proof (semantic_global_decl_list_steps fuel _ _ G1) as M1.
  pose proof (later_type_specifier Semantic.EOF_LINE a) as M2.
  destruct (Cursor.type_specifier Semantic.EOF_LINE a) as [[rt |] a2]
    eqn:Et; cbn [snd] in M2.
  2:{ some_inv H. quiet_absurd. }
  pose proof (semantic_function_def_steps fuel rt _ _ H) as M3.
  assert (Hty : pos a2 = S (pos a)).
  { destruct (is_type_token (token (Cursor.LA Semantic.EOF_LINE a))) eqn:E.
    - destruct (type_specifier_Some _ a E) as [E1 Hin]. rewrite E1 in Et.
      assert (Ea : a2 = snd (Cursor.consume Semantic.EOF_LINE a))
        by congruence.
      rewrite Ea, (consume_inside _ a Hin). reflexivity.
    - rewrite (type_specifier_None _ a E) in Et. discriminate. }
  assert (Hmain : pos a2 < pos s1').
  { apply (function_def_moves fuel rt _ _ H). later_all. lia. }
  later_all.
  destruct (frame_global_decl_list fuel _ _ _ G1 ltac:(lia) ltac:(lia) HR)
    as (b & -> & HR1).
  cbn [bind].
  pair_frame (same_upto_type_specifier Semantic.EOF_LINE n a b HR1
                ltac:(lia)) Et b2 HR2.
  apply (frame_function_def fuel rt _ _ _ H); [lia | assumption | exact HR2].
Qed.

End Frame.

(** X29: [semantic_analyser.c] does not read what follows the function.
    When [program] ends with [error_count] at 0 and the cursor at [pos],
    any other token list with the same first [pos] tokens gives the same
    run: the same table, the same scope, no errors, the cursor at the same
    place.  So whatever stands behind the closing brace of [main] is
    accepted without a word. *)
Theorem X29_nothing_behind_main_is_read (l l' : list Tok) (fuel : nat)
    (s' : State) :
  Semantic.program fuel (init_state l) = Some s' ->
  error_count s' = 0%Z ->
  firstn (pos s') l' = firstn (pos s') l ->
  Semantic.program fuel (init_state l') = Some (set_toks l' s').
Proof.
  intros H Hq Hl.
  destruct (frame_program (pos s') fuel (init_state l) s' (init_state l') H)
    as (s2 & E & HR).
  - exact Hq.
  - lia.
  - repeat split. cbn [toks init_state]. now symmetry.
  - rewrite E. f_equal.
    apply semantic_program_steps in E.
    apply (steps_toks _ _ _ semantic_adds_toks) in E.
    cbn [toks init_state] in E.
    destruct HR as (_ & Hp & Hy & Hc & He & Hs).
    destruct s' as [t1 p1 y1 c1 e1 r1], s2 as [t2 p2 y2 c2 e2 r2].
    unfold set_toks.
    cbn [toks pos symtab cur_scope error_count stderr] in *.
    subst. reflexivity.
Qed.

Lemma X29_witness :
  exists s',
    Semantic.program 40 (init_state (firstn 7 trailing_program)) = Some s' /\
    pos s' = 7 /\
    Semantic.program 40 (init_state trailing_program) =
    Some (set_toks trailing_program s').
Proof.
  eexists. split; [vm_compute; reflexivity |]. split; [reflexivity |].
  apply (X29_nothing_behind_main_is_read (firstn 7 trailing_program)
           trailing_program 40); vm_compute; reflexivity.
Defined.
